(* ===== verification/_CoqProject ===== *)
-Q . S2P
Prelude.v
BTree.v
Utf8.v
External.v
Instances.v
Keys.v
TunnelFraming.v
TunnelClient.v
TunnelServer.v
RelayFrames.v
RelayProto.v
PingTracker.v
RateLimit.v
RelayClients.v
RelayActor.v
Handshake.v
Addrs.v
NetText.v
EndpointInfo.v
Pkarr.v
DnsResolver.v
PacketStore.v
ZoneStore.v
DnsServer.v
RelayMap.v
NetReport.v
MappedAddrs.v
PathState.v
SocketActor.v
Router.v
RelayDial.v
RelayTransport.v
PathWatcher.v
RemoteState.v
AddressLookup.v
RelayHttp.v
Transports.v
RemoteMap.v
EndpointConn.v
RelayBin.v
EndpointBuilder.v
