(* ===== verification/Prelude.v ===== *)
(** * Verification of nexalink-tunnel

    nexalink-tunnel exposes a TCP service behind a NAT through a peer-to-peer
    QUIC connection. It is a fork of iroh: the tunnel is two programs on top of
    the iroh endpoint, and the endpoint reaches its peers directly over UDP or
    through a relay server that forwards datagrams by public key.

    ** The parts and how they interact

    - The tunnel ([iroh/examples/tunnel-send.rs], [tunnel-listen.rs]). The sender
      accepts TCP connections, opens one QUIC stream for each on a cached
      connection, and compresses the bytes into frames. The listener admits
      clients by key, takes a permit per stream, connects to the local service
      and bridges the two.
    - Keys ([iroh-base/src/key.rs]) name endpoints and sign; addresses
      ([iroh-base/src/endpoint_addr.rs]) say where to find them.
    - The relay ([iroh-relay]). A client connects, proves its key in a handshake
      ([protos/handshake.rs]) and then exchanges messages ([protos/relay.rs]).
      The server runs an actor per connection ([server/client.rs]), which reads
      from a rate-limited stream ([server/streams.rs]) and passes datagrams to
      the others through the registry ([server/clients.rs]).
      [server/http_server.rs] upgrades the requests of clients, [main.rs] reads
      the configuration.
    - The socket ([iroh/src/socket]). QUIC sees every path, also one through a
      relay, under an IPv6 address ([mapped_addrs.rs], [transports.rs]). For each
      remote an actor ([remote_map/remote_state.rs]) records and prunes the paths
      ([path_state.rs]), punches holes and selects one path by latency
      ([biased_rtt_path_selector.rs]). Net reports ([iroh/src/net_report]) find
      the home relay, to which [transports/relay/actor.rs] keeps a connection.
    - The endpoint ([iroh/src/endpoint.rs], [iroh/src/tls], [iroh/src/protocol.rs])
      is built and bound, dials and accepts connections that name their peer by
      key, and hands them to the handlers of a router.
    - Discovery ([iroh/src/address_lookup], [iroh-dns], [iroh-dns-server]). An
      endpoint publishes its addresses in a signed packet to a server, which
      answers for them over HTTP and DNS.

    ** The files

    Foundations.
    - [Prelude]: results with panics, the [?] operator, machine integers, byte
      strings, invariants of step relations. [BTree]: maps iterated in key order.
      [Utf8]: validity of UTF-8. [NetText]: the text of socket addresses.
    - [External]: a class of operations, and a class of laws with the documented
      behaviour, for the crates outside the repository that the code calls.
      [Instances]: a concrete model of every class, with which the components
      are evaluated.
    - [Keys]: [key.rs] and [key_cache.rs]. The text forms of a key round trip,
      parsing never panics and gives only valid keys, and the cache is invisible.
    - [Addrs], [RelayMap]: addresses with their binary and text forms; the shared
      relay map over a store of locks.

    The tunnel.
    - [TunnelFraming]: [compress_and_forward], [decompress_and_forward] and
      [bridge_compressed]. A reader is the bursts its peer sends; a task is
      stepped one loop iteration at a time, and [try_join] takes a schedule. A
      stream arrives unchanged, a cut stream gives a prefix, a bridge always ends
      with the joint result of its directions.
    - [TunnelClient]: [parse_client_args], [TunnelSession], [forward_tcp_over_iroh]. The
      retry loop is exact; [Session.step] interleaves any number of tasks on the
      cached connection, of which at most one is made per invalidation.
    - [TunnelServer]: [load_or_create_key], [parse_server_args],
      [ProxyHandler::accept] as [Handler.step], [bridge_streams_to_local]. Only admitted clients are
      bridged, at most 2000 streams at a time; every command line has the stated
      outcome, with exactly the ids of the last whitelist option; connecting to
      the service takes at most 30 attempts and 89 s.

    The relay.
    - [RelayFrames], [RelayProto]: frame types, protocol versions, both message
      types, batches of datagrams. Round trips, exact lengths, and exactly which
      inputs make a decoder panic.
    - [PingTracker], [RateLimit]: [ping_tracker.rs] and the token bucket with its
      reader, over explicit clocks. What the tracker holds after any run; the
      bucket is exact without overflow and bounds the bytes read.
    - [RelayClients]: [Clients] refines an abstract stack of connections per
      endpoint; packets go to the newest; peers are told of a departure exactly
      when packets reached them.
    - [RelayActor]: [RelayedStream], [Conn] and the actor. A turn of the select
      loop is a function of an environment record that says what is ready. Pings
      are answered in order; a datagram goes from one client's [Conn] to the
      other's unchanged.
    - [Handshake]: both sides as trees of the frames they send and await, run
      against each other. It completes, authenticates, signs nothing but
      challenges and never panics.
    - [RelayHttp]: [http_server.rs] and [server.rs]. The service with its registry
      is a step relation: only connections whose client proved its key and passed
      the access check are registered, and the request of a client leads through
      upgrade and handshake to a connection.
    - [RelayBin]: [main.rs]. The access control of the configuration decides, for
      each connection and the request it came with; configurations that start a
      relay which serves nobody, or do not start, are characterised.
    - [RelayDial]: the client's race over the addresses of its relay.

    The socket and the endpoint.
    - [MappedAddrs]: the addresses QUIC sees. A path converted for QUIC and back
      is the same path, and the address of a path stays the same.
    - [Transports]: the sockets, polling and sending. An answer goes back on the
      network path the datagram arrived on; the most specific socket sends.
    - [RelayTransport]: [transports/relay.rs] and its actors. Relayed datagrams
      arrive in order and without loss; the home relay has an actor and all
      actors are told which relay it is, with the race of status writes explicit.
    - [PathState]: [RemotePathState] and [BiasedRttPathSelector]. Every resolve
      request is answered once, pruning removes exactly the stated paths, the
      selector picks a best path and does not flap.
    - [PathWatcher], [RemoteState]: the actor of a remote endpoint and what an
      application sees of its paths. A selection is applied to every connection,
      hole punching is rate limited, watchers show the paths of the actor,
      messages are not lost when the actor ends, requests for an address are
      answered.
    - [RemoteMap]: the map of these actors as a step relation over all
      interleavings; messages are handled in order, by one actor at a time.
    - [SocketActor]: direct addresses, net report scheduling, network changes and
      closing. After a network change the QUIC stack is notified in bounded time;
      an endpoint that says it is closed has stopped everything.
    - [NetReport]: a report is made however the probes end, the choice of the
      preferred relay is exact and has hysteresis.
    - [AddressLookup]: what is published to a pkarr relay is resolved from it; the
      outcome of a lookup is determined by the services'.
    - [Router]: the accept loop as a step relation; handlers see only admitted
      connections of their protocol, a shutdown that waits is complete.
    - [EndpointConn]: TLS with raw public keys, dialling and accepting. A dialled
      connection is with the endpoint asked for, whose key signed the handshake.
    - [EndpointBuilder]: the builder, its presets and [bind]. Each error of [bind]
      has the stated cause, and none is a clash of the transports.

    DNS.
    - [EndpointInfo], [Pkarr]: TXT attributes, endpoint info, signed packets and
      their timestamps. Parsed info is well formed, what is published parses back.
    - [DnsResolver]: lookups with resets and timeouts, staggered calls.
    - [PacketStore], [ZoneStore], [DnsServer]: the server. The store keeps the
      newest packet under every batching; what is published over HTTP is found
      over DNS.

    The main theorems are numbered, [C1] onwards, in the comments before them.

    ** Conventions

    Rust integers are [Z] with their bounds where they matter, [usize] used as a
    count of list elements is [nat]. [Ok], [Err] and [Panic] are the outcomes of
    a call. Time, randomness and the environment's answers are arguments. Logging
    and the text of messages are left out, metrics are kept where a branch
    depends on them or a property is about them.

    ** Fuel

    - [compress_loop] and [decompress_loop] run with one more than the bytes of
      the stream: each iteration that continues reads at least one
      ([forwarding_terminates]).
    - [open_stream_loop] and [connect_local_loop] run with their retry limits, at
      which the code returns.
    - [run_both] of the handshake takes one unit per frame sent or received; the
      longest exchange ends within 8 ([handshake_completes]).
    - [hex_digits] and [to_digits] print at most the digits of the widest integer
      printed ([to_digits_value]); [chunks_fuel] has the length of the list
      ([chunks_fuel_enough]).
    - [host_items] takes one unit per address and four more
      ([resolve_host_all_items]).
    - Loops of actors need no fuel: they run over a list of turns, each with what
      the [select!] finds ready, and a function that still waits when the list
      ends says so.

    ** Not modelled

    - The QUIC stack, TLS, HTTP and websocket libraries, sockets, databases and
      the file system: they are parameters, or what a turn finds ready.
    - The processes of the DNS server (listeners, TLS certificates, rate limiting
      layers, metrics): wiring on top of the HTTP framework.
    - QUIC address discovery of the relay ([quic.rs]): it only keeps connections of
      the QUIC stack open; what its client reports is part of [NetReport].
    - Certificate reloading of the relay, and the CA roots of [iroh-relay/src/tls.rs]
      except for the outcome of [client_config].
    - The rest of the endpoint's API, which wraps streams, statistics and
      configurations of the QUIC stack; serde and debug implementations; metrics
      beyond the counters a branch or a property is about; tests, benchmarks and
      the examples other than the tunnel. *)

From Stdlib Require Import ZArith Lia.
From coqutil Require Import Byte.
From coqutil Require Import Word.LittleEndianList.
From stdpp Require Export base gmap list strings.
Export Byte.
Open Scope Z_scope.

(** ** Results, errors and panics *)

(** [Result<A, E>] of the source, with a third constructor for a panic: an
    out-of-range slice index, a failed [expect] or [unwrap], an arithmetic
    overflow in a place where the standard library panics. *)
Inductive result (E A : Type) :=
| Ok (a : A)
| Err (e : E)
| Panic.
Arguments Ok {E A} a.
Arguments Err {E A} e.
Arguments Panic {E A}.

#[export] Instance result_eq_dec {E A} `{EqDecision E, EqDecision A} : EqDecision (result E A).
Proof. solve_decision. Defined.

(** The [?] operator. *)
Definition rbind {E A B} (m : result E A) (k : A -> result E B) : result E B :=
  match m with
  | Ok a => k a
  | Err e => Err e
  | Panic => Panic
  end.

Definition rmap {E A B} (f : A -> B) (m : result E A) : result E B :=
  rbind m (fun a => Ok (f a)).

Definition map_err {E F A} (f : E -> F) (m : result E A) : result F A :=
  match m with
  | Ok a => Ok a
  | Err e => Err (f e)
  | Panic => Panic
  end.

(** [Option::ok_or]. *)
Definition ok_or {E A} (o : option A) (e : E) : result E A :=
  match o with
  | Some a => Ok a
  | None => Err e
  end.

(** [Result::ok]: the value, the error forgotten. *)
Definition to_ok {E A} (m : result E A) : option A :=
  match m with
  | Ok a => Some a
  | _ => None
  end.

Definition is_ok {E A} (m : result E A) : bool :=
  match m with
  | Ok _ => true
  | _ => false
  end.

(** The [ensure!] macro: continue when the condition holds. *)
Definition ensure {E} (b : bool) (e : E) : result E unit :=
  if b then Ok tt else Err e.

Declare Scope rust_scope.
Delimit Scope rust_scope with rust.
Notation "'let?' x := m 'in' k" := (rbind m (fun x => k))
  (at level 10, x pattern, k at level 200) : rust_scope.
Open Scope rust_scope.

(** ** Machine integers

    Integers are [Z]; the width is written where the source has a cast or an
    operation that saturates, wraps or panics. [usize] has 64 bits. *)

Definition u8_max : Z := 2 ^ 8 - 1.
Definition u16_max : Z := 2 ^ 16 - 1.
Definition u32_max : Z := 2 ^ 32 - 1.
Definition u64_max : Z := 2 ^ 64 - 1.
Definition i64_max : Z := 2 ^ 63 - 1.
Definition i64_min : Z := - 2 ^ 63.

(** [x as u32], [x as u64]: truncation. *)
Definition as_u32 (z : Z) : Z := z mod 2 ^ 32.
Definition as_u64 (z : Z) : Z := z mod 2 ^ 64.

(** [x as i64] of a wider integer: two's complement truncation. *)
Definition as_i64 (z : Z) : Z := (z + 2 ^ 63) mod 2 ^ 64 - 2 ^ 63.

Definition clamp_i64 (z : Z) : Z := Z.max i64_min (Z.min i64_max z).

(** [i64::saturating_add], [saturating_sub], [saturating_mul], [saturating_neg]. *)
Definition i64_saturating_add (a b : Z) : Z := clamp_i64 (a + b).
Definition i64_saturating_sub (a b : Z) : Z := clamp_i64 (a - b).
Definition i64_saturating_mul (a b : Z) : Z := clamp_i64 (a * b).
Definition i64_saturating_neg (a : Z) : Z := clamp_i64 (- a).

(** [u64::saturating_add]. *)
Definition u64_saturating_add (a b : Z) : Z := Z.min u64_max (a + b).

Definition in_u32 (z : Z) : Prop := 0 <= z <= u32_max.
Definition in_i64 (z : Z) : Prop := i64_min <= z <= i64_max.

(** ** Time

    A [Duration] is its number of nanoseconds, an [Instant] the nanoseconds
    since an origin of the clock. *)

Definition duration_max : Z := (2 ^ 64) * 10 ^ 9 - 1.
Definition from_secs (s : Z) : Z := s * 10 ^ 9.
Definition from_millis (ms : Z) : Z := ms * 10 ^ 6.
Definition as_millis (d : Z) : Z := d / 10 ^ 6.

(** [Instant::saturating_duration_since]. *)
Definition saturating_duration_since (now earlier : Z) : Z := Z.max 0 (now - earlier).

(** [Duration * u32]: panics on overflow. *)
Definition duration_mul {E} (d k : Z) : result E Z :=
  if d * k <=? duration_max then Ok (d * k) else Panic.

(** [Ord::clamp]: panics when [min > max]. *)
Definition clamp {E} (x min max : Z) : result E Z :=
  if min <=? max then Ok (Z.max min (Z.min x max)) else Panic.

(** ** Bytes *)

#[export] Instance byte_eq_dec : EqDecision byte := Byte.byte_eq_dec.

#[export] Instance byte_countable : Countable byte.
Proof.
  refine (inj_countable Byte.to_N Byte.of_N _).
  intros b. apply Byte.of_to_N.
Defined.

Abbreviation bytes := (list byte).

(** [to_be_bytes] and [from_be_bytes] of an [n]-byte integer. *)
Definition be_bytes (n : nat) (z : Z) : bytes := rev (le_split n z).
Definition from_be_bytes (bs : bytes) : Z := le_combine (rev bs).

Definition blen (bs : bytes) : Z := Z.of_nat (length bs).

Lemma length_be_bytes n z : length (be_bytes n z) = n.
Proof. unfold be_bytes. rewrite length_rev. apply length_le_split. Qed.

Lemma from_be_bytes_be_bytes n z :
  0 <= z < 2 ^ (Z.of_nat n * 8) -> from_be_bytes (be_bytes n z) = z.
Proof.
  intros Hz. unfold from_be_bytes, be_bytes.
  rewrite rev_involutive, le_combine_split. by apply Z.mod_small.
Qed.

Lemma be_bytes_from_be_bytes n bs : length bs = n -> be_bytes n (from_be_bytes bs) = bs.
Proof.
  intros <-. unfold from_be_bytes, be_bytes.
  rewrite <- (length_rev bs), split_le_combine. apply rev_involutive.
Qed.

Lemma from_be_bytes_bound bs :
  0 <= from_be_bytes bs < 2 ^ (8 * Z.of_nat (length bs)).
Proof.
  unfold from_be_bytes. rewrite <- (length_rev bs). apply le_combine_bound.
Qed.

Lemma le_split_snoc n z :
  le_split (S n) z = le_split n z ++ [byte.of_Z (Z.shiftr z (8 * Z.of_nat n))].
Proof.
  revert z. induction n as [|n IH]; intros z.
  - change (8 * Z.of_nat 0) with 0. by rewrite Z.shiftr_0_r.
  - change (le_split (S (S n)) z) with (byte.of_Z z :: le_split (S n) (Z.shiftr z 8)).
    rewrite IH, Z.shiftr_shiftr by lia.
    replace (8 + 8 * Z.of_nat n) with (8 * Z.of_nat (S n)) by lia. done.
Qed.

(** The most significant byte comes first. *)
Lemma be_bytes_S n z :
  be_bytes (S n) z = byte.of_Z (z / 2 ^ (8 * Z.of_nat n)) :: be_bytes n z.
Proof.
  unfold be_bytes. rewrite le_split_snoc, rev_app_distr, Z.shiftr_div_pow2 by lia. done.
Qed.

Lemma blen_app a b : blen (a ++ b) = blen a + blen b.
Proof. unfold blen. rewrite length_app. lia. Qed.

Lemma blen_be_bytes n x : blen (be_bytes n x) = Z.of_nat n.
Proof. unfold blen. by rewrite length_be_bytes. Qed.

Lemma blen_nonneg a : 0 <= blen a.
Proof. unfold blen. lia. Qed.

(** Lengths of what the encoders concatenate. *)
#[export] Hint Rewrite blen_app blen_be_bytes : blen.

#[global] Opaque be_bytes from_be_bytes.

(** ** Lists *)

Lemma take_app_length' {A} (l k : list A) n : n = length l -> take n (l ++ k) = l.
Proof. intros ->. apply take_app_length. Qed.

Lemma drop_app_length' {A} (l k : list A) n : n = length l -> drop n (l ++ k) = k.
Proof. intros ->. apply drop_app_length. Qed.

(** ** Strings

    A [str] is its UTF-8 bytes, as a [string]. *)

(** Every character satisfies [P]. *)
Fixpoint str_forall (P : Ascii.ascii -> bool) (s : string) : bool :=
  match s with
  | EmptyString => true
  | String c s => P c && str_forall P s
  end.

(** [str::split] at an ASCII character: the empty string gives one empty piece. *)
Fixpoint str_split (sep : Ascii.ascii) (s : string) : list string :=
  match s with
  | EmptyString => [EmptyString]
  | String c s =>
      let pieces := str_split sep s in
      if Ascii.eqb c sep then EmptyString :: pieces
      else
        match pieces with
        | p :: pieces => String c p :: pieces
        | [] => [String c EmptyString]
        end
  end.

Definition lacks (c : Ascii.ascii) (s : string) : bool := str_forall (fun c' => negb (Ascii.eqb c' c)) s.

(** [Path::join] with a relative file name. *)
Definition slash : Ascii.ascii := Ascii.ascii_of_nat 47.

Fixpoint path_join (dir file : string) : string :=
  match dir with
  | EmptyString => file
  | String c EmptyString => if Ascii.eqb c slash then String c file else String c (String slash file)
  | String c dir => String c (path_join dir file)
  end.

Lemma str_app_assoc (a b c : string) : (a ++ (b ++ c) = (a ++ b) ++ c)%string.
Proof. induction a as [|x a IH]; [done|]. exact (f_equal (String x) IH). Qed.

Lemma str_app_inj (a b c : string) : (a ++ b = a ++ c)%string -> b = c.
Proof. induction a as [|x a IH]; [done|]. intros H. apply IH. by injection H. Qed.

Lemma str_forall_app P a b : str_forall P (a ++ b)%string = str_forall P a && str_forall P b.
Proof. induction a as [|c a IH]; [done|]. simpl. by rewrite IH, andb_assoc. Qed.

Lemma str_forall_impl (P Q : Ascii.ascii -> bool) s :
  (forall c, P c = true -> Q c = true) -> str_forall P s = true -> str_forall Q s = true.
Proof. intros H. induction s as [|c s IH]; [done|]. simpl. intros [? ?]%andb_prop. by rewrite H, IH. Qed.

Lemma str_split_nonempty sep s : exists p ps, str_split sep s = p :: ps.
Proof.
  induction s as [|c s (p & ps & IH)]; simpl; [eauto|]. rewrite IH. destruct (Ascii.eqb c sep); eauto.
Qed.

(** The first piece ends at the first separator. *)
Lemma str_split_sep sep a b :
  lacks sep a = true -> str_split sep (a ++ String sep b)%string = a :: str_split sep b.
Proof.
  unfold lacks. induction a as [|c a IH]; simpl; [by rewrite Ascii.eqb_refl|].
  intros [Hc Ha]%andb_prop. rewrite IH by done. by destruct (Ascii.eqb c sep).
Qed.

Lemma str_split_lacks sep a : lacks sep a = true -> str_split sep a = [a].
Proof.
  unfold lacks. induction a as [|c a IH]; simpl; [done|].
  intros [Hc Ha]%andb_prop. rewrite IH by done. by destruct (Ascii.eqb c sep).
Qed.

(** ** Step relations *)

(** An inductive invariant holds in every reachable state. *)
Lemma rtc_invariant {S : Type} (step : S -> S -> Prop) (inv : S -> Prop) i s :
  inv i -> (forall s s', inv s -> step s s' -> inv s') -> rtc step i s -> inv s.
Proof. intros Hi Hstep H. induction H; eauto. Qed.
