(* ===== verification/BTree.v ===== *)
(** * BTree: iteration in key order

    A [BTreeMap] is a [gmap] of the same entries; what the source sees beyond
    the entries is the order of its iterators, the order of the keys. *)

From stdpp Require Import sorting.
From S2P Require Import Prelude.

(** The order of the keys, [Ord] of the source. *)
Class BTreeKey (K : Type) := key_leb : K -> K -> bool.

#[export] Instance string_key : BTreeKey string := String.leb.
#[export] Instance Z_key : BTreeKey Z := Z.leb.

Section Iter.
Context {K : Type} `{Countable K} {Bk : BTreeKey K} {A : Type}.
Implicit Types m : gmap K A.

Definition btree_iter m : list (K * A) := merge_sort (fun a b => key_leb a.1 b.1) (map_to_list m).

Lemma btree_iter_perm m : btree_iter m ≡ₚ map_to_list m.
Proof. apply merge_sort_Permutation. Qed.

Lemma elem_of_btree_iter m k v : (k, v) ∈ btree_iter m <-> m !! k = Some v.
Proof. rewrite btree_iter_perm. apply elem_of_map_to_list. Qed.

Lemma btree_iter_nil m : btree_iter m = [] <-> m = ∅.
Proof.
  rewrite <- map_to_list_empty_iff, <- (Permutation_nil_r (btree_iter m)), btree_iter_perm. apply Permutation_nil_r.
Qed.

Lemma length_btree_iter m : length (btree_iter m) = size m.
Proof. rewrite btree_iter_perm. apply length_map_to_list. Qed.

(** A key appears once. *)
Lemma btree_iter_NoDup m : NoDup (btree_iter m).*1.
Proof. rewrite btree_iter_perm. apply NoDup_fst_map_to_list. Qed.

End Iter.
