(* ===== verification/Utf8.v ===== *)
(** * UTF-8 validity

    [std::str::from_utf8]: a byte string is a [str] exactly when it is a
    sequence of well-formed UTF-8 encodings (Unicode, table 3-7). *)

From S2P Require Import Prelude.

Definition in_range (lo hi : Z) (b : byte) : bool :=
  (lo <=? byte.unsigned b) && (byte.unsigned b <=? hi).

Definition continuation (b : byte) : bool := in_range 128 191 b.

(** The second byte a three-byte or four-byte lead byte allows. *)
Definition second3 (lead b : byte) : bool :=
  if byte.unsigned lead =? 224 then in_range 160 191 b
  else if byte.unsigned lead =? 237 then in_range 128 159 b
  else continuation b.

Definition second4 (lead b : byte) : bool :=
  if byte.unsigned lead =? 240 then in_range 144 191 b
  else if byte.unsigned lead =? 244 then in_range 128 143 b
  else continuation b.

Fixpoint utf8_valid (bs : bytes) : bool :=
  match bs with
  | [] => true
  | a :: bs =>
      if in_range 0 127 a then utf8_valid bs
      else if in_range 194 223 a then
        match bs with
        | b :: bs => continuation b && utf8_valid bs
        | _ => false
        end
      else if in_range 224 239 a then
        match bs with
        | b :: c :: bs => second3 a b && continuation c && utf8_valid bs
        | _ => false
        end
      else if in_range 240 244 a then
        match bs with
        | b :: c :: d :: bs => second4 a b && continuation c && continuation d && utf8_valid bs
        | _ => false
        end
      else false
  end.

(** [str::from_utf8]. *)
Definition from_utf8 {E} (bs : bytes) (e : E) : result E bytes :=
  if utf8_valid bs then Ok bs else Err e.

Definition is_ascii (bs : bytes) : bool := forallb (in_range 0 127) bs.

Lemma ascii_utf8_valid bs : is_ascii bs = true -> utf8_valid bs = true.
Proof.
  induction bs as [|a bs IH]; [done|]. unfold is_ascii. simpl.
  intros [Ha Hbs]%andb_prop. rewrite Ha. by apply IH.
Qed.

(** ** Lossy decoding

    [String::from_utf8_lossy]: every maximal ill-formed part becomes U+FFFD. *)

Definition replacement : bytes := [Byte.xef; Byte.xbf; Byte.xbd].

(** The bytes of the sequence at the front: how many, and whether they are well
    formed. *)
Definition utf8_front (bs : bytes) : nat * bool :=
  match bs with
  | [] => (0%nat, true)
  | a :: bs =>
      if in_range 0 127 a then (1%nat, true)
      else if in_range 194 223 a then
        match bs with
        | b :: _ => if continuation b then (2%nat, true) else (1%nat, false)
        | _ => (1%nat, false)
        end
      else if in_range 224 239 a then
        match bs with
        | b :: bs =>
            if second3 a b then
              match bs with
              | c :: _ => if continuation c then (3%nat, true) else (2%nat, false)
              | _ => (2%nat, false)
              end
            else (1%nat, false)
        | _ => (1%nat, false)
        end
      else if in_range 240 244 a then
        match bs with
        | b :: bs =>
            if second4 a b then
              match bs with
              | c :: bs =>
                  if continuation c then
                    match bs with
                    | d :: _ => if continuation d then (4%nat, true) else (3%nat, false)
                    | _ => (3%nat, false)
                    end
                  else (2%nat, false)
              | _ => (2%nat, false)
              end
            else (1%nat, false)
        | _ => (1%nat, false)
        end
      else (1%nat, false)
  end.

Fixpoint lossy_from (fuel : nat) (bs : bytes) : bytes :=
  match fuel, bs with
  | S fuel, _ :: _ =>
      let '(n, ok) := utf8_front bs in
      (if ok then take n bs else replacement) ++ lossy_from fuel (drop n bs)
  | _, _ => []
  end.

(** Every step consumes at least one byte. *)
Definition from_utf8_lossy (bs : bytes) : bytes := lossy_from (length bs) bs.

Lemma utf8_valid_front a bs :
  utf8_valid (a :: bs) = true ->
  exists n, utf8_front (a :: bs) = (S n, true) /\ utf8_valid (drop n bs) = true /\ (n <= length bs)%nat.
Proof.
  cbn [utf8_valid utf8_front]. intros H.
  destruct (in_range 0 127 a); [exists 0%nat; split; [done|]; split; [done|lia]|].
  destruct (in_range 194 223 a).
  { destruct bs as [|b bs]; [done|]. apply andb_prop in H as [-> H]. exists 1%nat. simpl. split_and!; [done|done|lia]. }
  destruct (in_range 224 239 a).
  { destruct bs as [|b [|c bs]]; [done..|]. apply andb_prop in H as [[-> ->]%andb_prop H].
    exists 2%nat. simpl. split_and!; [done|done|lia]. }
  destruct (in_range 240 244 a); [|done].
  destruct bs as [|b [|c [|d bs]]]; [done..|]. apply andb_prop in H as [[[-> ->]%andb_prop ->]%andb_prop H].
  exists 3%nat. simpl. split_and!; [done|done|lia].
Qed.

Lemma lossy_from_valid fuel bs : (length bs <= fuel)%nat -> utf8_valid bs = true -> lossy_from fuel bs = bs.
Proof.
  revert bs. induction fuel as [|fuel IH]; intros bs Hl Hv; [by destruct bs; [|simpl in Hl; lia]|].
  destruct bs as [|a bs]; [done|]. destruct (utf8_valid_front a bs Hv) as (n & Hn & Hd & Hle).
  cbn [lossy_from]. rewrite Hn. cbn [take drop]. simpl in Hl. rewrite IH; [|rewrite length_drop; lia|done].
  cbn [app]. by rewrite take_drop.
Qed.

(** Valid UTF-8 is not changed. *)
Lemma from_utf8_lossy_valid bs : utf8_valid bs = true -> from_utf8_lossy bs = bs.
Proof. apply lossy_from_valid. lia. Qed.

(** Strings of ASCII characters. *)
Definition is_ascii_char (c : Ascii.ascii) : bool := (Ascii.N_of_ascii c <? 128)%N.

Lemma ascii_string_bytes s : str_forall is_ascii_char s = true -> is_ascii (String.list_byte_of_string s) = true.
Proof.
  induction s as [|c s IH]; [done|]. cbn [str_forall]. intros [Hc Hs]%andb_prop.
  change (String.list_byte_of_string (String c s)) with (Ascii.byte_of_ascii c :: String.list_byte_of_string s).
  unfold is_ascii in *. cbn [forallb]. rewrite (IH Hs), andb_true_r. clear -Hc.
  by destruct c as [[] [] [] [] [] [] [] []].
Qed.

(** ASCII text in pieces is read back as it was. *)
Lemma lossy_pieces pieces : is_ascii (concat pieces) = true -> flat_map from_utf8_lossy pieces = concat pieces.
Proof.
  induction pieces as [|p pieces IH]; [done|]. cbn [concat flat_map]. unfold is_ascii. rewrite forallb_app.
  intros [Hp Hr]%andb_prop. by rewrite from_utf8_lossy_valid, IH by (done || by apply ascii_utf8_valid).
Qed.

Example utf8_two_bytes : utf8_valid [Byte.xc3; Byte.xa9] = true.
Proof. reflexivity. Qed.

Example utf8_rejects_surrogate : utf8_valid [Byte.xed; Byte.xa0; Byte.x80] = false.
Proof. reflexivity. Qed.

Example utf8_rejects_overlong : utf8_valid [Byte.xc0; Byte.x80] = false.
Proof. reflexivity. Qed.
