(* ===== verification/External.v ===== *)
(** * Interfaces of the code outside the repository

    The code calls [noq_proto] (QUIC variable-length integers, ECN code points),
    [ed25519_dalek], [data_encoding] with its z-base-32 and DNSSEC alphabets,
    [url], [blake3] and the TLS exporter, [postcard], [tokio_websockets], [http]
    with SHA-1 and base64, [lz4_flex], [lru], the DNS crates [simple_dns] and
    [hickory], the database [redb], the caches of zones, rustls with raw public
    keys and its AEAD ciphers. None of that code is part of the repository, so
    each is a class of operations with a second class for the documented behaviour
    the repository relies on. Components are written against these classes; the
    instances of [Instances] show that the laws can be met. Code that only one
    component calls is a parameter of that component. *)

From S2P Require Import Prelude Utf8.

(** ** noq_proto: [VarInt] and [EcnCodepoint] *)

Class NoqProto := {
  varint_encode : Z -> bytes;
  (** [VarInt::decode]: the value and what is left of the buffer, or
      [UnexpectedEnd]. *)
  varint_decode : bytes -> option (Z * bytes);
  EcnCodepoint : Type;
  ecn_as_u8 : EcnCodepoint -> Z;
  ecn_from_bits : Z -> option EcnCodepoint
}.

(** RFC 9000, section 16: values below 2^62; one byte below 2^6. *)
Class NoqProtoLaws (N : NoqProto) := {
  varint_roundtrip x rest :
    0 <= x < 2 ^ 62 -> varint_decode (varint_encode x ++ rest) = Some (x, rest);
  varint_encode_short x : 0 <= x < 2 ^ 6 -> length (varint_encode x) = 1%nat;
  varint_decode_nonneg bs x rest : varint_decode bs = Some (x, rest) -> 0 <= x < 2 ^ 62;
  ecn_roundtrip e : ecn_from_bits (ecn_as_u8 e) = Some e;
  ecn_not_ect : ecn_from_bits 0 = None;
  ecn_u8 e : 0 <= ecn_as_u8 e < 2 ^ 8
}.

(** ** ed25519_dalek *)

Class Ed25519 := {
  VerifyingKey : Type;
  vk_from_bytes : bytes -> option VerifyingKey;
  vk_to_bytes : VerifyingKey -> bytes;
  SigningKey : Type;
  sk_from_bytes : bytes -> SigningKey;
  sk_to_bytes : SigningKey -> bytes;
  verifying_key : SigningKey -> VerifyingKey;
  sk_sign : SigningKey -> bytes -> bytes;
  verify_strict : VerifyingKey -> bytes -> bytes -> bool
}.

(** A key decodes only from 32 bytes, is stored in the compressed form it was
    decoded from, and accepts the signatures of its signing key. *)
Class Ed25519Laws (E : Ed25519) := {
  vk_from_bytes_length bs k : vk_from_bytes bs = Some k -> length bs = 32%nat;
  vk_to_from bs k : vk_from_bytes bs = Some k -> vk_to_bytes k = bs;
  vk_from_to k : vk_from_bytes (vk_to_bytes k) = Some k;
  sk_to_from bs : length bs = 32%nat -> sk_to_bytes (sk_from_bytes bs) = bs;
  sk_to_bytes_length k : length (sk_to_bytes k) = 32%nat;
  sign_length k m : length (sk_sign k m) = 64%nat;
  sign_verifies k m : verify_strict (verifying_key k) m (sk_sign k m) = true
}.

(** ** data_encoding: the three text encodings of keys *)

Class DataEncoding := {
  (** [HEXLOWER.decode_len], [encode] and [decode]. *)
  hexlower_decode_len : nat -> option nat;
  hexlower_encode : bytes -> string;
  hexlower_decode : string -> option bytes;
  (** [BASE32_NOPAD.decode_len] and [decode]; the alphabet is upper case. *)
  base32_decode_len : nat -> option nat;
  base32_encode : bytes -> string;
  base32_decode : string -> option bytes;
  (** The z-base-32 [Encoding] the repository builds from its symbol list. *)
  z32_encode : bytes -> string;
  z32_decode : string -> option bytes
}.

(** The symbols of the encodings: lower-case hexadecimal digits, and lower-case
    letters and digits. *)
Definition is_digit (c : Ascii.ascii) : bool :=
  let n := Ascii.N_of_ascii c in (48 <=? n)%N && (n <=? 57)%N.
Definition is_lower_hex (c : Ascii.ascii) : bool :=
  let n := Ascii.N_of_ascii c in is_digit c || ((97 <=? n)%N && (n <=? 102)%N).
Definition is_lower_alnum (c : Ascii.ascii) : bool :=
  let n := Ascii.N_of_ascii c in is_digit c || ((97 <=? n)%N && (n <=? 122)%N).

(** [decode (encode bs) = Ok bs]; hex doubles the length; [decode_len] is the
    length of what [decode] returns when it succeeds; an encoding uses only its
    symbols; z-base-32 has a symbol for every five bits. *)
Class DataEncodingLaws (D : DataEncoding) := {
  hexlower_roundtrip bs : hexlower_decode (hexlower_encode bs) = Some bs;
  hexlower_length bs : String.length (hexlower_encode bs) = (2 * length bs)%nat;
  hexlower_decode_length s bs :
    hexlower_decode s = Some bs -> hexlower_decode_len (String.length s) = Some (length bs);
  hexlower_decode_len_double n : hexlower_decode_len (2 * n) = Some n;
  base32_decode_length s bs :
    base32_decode s = Some bs -> base32_decode_len (String.length s) = Some (length bs);
  z32_roundtrip bs : z32_decode (z32_encode bs) = Some bs;
  hexlower_symbols bs : str_forall is_lower_hex (hexlower_encode bs) = true;
  z32_symbols bs : str_forall is_lower_alnum (z32_encode bs) = true;
  z32_length bs : String.length (z32_encode bs) = ((8 * length bs + 4) / 5)%nat
}.

(** ** url *)

(** [Url::parse]; a [Url] is its serialization. *)
Class UrlCrate := { url_parse : string -> option string }.

(** Parsing a serialized URL gives the same URL. *)
Class UrlCrateLaws (U : UrlCrate) := {
  url_parse_idempotent s u : url_parse s = Some u -> url_parse u = Some u
}.

(** ** simple_dns: packets of resource records *)

Class SimpleDns := {
  dns_name : Type;
  (** [Name::new_unchecked], [Name::new], its [Display] and [Name::without]. *)
  name_new_unchecked : string -> dns_name;
  name_new : string -> option dns_name;
  name_to_string : dns_name -> string;
  name_without : dns_name -> dns_name -> option dns_name;
  dns_txt : Type;
  (** [TXT::new] with [add_string], and [String::try_from]. *)
  txt_of_string : string -> option dns_txt;
  txt_to_string : dns_txt -> option string;
  (** The answers of a packet: name, time to live, and the data of a TXT record.
      [Packet::parse] and [build_bytes_vec_compressed]. *)
  packet_parse : bytes -> option (list (dns_name * Z * option dns_txt));
  packet_build : list (dns_name * Z * option dns_txt) -> option bytes
}.

(** A packet parses to the records it was built from, a TXT record holds its
    string, and a name prints as it was written. *)
Class SimpleDnsLaws (S : SimpleDns) := {
  packet_roundtrip rrs bs : packet_build rrs = Some bs -> packet_parse bs = Some rrs;
  txt_roundtrip s t : txt_of_string s = Some t -> txt_to_string t = Some s;
  name_roundtrip s : name_to_string (name_new_unchecked s) = s;
  name_new_some s : str_forall is_lower_alnum s = true -> is_Some (name_new s)
}.

(** ** hickory: names, records and record sets *)

Inductive RecordType := TypeA | TypeAAAA | TypeTXT | TypeSOA | TypeNS | TypeAXFR | TypeOther (code : Z).
#[export] Instance RecordType_eq_dec : EqDecision RecordType.
Proof. solve_decision. Defined.

Inductive RData :=
| RA (addr : bytes)
| RAAAA (addr : bytes)
| RTXT (txt_data : list bytes)
| RSOA (data : bytes)
| RNS (data : bytes)
| ROther (code : Z) (data : bytes).
#[export] Instance RData_eq_dec : EqDecision RData.
Proof. solve_decision. Defined.

Definition rdata_type (d : RData) : RecordType :=
  match d with
  | RA _ => TypeA
  | RAAAA _ => TypeAAAA
  | RTXT _ => TypeTXT
  | RSOA _ => TypeSOA
  | RNS _ => TypeNS
  | ROther code _ => TypeOther code
  end.

Class Hickory := {
  (** [Label::from_utf8], the conversion of bytes, and the equality of labels. *)
  label_from_utf8 : string -> option bytes;
  into_label : bytes -> option bytes;
  label_eqb : bytes -> bytes -> bool;
  hname : Type;
  hname_eq_dec :: EqDecision hname;
  (** [Name::iter], [from_labels], [append_name], [zone_of], [Name::parse] under
      an origin, [from_utf8], and the name of a [LowerName]. *)
  hname_labels : hname -> list bytes;
  (** [num_labels]: does not count a leading asterisk. *)
  hname_num_labels : hname -> nat;
  hname_from_labels : list bytes -> option hname;
  hname_append : hname -> hname -> option hname;
  zone_of : hname -> hname -> bool;
  hname_parse : string -> hname -> option hname;
  hname_from_utf8 : string -> option hname;
  hname_lower : hname -> hname
}.

Record hrecord `{Hickory} := mkRecord { rr_name : hname; rr_ttl : Z; rr_data : RData }.

Arguments mkRecord {_} _ _ _.

Class HickoryRecords `{Hickory} := {
  (** [Message::from_bytes] and its answers. *)
  message_answers : bytes -> option (list hrecord);
  recordset : Type;
  rs_of_record : hrecord -> recordset;
  rs_new : hname -> RecordType -> Z -> recordset;
  rs_insert : recordset -> hrecord -> Z -> recordset;
  (** [records_without_rrsigs]. *)
  rs_records : recordset -> list hrecord;
  rs_name : recordset -> hname;
  rs_type : recordset -> RecordType;
  rs_serial : recordset -> Z
}.

(** Names are lists of labels of bounded length, compared without case; a name
    lies in a zone when it ends in the labels of the zone. A record set keeps the
    records of a type in order, a record it does not have yet at the end. *)
Class HickoryLaws (H : Hickory) (R : HickoryRecords) := {
  label_from_utf8_some s :
    str_forall is_lower_alnum s = true -> (0 < String.length s <= 63)%nat ->
    label_from_utf8 s = Some (String.list_byte_of_string s);
  label_eqb_refl l : label_eqb l l = true;
  into_label_labels n l : l ∈ hname_labels n -> into_label l = Some l;
  hname_num_labels_count n :
    head (hname_labels n) <> Some [Byte.x2a] -> hname_num_labels n = length (hname_labels n);
  labels_valid : list bytes -> Prop;
  hname_labels_valid n : labels_valid (hname_labels n);
  labels_valid_app a b : labels_valid (a ++ b) -> labels_valid a /\ labels_valid b;
  hname_from_labels_some ls : labels_valid ls -> exists n, hname_from_labels ls = Some n /\ hname_labels n = ls;
  hname_append_some a b :
    labels_valid (hname_labels a ++ hname_labels b) ->
    exists n, hname_append a b = Some n /\ hname_labels n = hname_labels a ++ hname_labels b;
  zone_of_suffix o n ls : hname_labels n = ls ++ hname_labels o -> zone_of o n = true;
  zone_of_longer o n : zone_of o n = true -> (length (hname_labels o) <= length (hname_labels n))%nat;
  hname_parse_some s o :
    str_forall is_lower_alnum s = true -> labels_valid (String.list_byte_of_string s :: hname_labels o) ->
    exists n, hname_parse s o = Some n /\ hname_labels n = String.list_byte_of_string s :: hname_labels o;
  rs_of_record_records r : rs_records (rs_of_record r) = [r];
  rs_of_record_name r : rs_name (rs_of_record r) = rr_name r;
  rs_of_record_type r : rs_type (rs_of_record r) = rdata_type (rr_data r);
  rs_new_records n t serial : rs_records (rs_new n t serial) = [];
  rs_new_name n t serial : rs_name (rs_new n t serial) = n;
  rs_new_type n t serial : rs_type (rs_new n t serial) = t;
  rs_insert_name s r serial : rs_name (rs_insert s r serial) = rs_name s;
  rs_insert_type s r serial : rs_type (rs_insert s r serial) = rs_type s;
  rs_insert_new s r serial :
    rs_type s = TypeTXT -> rdata_type (rr_data r) = TypeTXT -> rr_data r ∉ map rr_data (rs_records s) ->
    rs_records (rs_insert s r serial) = rs_records s ++ [r]
}.

(** [simple_dns] and [hickory] implement the same wire format: what one writes the
    other reads, names by their labels and texts in pieces. *)
Class DnsInterop (S : SimpleDns) (H : Hickory) (R : HickoryRecords) := {
  written_answers_read rrs bs :
    packet_build rrs = Some bs ->
    exists rs, message_answers bs = Some rs /\
      Forall2 (fun rr r =>
        hname_labels (rr_name r) =
          map String.list_byte_of_string (str_split (Ascii.ascii_of_nat 46) (name_to_string rr.1.1)) /\
        rr_ttl r = rr.1.2 /\
        match rr.2 with
        | Some txt => exists pieces, rr_data r = RTXT pieces /\
            (forall s, txt_to_string txt = Some s -> concat pieces = String.list_byte_of_string s)
        | None => rdata_type (rr_data r) <> TypeTXT
        end) rrs rs
}.

(** ** redb: tables of a transactional database *)

Class Redb := {
  (** [Table]: a map from keys to values. *)
  rtable : Type;
  rt_empty : rtable;
  rt_get : rtable -> bytes -> option bytes;
  rt_insert : rtable -> bytes -> bytes -> rtable;
  rt_remove : rtable -> bytes -> rtable;
  (** [MultimapTable]: each key has a set of values; [range(..hi)] lists the keys
      before [hi] with theirs. *)
  rmulti : Type;
  rm_empty : rmulti;
  rm_insert : rmulti -> bytes -> bytes -> rmulti;
  rm_remove : rmulti -> bytes -> bytes -> rmulti;
  rm_range_to : rmulti -> bytes -> list (bytes * list bytes)
}.

(** The order of keys: lexicographic. *)
Class RedbLaws (R : Redb) (before : bytes -> bytes -> Prop) := {
  rt_get_empty k : rt_get rt_empty k = None;
  rt_get_insert t k v k' : rt_get (rt_insert t k v) k' = if decide (k' = k) then Some v else rt_get t k';
  rt_get_remove t k k' : rt_get (rt_remove t k) k' = if decide (k' = k) then None else rt_get t k';
  rm_has : rmulti -> bytes -> bytes -> Prop;
  rm_has_empty k v : ~ rm_has rm_empty k v;
  rm_has_insert m k v k' v' : rm_has (rm_insert m k v) k' v' <-> (k' = k /\ v' = v) \/ rm_has m k' v';
  rm_has_remove m k v k' v' : rm_has (rm_remove m k v) k' v' <-> rm_has m k' v' /\ ~ (k' = k /\ v' = v);
  rm_range_to_spec m hi k v :
    (exists vs, (k, vs) ∈ rm_range_to m hi /\ v ∈ vs) <-> rm_has m k v /\ before k hi
}.

(** ** lru and ttl_cache: the caches of zones *)

Class ZoneCaches (V : Type) := {
  zlru : Type;
  zlru_new : nat -> zlru;
  zlru_get : zlru -> bytes -> zlru * option V;
  zlru_peek : zlru -> bytes -> option V;
  zlru_put : zlru -> bytes -> V -> zlru;
  zlru_pop : zlru -> bytes -> zlru;
  (** The time of a call comes after the cache. *)
  zttl : Type;
  zttl_new : nat -> zttl;
  zttl_get : zttl -> Z -> bytes -> option V;
  zttl_insert : zttl -> Z -> bytes -> V -> Z -> zttl;
  zttl_remove : zttl -> bytes -> zttl
}.

(** A lookup finds what was put last under the key, or nothing; what is put is
    found until something else is put. *)
Class ZoneCachesLaws {V} (C : ZoneCaches V) := {
  zlru_new_empty n k : zlru_peek (zlru_new n) k = None;
  zlru_get_peek c k : (zlru_get c k).2 = zlru_peek c k;
  zlru_get_same c k j : zlru_peek (zlru_get c k).1 j = zlru_peek c j;
  zlru_put_same c k v : zlru_peek (zlru_put c k v) k = Some v;
  zlru_put_other c k v j : j <> k -> zlru_peek (zlru_put c k v) j = zlru_peek c j \/ zlru_peek (zlru_put c k v) j = None;
  zlru_pop_same c k : zlru_peek (zlru_pop c k) k = None;
  zlru_pop_other c k j : j <> k -> zlru_peek (zlru_pop c k) j = zlru_peek c j;
  zttl_new_empty n now k : zttl_get (zttl_new n) now k = None;
  zttl_insert_get c now k v ttl now' j :
    zttl_get (zttl_insert c now k v ttl) now' j = None \/
    zttl_get (zttl_insert c now k v ttl) now' j = (if decide (j = k) then Some v else zttl_get c now' j);
  zttl_remove_same c k now : zttl_get (zttl_remove c k) now k = None;
  zttl_remove_other c k now j : j <> k -> zttl_get (zttl_remove c k) now j = zttl_get c now j
}.

(** ** lru: the bounded cache of public keys, looked up by their bytes *)

Class LruCache (K : Type) := {
  lru : Type;
  lru_new : nat -> lru;
  (** [get_key_value]: promotes the entry, so the cache changes. *)
  lru_get_key_value : lru -> bytes -> lru * option K;
  lru_put : lru -> K -> lru
}.

(** A cache holds only what was put into it, and a lookup finds only an entry
    with the bytes asked for. Which entries are evicted is left open. *)
Class LruCacheLaws {K} (C : LruCache K) (borrow : K -> bytes) := {
  lru_holds : lru -> K -> Prop;
  lru_new_empty n k : ~ lru_holds (lru_new n) k;
  lru_get_found c q c' k :
    lru_get_key_value c q = (c', Some k) -> lru_holds c k /\ borrow k = q;
  lru_get_holds c q c' o k :
    lru_get_key_value c q = (c', o) -> lru_holds c' k -> lru_holds c k;
  lru_put_holds c j k : lru_holds (lru_put c j) k -> k = j \/ lru_holds c k
}.

(** ** lz4_flex *)

Class Lz4 := {
  lz4_compress : bytes -> bytes;
  (** [decompress input min_uncompressed_size]. *)
  lz4_decompress : bytes -> nat -> option bytes
}.

(** Decompression inverts compression when the output fits the size given to
    it; a frame of the tunnel's buffer size compresses to a 32-bit length. *)
Class Lz4Laws (L : Lz4) := {
  lz4_roundtrip bs n : (length bs <= n)%nat -> lz4_decompress (lz4_compress bs) n = Some bs;
  lz4_compress_length bs :
    (length bs <= 16 * 1024)%nat -> Z.of_nat (length (lz4_compress bs)) < 2 ^ 32
}.

(** ** tokio_websockets: the kind and payload of a message *)

Class Websockets := {
  ws_message : Type;
  ws_is_close : ws_message -> bool;
  ws_is_ping : ws_message -> bool;
  ws_is_pong : ws_message -> bool;
  ws_is_binary : ws_message -> bool;
  ws_into_payload : ws_message -> bytes
}.

(** ** postcard: values of the serde data model *)

(** What the serialized structs of the repository are made of: fixed arrays of
    bytes, byte strings and strings. A struct is the sequence of its fields. *)
Inductive serde_value :=
| SArray (bs : bytes)
| SBytes (bs : bytes)
| SStr (bs : bytes).

Inductive serde_shape := ShArray (n : nat) | ShBytes | ShStr.

Definition shape_of (v : serde_value) : serde_shape :=
  match v with
  | SArray bs => ShArray (length bs)
  | SBytes _ => ShBytes
  | SStr _ => ShStr
  end.

Class Postcard := {
  postcard_to_vec : list serde_value -> bytes;
  postcard_from_bytes : list serde_shape -> bytes -> option (list serde_value)
}.

Definition serde_wf (v : serde_value) : Prop :=
  match v with SStr bs => utf8_valid bs = true | _ => True end.

(** Decoding asks for a type and gives a value of it; it inverts encoding. *)
Class PostcardLaws (P : Postcard) := {
  postcard_roundtrip vs :
    Forall serde_wf vs -> postcard_from_bytes (map shape_of vs) (postcard_to_vec vs) = Some vs;
  postcard_shape shapes bs vs : postcard_from_bytes shapes bs = Some vs -> map shape_of vs = shapes
}.

(** ** blake3, the TLS exporter, header values *)

Class HandshakeCrypto := {
  (** [blake3::derive_key context key_material]. *)
  derive_key : string -> bytes -> bytes;
  (** [BASE64URL_NOPAD]. *)
  base64url_encode : bytes -> string;
  base64url_decode : string -> option bytes;
  (** [HeaderValue::from_str] and its [AsRef<[u8]>]. *)
  HeaderValue : Type;
  header_from_str : string -> option HeaderValue;
  header_as_ref : HeaderValue -> string
}.

(** The base64url alphabet is visible ASCII, which a header value accepts. *)
Class HandshakeCryptoLaws (H : HandshakeCrypto) := {
  base64url_roundtrip bs : base64url_decode (base64url_encode bs) = Some bs;
  base64url_header bs : exists h, header_from_str (base64url_encode bs) = Some h /\
                                  header_as_ref h = base64url_encode bs
}.

(** ** The text of HTTP header values, SHA-1 and base64 *)

Definition visible_ascii (c : Ascii.ascii) : bool :=
  (32 <=? Z.of_nat (Ascii.nat_of_ascii c)) && (Z.of_nat (Ascii.nat_of_ascii c) <? 127).

Class HttpText (H : HandshakeCrypto) := {
  (** [HeaderValue::to_str]. *)
  header_to_str : HeaderValue -> option string;
  (** [Sha1::update] with all the bytes and [finalize]. *)
  sha1 : bytes -> bytes;
  (** [BASE64.encode] of data_encoding. *)
  base64_encode : bytes -> string
}.

(** A header value is the text it was made from; visible ASCII is always
    accepted, and [to_str] gives the text back when all of it is visible ASCII
    and never gives anything beyond ASCII. *)
Class HttpTextLaws {H : HandshakeCrypto} (T : HttpText H) := {
  header_from_str_text s h : header_from_str s = Some h -> header_as_ref h = s;
  header_from_str_visible s : str_forall visible_ascii s = true -> is_Some (header_from_str s);
  header_to_str_text h s : header_to_str h = Some s -> s = header_as_ref h;
  header_to_str_visible h :
    str_forall visible_ascii (header_as_ref h) = true -> header_to_str h = Some (header_as_ref h);
  header_to_str_ascii h s :
    header_to_str h = Some s -> str_forall (fun c => (Ascii.nat_of_ascii c <? 128)%nat) s = true;
  base64_visible bs : str_forall visible_ascii (base64_encode bs) = true
}.

(** ** data_encoding: the base 32 of server names, [BASE32_DNSSEC] *)

Class Base32Dnssec := {
  dnssec_encode : bytes -> string;
  dnssec_decode : string -> option bytes
}.

(** The symbols are digits and lower-case letters, one for every five bits. *)
Class Base32DnssecLaws (B : Base32Dnssec) := {
  dnssec_roundtrip bs : dnssec_decode (dnssec_encode bs) = Some bs;
  dnssec_symbols bs : str_forall is_lower_alnum (dnssec_encode bs) = true;
  dnssec_length bs : String.length (dnssec_encode bs) = ((8 * length bs + 4) / 5)%nat
}.

(** ** rustls, webpki and pkcs8: raw public keys (RFC 7250, RFC 8410) *)

Inductive SignatureScheme := SchemeEd25519 | OtherScheme (code : Z).

#[export] Instance SignatureScheme_eq_dec : EqDecision SignatureScheme.
Proof. solve_decision. Defined.

Inductive CertificateError := NotValidForName | UnknownIssuer.
Inductive PeerIncompatible := Tls12NotOffered.

(** [rustls::Error]. *)
Inductive RustlsError :=
| UnsupportedNameType
| InvalidCertificate (e : CertificateError)
| PeerIncompatibleError (e : PeerIncompatible)
| OtherRustlsError.

(** [rustls::pki_types::ServerName]. *)
Inductive ServerName := DnsName (name : string) | IpAddress (octets : bytes).

Class RawKeys (E : Ed25519) := {
  (** [rustls::sign::public_key_to_spki] with the Ed25519 algorithm. *)
  public_key_to_spki : bytes -> bytes;
  (** The key in a SubjectPublicKeyInfo of the Ed25519 algorithm, as webpki reads it. *)
  spki_key : bytes -> option bytes;
  (** [VerifyingKey::from_public_key_der]. *)
  vk_from_public_key_der : bytes -> option VerifyingKey;
  (** [rustls::crypto::verify_tls13_signature_with_raw_key], given the schemes and
      the verification of the only algorithm for them. *)
  verify_tls13_signature_with_raw_key :
    list SignatureScheme -> (bytes -> bytes -> bytes -> result unit unit) ->
    bytes -> bytes -> SignatureScheme * bytes -> result RustlsError unit;
  (** [ServerName::try_from]. *)
  server_name_try_from : string -> option ServerName
}.

(** Both readers of a SubjectPublicKeyInfo agree, and read the key one was made
    for. A signature is valid if its scheme is supported and the algorithm
    accepts it for the key. A DNS name is the text it was made from. *)
Class RawKeysLaws {E : Ed25519} (R : RawKeys E) := {
  spki_key_of k : length k = 32%nat -> spki_key (public_key_to_spki k) = Some k;
  der_of_spki k : vk_from_public_key_der (public_key_to_spki (vk_to_bytes k)) = Some k;
  spki_of_der der k : vk_from_public_key_der der = Some k -> spki_key der = Some (vk_to_bytes k);
  raw_key_signature schemes alg message spki dss :
    verify_tls13_signature_with_raw_key schemes alg message spki dss = Ok tt <->
    dss.1 ∈ schemes /\ exists key, spki_key spki = Some key /\ alg key message dss.2 = Ok tt;
  server_name_dns s n : server_name_try_from s = Some (DnsName n) -> n = s
}.

(** ** rustls ciphers and blake3: the keys of handshake tokens *)

Class TokenCrypto := {
  Aead : Type;
  (** [Tls13AeadAlgorithm::encrypter] and [decrypter], with key and nonce, for one
      message with sequence number 0. *)
  aead_encrypt : Aead -> bytes -> bytes -> bytes -> option bytes;
  aead_decrypt : Aead -> bytes -> bytes -> bytes -> option bytes;
  CryptoProvider : Type;
  (** The ciphers of the provider's suites, none for a suite of TLS 1.2. *)
  cipher_suites : CryptoProvider -> list (option Aead);
  (** [blake3::keyed_hash]. *)
  keyed_hash : bytes -> bytes -> bytes
}.

Class TokenCryptoLaws (C : TokenCrypto) := {
  aead_roundtrip a key nonce data c : aead_encrypt a key nonce data = Some c -> aead_decrypt a key nonce c = Some data;
  keyed_hash_length key data : length (keyed_hash key data) = 32%nat
}.
