(* ===== verification/Instances.v ===== *)
(** * Concrete instances of the external interfaces

    One model of every class of [External]: the RFC 9000 variable-length
    integers, the ECN code points of the IP header, lower-case hexadecimal, a
    keyed checksum in the place of the Ed25519 signature scheme, the identity in
    the place of LZ4, finite maps in the place of the database and the caches,
    packets and names that are written out in full, and a cipher that stores its
    key and nonce. They show that the laws are consistent and let the components
    be evaluated on concrete inputs. *)

From S2P Require Import Prelude External.

(** ** Variable-length integers and ECN *)

Definition rfc9000_encode (x : Z) : bytes :=
  if x <? 2 ^ 6 then be_bytes 1 x
  else if x <? 2 ^ 14 then be_bytes 2 (2 ^ 14 + x)
  else if x <? 2 ^ 30 then be_bytes 4 (2 * 2 ^ 30 + x)
  else be_bytes 8 (3 * 2 ^ 62 + x).

Definition rfc9000_decode (bs : bytes) : option (Z * bytes) :=
  match bs with
  | [] => None
  | b :: _ =>
      let n := (2 ^ Z.to_nat (byte.unsigned b / 64))%nat in
      if (length bs <? n)%nat then None
      else Some (from_be_bytes (take n bs) mod 2 ^ (8 * Z.of_nat n - 2), drop n bs)
  end.

Inductive ecn_codepoint := Ect0 | Ect1 | Ce.

Definition ecn_bits (e : ecn_codepoint) : Z :=
  match e with Ect0 => 2 | Ect1 => 1 | Ce => 3 end.

Definition ecn_of_bits (x : Z) : option ecn_codepoint :=
  if x mod 4 =? 2 then Some Ect0
  else if x mod 4 =? 1 then Some Ect1
  else if x mod 4 =? 3 then Some Ce
  else None.

#[local] Instance noq_proto : NoqProto := {
  varint_encode := rfc9000_encode;
  varint_decode := rfc9000_decode;
  EcnCodepoint := ecn_codepoint;
  ecn_as_u8 := ecn_bits;
  ecn_from_bits := ecn_of_bits
}.

(** One of the four length classes: [m + 1] bytes, tag [t]. *)
Lemma rfc9000_class m t x rest :
  0 <= t < 4 -> (2 ^ Z.to_nat t = S m)%nat ->
  0 <= x < 2 ^ (8 * Z.of_nat m + 6) ->
  rfc9000_decode (be_bytes (S m) (t * 2 ^ (8 * Z.of_nat m + 6) + x) ++ rest) = Some (x, rest).
Proof.
  intros Ht Hm Hx. set (z := t * _ + x).
  assert (Hp : 0 < 2 ^ (8 * Z.of_nat m)) by (apply Z.pow_pos_nonneg; lia).
  assert (Hpow : 2 ^ (8 * Z.of_nat m + 6) = 64 * 2 ^ (8 * Z.of_nat m)).
  { rewrite Z.pow_add_r by lia. change (2 ^ 6) with 64. lia. }
  assert (Hz : 0 <= z < 2 ^ (Z.of_nat (S m) * 8)).
  { unfold z. replace (Z.of_nat (S m) * 8) with (8 * Z.of_nat m + 6 + 2) by lia.
    rewrite (Z.pow_add_r 2 (_ + 6)) by lia. change (2 ^ 2) with 4. nia. }
  assert (Htag : byte.unsigned (byte.of_Z (z / 2 ^ (8 * Z.of_nat m))) / 64 = t).
  { rewrite byte.unsigned_of_Z. unfold byte.wrap. rewrite Z.mod_small.
    - rewrite Z.div_div by lia. rewrite (Z.mul_comm _ 64), <- Hpow. unfold z.
      rewrite Z.div_add_l by lia. rewrite Z.div_small; lia.
    - split; [apply Z.div_pos; lia|]. apply Z.div_lt_upper_bound; [lia|].
      replace (Z.of_nat (S m) * 8) with (8 * Z.of_nat m + 8) in Hz by lia.
      rewrite Z.pow_add_r in Hz by lia. lia. }
  assert (Hlen : length (be_bytes (S m) z) = S m) by apply length_be_bytes.
  unfold rfc9000_decode. rewrite be_bytes_S, <- app_comm_cons, Htag, Hm.
  rewrite app_comm_cons, <- be_bytes_S.
  destruct (Nat.ltb_spec (length (be_bytes (S m) z ++ rest)) (S m)) as [H|_].
  { rewrite length_app in H. lia. }
  rewrite (take_app_length' _ _ (S m)), (drop_app_length' _ _ (S m)) by done.
  rewrite from_be_bytes_be_bytes by done. do 2 f_equal.
  replace (8 * Z.of_nat (S m) - 2) with (8 * Z.of_nat m + 6) by lia.
  unfold z. rewrite Z.add_comm, Z.mod_add by lia. by apply Z.mod_small.
Qed.

Lemma rfc9000_roundtrip x rest :
  0 <= x < 2 ^ 62 -> rfc9000_decode (rfc9000_encode x ++ rest) = Some (x, rest).
Proof.
  intros Hx. unfold rfc9000_encode.
  destruct (Z.ltb_spec x (2 ^ 6)); [apply (rfc9000_class 0 0); (done || lia)|].
  destruct (Z.ltb_spec x (2 ^ 14)); [apply (rfc9000_class 1 1); (done || lia)|].
  destruct (Z.ltb_spec x (2 ^ 30)); [apply (rfc9000_class 3 2); (done || lia)|].
  apply (rfc9000_class 7 3); (done || lia).
Qed.

#[local] Instance noq_proto_laws : NoqProtoLaws noq_proto.
Proof.
  constructor.
  - apply rfc9000_roundtrip.
  - intros x Hx. simpl. unfold rfc9000_encode.
    destruct (Z.ltb_spec x (2 ^ 6)); [apply length_be_bytes|lia].
  - intros [|b bs] x rest; [done|]. cbn -[Nat.ltb Z.pow Nat.pow take drop].
    pose proof (byte.unsigned_range b) as Hb.
    case_match; [done|]. intros [= <- _].
    assert (Ht : 0 <= byte.unsigned b / 64 < 4).
    { split; [apply Z.div_pos; lia|apply Z.div_lt_upper_bound; lia]. }
    set (t := byte.unsigned b / 64) in *.
    assert (He : 0 <= 8 * Z.of_nat (2 ^ Z.to_nat t) - 2 <= 62).
    { assert (t = 0 \/ t = 1 \/ t = 2 \/ t = 3) as [-> | [-> | [-> | ->]]] by lia;
        vm_compute; by split. }
    pose proof (Z.pow_le_mono_r 2 _ 62 ltac:(lia) (proj2 He)).
    pose proof (Z.pow_pos_nonneg 2 (8 * Z.of_nat (2 ^ Z.to_nat t) - 2) ltac:(lia) (proj1 He)).
    match goal with |- 0 <= ?a mod ?m < _ => pose proof (Z.mod_pos_bound a m) end. lia.
  - by intros [].
  - done.
  - intros []; simpl; lia.
Qed.

(** ** Hexadecimal *)

Definition hex_digit (n : Z) : Ascii.ascii :=
  Ascii.ascii_of_N (Z.to_N (if n <? 10 then 48 + n else 87 + n)).

Definition hex_value (c : Ascii.ascii) : option Z :=
  let n := Z.of_N (Ascii.N_of_ascii c) in
  if (48 <=? n) && (n <=? 57) then Some (n - 48)
  else if (97 <=? n) && (n <=? 102) then Some (n - 87)
  else None.

Fixpoint hex_encode (bs : bytes) : string :=
  match bs with
  | [] => EmptyString
  | b :: bs =>
      String (hex_digit (byte.unsigned b / 16))
        (String (hex_digit (byte.unsigned b mod 16)) (hex_encode bs))
  end.

Fixpoint hex_decode (s : string) : option bytes :=
  match s with
  | EmptyString => Some []
  | String c (String d s) =>
      match hex_value c, hex_value d, hex_decode s with
      | Some h, Some l, Some bs => Some (byte.of_Z (16 * h + l) :: bs)
      | _, _, _ => None
      end
  | _ => None
  end.

Lemma hex_digit_value n : 0 <= n < 16 -> hex_value (hex_digit n) = Some n.
Proof.
  intros Hn. assert (H : Forall (fun n => hex_value (hex_digit n) = Some n) (seqZ 0 16)).
  { vm_compute. repeat constructor. }
  rewrite Forall_forall in H. apply H, elem_of_seqZ. lia.
Qed.

Lemma hex_encode_decode bs : hex_decode (hex_encode bs) = Some bs.
Proof.
  induction bs as [|b bs IH]; [done|]. simpl.
  pose proof (byte.unsigned_range b).
  rewrite !hex_digit_value, IH.
  - rewrite <- Z.div_mod by lia. by rewrite byte.of_Z_unsigned.
  - apply Z.mod_pos_bound. lia.
  - split; [apply Z.div_pos; lia|apply Z.div_lt_upper_bound; lia].
Qed.

Lemma hex_encode_length bs : String.length (hex_encode bs) = (2 * length bs)%nat.
Proof. induction bs as [|b bs IH]; [done|]. simpl. rewrite IH. lia. Qed.

Lemma hex_decode_length s bs :
  hex_decode s = Some bs -> String.length s = (2 * length bs)%nat.
Proof.
  revert bs.
  refine ((fix go s := match s return forall bs, hex_decode s = Some bs -> _ with
    | EmptyString => _
    | String c EmptyString => _
    | String c (String d s') => _
    end) s); intros bs; simpl.
  - by intros [= <-].
  - done.
  - destruct (hex_value c), (hex_value d); try done.
    destruct (hex_decode s') as [bs'|] eqn:E; [|done]. intros [= <-].
    rewrite (go s' bs' E). simpl. lia.
Qed.

Lemma is_lower_hex_digit n : 0 <= n < 16 -> is_lower_hex (hex_digit n) = true.
Proof.
  intros Hn. assert (H : Forall (fun n => is_lower_hex (hex_digit n) = true) (seqZ 0 16)).
  { vm_compute. repeat constructor. }
  rewrite Forall_forall in H. apply H, elem_of_seqZ. lia.
Qed.

Lemma hex_encode_symbols bs : str_forall is_lower_hex (hex_encode bs) = true.
Proof.
  induction bs as [|b bs IH]; [done|]. cbn [hex_encode str_forall]. pose proof (byte.unsigned_range b).
  rewrite !is_lower_hex_digit, IH; [done|apply Z.mod_pos_bound; lia|].
  split; [apply Z.div_pos; lia|apply Z.div_lt_upper_bound; lia].
Qed.

Lemma lower_hex_alnum c : is_lower_hex c = true -> is_lower_alnum c = true.
Proof.
  unfold is_lower_hex, is_lower_alnum. intros [->|[H1 H2]%andb_prop]%orb_prop; [done|].
  rewrite H1. apply N.leb_le in H2. replace (_ <=? 122)%N with true; [by destruct (is_digit c)|].
  symmetry. apply N.leb_le. lia.
Qed.

(** ** z-base-32: a symbol for every five bits, the last ones padded *)

Definition five : Type := bool * bool * bool * bool * bool.

Definition five_bits (q : five) : list bool := let '(a, b, c, d, e) := q in [a; b; c; d; e].

Fixpoint fives (l : list bool) : list five :=
  match l with
  | a :: b :: c :: d :: e :: l => (a, b, c, d, e) :: fives l
  | [a; b; c; d] => [(a, b, c, d, false)]
  | [a; b; c] => [(a, b, c, false, false)]
  | [a; b] => [(a, b, false, false, false)]
  | [a] => [(a, false, false, false, false)]
  | [] => []
  end.

Lemma fives_bits l : exists pad, flat_map five_bits (fives l) = l ++ pad /\ (length pad < 5)%nat.
Proof.
  revert l. refine (fix go l := match l with
    | a :: b :: c :: d :: e :: l' => _ | [a; b; c; d] => _ | [a; b; c] => _ | [a; b] => _ | [a] => _ | [] => _ end); simpl.
  - by exists []; split; [|simpl; lia].
  - by exists [false; false; false; false]; split; [|simpl; lia].
  - by exists [false; false; false]; split; [|simpl; lia].
  - by exists [false; false]; split; [|simpl; lia].
  - by exists [false]; split; [|simpl; lia].
  - destruct (go l') as (pad & -> & Hp). by exists pad.
Qed.

Lemma fives_length l : length (fives l) = ((length l + 4) / 5)%nat.
Proof.
  revert l. refine (fix go l := match l with
    | a :: b :: c :: d :: e :: l' => _ | [a; b; c; d] => _ | [a; b; c] => _ | [a; b] => _ | [a] => _ | [] => _ end);
    [reflexivity..|].
  cbn [fives length]. rewrite (go l'). replace (S (S (S (S (S (length l'))))) + 4)%nat with (length l' + 4 + 1 * 5)%nat by lia.
  rewrite Nat.div_add by done. lia.
Qed.

Definition byte_bits (b : byte) : list bool :=
  let '(b0, (b1, (b2, (b3, (b4, (b5, (b6, b7))))))) := Byte.to_bits b in [b7; b6; b5; b4; b3; b2; b1; b0].

Fixpoint bits_bytes (l : list bool) : bytes :=
  match l with
  | b7 :: b6 :: b5 :: b4 :: b3 :: b2 :: b1 :: b0 :: l =>
      Byte.of_bits (b0, (b1, (b2, (b3, (b4, (b5, (b6, b7))))))) :: bits_bytes l
  | _ => []
  end.

Lemma bits_bytes_pad bs pad : (length pad < 8)%nat -> bits_bytes (flat_map byte_bits bs ++ pad) = bs.
Proof.
  intros Hp. induction bs as [|b bs IH].
  - simpl. by repeat (destruct pad as [|? pad]; [done|simpl in Hp; try lia]).
  - cbn [flat_map]. rewrite <- app_assoc. unfold byte_bits at 1. destruct (Byte.to_bits b) as (b0 & b1 & b2 & b3 & b4 & b5 & b6 & b7) eqn:E.
    cbn [app bits_bytes]. rewrite IH, <- E. f_equal. apply Byte.of_bits_to_bits.
Qed.

Definition z32_alphabet : string := "ybndrfg8ejkmcpqxot1uwisza345h769".

Definition z32_symbol (q : five) : Ascii.ascii :=
  let n := fold_left (fun n (b : bool) => 2 * n + if b then 1 else 0)%nat (five_bits q) 0%nat in
  default Ascii.zero (String.get n z32_alphabet).

Definition all_fives : list five :=
  flat_map (fun a => flat_map (fun b => flat_map (fun c => flat_map (fun d => map (fun e => (a, b, c, d, e))
    [false; true]) [false; true]) [false; true]) [false; true]) [false; true].

Definition z32_value (c : Ascii.ascii) : option five := List.find (fun q => Ascii.eqb (z32_symbol q) c) all_fives.

Lemma z32_value_symbol q : z32_value (z32_symbol q) = Some q.
Proof. by destruct q as [[[[[] []] []] []] []]. Qed.

Lemma z32_symbol_alnum q : is_lower_alnum (z32_symbol q) = true.
Proof. by destruct q as [[[[[] []] []] []] []]. Qed.

Fixpoint z32_string (l : list five) : string :=
  match l with
  | [] => EmptyString
  | q :: l => String (z32_symbol q) (z32_string l)
  end.

Fixpoint z32_fives (s : string) : option (list five) :=
  match s with
  | EmptyString => Some []
  | String c s => match z32_value c, z32_fives s with Some q, Some l => Some (q :: l) | _, _ => None end
  end.

Lemma z32_fives_string l : z32_fives (z32_string l) = Some l.
Proof. induction l as [|q l IH]; [done|]. cbn [z32_string z32_fives]. by rewrite z32_value_symbol, IH. Qed.

#[local] Instance data_encoding : DataEncoding := {
  hexlower_decode_len := fun n => Some (n / 2)%nat;
  hexlower_encode := hex_encode;
  hexlower_decode := hex_decode;
  base32_decode_len := fun n => Some (n / 2)%nat;
  base32_encode := hex_encode;
  base32_decode := hex_decode;
  z32_encode := fun bs => z32_string (fives (flat_map byte_bits bs));
  z32_decode := fun s => (fun l => bits_bytes (flat_map five_bits l)) <$> z32_fives s
}.

#[local] Instance data_encoding_laws : DataEncodingLaws data_encoding.
Proof.
  assert (Hlen : forall s bs, hex_decode s = Some bs -> Some (String.length s / 2)%nat = Some (length bs)).
  { intros s bs H. rewrite (hex_decode_length s bs), Nat.mul_comm, Nat.div_mul by done. done. }
  constructor.
  - apply hex_encode_decode.
  - intros bs. apply hex_encode_length.
  - apply Hlen.
  - intros n. unfold hexlower_decode_len, data_encoding. by rewrite Nat.mul_comm, Nat.div_mul.
  - apply Hlen.
  - intros bs. simpl. rewrite z32_fives_string. simpl. destruct (fives_bits (flat_map byte_bits bs)) as (pad & -> & Hp).
    by rewrite bits_bytes_pad by lia.
  - apply hex_encode_symbols.
  - intros bs. simpl. induction (fives (flat_map byte_bits bs)) as [|q l IH]; [done|].
    cbn [z32_string str_forall]. by rewrite z32_symbol_alnum, IH.
  - intros bs. transitivity (length (fives (flat_map byte_bits bs))).
    { unfold z32_encode, data_encoding. generalize (fives (flat_map byte_bits bs)). intros l. induction l as [|q l IH]; [done|]. simpl. by rewrite IH. }
    rewrite fives_length. assert (length (flat_map byte_bits bs) = 8 * length bs)%nat as ->; [|done].
    induction bs as [|b bs IH]; [done|].
    cbn [flat_map length]. rewrite length_app, IH. unfold byte_bits. destruct (Byte.to_bits b) as (?&?&?&?&?&?&?&?). simpl. lia.
Qed.

(** A URL has a scheme: its text up to the first colon is not empty. *)
#[local] Instance scheme_urls : UrlCrate := {
  url_parse := fun s =>
    match str_split (Ascii.ascii_of_nat 58) s with
    | String _ _ :: _ :: _ => Some s
    | _ => None
    end
}.

#[local] Instance scheme_urls_laws : UrlCrateLaws scheme_urls.
Proof.
  constructor. intros s u H. assert (s = u) as <-; [|done].
  unfold url_parse, scheme_urls in H. destruct (str_split _ s) as [|[] []]; by simplify_eq.
Qed.

(** ** Signatures: a keyed checksum *)

Definition key32 : Type := { bs : bytes | (length bs =? 32)%nat = true }.

Definition pad (n : nat) (bs : bytes) : bytes := take n (bs ++ replicate n Byte.x00).

Lemma length_pad n bs : length (pad n bs) = n.
Proof. unfold pad. rewrite length_take, length_app, length_replicate. lia. Qed.

Definition key32_of (bs : bytes) : key32.
Proof. exists (pad 32 bs). by rewrite length_pad. Defined.

Lemma key32_length (k : key32) : length (proj1_sig k) = 32%nat.
Proof. destruct k as [bs H]. by apply Nat.eqb_eq. Qed.

Lemma key32_eq (j k : key32) : proj1_sig j = proj1_sig k -> j = k.
Proof.
  destruct j as [a Ha], k as [b Hb]. simpl. intros <-. f_equal. apply proof_irrel.
Qed.

Lemma pad_id n bs : length bs = n -> pad n bs = bs.
Proof. intros <-. unfold pad. by rewrite take_app_length. Qed.

Definition checksum_sign (k : key32) (m : bytes) : bytes := proj1_sig k ++ pad 32 m.

#[local] Instance checksum_keys : Ed25519 := {
  VerifyingKey := key32;
  vk_from_bytes := fun bs => if (length bs =? 32)%nat then Some (key32_of bs) else None;
  vk_to_bytes := @proj1_sig _ _;
  SigningKey := key32;
  sk_from_bytes := key32_of;
  sk_to_bytes := @proj1_sig _ _;
  verifying_key := fun k => k;
  sk_sign := checksum_sign;
  verify_strict := fun k m s => bool_decide (s = checksum_sign k m)
}.

#[local] Instance checksum_keys_laws : Ed25519Laws checksum_keys.
Proof.
  constructor; simpl.
  - intros bs k. destruct (Nat.eqb_spec (length bs) 32); [done|discriminate].
  - intros bs k. destruct (Nat.eqb_spec (length bs) 32) as [Hl|]; [|discriminate].
    intros [= <-]. by apply pad_id.
  - intros k. rewrite key32_length. simpl. f_equal. apply key32_eq. simpl.
    apply pad_id, key32_length.
  - intros bs Hl. by apply pad_id.
  - apply key32_length.
  - intros k m. unfold checksum_sign. rewrite length_app, key32_length, length_pad. done.
  - intros k m. by apply bool_decide_eq_true_2.
Qed.

(** ** Compression: stored blocks *)

#[local] Instance stored_blocks : Lz4 := {
  lz4_compress := fun bs => bs;
  lz4_decompress := fun bs n => if (length bs <=? n)%nat then Some bs else None
}.

#[local] Instance stored_blocks_laws : Lz4Laws stored_blocks.
Proof.
  constructor; simpl; intros.
  - destruct (Nat.leb_spec (length bs) n); [done|lia].
  - lia.
Qed.

(** ** A cache that holds its newest [n] entries *)

#[local] Instance list_cache (K : Type) (borrow : K -> bytes) : LruCache K := {
  lru := nat * list K;
  lru_new := fun n => (n, []);
  lru_get_key_value := fun c q => (c, List.find (fun k => bool_decide (borrow k = q)) (snd c));
  lru_put := fun c k => (fst c, take (fst c) (k :: snd c))
}.

#[local] Instance list_cache_laws K borrow : LruCacheLaws (list_cache K borrow) borrow.
Proof.
  refine {| lru_holds := fun (c : @lru K (list_cache K borrow)) k => In k (snd c) |}.
  - intros n k. simpl. tauto.
  - intros c q c' k. simpl. intros [= <- H].
    apply find_some in H as [H Hb]. split; [done|]. by apply bool_decide_eq_true_1 in Hb.
  - intros c q c' o k. simpl. by intros [= <- _].
  - intros [n l] j k. simpl. intros H.
    apply list_elem_of_In, (subseteq_take n (j :: l)), list_elem_of_In in H. simpl in H.
    intuition.
Qed.

(** ** Websocket messages by opcode *)

#[local] Instance opcode_messages : Websockets := {
  ws_message := Z * bytes;
  ws_is_close m := m.1 =? 8;
  ws_is_ping m := m.1 =? 9;
  ws_is_pong m := m.1 =? 10;
  ws_is_binary m := m.1 =? 2;
  ws_into_payload := snd
}.

(** ** Serialized structs: unary lengths *)

Definition unary_bytes (bs : bytes) : bytes := replicate (length bs) Byte.x01 ++ Byte.x00 :: bs.

Fixpoint unary_length (bs : bytes) : option (nat * bytes) :=
  match bs with
  | Byte.x01 :: bs => match unary_length bs with Some (n, rest) => Some (S n, rest) | None => None end
  | Byte.x00 :: bs => Some (O, bs)
  | _ => None
  end.

Definition encode_value (v : serde_value) : bytes :=
  match v with
  | SArray bs => bs
  | SBytes bs | SStr bs => unary_bytes bs
  end.

Definition decode_bytes (n : nat) (bs : bytes) : option (bytes * bytes) :=
  if (n <=? length bs)%nat then Some (take n bs, drop n bs) else None.

Definition decode_unary (bs : bytes) : option (bytes * bytes) :=
  match unary_length bs with Some (n, rest) => decode_bytes n rest | None => None end.

Definition decode_value (sh : serde_shape) (bs : bytes) : option (serde_value * bytes) :=
  match sh with
  | ShArray n => option_map (fun '(x, rest) => (SArray x, rest)) (decode_bytes n bs)
  | ShBytes => option_map (fun '(x, rest) => (SBytes x, rest)) (decode_unary bs)
  | ShStr => option_map (fun '(x, rest) => (SStr x, rest)) (decode_unary bs)
  end.

Fixpoint decode_values (shs : list serde_shape) (bs : bytes) : option (list serde_value) :=
  match shs with
  | [] => Some []
  | sh :: shs =>
      match decode_value sh bs with
      | Some (v, rest) => option_map (cons v) (decode_values shs rest)
      | None => None
      end
  end.

#[local] Instance unary_postcard : Postcard := {
  postcard_to_vec vs := concat (map encode_value vs);
  postcard_from_bytes := decode_values
}.

Lemma decode_bytes_app x rest : decode_bytes (length x) (x ++ rest) = Some (x, rest).
Proof.
  unfold decode_bytes. rewrite length_app. destruct (Nat.leb_spec (length x) (length x + length rest)); [|lia].
  by rewrite take_app_length, drop_app_length.
Qed.

Lemma decode_unary_app x rest : decode_unary (unary_bytes x ++ rest) = Some (x, rest).
Proof.
  unfold decode_unary, unary_bytes. rewrite <- app_assoc.
  assert (H : forall n tl, unary_length (replicate n Byte.x01 ++ Byte.x00 :: tl) = Some (n, tl)).
  { induction n as [|n IH]; intros tl; simpl; [done|]. by rewrite IH. }
  rewrite <- app_comm_cons, H. apply decode_bytes_app.
Qed.

Lemma decode_value_app v rest : decode_value (shape_of v) (encode_value v ++ rest) = Some (v, rest).
Proof. destruct v; simpl; by rewrite ?decode_bytes_app, ?decode_unary_app. Qed.

Lemma decode_bytes_length n bs x rest : decode_bytes n bs = Some (x, rest) -> length x = n.
Proof.
  unfold decode_bytes. destruct (Nat.leb_spec n (length bs)); [|done]. intros [= <- <-].
  rewrite length_take. lia.
Qed.

Lemma decode_value_shape sh bs v rest : decode_value sh bs = Some (v, rest) -> shape_of v = sh.
Proof.
  destruct sh; simpl.
  - destruct (decode_bytes n bs) as [[x r]|] eqn:E; [|done]. intros [= <- <-]. simpl.
    by rewrite (decode_bytes_length _ _ _ _ E).
  - destruct (decode_unary bs) as [[x r]|]; [|done]. by intros [= <- <-].
  - destruct (decode_unary bs) as [[x r]|]; [|done]. by intros [= <- <-].
Qed.

#[local] Instance unary_postcard_laws : PostcardLaws unary_postcard.
Proof.
  constructor; simpl.
  - intros vs _. induction vs as [|v vs IH]; simpl; [done|]. by rewrite decode_value_app, IH.
  - intros shapes. induction shapes as [|sh shapes IH]; simpl; intros bs vs H; [by simplify_eq|].
    destruct (decode_value sh bs) as [[v rest]|] eqn:E; [|done].
    destruct (decode_values shapes rest) as [vs'|] eqn:E'; simplify_eq/=.
    by rewrite (decode_value_shape _ _ _ _ E), (IH _ _ E').
Qed.

#[local] Instance padded_crypto : HandshakeCrypto := {
  derive_key := fun _ m => pad 32 m;
  base64url_encode := hex_encode;
  base64url_decode := hex_decode;
  HeaderValue := string;
  header_from_str := Some;
  header_as_ref := fun s => s
}.

#[local] Instance padded_crypto_laws : HandshakeCryptoLaws padded_crypto.
Proof.
  constructor; simpl.
  - apply hex_encode_decode.
  - intros bs. eauto.
Qed.

(** ** DNS packets: the records' encoding as one number *)

Definition packed_records := list (string * Z * option string).

Definition pack_bits (p : positive) : nat := S (Pos.to_nat (Pos.size p)).

#[local] Instance packed_dns : SimpleDns := {
  dns_name := string;
  name_new_unchecked := fun s => s;
  name_new := fun s => Some s;
  name_to_string := fun s => s;
  name_without := fun _ _ => None;
  dns_txt := string;
  txt_of_string := fun s => if (String.length s <=? 255)%nat then Some s else None;
  txt_to_string := fun s => Some s;
  packet_parse := fun bs =>
    match from_be_bytes bs with
    | Zpos p => decode (A := packed_records) p
    | _ => None
    end;
  packet_build := fun rrs =>
    let p := encode (A := packed_records) rrs in
    Some (be_bytes (pack_bits p / 8 + 1) (Zpos p))
}.

#[local] Instance packed_dns_laws : SimpleDnsLaws packed_dns.
Proof.
  constructor.
  - intros rrs bs H. unfold packet_build, packed_dns in H. cbv zeta in H. apply (inj Some) in H as <-.
    unfold packet_parse, packed_dns. rewrite from_be_bytes_be_bytes; [apply decode_encode|].
    set (p := encode (A := packed_records) rrs). split; [done|].
    apply Z.lt_le_trans with (2 ^ Z.of_nat (pack_bits p)).
    + unfold pack_bits. rewrite Nat2Z.inj_succ, positive_nat_Z.
      pose proof (Pos.size_gt p) as Hs. apply Pos2Z.pos_lt_pos in Hs. rewrite Pos2Z.inj_pow in Hs.
      pose proof (Z.pow_lt_mono_r 2 (Z.pos (Pos.size p)) (Z.succ (Z.pos (Pos.size p))) ltac:(lia) ltac:(lia) ltac:(lia)). lia.
    + apply Z.pow_le_mono_r; [lia|]. pose proof (Nat.div_mod_eq (pack_bits p) 8).
      pose proof (Nat.mod_upper_bound (pack_bits p) 8 ltac:(lia)). lia.
  - intros s t H. simpl in H. case_match; by simplify_eq/=.
  - done.
  - intros s _. simpl. eauto.
Qed.

(** ** A database of finite maps *)

Definition gset_range (before : bytes -> bytes -> Prop) `{!RelDecision before} (m : gset (bytes * bytes)) (hi : bytes)
    : list (bytes * list bytes) :=
  omap (fun kv => if decide (before kv.1 hi) then Some (kv.1, [kv.2]) else None) (elements m).

#[local] Instance map_redb (before : bytes -> bytes -> Prop) `{!RelDecision before} : Redb := {
  rtable := gmap bytes bytes;
  rt_empty := ∅;
  rt_get t k := t !! k;
  rt_insert t k v := <[k := v]> t;
  rt_remove t k := delete k t;
  rmulti := gset (bytes * bytes);
  rm_empty := ∅;
  rm_insert m k v := {[ (k, v) ]} ∪ m;
  rm_remove m k v := m ∖ {[ (k, v) ]};
  rm_range_to := gset_range before
}.

#[local] Instance map_redb_laws before `{!RelDecision before} : RedbLaws (map_redb before) before.
Proof.
  refine {| rm_has := fun (m : @rmulti (map_redb before)) k v => (k, v) ∈ (m : gset (bytes * bytes)) |}; simpl.
  - intros k. apply lookup_empty.
  - intros t k v k'. destruct (decide (k' = k)) as [->|]; by simplify_map_eq.
  - intros t k k'. destruct (decide (k' = k)) as [->|]; by simplify_map_eq.
  - set_solver.
  - set_solver.
  - set_solver.
  - intros m hi k v. unfold gset_range. setoid_rewrite list_elem_of_omap. split.
    + intros (vs & ([a b] & Hin & Hd) & Hv). simpl in Hd. case_decide; simplify_eq/=. apply elem_of_elements in Hin.
      apply list_elem_of_singleton in Hv as ->. done.
    + intros [Hin Hb]. exists [v]. split; [|set_solver]. exists (k, v). split; [by apply elem_of_elements|].
      simpl. by rewrite decide_True.
Qed.

(** ** Names as lists of labels, and record sets as lists of records *)

Definition star_label : bytes := [Byte.x2a].

#[local] Instance list_names : Hickory := {
  label_from_utf8 s := Some (String.list_byte_of_string s);
  into_label l := Some l;
  label_eqb a b := bool_decide (a = b);
  hname := list bytes;
  hname_labels n := n;
  hname_num_labels n := if bool_decide (head n = Some star_label) then (length n - 1)%nat else length n;
  hname_from_labels ls := Some ls;
  hname_append a b := Some (a ++ b);
  zone_of o n := (length o <=? length n)%nat && bool_decide (drop (length n - length o) n = o);
  hname_parse s o := Some (String.list_byte_of_string s :: o);
  hname_from_utf8 s := Some (map String.list_byte_of_string (str_split (Ascii.ascii_of_nat 46) s));
  hname_lower n := n
}.

Definition hickory_answer (rr : @dns_name packed_dns * Z * option (@dns_txt packed_dns)) : @hrecord list_names :=
  mkRecord (H := list_names) (map String.list_byte_of_string (str_split (Ascii.ascii_of_nat 46) rr.1.1)) rr.1.2
    (match rr.2 with
     | Some txt => RTXT [String.list_byte_of_string txt]
     | None => ROther 0 []
     end).

#[local] Instance list_records : @HickoryRecords list_names := {
  message_answers bs := map hickory_answer <$> @packet_parse packed_dns bs;
  recordset := list bytes * RecordType * Z * list (@hrecord list_names);
  rs_of_record r := (rr_name r, rdata_type (rr_data r), 0, [r]);
  rs_new n t serial := (n, t, serial, []);
  rs_insert s r serial := (s.1.1, serial, s.2 ++ [r]);
  rs_records s := s.2;
  rs_name s := s.1.1.1;
  rs_type s := s.1.1.2;
  rs_serial s := s.1.2
}.

#[local] Instance list_names_laws : HickoryLaws list_names list_records.
Proof.
  refine (Build_HickoryLaws list_names list_records _ _ _ _ (fun _ => True) _ _ _ _ _ _ _ _ _ _ _ _ _ _ _ _); try done.
  - intros l. simpl. by apply bool_decide_eq_true_2.
  - intros n Hn. simpl in *. by rewrite bool_decide_eq_false_2.
  - intros ls _. simpl. eauto.
  - intros a b _. simpl. eauto.
  - intros o n ls H. simpl in *. subst n. rewrite length_app. apply andb_true_iff. split; [apply Nat.leb_le; lia|].
    apply bool_decide_eq_true_2. replace (length ls + length o - length o)%nat with (length ls) by lia. apply drop_app_length.
  - intros o n H. simpl in *. apply andb_true_iff in H as [H _]. by apply Nat.leb_le.
  - intros s o _ _. simpl. eauto.
Qed.

#[local] Instance packed_interop : DnsInterop packed_dns list_names list_records.
Proof.
  constructor. intros rrs bs H. exists (map hickory_answer rrs). split.
  - simpl. pose proof (packet_roundtrip rrs bs H) as Hp. simpl in Hp. by rewrite Hp.
  - apply Forall2_fmap_r, Forall_Forall2_diag, Forall_forall. intros [[n ttl] txt] _. split; [done|]. split; [done|].
    destruct txt as [t|]; simpl; [|done]. eexists. split; [done|]. intros s [= <-]. apply app_nil_r.
Qed.

(** ** Caches of zones that never evict *)

#[local] Instance map_caches (V : Type) : ZoneCaches V := {
  zlru := gmap bytes V;
  zlru_new _ := ∅;
  zlru_get c k := (c, c !! k);
  zlru_peek c k := c !! k;
  zlru_put c k v := <[k := v]> c;
  zlru_pop c k := delete k c;
  zttl := gmap bytes (V * Z);
  zttl_new _ := ∅;
  zttl_get c now k :=
    match c !! k with
    | Some (v, until) => if now <? until then Some v else None
    | None => None
    end;
  zttl_insert c now k v ttl := <[k := (v, now + ttl)]> c;
  zttl_remove c k := delete k c
}.

#[local] Instance map_caches_laws V : ZoneCachesLaws (map_caches V).
Proof.
  constructor; simpl; intros; simplify_map_eq; try done.
  - left. by simplify_map_eq.
  - destruct (decide (j = k)) as [->|Hj]; simplify_map_eq; [|by right].
    destruct (now' <? now + ttl); [by right|by left].
Qed.

(** ** HTTP text: values are their text, base64 is hexadecimal *)

#[local] Instance plain_http : HttpText padded_crypto := {
  header_to_str := fun s => if str_forall visible_ascii s then Some s else None;
  sha1 := pad 20;
  base64_encode := hex_encode
}.

#[local] Instance plain_http_laws : HttpTextLaws plain_http.
Proof.
  constructor; simpl.
  - intros s h [= <-]. done.
  - eauto.
  - intros h s. destruct (str_forall _ h); [|done]. by intros [= <-].
  - intros h ->. done.
  - intros h s. destruct (str_forall _ h) eqn:E; [|done]. intros [= <-].
    revert E. apply str_forall_impl. intros c. unfold visible_ascii. rewrite andb_true_iff.
    intros [_ Hc]. apply Z.ltb_lt in Hc. apply Nat.ltb_lt. lia.
  - intros bs. eapply str_forall_impl; [|apply hex_encode_symbols].
    intros c. destruct c as [[] [] [] [] [] [] [] []]; done.
Qed.

(** ** Raw public keys: the prefix of RFC 8410 before the key *)

#[local] Instance z32_names : Base32Dnssec := { dnssec_encode := z32_encode; dnssec_decode := z32_decode }.

#[local] Instance z32_names_laws : Base32DnssecLaws z32_names.
Proof. constructor; intros; [apply z32_roundtrip|apply z32_symbols|apply z32_length]. Qed.

Definition spki_prefix : bytes :=
  [Byte.x30; Byte.x2a; Byte.x30; Byte.x05; Byte.x06; Byte.x03; Byte.x2b; Byte.x65; Byte.x70; Byte.x03; Byte.x21; Byte.x00].

Definition prefixed_key (spki : bytes) : option bytes :=
  if bool_decide (take 12 spki = spki_prefix) && (length (drop 12 spki) =? 32)%nat then Some (drop 12 spki) else None.

#[local] Instance prefixed_keys : RawKeys checksum_keys := {
  public_key_to_spki k := spki_prefix ++ k;
  spki_key := prefixed_key;
  vk_from_public_key_der spki := prefixed_key spki ≫= vk_from_bytes;
  verify_tls13_signature_with_raw_key schemes alg message spki dss :=
    if bool_decide (dss.1 ∈ schemes) then
      match prefixed_key spki with
      | Some key => map_err (fun _ => OtherRustlsError) (alg key message dss.2)
      | None => Err OtherRustlsError
      end
    else Err OtherRustlsError;
  server_name_try_from s := Some (DnsName s)
}.

Lemma prefixed_key_app k : length k = 32%nat -> prefixed_key (spki_prefix ++ k) = Some k.
Proof. intros Hk. unfold prefixed_key. simpl. by rewrite drop_0, Hk. Qed.

#[local] Instance prefixed_keys_laws : RawKeysLaws prefixed_keys.
Proof.
  constructor; cbn [public_key_to_spki spki_key vk_from_public_key_der verify_tls13_signature_with_raw_key
                    server_name_try_from prefixed_keys].
  - apply prefixed_key_app.
  - intros k. rewrite prefixed_key_app by apply (vk_from_bytes_length _ k), vk_from_to. apply vk_from_to.
  - intros der k. destruct (prefixed_key der) as [bs|]; cbn [mbind option_bind]; [|done].
    intros H. f_equal. symmetry. exact (vk_to_from _ _ H).
  - intros schemes alg m spki dss. case_bool_decide; [|by split; [|intros [? _]]].
    destruct (prefixed_key spki) as [key|]; [|split; [done|intros (_ & ? & ? & _); done]]. split.
    + intros Hm. split; [done|]. exists key. split; [done|]. by destruct (alg key m dss.2) as [[]| |].
    + intros (_ & k & [= <-] & ->). done.
  - by intros s n [= <-].
Qed.

(** ** A cipher that stores the key and the nonce *)

#[local] Instance stored_tokens : TokenCrypto := {
  Aead := unit;
  aead_encrypt _ key nonce data := Some (key ++ nonce ++ data);
  aead_decrypt _ key nonce c :=
    if bool_decide (take (length key + length nonce) c = key ++ nonce) then Some (drop (length key + length nonce) c)
    else None;
  CryptoProvider := bool;
  cipher_suites p := if p then [None; Some tt] else [None];
  keyed_hash key data := pad 32 (key ++ data)
}.

#[local] Instance stored_tokens_laws : TokenCryptoLaws stored_tokens.
Proof.
  constructor; simpl; [|intros; apply length_pad].
  intros _ key nonce data c [= <-]. rewrite app_assoc, <- length_app.
  rewrite take_app_length, drop_app_length. by rewrite bool_decide_eq_true_2.
Qed.
