(* ===== verification/Keys.v ===== *)
(** * Keys

    [iroh-base/src/key.rs]: the public key that names an endpoint, its binary
    and text forms, the signatures, and [iroh-relay/src/key_cache.rs], the
    cache that makes parsing a key from a frame cheap. The curve arithmetic and
    the text encodings are parameters ([External]). *)

From S2P Require Import Prelude External Instances.

(** ** Data *)

(** [PublicKey(CompressedEdwardsY)]: the compressed point. *)
Record PublicKey := mkPublicKey { as_bytes : bytes }.
Abbreviation EndpointId := PublicKey.

(** [PublicKey::LENGTH]. *)
Definition LENGTH : nat := 32.

#[export] Instance PublicKey_eq_dec : EqDecision PublicKey.
Proof. solve_decision. Defined.

#[export] Instance PublicKey_countable : Countable PublicKey.
Proof. by refine (inj_countable' as_bytes mkPublicKey _); intros []. Defined.

(** [KeyParsingError]. *)
Inductive KeyParsingError :=
| FailedToDecodeHex
| FailedToDecodeBase32
| InvalidLength
| InvalidKeyData.

(** [Signature]: the 64 bytes of an Ed25519 signature. *)
Record Signature := mkSignature { sig_bytes : bytes }.

Section Keys.
Context {Ed : Ed25519} {De : DataEncoding}.

(** [SecretKey(SigningKey)]. *)
Record SecretKey := mkSecretKey { as_signing_key : SigningKey }.

(** ** Operations *)

(** [PublicKey::from_bytes], and [TryFrom<&[u8]>], which gives the same error
    for a slice of another length. *)
Definition PublicKey_from_bytes (bs : bytes) : result KeyParsingError PublicKey :=
  match vk_from_bytes bs with
  | None => Err InvalidKeyData
  | Some key => Ok (mkPublicKey (vk_to_bytes key))
  end.

Definition PublicKey_try_from (slice : bytes) : result KeyParsingError PublicKey :=
  let? vk := ok_or (vk_from_bytes slice) InvalidKeyData in
  Ok (mkPublicKey (vk_to_bytes vk)).

(** [as_verifying_key]: panics when the bytes are no longer a valid key. *)
Definition as_verifying_key {E} (k : PublicKey) : result E VerifyingKey :=
  match vk_from_bytes (as_bytes k) with
  | Some vk => Ok vk
  | None => Panic
  end.

Inductive SignatureError := SignatureInvalid.

Definition verify (k : PublicKey) (message : bytes) (s : Signature) : result SignatureError unit :=
  let? vk := as_verifying_key k in
  if verify_strict vk message (sig_bytes s) then Ok tt else Err SignatureInvalid.

Definition public (sk : SecretKey) : PublicKey :=
  mkPublicKey (vk_to_bytes (verifying_key (as_signing_key sk))).

Definition sign (sk : SecretKey) (msg : bytes) : Signature :=
  mkSignature (sk_sign (as_signing_key sk) msg).

Definition SecretKey_from_bytes (bs : bytes) : SecretKey := mkSecretKey (sk_from_bytes bs).
Definition SecretKey_to_bytes (sk : SecretKey) : bytes := sk_to_bytes (as_signing_key sk).

(** [TryFrom<&[u8]> for SecretKey]. *)
Definition SecretKey_try_from (slice : bytes) : result KeyParsingError SecretKey :=
  let? _ := ensure (length slice =? LENGTH)%nat InvalidLength in
  Ok (mkSecretKey (sk_from_bytes slice)).

(** [Display for PublicKey]. *)
Definition PublicKey_to_string (k : PublicKey) : string := hexlower_encode (as_bytes k).

(** [str::to_ascii_uppercase]. *)
Definition ascii_upper (c : Ascii.ascii) : Ascii.ascii :=
  let n := Ascii.N_of_ascii c in
  if (97 <=? n)%N && (n <=? 122)%N then Ascii.ascii_of_N (n - 32) else c.

Fixpoint to_ascii_uppercase (s : string) : string :=
  match s with
  | EmptyString => EmptyString
  | String c s => String (ascii_upper c) (to_ascii_uppercase s)
  end.

(** [Encoding::decode_mut input output]: panics when the output buffer has not
    the length [decode_len] gives for the input. *)
Definition decode_mut {E} (decode_len : nat -> option nat) (decode : string -> option bytes)
    (input : string) (output_len : nat) (err : E) : result E bytes :=
  if bool_decide (decode_len (String.length input) = Some output_len)
  then ok_or (decode input) err
  else Panic.

Definition decode_base32_hex (s : string) : result KeyParsingError bytes :=
  let? bs :=
    if (String.length s =? LENGTH * 2)%nat
    then decode_mut hexlower_decode_len hexlower_decode s 32 FailedToDecodeHex
    else
      let input := to_ascii_uppercase s in
      let? _ := ensure (bool_decide (base32_decode_len (String.length input) = Some 32%nat)) InvalidLength in
      decode_mut base32_decode_len base32_decode input 32 FailedToDecodeBase32 in
  let? _ := ensure (length bs =? LENGTH)%nat InvalidLength in
  Ok bs.

(** [FromStr for PublicKey] and [for SecretKey]. *)
Definition PublicKey_from_str (s : string) : result KeyParsingError PublicKey :=
  let? bs := decode_base32_hex s in
  PublicKey_from_bytes bs.

Definition SecretKey_from_str (s : string) : result KeyParsingError SecretKey :=
  let? bs := decode_base32_hex s in
  Ok (SecretKey_from_bytes bs).

Definition to_z32 (k : PublicKey) : string := z32_encode (as_bytes k).

Definition from_z32 (s : string) : result KeyParsingError PublicKey :=
  let? bs := ok_or (z32_decode s) FailedToDecodeBase32 in
  PublicKey_try_from bs.

(** [Ord for PublicKey]: lexicographic on the bytes. *)
Fixpoint bytes_compare (a b : bytes) : comparison :=
  match a, b with
  | [], [] => Eq
  | [], _ => Lt
  | _, [] => Gt
  | x :: a, y :: b =>
      match Z.compare (byte.unsigned x) (byte.unsigned y) with
      | Eq => bytes_compare a b
      | c => c
      end
  end.

Definition PublicKey_cmp (a b : PublicKey) : comparison := bytes_compare (as_bytes a) (as_bytes b).

(** ** The key cache *)

Section KeyCache.
Context {Lru : LruCache PublicKey}.

(** [KeyCache(Inner)]. *)
Inductive KeyCache :=
| Disabled
| Shared (cache : lru).

Definition KeyCache_new (capacity : nat) : KeyCache :=
  match capacity with
  | O => Disabled
  | S _ => Shared (lru_new capacity)
  end.

(** [key_from_slice]: the cache after the call and the key. *)
Definition key_from_slice (c : KeyCache) (slice : bytes)
    : KeyCache * result KeyParsingError PublicKey :=
  match c with
  | Disabled => (c, PublicKey_try_from slice)
  | Shared cache =>
      if (length slice =? LENGTH)%nat then
        let (cache, found) := lru_get_key_value cache slice in
        match found with
        | Some key => (Shared cache, Ok key)
        | None =>
            match PublicKey_from_bytes slice with
            | Ok key => (Shared (lru_put cache key), Ok key)
            | r => (Shared cache, r)
            end
        end
      else
        (c, match PublicKey_try_from slice with
            | Err e => Err e
            | _ => Panic
            end)
  end.

End KeyCache.

End Keys.

(** ** Lemmas *)

Section KeyFacts.
Context {Ed : Ed25519} {De : DataEncoding} {EdL : Ed25519Laws Ed} {DeL : DataEncodingLaws De}.

(** The invariant of the type: the bytes decompress to a point. *)
Definition valid_key (k : PublicKey) : Prop := is_Some (vk_from_bytes (as_bytes k)).

Lemma from_bytes_as_bytes k :
  valid_key k -> PublicKey_from_bytes (as_bytes k) = Ok k.
Proof.
  intros [vk Hvk]. unfold PublicKey_from_bytes. rewrite Hvk.
  apply vk_to_from in Hvk. destruct k as [bs]. by rewrite Hvk.
Qed.

Lemma from_bytes_ok bs k : PublicKey_from_bytes bs = Ok k -> as_bytes k = bs /\ valid_key k.
Proof.
  unfold PublicKey_from_bytes, valid_key. destruct (vk_from_bytes bs) as [vk|] eqn:E; [|done].
  intros [= <-]. simpl. by rewrite (vk_to_from _ _ E), E.
Qed.

Lemma try_from_from_bytes bs : PublicKey_try_from bs = PublicKey_from_bytes bs.
Proof. unfold PublicKey_try_from, PublicKey_from_bytes. by destruct (vk_from_bytes bs). Qed.

Lemma from_bytes_no_panic bs : PublicKey_from_bytes bs <> Panic.
Proof. unfold PublicKey_from_bytes. by destruct (vk_from_bytes bs). Qed.

Lemma valid_key_length k : valid_key k -> length (as_bytes k) = 32%nat.
Proof. intros [vk Hvk]. eauto using vk_from_bytes_length. Qed.

Lemma public_valid sk : valid_key (public sk).
Proof. unfold valid_key, public. simpl. rewrite vk_from_to. eauto. Qed.

Lemma decode_base32_hex_encode bs :
  length bs = 32%nat -> decode_base32_hex (hexlower_encode bs) = Ok bs.
Proof.
  intros Hl. unfold decode_base32_hex, decode_mut.
  rewrite hexlower_length, Hl. simpl Nat.eqb. cbv iota.
  rewrite hexlower_decode_len_double. rewrite bool_decide_eq_true_2 by done.
  rewrite hexlower_roundtrip. simpl. by rewrite Hl.
Qed.

Lemma decode_base32_hex_no_panic s : decode_base32_hex s <> Panic.
Proof.
  unfold decode_base32_hex, decode_mut, ensure.
  destruct (Nat.eqb_spec (String.length s) (LENGTH * 2)) as [->|_].
  - change (LENGTH * 2)%nat with (2 * 32)%nat. rewrite hexlower_decode_len_double.
    rewrite bool_decide_eq_true_2 by done.
    destruct (hexlower_decode s); simpl; [by destruct (length _ =? _)%nat|done].
  - case_bool_decide; simpl; [|done].
    destruct (base32_decode _); simpl; [by destruct (length _ =? _)%nat|done].
Qed.

(** [decode] is total on byte strings of the length an endpoint id has. *)
Lemma decode_base32_hex_length s bs : decode_base32_hex s = Ok bs -> length bs = 32%nat.
Proof.
  unfold decode_base32_hex, ensure. intros H.
  destruct (if (String.length s =? LENGTH * 2)%nat then _ else _) as [b| |]; try done.
  simpl in H. destruct (Nat.eqb_spec (length b) LENGTH) as [E|]; [|done].
  injection H as <-. exact E.
Qed.

Section CacheFacts.
Context {Lru : LruCache PublicKey} {LruL : LruCacheLaws Lru as_bytes}.

(** Every key in the cache is a valid key. *)
Definition cache_valid (c : KeyCache) : Prop :=
  match c with
  | Disabled => True
  | Shared cache => forall k, lru_holds cache k -> valid_key k
  end.

Lemma KeyCache_new_valid n : cache_valid (KeyCache_new n).
Proof. destruct n; simpl; [done|]. intros k Hk. by apply lru_new_empty in Hk. Qed.

Lemma key_from_slice_spec c slice :
  cache_valid c ->
  cache_valid (key_from_slice c slice).1 /\
  (key_from_slice c slice).2 = PublicKey_try_from slice.
Proof.
  intros Hc. rewrite try_from_from_bytes. destruct c as [|cache]; simpl.
  { by rewrite try_from_from_bytes. }
  destruct (Nat.eqb_spec (length slice) LENGTH) as [Hl|Hl].
  - destruct (lru_get_key_value cache slice) as [cache' [k|]] eqn:E; simpl.
    + pose proof (lru_get_found _ _ _ _ E) as [Hk <-]. split.
      * intros j Hj. apply Hc. eauto using lru_get_holds.
      * symmetry. apply from_bytes_as_bytes. auto.
    + assert (Hv : cache_valid (Shared cache')).
      { intros j Hj. apply Hc. eauto using lru_get_holds. }
      destruct (PublicKey_from_bytes slice) as [k|e|] eqn:Ek; simpl; split; try done.
      intros j Hj. apply lru_put_holds in Hj as [->|Hj]; [|by apply Hv].
      by apply from_bytes_ok in Ek as [_ ?].
  - split; [done|]. rewrite try_from_from_bytes. unfold PublicKey_from_bytes.
    destruct (vk_from_bytes slice) eqn:E; [|done].
    apply vk_from_bytes_length in E. by unfold LENGTH in Hl.
Qed.

(** The results of a sequence of calls on one cache. *)
Fixpoint keys_from_slices (c : KeyCache) (slices : list bytes) : list (result KeyParsingError PublicKey) :=
  match slices with
  | [] => []
  | s :: slices =>
      let (c, r) := key_from_slice c s in
      r :: keys_from_slices c slices
  end.

End CacheFacts.
End KeyFacts.

Lemma verify_own {Ed : Ed25519} {EdL : Ed25519Laws Ed} sk m : verify (public sk) m (sign sk m) = Ok tt.
Proof. unfold verify, as_verifying_key, public, sign. simpl. rewrite vk_from_to. simpl. by rewrite sign_verifies. Qed.

Lemma from_z32_to_z32 {Ed : Ed25519} {De : DataEncoding} {EdL : Ed25519Laws Ed} {DeL : DataEncodingLaws De} k :
  valid_key k -> from_z32 (to_z32 k) = Ok k.
Proof.
  intros Hk. unfold from_z32, to_z32. rewrite z32_roundtrip. simpl. rewrite try_from_from_bytes.
  by apply from_bytes_as_bytes.
Qed.

(** ** Properties *)

(** Printing an endpoint id and parsing it back gives the id: in the hex
    form of [Display] and in the z-base-32 form of pkarr names. *)
Theorem public_key_text_roundtrip {Ed : Ed25519} {De : DataEncoding}
    {EdL : Ed25519Laws Ed} {DeL : DataEncodingLaws De} k :
  valid_key k ->
  PublicKey_from_str (PublicKey_to_string k) = Ok k /\ from_z32 (to_z32 k) = Ok k.
Proof.
  intros Hk. split.
  - unfold PublicKey_from_str, PublicKey_to_string.
    rewrite decode_base32_hex_encode by by apply valid_key_length. by apply from_bytes_as_bytes.
  - by apply from_z32_to_z32.
Qed.

Definition example_key : PublicKey := mkPublicKey (replicate 32 Byte.x2a).

Lemma public_key_text_roundtrip_witness :
  @PublicKey_from_str checksum_keys data_encoding
    (@PublicKey_to_string data_encoding example_key) = Ok example_key.
Proof.
  apply (@public_key_text_roundtrip checksum_keys data_encoding
    checksum_keys_laws data_encoding_laws example_key).
  unfold valid_key. simpl. eauto.
Defined.

(** Parsing an endpoint id is total (no input panics, whatever its length
    or alphabet) and what it accepts is a valid key. *)
Theorem public_key_from_str_total {Ed : Ed25519} {De : DataEncoding}
    {EdL : Ed25519Laws Ed} {DeL : DataEncodingLaws De} s :
  PublicKey_from_str s <> Panic /\
  forall k, PublicKey_from_str s = Ok k -> valid_key k /\ length (as_bytes k) = 32%nat.
Proof.
  unfold PublicKey_from_str. pose proof (decode_base32_hex_no_panic s) as Hp.
  destruct (decode_base32_hex s) as [bs| |]; simpl; [|done..].
  split; [apply from_bytes_no_panic|]. intros k Hk.
  apply from_bytes_ok in Hk as [_ Hk]. split; [done|]. by apply valid_key_length.
Qed.

Lemma public_key_from_str_total_witness :
  @PublicKey_from_str checksum_keys data_encoding "foobarbaz" <> Panic.
Proof.
  apply (@public_key_from_str_total checksum_keys data_encoding
    checksum_keys_laws data_encoding_laws "foobarbaz").
Defined.

(** C38: the key cache is transparent: over any sequence of lookups, starting
    from a fresh cache of any capacity and whatever the eviction policy does,
    every lookup gives exactly what parsing the bytes gives, error included. *)
Theorem key_cache_transparent {Ed : Ed25519} {EdL : Ed25519Laws Ed}
    {Lru : LruCache PublicKey} {LruL : LruCacheLaws Lru as_bytes} capacity slices :
  keys_from_slices (KeyCache_new capacity) slices = map PublicKey_try_from slices.
Proof.
  generalize (KeyCache_new_valid capacity). generalize (KeyCache_new capacity) as c.
  induction slices as [|s slices IH]; intros c Hc; [done|]. simpl.
  destruct (key_from_slice_spec c s Hc) as [Hc' Hr].
  destruct (key_from_slice c s) as [c' r]. simpl in *. by rewrite Hr, IH.
Qed.

Lemma key_cache_transparent_witness :
  @keys_from_slices checksum_keys (list_cache PublicKey as_bytes)
    (@KeyCache_new (list_cache PublicKey as_bytes) 1)
    [as_bytes example_key; []; as_bytes example_key]
  = [Ok example_key; Err InvalidKeyData; Ok example_key].
Proof.
  rewrite (@key_cache_transparent checksum_keys checksum_keys_laws
    (list_cache PublicKey as_bytes) (list_cache_laws PublicKey as_bytes) 1).
  reflexivity.
Defined.
