(* ===== verification/TunnelFraming.v ===== *)
(** * The tunnel's data path

    [compress_and_forward], [decompress_and_forward] and [bridge_compressed] of
    [iroh/examples/tunnel-listen.rs] and [tunnel-send.rs] (the two files have
    the same bodies): TCP bytes are read in bursts of at most 16 KiB, each burst
    is LZ4-compressed and sent with a 4-byte big-endian length; the other side
    reads the length, the body, decompresses and writes.

    A reader is what its peer sends (bursts of bytes, then end of stream or an
    error) and a writer is what it has accepted so far, with the point at which
    it starts to fail. *)

From S2P Require Import Prelude External Instances.

(** [std::io::ErrorKind], as far as the tunnel names it. *)
Inductive io_error :=
| UnexpectedEof
| InvalidData
| InvalidInput
| TimedOut
| ConnectionReset
| ConnectionAborted
| OtherIo (code : Z).

#[export] Instance io_error_eq_dec : EqDecision io_error.
Proof. solve_decision. Defined.

(** ** Readers and writers *)

Record reader := mkReader {
  bursts : list bytes;         (* what arrives, in the order it arrives *)
  ending : option io_error     (* end of stream, or the error that ends it *)
}.

Definition reader_len (r : reader) : nat := length (concat (bursts r)).

(** [AsyncReadExt::read] into a buffer of [cap] bytes: waits for data, returns
    at most [cap] bytes of one burst; no bytes at the end of the stream. *)
Fixpoint read_bursts (cap : nat) (bs : list bytes) (e : option io_error)
    : result io_error bytes * list bytes :=
  match bs with
  | [] => (match e with None => Ok [] | Some err => Err err end, [])
  | [] :: bs => read_bursts cap bs e
  | b :: bs => (Ok (take cap b), drop cap b :: bs)
  end.

Definition read (cap : nat) (r : reader) : result io_error bytes * reader :=
  let (res, bs) := read_bursts cap (bursts r) (ending r) in
  (res, mkReader bs (ending r)).

(** [AsyncReadExt::read_exact] of [n] bytes: [UnexpectedEof] when the stream
    ends first. *)
Definition read_exact (n : nat) (r : reader) : result io_error bytes * reader :=
  let data := concat (bursts r) in
  if (n <=? length data)%nat
  then (Ok (take n data), mkReader [drop n data] (ending r))
  else (Err (default UnexpectedEof (ending r)), mkReader [] (ending r)).

Record writer := mkWriter {
  written : bytes;
  room : option (nat * io_error);      (* bytes accepted before it fails *)
  shutdown_error : option io_error;
  closed : bool
}.

(** [AsyncWriteExt::write_all]. *)
Definition write_all (bs : bytes) (w : writer) : result io_error unit * writer :=
  match room w with
  | None => (Ok tt, mkWriter (written w ++ bs) None (shutdown_error w) (closed w))
  | Some (n, e) =>
      if (length bs <=? n)%nat
      then (Ok tt, mkWriter (written w ++ bs) (Some ((n - length bs)%nat, e)) (shutdown_error w) (closed w))
      else (Err e, mkWriter (written w ++ take n bs) (Some (0%nat, e)) (shutdown_error w) (closed w))
  end.

(** [AsyncWriteExt::shutdown]. *)
Definition shutdown (w : writer) : result io_error unit * writer :=
  match shutdown_error w with
  | None => (Ok tt, mkWriter (written w) (room w) None true)
  | Some e => (Err e, w)
  end.

Section Framing.
Context {L : Lz4}.

(** ** The two loops *)

(** The 16 KiB read buffer and the size given to [lz4_flex::decompress]. *)
Definition BUF_LEN : nat := 16 * 1024.
Definition MAX_DECOMPRESSED : nat := 128 * 1024.

(** Between two iterations of its loop a task is running; [Finished] is what its
    future resolves to. *)
Inductive task :=
| Running (r : reader) (w : writer)
| Finished (res : result io_error unit) (w : writer).

Definition resolve (out : result io_error unit * writer) : task := Finished out.1 out.2.

(** One iteration of [compress_and_forward]. *)
Definition compress_step (r : reader) (w : writer) : task :=
  match read BUF_LEN r with
  | (Ok [], _) => resolve (shutdown w)
  | (Ok buf, r) =>
      let compressed := lz4_compress buf in
      let len := as_u32 (blen compressed) in
      match write_all (be_bytes 4 len) w with
      | (Ok _, w) =>
          match write_all compressed w with
          | (Ok _, w) => Running r w
          | (e, w) => Finished e w
          end
      | (e, w) => Finished e w
      end
  | (Err e, _) => Finished (Err e) w
  | (Panic, _) => Finished Panic w
  end.

(** One iteration of [decompress_and_forward]. *)
Definition decompress_step (r : reader) (w : writer) : task :=
  match read_exact 4 r with
  | (Err e, _) =>
      if decide (e = UnexpectedEof) then resolve (shutdown w) else Finished (Err e) w
  | (Panic, _) => Finished Panic w
  | (Ok len_buf, r) =>
      let len := from_be_bytes len_buf in
      match read_exact (Z.to_nat len) r with
      | (Err e, _) => Finished (Err e) w
      | (Panic, _) => Finished Panic w
      | (Ok compressed, r) =>
          match lz4_decompress compressed MAX_DECOMPRESSED with
          | None => Finished (Err InvalidData) w
          | Some decompressed =>
              match write_all decompressed w with
              | (Ok _, w) => Running r w
              | (e, w) => Finished e w
              end
          end
      end
  end.

(** The loops; [None] when the fuel runs out. *)
Fixpoint compress_loop (fuel : nat) (r : reader) (w : writer)
    : option (result io_error unit * writer) :=
  match fuel with
  | O => None
  | S fuel =>
      match compress_step r w with
      | Running r w => compress_loop fuel r w
      | Finished res w => Some (res, w)
      end
  end.

Fixpoint decompress_loop (fuel : nat) (r : reader) (w : writer)
    : option (result io_error unit * writer) :=
  match fuel with
  | O => None
  | S fuel =>
      match decompress_step r w with
      | Running r w => decompress_loop fuel r w
      | Finished res w => Some (res, w)
      end
  end.

(** Every iteration that continues has read at least one byte. *)
Definition compress_and_forward (r : reader) (w : writer) : option (result io_error unit * writer) :=
  compress_loop (S (reader_len r)) r w.

Definition decompress_and_forward (r : reader) (w : writer) : option (result io_error unit * writer) :=
  decompress_loop (S (reader_len r)) r w.

(** ** The bridge

    [try_join!] runs both directions in one task. The schedule says which one
    makes progress next ([true] for the forward one). The first error ends the
    bridge and drops the other direction; otherwise both run to their end. *)

Inductive direction := Forward | Backward.

#[export] Instance direction_eq_dec : EqDecision direction.
Proof. solve_decision. Defined.

Definition compress_poll (t : task) : task := if t is Running r w then compress_step r w else t.
Definition decompress_poll (t : task) : task := if t is Running r w then decompress_step r w else t.

Fixpoint try_join (sched : list direction) (fwd bwd : task) : option (result io_error unit * task * task) :=
  match fwd, bwd with
  | Finished (Ok _) _, Finished (Ok _) _ => Some (Ok tt, fwd, bwd)
  | Finished (Err e) _, _ | _, Finished (Err e) _ => Some (Err e, fwd, bwd)
  | Finished Panic _, _ | _, Finished Panic _ => Some (Panic, fwd, bwd)
  | _, _ =>
      match sched with
      | [] => None
      | Forward :: sched => try_join sched (compress_poll fwd) bwd
      | Backward :: sched => try_join sched fwd (decompress_poll bwd)
      end
  end.

Definition bridge_compressed (sched : list direction) (tcp_recv : reader) (iroh_send : writer)
    (iroh_recv : reader) (tcp_send : writer) : option (result io_error unit * task * task) :=
  try_join sched (Running tcp_recv iroh_send) (Running iroh_recv tcp_send).

End Framing.

(** ** Lemmas *)

Lemma read_cases cap r :
  (0 < cap)%nat ->
  (concat (bursts r) = [] /\
   (read cap r).1 = match ending r with None => Ok [] | Some e => Err e end) \/
  (exists buf r', read cap r = (Ok buf, r') /\ buf <> [] /\ (length buf <= cap)%nat /\
     concat (bursts r) = buf ++ concat (bursts r') /\ ending r' = ending r).
Proof.
  intros Hcap. destruct r as [bs e]. unfold read. simpl.
  induction bs as [|[|x b] bs IH]; simpl.
  - left. by destruct e.
  - exact IH.
  - right. eexists _, _. split; [done|]. repeat split.
    + by destruct cap; [lia|].
    + rewrite length_take. lia.
    + simpl. rewrite app_assoc, take_drop. done.
Qed.

Lemma read_exact_app n data rest r :
  concat (bursts r) = data ++ rest -> length data = n ->
  read_exact n r = (Ok data, mkReader [rest] (ending r)).
Proof.
  intros Hr <-. unfold read_exact. rewrite Hr, length_app.
  destruct (Nat.leb_spec (length data) (length data + length rest)); [|lia].
  by rewrite take_app_length, drop_app_length.
Qed.

Lemma read_exact_short n r :
  (reader_len r < n)%nat ->
  read_exact n r = (Err (default UnexpectedEof (ending r)), mkReader [] (ending r)).
Proof.
  unfold reader_len, read_exact. intros H.
  by destruct (Nat.leb_spec n (length (concat (bursts r)))); [lia|].
Qed.

(** A writer that accepts everything. *)
Definition accepting (w : writer) : Prop := room w = None /\ shutdown_error w = None.

Definition append (w : writer) (bs : bytes) : writer :=
  mkWriter (written w ++ bs) (room w) (shutdown_error w) (closed w).

Lemma write_all_accepting bs w : accepting w -> write_all bs w = (Ok tt, append w bs).
Proof. intros [Hr _]. unfold write_all, append. by rewrite Hr. Qed.

Lemma append_accepting w bs : accepting w -> accepting (append w bs).
Proof. by intros [??]. Qed.

Lemma append_app w a b : append (append w a) b = append w (a ++ b).
Proof. unfold append. simpl. by rewrite app_assoc. Qed.

Lemma append_nil w : append w [] = w.
Proof. destruct w. unfold append. simpl. by rewrite app_nil_r. Qed.

Definition finished (w : writer) : writer :=
  mkWriter (written w) (room w) (shutdown_error w) true.

Lemma shutdown_accepting w : accepting w -> shutdown w = (Ok tt, finished w).
Proof. intros [_ Hs]. unfold shutdown, finished. by rewrite Hs. Qed.

Create HintDb tunnel.
#[export] Hint Resolve append_accepting : tunnel.

Section FramingFacts.
Context {L : Lz4} {LL : Lz4Laws L}.

(** One frame on the wire. *)
Definition frame (b : bytes) : bytes := be_bytes 4 (blen (lz4_compress b)) ++ lz4_compress b.

Definition wire (chunks : list bytes) : bytes := concat (map frame chunks).

Lemma wire_cons b chunks :
  wire (b :: chunks) = be_bytes 4 (blen (lz4_compress b)) ++ lz4_compress b ++ wire chunks.
Proof. unfold wire. simpl. unfold frame. by rewrite <- app_assoc. Qed.

(** A burst as [compress_and_forward] reads it. *)
Definition chunk_ok (b : bytes) : Prop := b <> [] /\ (length b <= BUF_LEN)%nat.

Lemma chunk_len_u32 b : chunk_ok b -> 0 <= blen (lz4_compress b) < 2 ^ 32.
Proof. intros [_ Hb]. pose proof (lz4_compress_length b Hb). unfold blen. lia. Qed.

Lemma compress_loop_spec fuel r w :
  (reader_len r < fuel)%nat -> accepting w ->
  exists chunks, concat chunks = concat (bursts r) /\ Forall chunk_ok chunks /\
    compress_loop fuel r w =
      Some (match ending r with
            | None => (Ok tt, finished (append w (wire chunks)))
            | Some e => (Err e, append w (wire chunks))
            end).
Proof.
  revert r w. induction fuel as [|fuel IH]; intros r w Hf Hw; [lia|].
  cbn [compress_loop]. unfold compress_step. destruct (read_cases BUF_LEN r) as [[Hnil Hres]|H]; [by unfold BUF_LEN; lia|..].
  - exists []. split; [by rewrite Hnil|]. split; [done|].
    change (wire []) with (@nil byte). rewrite append_nil.
    destruct (read BUF_LEN r) as [res r']. simpl in Hres. subst res.
    destruct (ending r); [done|]. by rewrite shutdown_accepting.
  - destruct H as (buf & r' & Hread & Hne & Hlen & Hcat & Hend). rewrite Hread.
    destruct buf as [|x buf]; [done|].
    assert (Hc : chunk_ok (x :: buf)) by done.
    rewrite write_all_accepting, write_all_accepting by auto with tunnel.
    unfold as_u32. rewrite Z.mod_small by by apply chunk_len_u32.
    destruct (IH r' (append (append w (be_bytes 4 (blen (lz4_compress (x :: buf)))))
      (lz4_compress (x :: buf)))) as (chunks & Hchunks & Hok & Hrun).
    { unfold reader_len in *. rewrite Hcat, length_app in Hf. simpl in Hf. lia. }
    { auto with tunnel. }
    exists ((x :: buf) :: chunks). split; [by simpl; rewrite Hchunks, Hcat|].
    split; [by constructor|]. rewrite Hrun, Hend, !append_app, wire_cons. done.
Qed.

Lemma decompress_loop_frame fuel r w b rest :
  concat (bursts r) = frame b ++ rest -> chunk_ok b -> accepting w ->
  decompress_loop (S fuel) r w = decompress_loop fuel (mkReader [rest] (ending r)) (append w b).
Proof.
  intros Hr Hb Hw. cbn [decompress_loop]. unfold decompress_step. unfold frame in Hr. rewrite <- app_assoc in Hr.
  rewrite (read_exact_app 4 _ _ _ Hr) by apply length_be_bytes.
  rewrite from_be_bytes_be_bytes by by apply chunk_len_u32.
  erewrite (read_exact_app _ (lz4_compress b) rest).
  2: { simpl. by rewrite app_nil_r. }
  2: { unfold blen. by rewrite Nat2Z.id. }
  rewrite lz4_roundtrip.
  - by rewrite write_all_accepting.
  - destruct Hb as [_ Hb]. unfold BUF_LEN, MAX_DECOMPRESSED in *. lia.
Qed.

Lemma length_frame b : (4 <= length (frame b))%nat.
Proof. unfold frame. rewrite length_app, length_be_bytes. lia. Qed.

Lemma decompress_loop_wire chunks fuel r w tail :
  concat (bursts r) = wire chunks ++ tail -> Forall chunk_ok chunks -> accepting w ->
  (reader_len r < fuel)%nat ->
  exists fuel', (length tail < fuel')%nat /\
    decompress_loop fuel r w =
      decompress_loop fuel' (mkReader [tail] (ending r)) (append w (concat chunks)) .
Proof.
  revert fuel r w. induction chunks as [|b chunks IH]; intros fuel r w Hr Hok Hw Hf.
  - unfold reader_len in Hf. rewrite Hr in Hf. exists fuel. split; [done|]. simpl in *.
    rewrite append_nil. destruct fuel as [|fuel]; [lia|]. cbn [decompress_loop]. unfold decompress_step.
    unfold read_exact. rewrite Hr. simpl. by rewrite app_nil_r.
  - inversion Hok as [|? ? Hb Hok']; subst.
    change (wire (b :: chunks)) with (frame b ++ wire chunks) in Hr. rewrite <- app_assoc in Hr. unfold reader_len in Hf. rewrite Hr in Hf.
    rewrite length_app in Hf. pose proof (length_frame b).
    destruct fuel as [|fuel]; [lia|]. rewrite (decompress_loop_frame _ _ _ _ _ Hr Hb Hw).
    destruct (IH fuel (mkReader [wire chunks ++ tail] (ending r)) (append w b)) as (f' & Hf' & ->).
    + simpl. by rewrite app_nil_r.
    + done.
    + auto with tunnel.
    + unfold reader_len. simpl. rewrite app_nil_r. lia.
    + exists f'. split; [done|]. by rewrite append_app.
Qed.

End FramingFacts.

Section FramingTruncation.
Context {L : Lz4} {LL : Lz4Laws L}.

(** What is left of a frame that the stream cuts short. *)
Lemma decompress_loop_cut fuel tail b e w :
  tail `prefix_of` frame b -> tail <> frame b -> chunk_ok b -> accepting w ->
  (length tail < fuel)%nat ->
  decompress_loop fuel (mkReader [tail] e) w =
    Some (if (length tail <? 4)%nat
          then if decide (default UnexpectedEof e = UnexpectedEof)
               then (Ok tt, finished w) else (Err (default UnexpectedEof e), w)
          else (Err (default UnexpectedEof e), w)).
Proof.
  intros [suf Hsuf] Hne Hb Hw Hf. destruct fuel as [|fuel]; [lia|]. cbn [decompress_loop]. unfold decompress_step.
  assert (Hs : suf <> []) by (intros ->; rewrite app_nil_r in Hsuf; done).
  destruct (Nat.ltb_spec (length tail) 4) as [Hlt|Hge].
  - rewrite read_exact_short by (unfold reader_len; simpl; rewrite app_nil_r; lia).
    simpl. case_decide; [|done]. by rewrite shutdown_accepting.
  - set (hd := be_bytes 4 (blen (lz4_compress b))).
    assert (Hhd : length hd = 4%nat) by apply length_be_bytes.
    assert (Ht : tail = hd ++ drop 4 tail).
    { rewrite <- (take_drop 4 tail) at 1. f_equal. unfold frame in Hsuf. fold hd in Hsuf.
      apply (f_equal (take 4)) in Hsuf.
      rewrite (take_app_length' hd) in Hsuf by done. rewrite take_app_le in Hsuf by done. done. }
    rewrite (read_exact_app 4 hd (drop 4 tail)) by (simpl; rewrite ?app_nil_r; done).
    unfold hd. rewrite from_be_bytes_be_bytes by by apply chunk_len_u32.
    rewrite read_exact_short; [done|]. unfold reader_len, blen. simpl.
    rewrite app_nil_r, Nat2Z.id. apply (f_equal length) in Hsuf.
    unfold frame in Hsuf. fold hd in Hsuf. rewrite !length_app, Hhd in Hsuf.
    rewrite length_drop. destruct suf; [done|]. simpl in Hsuf. lia.
Qed.

(** Every prefix of the wire is some whole frames and a proper part of the next. *)
Lemma wire_prefix p chunks :
  p `prefix_of` wire chunks ->
  exists (cs1 cs2 : list bytes) (tail : bytes), chunks = cs1 ++ cs2 /\ p = wire cs1 ++ tail /\
    match cs2 with
    | [] => tail = []
    | c :: _ => tail `prefix_of` frame c /\ tail <> frame c
    end.
Proof.
  revert p. induction chunks as [|c chunks IH]; intros p Hp.
  - apply prefix_nil_inv in Hp. subst. by exists [], [], [].
  - change (wire (c :: chunks)) with (frame c ++ wire chunks) in Hp.
    destruct (decide (frame c `prefix_of` p)) as [[q ->]|Hno].
    + apply prefix_app_inv in Hp. destruct (IH q Hp) as (cs1 & cs2 & tail & -> & -> & Ht).
      exists (c :: cs1), cs2, tail. split; [done|]. split; [|done].
      change (wire (c :: cs1)) with (frame c ++ wire cs1). by rewrite app_assoc.
    + exists [], (c :: chunks), p. split; [done|]. split; [done|].
      destruct (prefix_weak_total p (frame c) (frame c ++ wire chunks)) as [H|H];
        [done|by apply prefix_app_r|..]; [|done].
      split; [done|]. intros ->. by apply Hno.
Qed.

End FramingTruncation.

(** ** Termination *)

Section FramingTermination.
Context {L : Lz4}.

Lemma compress_loop_total fuel r w : (reader_len r < fuel)%nat -> is_Some (compress_loop fuel r w).
Proof.
  revert r w. induction fuel as [|fuel IH]; intros r w Hf; [lia|]. cbn [compress_loop]. unfold compress_step.
  destruct (read_cases BUF_LEN r) as [[_ Hres]|(buf & r' & -> & Hne & _ & Hcat & _)];
    [by unfold BUF_LEN; lia|..].
  - destruct (read BUF_LEN r) as [res r']. simpl in Hres. subst res. by destruct (ending r).
  - destruct buf as [|x buf]; [done|].
    destruct (write_all _ w) as [[] w1]; [|eauto..].
    destruct (write_all _ w1) as [[] w2]; [|eauto..].
    apply IH. unfold reader_len in *. rewrite Hcat, length_app in Hf. simpl in Hf. lia.
Qed.

Lemma read_exact_ok_len n r bs r' :
  read_exact n r = (Ok bs, r') -> (reader_len r = n + reader_len r')%nat.
Proof.
  unfold read_exact, reader_len. case_match eqn:E; [|done]. intros [= <- <-].
  apply Nat.leb_le in E. simpl. rewrite app_nil_r, length_drop. lia.
Qed.

Lemma decompress_loop_total fuel r w :
  (reader_len r < fuel)%nat -> is_Some (decompress_loop fuel r w).
Proof.
  revert r w. induction fuel as [|fuel IH]; intros r w Hf; [lia|]. cbn [decompress_loop]. unfold decompress_step.
  destruct (read_exact 4 r) as [[lb|e|] r1] eqn:E1; [|case_decide; eauto|eauto].
  destruct (read_exact _ r1) as [[cb|e|] r2] eqn:E2; [|eauto..].
  destruct (lz4_decompress cb _); [|eauto].
  destruct (write_all _ w) as [[] w1]; [|eauto..].
  apply IH. apply read_exact_ok_len in E1, E2. lia.
Qed.

(** *** The bridge *)

Definition turns (d : direction) (sched : list direction) : nat := length (filter (fun d' => d' = d) sched).

Definition run_forward (fuel : nat) (t : task) : option (result io_error unit * writer) :=
  match t with Running r w => compress_loop fuel r w | Finished res w => Some (res, w) end.

Definition run_backward (fuel : nat) (t : task) : option (result io_error unit * writer) :=
  match t with Running r w => decompress_loop fuel r w | Finished res w => Some (res, w) end.

Lemma run_forward_poll fuel t out :
  run_forward fuel t = Some out -> run_forward (pred fuel) (compress_poll t) = Some out.
Proof. destruct t as [r w|]; [|done]. destruct fuel; [done|]. simpl. by destruct (compress_step r w). Qed.

Lemma run_backward_poll fuel t out :
  run_backward fuel t = Some out -> run_backward (pred fuel) (decompress_poll t) = Some out.
Proof. destruct t as [r w|]; [|done]. destruct fuel; [done|]. simpl. by destruct (decompress_step r w). Qed.

(** What the bridge gives when its directions alone would give [f] and [b]. *)
Definition joined (f b : result io_error unit * writer) (out : result io_error unit * task * task) : Prop :=
  let '(res, fwd, bwd) := out in
  if is_ok f.1 && is_ok b.1 then res = Ok tt /\ fwd = resolve f /\ bwd = resolve b
  else is_ok res = false /\ (res = f.1 \/ res = b.1).

Lemma try_join_outcome sched fwd bwd nf nb f b :
  run_forward nf fwd = Some f -> run_backward nb bwd = Some b ->
  (nf <= turns Forward sched)%nat -> (nb <= turns Backward sched)%nat ->
  exists out, try_join sched fwd bwd = Some out /\ joined f b out.
Proof.
  revert fwd bwd nf nb. induction sched as [|d sched IH]; intros fwd bwd nf nb Hf Hb Hnf Hnb.
  - unfold turns in *. simpl in *. destruct nf, nb; [|lia..].
    destruct fwd as [|[[]| |] ?], bwd as [|[[]| |] ?]; simplify_eq/=; eexists; split; [done|naive_solver..].
  - assert (Hrec : forall nf' nb' fwd' bwd', run_forward nf' fwd' = Some f -> run_backward nb' bwd' = Some b ->
      (nf' <= turns Forward sched)%nat -> (nb' <= turns Backward sched)%nat ->
      exists out, try_join sched fwd' bwd' = Some out /\ joined f b out) by eauto.
    assert (Hnext : exists out, match d with
        | Forward => try_join sched (compress_poll fwd) bwd
        | Backward => try_join sched fwd (decompress_poll bwd)
        end = Some out /\ joined f b out).
    { unfold turns in *. destruct d; rewrite !filter_cons in Hnf, Hnb; simpl in Hnf, Hnb.
      - apply (Hrec (pred nf) nb); [by apply run_forward_poll|done|lia..].
      - apply (Hrec nf (pred nb)); [done|by apply run_backward_poll|lia..]. }
    destruct fwd as [|[[]| |] ?], bwd as [|[[]| |] ?]; simplify_eq/=; try exact Hnext;
      eexists; (split; [done|]); simpl; rewrite ?andb_false_r; naive_solver.
Qed.

End FramingTermination.

(** ** Properties *)

Definition open_writer : writer := mkWriter [] None None false.

Lemma forwarding_terminates {L : Lz4} r w :
  is_Some (compress_and_forward r w) /\ is_Some (decompress_and_forward r w).
Proof. split; [apply compress_loop_total|apply decompress_loop_total]; lia. Qed.

(** C3: a bridge ends, whatever its streams and writers do, and its result is
    that of its two directions. In every order in which they make progress, if
    each gets more turns than its stream has bytes: both directions alone end,
    the bridge succeeds exactly when both do, and has then done all that they
    do alone; otherwise it fails with the error of a failing direction. *)
Theorem bridge_ends {L : Lz4} sched tcp_recv iroh_send iroh_recv tcp_send :
  (reader_len tcp_recv < turns Forward sched)%nat -> (reader_len iroh_recv < turns Backward sched)%nat ->
  exists f b out,
    compress_and_forward tcp_recv iroh_send = Some f /\
    decompress_and_forward iroh_recv tcp_send = Some b /\
    bridge_compressed sched tcp_recv iroh_send iroh_recv tcp_send = Some out /\ joined f b out.
Proof.
  intros Hf Hb.
  destruct (proj1 (forwarding_terminates tcp_recv iroh_send)) as [f Ef].
  destruct (proj2 (forwarding_terminates iroh_recv tcp_send)) as [b Eb].
  destruct (try_join_outcome sched (Running tcp_recv iroh_send) (Running iroh_recv tcp_send)
    (S (reader_len tcp_recv)) (S (reader_len iroh_recv)) f b) as (out & Hout & Hj); [done..|].
  eauto 10.
Qed.

Lemma bridge_ends_witness :
  exists f b out,
    @compress_and_forward stored_blocks (mkReader [[Byte.x07]] None) open_writer = Some f /\
    @decompress_and_forward stored_blocks (mkReader [] None) open_writer = Some b /\
    @bridge_compressed stored_blocks [Backward; Forward; Forward] (mkReader [[Byte.x07]] None) open_writer
      (mkReader [] None) open_writer = Some out /\ joined f b out.
Proof. apply (@bridge_ends stored_blocks); vm_compute; lia. Defined.

(** C1: the tunnel carries a TCP stream unchanged. Whatever the bursts in which
    the bytes are read on one side and in which the compressed frames arrive on
    the other, the far side writes exactly the bytes that were sent, in order,
    closes its writer, and both loops end without error. *)
Theorem tunnel_roundtrip {L : Lz4} {LL : Lz4Laws L} r w1 w2 :
  ending r = None -> accepting w1 -> written w1 = [] -> accepting w2 ->
  exists w1', compress_and_forward r w1 = Some (Ok tt, w1') /\ closed w1' = true /\
    forall r', concat (bursts r') = written w1' -> ending r' = None ->
      decompress_and_forward r' w2 = Some (Ok tt, finished (append w2 (concat (bursts r)))).
Proof.
  intros He Hw1 Hnil Hw2.
  destruct (compress_loop_spec (S (reader_len r)) r w1) as (chunks & Hcat & Hok & Hrun); [lia|done|].
  rewrite He in Hrun. eexists. split; [exact Hrun|]. split; [done|].
  intros r' Hr' He'. simpl in Hr'. rewrite Hnil in Hr'. simpl in Hr'.
  destruct (decompress_loop_wire chunks (S (reader_len r')) r' w2 []) as (f & Hf & Hrun').
  - by rewrite app_nil_r.
  - done.
  - done.
  - lia.
  - unfold decompress_and_forward. rewrite Hrun', Hcat, He'. destruct f as [|f]; [simpl in Hf; lia|].
    cbn [decompress_loop]. unfold decompress_step. simpl. by rewrite shutdown_accepting by auto with tunnel.
Qed.

Lemma tunnel_roundtrip_witness :
  exists w1', @compress_and_forward stored_blocks
      (mkReader [[Byte.x01; Byte.x02]; [Byte.x03]] None) open_writer = Some (Ok tt, w1') /\
    @decompress_and_forward stored_blocks (mkReader [written w1'] None) open_writer =
      Some (Ok tt, finished (append open_writer [Byte.x01; Byte.x02; Byte.x03])).
Proof.
  destruct (@tunnel_roundtrip stored_blocks stored_blocks_laws
    (mkReader [[Byte.x01; Byte.x02]; [Byte.x03]] None) open_writer open_writer)
    as (w1' & H1 & _ & H2); [done..|].
  exists w1'. split; [done|]. apply H2; [|done]. simpl. apply app_nil_r.
Defined.

(** C2: a connection that dies part-way never corrupts the stream. When only a
    prefix of what the sender wrote arrives, and the stream then ends in any
    way, the receiver has written a prefix of the bytes that were sent. *)
Theorem tunnel_prefix_safe {L : Lz4} {LL : Lz4Laws L} r w1 w1' w2 p r' :
  ending r = None -> accepting w1 -> written w1 = [] -> accepting w2 ->
  compress_and_forward r w1 = Some (Ok tt, w1') ->
  p `prefix_of` written w1' -> concat (bursts r') = p ->
  exists res w2' out, decompress_and_forward r' w2 = Some (res, w2') /\ res <> Panic /\
    written w2' = written w2 ++ out /\ out `prefix_of` concat (bursts r).
Proof.
  intros He Hw1 Hnil Hw2 Hcomp Hp Hr'.
  destruct (compress_loop_spec (S (reader_len r)) r w1) as (chunks & Hcat & Hok & Hrun); [lia|done|].
  unfold compress_and_forward in Hcomp. rewrite Hrun, He in Hcomp. injection Hcomp as <-.
  simpl in Hp. rewrite Hnil in Hp. simpl in Hp.
  apply wire_prefix in Hp as (cs1 & cs2 & tail & Hcs & Hsplit & Ht). subst chunks p.
  apply Forall_app in Hok as [Hok1 Hok2].
  destruct (decompress_loop_wire cs1 (S (reader_len r')) r' w2 tail Hr' Hok1 Hw2) as (f & Hf & Hrun');
    [lia|]. unfold decompress_and_forward. rewrite Hrun'.
  assert (Hpre : concat cs1 `prefix_of` concat (bursts r)).
  { rewrite <- Hcat, concat_app. by apply prefix_app_r. }
  destruct cs2 as [|c cs2].
  - subst tail. destruct f as [|f]; [simpl in Hf; lia|]. cbn [decompress_loop]. unfold decompress_step. simpl.
    case_decide; rewrite ?shutdown_accepting by auto with tunnel;
      eexists _, _, (concat cs1); by split_and!.
  - destruct Ht as [Ht Hne]. inversion Hok2; subst.
    rewrite (decompress_loop_cut _ _ _ _ _ Ht Hne) by auto with tunnel.
    destruct (length tail <? 4)%nat; [case_decide|];
      eexists _, _, (concat cs1); by split_and!.
Qed.

Lemma tunnel_prefix_safe_witness :
  exists res w2' out, @decompress_and_forward stored_blocks
      (mkReader [[Byte.x00; Byte.x00; Byte.x00; Byte.x02; Byte.x01]] None) open_writer = Some (res, w2') /\
    res <> Panic /\ written w2' = [] ++ out /\ out `prefix_of` [Byte.x01; Byte.x02].
Proof.
  apply (@tunnel_prefix_safe stored_blocks stored_blocks_laws
    (mkReader [[Byte.x01; Byte.x02]] None) open_writer
    (finished (append open_writer
      [Byte.x00; Byte.x00; Byte.x00; Byte.x02; Byte.x01; Byte.x02])) open_writer
    [Byte.x00; Byte.x00; Byte.x00; Byte.x02; Byte.x01]); try done.
  exists [Byte.x02]. reflexivity.
Defined.

(** A stream cut inside the 4-byte length of a frame is reported as a clean
    end: the frame is lost, the receiver closes its writer and returns [Ok]. *)
Theorem tunnel_cut_in_length_is_clean_end {L : Lz4} {LL : Lz4Laws L} chunks c k r w :
  Forall chunk_ok chunks -> chunk_ok c -> (k < 4)%nat -> accepting w ->
  concat (bursts r) = wire chunks ++ take k (frame c) -> ending r = None ->
  decompress_and_forward r w = Some (Ok tt, finished (append w (concat chunks))).
Proof.
  intros Hok Hc Hk Hw Hr He. pose proof (length_frame c) as Hlen.
  assert (Hl : length (take k (frame c)) = k) by (rewrite length_take; lia).
  destruct (decompress_loop_wire chunks (S (reader_len r)) r w _ Hr Hok Hw) as (f & Hf & Hrun); [lia|].
  unfold decompress_and_forward. rewrite Hrun, He.
  rewrite (decompress_loop_cut _ _ c) by
    (auto using prefix_take with tunnel; intros Heq; rewrite Heq in Hl; lia).
  rewrite Hl. by destruct (Nat.ltb_spec k 4); [|lia].
Qed.

Lemma tunnel_cut_in_length_is_clean_end_witness :
  @decompress_and_forward stored_blocks (mkReader [[Byte.x00; Byte.x00]] None) open_writer =
    Some (Ok tt, finished open_writer).
Proof.
  apply (@tunnel_cut_in_length_is_clean_end stored_blocks stored_blocks_laws []
    [Byte.x01] 2 (mkReader [[Byte.x00; Byte.x00]] None) open_writer); try done.
  - split; [done|]. unfold BUF_LEN. simpl. lia.
  - lia.
Defined.
