(* ===== verification/TunnelClient.v ===== *)
(** * The tunnel client

    [iroh/examples/tunnel-send.rs]: the command line, the cached connection
    ([TunnelSession]), the retry loop that opens a stream for every accepted
    TCP connection, and the concurrent use of the cache by the forwarding
    tasks. Connecting, opening a stream and JSON parsing are parameters. *)

From S2P Require Import Prelude External TunnelFraming.

(** ** The command line *)

Inductive arg_error :=
| HelpExit                         (* prints the usage and exits with 0 *)
| MissingValue (option_name : string)
| InvalidServerAddr
| InvalidEndpointId
| UnknownOption (arg : string).

(** [str::as_bytes]. *)
Definition str_bytes (s : string) : bytes := String.list_byte_of_string s.

Definition default_alpn : bytes := str_bytes "ranyitech.com/port-forwarding/v1".

Definition is_help (a : string) : bool := (a =? "-h")%string || (a =? "--help")%string.

Section ClientArgs.
Context {EndpointAddr : Type} (from_json : string -> option EndpointAddr).

Record ClientArgs := mkClientArgs {
  server_addr : EndpointAddr;
  expose_local_port : string;
  client_alpn : bytes
}.

(** The [while i < args.len()] loop; the list is [args[i..]]. *)
Fixpoint parse_client_opts (addr : EndpointAddr) (port : string) (alpn : bytes) (args : list string)
    : result arg_error ClientArgs :=
  match args with
  | [] => Ok (mkClientArgs addr port alpn)
  | a :: rest =>
      if (a =? "--")%string then parse_client_opts addr port alpn rest
      else if (a =? "--expose-port")%string || (a =? "-p")%string then
        match rest with
        | v :: rest => parse_client_opts addr v alpn rest
        | [] => Err (MissingValue "--expose-port")
        end
      else if (a =? "--alpn")%string || (a =? "-a")%string then
        match rest with
        | v :: rest => parse_client_opts addr port (str_bytes v) rest
        | [] => Err (MissingValue "--alpn")
        end
      else Err (UnknownOption a)
  end.

Definition parse_client_args (args : list string) : result arg_error ClientArgs :=
  if (length args <? 2)%nat || existsb is_help args then Err HelpExit
  else
    match args with
    | _ :: addr_json :: rest =>
        let? server_addr := ok_or (from_json addr_json) InvalidServerAddr in
        parse_client_opts server_addr "0.0.0.0:15444" default_alpn rest
    | _ => Panic
    end.

End ClientArgs.

(** ** One forwarding task *)

Section ForwardTask.
Context {Connection Streams : Type}.

(** What the network does at the [i]-th attempt: [Endpoint::connect], and
    [open_bi] on a connection. *)
Variable connect_at : nat -> option Connection.
Variable open_bi_at : nat -> Connection -> option Streams.

(** [TunnelSession::get_connection]: the cached connection, or a new one. The
    second component is [active_conn] after the call. *)
Definition get_connection (active : option Connection) (connect : option Connection)
    : option Connection * option Connection :=
  match active with
  | Some conn => (Some conn, active)
  | None =>
      match connect with
      | Some conn => (Some conn, Some conn)
      | None => (None, None)
      end
  end.

(** [TunnelSession::invalidate_connection]. *)
Definition invalidate_connection (active : option Connection) : option Connection := None.

Definition MAX_RETRIES : nat := 10.

(** [std::cmp::min(100 * (1 << (retries - 1)), 2000)]. *)
Definition delay_ms (retries : nat) : Z :=
  Z.min (100 * Z.shiftl 1 (Z.of_nat (retries - 1))) 2000.

(** The loop of [forward_tcp_over_iroh]: its result, the cached connection and
    the sleeps in milliseconds. *)
Fixpoint open_stream_loop (fuel retries : nat) (active : option Connection) (sleeps : list Z)
    : option (result io_error Streams * option Connection * list Z) :=
  match fuel with
  | O => None
  | S fuel =>
      let retries := S retries in
      let (conn, active) := get_connection active (connect_at retries) in
      match conn with
      | Some conn =>
          match open_bi_at retries conn with
          | Some streams => Some (Ok streams, active, sleeps)
          | None =>
              if (MAX_RETRIES <=? retries)%nat
              then Some (Err ConnectionReset, active, sleeps)
              else open_stream_loop fuel retries (invalidate_connection active)
                     (sleeps ++ [delay_ms retries])
          end
      | None =>
          if (MAX_RETRIES <=? retries)%nat
          then Some (Err ConnectionAborted, active, sleeps)
          else open_stream_loop fuel retries active (sleeps ++ [delay_ms retries])
      end
  end.

Definition open_stream (active : option Connection)
    : option (result io_error Streams * option Connection * list Z) :=
  open_stream_loop MAX_RETRIES 0 active [].

(** [forward_tcp_over_iroh] around the loop: the permit, [set_nodelay], the
    loop, the bridge. [permit] is [None] when the semaphore is closed;
    [stream_ends] are the two ends of the opened stream. *)
Definition forward_tcp_over_iroh {L : Lz4} (stream_ends : Streams -> writer * reader)
    (permit : option unit) (set_nodelay : result io_error unit) (sched : list direction)
    (tcp_recv : reader) (tcp_send : writer) (active : option Connection)
    : option (result io_error unit * option Connection) :=
  match permit, set_nodelay with
  | None, _ => Some (Err (OtherIo 0), active)
  | Some _, Ok _ =>
      match open_stream active with
      | Some (Ok streams, active, _) =>
          let (iroh_send, iroh_recv) := stream_ends streams in
          match bridge_compressed sched tcp_recv iroh_send iroh_recv tcp_send with
          | Some (res, _, _) => Some (res, active)
          | None => None
          end
      | Some (Err e, active, _) => Some (Err e, active)
      | Some (Panic, active, _) => Some (Panic, active)
      | None => None
      end
  | Some _, Err e => Some (Err e, active)
  | Some _, Panic => Some (Panic, active)
  end.

(** ** Lemmas *)

(** The outcome of the [i]-th attempt when every earlier one failed: only the
    first may use the connection that was cached before. *)
Definition attempt (active : option Connection) (i : nat) : option Streams :=
  match (if (i =? 1)%nat then active else None) with
  | Some conn => open_bi_at i conn
  | None =>
      match connect_at i with
      | Some conn => open_bi_at i conn
      | None => None
      end
  end.

Definition delays (n : nat) : list Z := map delay_ms (seq 1 n).

Lemma delays_S n : delays (S n) = delays n ++ [delay_ms (S n)].
Proof. unfold delays. rewrite seq_S, map_app. done. Qed.

(** Whether a failed attempt [i] is the last and which error it gives. *)
Definition loop_post (active0 : option Connection) (k : nat)
    (out : option (result io_error Streams * option Connection * list Z)) : Prop :=
  (exists n s act, (k < n <= MAX_RETRIES)%nat /\
     (forall j, (k < j < n)%nat -> attempt active0 j = None) /\
     attempt active0 n = Some s /\ out = Some (Ok s, act, delays (n - 1))) \/
  ((forall j, (k < j <= MAX_RETRIES)%nat -> attempt active0 j = None) /\
   exists act e, out = Some (Err e, act, delays (MAX_RETRIES - 1)) /\
     (e = ConnectionReset \/ e = ConnectionAborted)).

Lemma loop_post_step active0 k out :
  (k < MAX_RETRIES)%nat -> attempt active0 (S k) = None ->
  loop_post active0 (S k) out -> loop_post active0 k out.
Proof.
  intros Hk Hnone [(n & s & act & Hn & Hall & Hs & Hout)|[Hall Hout]].
  - left. exists n, s, act. split; [lia|]. split; [|done].
    intros j Hj. destruct (decide (j = S k)) as [->|]; [done|]. apply Hall. lia.
  - right. split; [|done]. intros j Hj.
    destruct (decide (j = S k)) as [->|]; [done|]. apply Hall. lia.
Qed.

Lemma open_stream_loop_spec active0 k active :
  (k < MAX_RETRIES)%nat -> active = (if (k =? 0)%nat then active0 else None) ->
  loop_post active0 k (open_stream_loop (MAX_RETRIES - k) k active (delays k)).
Proof.
  remember (MAX_RETRIES - k)%nat as fuel eqn:Hfuel. revert k active Hfuel.
  induction fuel as [|fuel IH]; intros k active Hfuel Hk Hactive; [lia|].
  cbn [open_stream_loop].
  assert (Hatt : attempt active0 (S k) =
    match (get_connection active (connect_at (S k))).1 with
    | Some conn => open_bi_at (S k) conn | None => None end).
  { unfold attempt. subst active. destruct k as [|k]; simpl.
    - by destruct active0; [|destruct (connect_at 1)].
    - by destruct (connect_at (S (S k))). }
  destruct (get_connection active (connect_at (S k))) as [conn active'] eqn:Hget.
  simpl in Hatt.
  assert (Hnext : attempt active0 (S k) = None -> (MAX_RETRIES <=? S k)%nat = false ->
    loop_post active0 k (open_stream_loop fuel (S k) None (delays k ++ [delay_ms (S k)]))).
  { intros Hn Hle. apply Nat.leb_gt in Hle. apply loop_post_step; [done..|].
    rewrite <- delays_S. apply IH; [lia..|done]. }
  assert (Hlast : forall e act, attempt active0 (S k) = None -> (MAX_RETRIES <=? S k)%nat = true ->
    e = ConnectionReset \/ e = ConnectionAborted -> loop_post active0 k (Some (Err e, act, delays k))).
  { intros e act Hn Hle He. apply Nat.leb_le in Hle. right. split.
    - intros j Hj. by replace j with (S k) by lia.
    - exists act, e. split; [|done]. by replace (MAX_RETRIES - 1)%nat with k by lia. }
  destruct conn as [conn|].
  - destruct (open_bi_at (S k) conn) as [s|].
    + left. exists (S k), s, active'. split; [lia|]. split; [lia|]. split; [done|].
      by replace (S k - 1)%nat with k by lia.
    + destruct (MAX_RETRIES <=? S k)%nat eqn:E; [by apply Hlast; auto|by apply Hnext].
  - assert (active' = None) as ->.
    { unfold get_connection in Hget. destruct active; [done|].
      by destruct (connect_at (S k)); inversion Hget. }
    destruct (MAX_RETRIES <=? S k)%nat eqn:E; [by apply Hlast; auto|by apply Hnext].
Qed.

End ForwardTask.

(** ** Concurrent tasks on one session

    Every accepted TCP connection is a task on the same [TunnelSession]. The
    phases follow the awaits of [get_connection], [open_bi] and
    [invalidate_connection]: the check under the read lock, the wait for the
    write lock, the second check and the connect under the write lock.
    Connections are numbered in the order they are made. *)

Module Session.

Inductive phase :=
| Start                    (* about to check under the read lock *)
| WantWrite                (* the cache was empty; waits for the write lock *)
| Holding                  (* holds the write lock *)
| Got (conn : nat)         (* [get_connection] returned this connection *)
| Invalidate (conn : nat)  (* [open_bi] failed; waits to clear the cache *)
| Backoff                  (* sleeps before the next attempt *)
| Bridging (conn : nat).

Record state := mkState {
  active_conn : option nat;
  write_lock : option nat;
  phases : gmap nat phase;
  connects : nat;
  invalidations : nat
}.

Definition init : state := mkState None None ∅ 0 0.

Definition goto (t : nat) (p : phase) (s : state) : state :=
  mkState (active_conn s) (write_lock s) (<[t := p]> (phases s)) (connects s) (invalidations s).

Inductive step : state -> state -> Prop :=
| step_spawn t s :
    phases s !! t = None -> step s (goto t Start s)
| step_read_hit t c s :
    phases s !! t = Some Start -> write_lock s = None -> active_conn s = Some c ->
    step s (goto t (Got c) s)
| step_read_miss t s :
    phases s !! t = Some Start -> write_lock s = None -> active_conn s = None ->
    step s (goto t WantWrite s)
| step_lock t s :
    phases s !! t = Some WantWrite -> write_lock s = None ->
    step s (mkState (active_conn s) (Some t) (<[t := Holding]> (phases s))
              (connects s) (invalidations s))
| step_recheck_hit t c s :
    phases s !! t = Some Holding -> active_conn s = Some c ->
    step s (mkState (active_conn s) None (<[t := Got c]> (phases s))
              (connects s) (invalidations s))
| step_connect t s :
    phases s !! t = Some Holding -> active_conn s = None ->
    step s (mkState (Some (S (connects s))) None (<[t := Got (S (connects s))]> (phases s))
              (S (connects s)) (invalidations s))
| step_connect_fails t s :
    phases s !! t = Some Holding -> active_conn s = None ->
    step s (mkState None None (<[t := Backoff]> (phases s)) (connects s) (invalidations s))
| step_open t c s :
    phases s !! t = Some (Got c) -> step s (goto t (Bridging c) s)
| step_open_fails t c s :
    phases s !! t = Some (Got c) -> step s (goto t (Invalidate c) s)
| step_invalidate t c s :
    phases s !! t = Some (Invalidate c) -> write_lock s = None ->
    step s (mkState None None (<[t := Backoff]> (phases s)) (connects s) (S (invalidations s)))
| step_retry t s :
    phases s !! t = Some Backoff -> step s (goto t Start s)
| step_finish t s :
    (phases s !! t = Some Backoff \/
     exists c, phases s !! t = Some (Bridging c) \/ phases s !! t = Some (Got c)) ->
    step s (mkState (active_conn s) (write_lock s) (delete t (phases s))
              (connects s) (invalidations s)).

Definition reachable (s : state) : Prop := rtc step init s.

(** The write lock is held by exactly the task in [Holding], and a connection
    is made only to replace one that was invalidated. *)
Record inv (s : state) : Prop := mkInv {
  inv_lock t : phases s !! t = Some Holding <-> write_lock s = Some t;
  inv_connects :
    (connects s + (if active_conn s is Some _ then 0 else 1) <= S (invalidations s))%nat
}.

Lemma session_inv_init : inv init.
Proof. split; simpl; [|lia]. intros t. by rewrite lookup_empty. Qed.

(** Moving a task between phases other than [Holding] keeps the lock clause. *)
Lemma lock_clause (ps : gmap nat phase) (l : option nat) t p :
  (forall u, ps !! u = Some Holding <-> l = Some u) -> l <> Some t -> p <> Holding ->
  forall u, <[t := p]> ps !! u = Some Holding <-> l = Some u.
Proof.
  intros H Hl Hp u. destruct (decide (t = u)) as [->|Hne].
  - rewrite lookup_insert_eq. split; [congruence|done].
  - by rewrite lookup_insert_ne.
Qed.

Lemma unlock_clause (ps : gmap nat phase) t p :
  (forall u, ps !! u = Some Holding <-> Some t = Some u) -> p <> Holding ->
  forall u, <[t := p]> ps !! u = Some Holding <-> None = Some u.
Proof.
  intros H Hp u. destruct (decide (t = u)) as [->|Hne].
  - rewrite lookup_insert_eq. split; congruence.
  - rewrite lookup_insert_ne, H by done. split; congruence.
Qed.

Lemma session_inv_step s s' : inv s -> step s s' -> inv s'.
Proof.
  intros [Hlock Hconn] Hstep.
  assert (Hnl : forall t p, phases s !! t = p -> p <> Some Holding -> write_lock s <> Some t).
  { intros t p Hp Hne Hl. apply Hlock in Hl. congruence. }
  assert (Hhold : forall t, phases s !! t = Some Holding -> write_lock s = Some t)
    by (intros t; apply Hlock).
  inversion Hstep; subst; clear Hstep; (split; [|simpl in *; repeat case_match; simplify_eq; lia]);
    simpl;
    try (eapply lock_clause; [done|by eapply Hnl|done]);
    try (match goal with H : phases s !! _ = Some Holding |- _ =>
           rewrite (Hhold _ H) in Hlock; by apply unlock_clause end).
  - (* step_lock *)
    intros u. destruct (decide (t = u)) as [->|Hne].
    + by rewrite lookup_insert_eq.
    + rewrite lookup_insert_ne, Hlock by done. split; congruence.
  - (* step_invalidate *)
    match goal with H : write_lock s = None |- _ => rewrite H in Hlock end.
    by apply lock_clause.
  - (* step_finish *)
    intros u. destruct (decide (t = u)) as [->|Hne].
    + rewrite lookup_delete_eq. split; [done|]. intros Hl. apply Hlock in Hl.
      destruct H as [H|[c [H|H]]]; congruence.
    + by rewrite lookup_delete_ne.
Qed.

Lemma session_reachable_inv s : reachable s -> inv s.
Proof. apply rtc_invariant; [apply session_inv_init|apply session_inv_step]. Qed.

End Session.

(** ** Properties *)

Definition total_sleep (sleeps : list Z) : Z := foldr Z.add 0 sleeps.

Lemma total_sleep_delays n : (n < MAX_RETRIES)%nat -> total_sleep (delays n) <= 11100.
Proof.
  unfold MAX_RETRIES. intros Hn.
  do 10 (destruct n as [|n]; [vm_compute; discriminate|]). lia.
Qed.

(** C4: opening a stream for a TCP connection always returns, after at most ten
    attempts: with the streams of the first attempt that succeeds, or with an
    error when all ten fail. Only the first attempt uses the connection that was
    cached before; every later one connects anew. The back-off is exactly
    [delay_ms] of the failed attempts and adds up to at most 11.1 s. *)
Theorem open_stream_retries {Connection Streams} (connect_at : nat -> option Connection)
    (open_bi_at : nat -> Connection -> option Streams) active :
  exists r act n, open_stream connect_at open_bi_at active = Some (r, act, delays n) /\
    total_sleep (delays n) <= 11100 /\
    ((exists s, r = Ok s /\ (n < 10)%nat /\ attempt connect_at open_bi_at active (S n) = Some s /\
        forall j, (1 <= j <= n)%nat -> attempt connect_at open_bi_at active j = None) \/
     ((r = Err ConnectionReset \/ r = Err ConnectionAborted) /\ n = 9%nat /\
        forall j, (1 <= j <= 10)%nat -> attempt connect_at open_bi_at active j = None)).
Proof.
  destruct (open_stream_loop_spec connect_at open_bi_at active 0 active)
    as [(n & s & act & Hn & Hall & Hs & Hout)|[Hall (act & e & Hout & He)]]; [unfold MAX_RETRIES; lia|done|..].
  - exists (Ok s), act, (n - 1)%nat. unfold MAX_RETRIES in *. split; [exact Hout|].
    split; [apply total_sleep_delays; unfold MAX_RETRIES; lia|]. left. exists s.
    split; [done|]. split; [lia|]. replace (S (n - 1)) with n by lia.
    split; [done|]. intros j Hj. apply Hall. lia.
  - exists (Err e), act, 9%nat. split; [exact Hout|]. split; [by apply total_sleep_delays; unfold MAX_RETRIES; lia|].
    right. split; [destruct He as [-> | ->]; auto|]. split; [done|]. intros j Hj. apply Hall. unfold MAX_RETRIES. lia.
Qed.

(** C5: however many forwarding tasks run at once and however they interleave,
    they share one connection: a new one is made only after the previous one was
    invalidated, and at most one task connects at a time. *)
Theorem session_shares_connection s :
  Session.reachable s ->
  (Session.connects s <= S (Session.invalidations s))%nat /\
  forall t u, Session.phases s !! t = Some Session.Holding ->
    Session.phases s !! u = Some Session.Holding -> t = u.
Proof.
  intros H. apply Session.session_reachable_inv in H as [Hlock Hconn]. split; [case_match; lia|].
  intros t u Ht Hu. apply Hlock in Ht, Hu. congruence.
Qed.

(** Two tasks, one connection, both opens fail. *)
Definition two_tasks : Session.state :=
  Session.mkState (Some 1%nat) None {[1%nat := Session.Got 1; 2%nat := Session.Got 1]} 1 0.

Lemma two_tasks_reachable : Session.reachable two_tasks.
Proof.
  unfold Session.reachable.
  eapply rtc_l; [by apply (Session.step_spawn 1)|]. eapply rtc_l; [by apply (Session.step_spawn 2)|].
  eapply rtc_l; [by apply (Session.step_read_miss 1)|]. eapply rtc_l; [by apply (Session.step_lock 1)|].
  eapply rtc_l; [by apply (Session.step_connect 1)|]. eapply rtc_l; [by apply (Session.step_read_hit 2 1)|].
  match goal with |- rtc _ ?s _ => replace s with two_tasks; [apply rtc_refl|] end.
  reflexivity.
Qed.

Lemma session_shares_connection_witness :
  (Session.connects two_tasks <= S (Session.invalidations two_tasks))%nat.
Proof. apply (session_shares_connection two_tasks two_tasks_reachable). Defined.

(** [invalidate_connection] clears whatever connection is cached. A task
    whose stream failed on connection 1 can so drop connection 2, which another
    task has made in the meantime and on which nothing has failed. *)
Theorem invalidate_can_drop_newer_connection :
  exists s s' t, Session.reachable s /\ Session.step s s' /\
    Session.phases s !! t = Some (Session.Invalidate 1) /\
    Session.active_conn s = Some 2%nat /\ Session.active_conn s' = None.
Proof.
  eexists _, _, 2%nat. split; [|split; [|split; [|split]]].
  - unfold Session.reachable. etrans; [apply two_tasks_reachable|]. unfold two_tasks.
    eapply rtc_l; [by apply (Session.step_open_fails 1 1)|].
    eapply rtc_l; [by apply (Session.step_open_fails 2 1)|].
    eapply rtc_l; [by apply (Session.step_invalidate 1 1)|].
    eapply rtc_l; [by apply (Session.step_retry 1)|].
    eapply rtc_l; [by apply (Session.step_read_miss 1)|].
    eapply rtc_l; [by apply (Session.step_lock 1)|].
    eapply rtc_l; [by apply (Session.step_connect 1)|]. apply rtc_refl.
  - by apply (Session.step_invalidate 2 1).
  - done.
  - done.
  - done.
Qed.
