(* ===== verification/TunnelServer.v ===== *)
(** * The tunnel server

    [iroh/examples/tunnel-listen.rs]: the key file, the command line with the
    whitelist, the handler that admits connections and spawns one bridge per
    stream under a semaphore, and the loop that connects a bridge to the local
    service. *)

From S2P Require Import Prelude External Instances Keys TunnelFraming TunnelClient.

(** ** Strings: [str::split(',')] and [str::trim] *)

(** The UTF-8 encodings of the code points with the [White_Space] property. *)
Definition white_space : list bytes :=
  map (fun z => be_bytes 1 z) [9; 10; 11; 12; 13; 32] ++
  map (fun z => be_bytes 2 z) [49797; 49824] ++
  map (fun z => be_bytes 3 z)
    ([14785152] ++ map (fun i => 14844032 + Z.of_nat i) (seq 0 11) ++
     [14844072; 14844073; 14844079; 14844319; 14909568]).

(** Remove [p] from the front. *)
Fixpoint strip_prefix (p s : bytes) : option bytes :=
  match p, s with
  | [], _ => Some s
  | x :: p, y :: s => if decide (x = y) then strip_prefix p s else None
  | _ :: _, [] => None
  end.

(** One white-space character off the front, if there is one. *)
Definition strip_white (ws : list bytes) (s : bytes) : option bytes :=
  foldr (fun w acc => match strip_prefix w s with Some s' => Some s' | None => acc end) None ws.

Fixpoint trim_start_fuel (ws : list bytes) (fuel : nat) (s : bytes) : bytes :=
  match fuel with
  | O => s
  | S fuel =>
      match strip_white ws s with
      | Some s' => trim_start_fuel ws fuel s'
      | None => s
      end
  end.

Definition trim (s : string) : string :=
  let s := str_bytes s in
  let s := trim_start_fuel white_space (length s) s in
  String.string_of_list_byte
    (rev (trim_start_fuel (map (@rev byte) white_space) (length s) (rev s))).

Definition split_comma (s : string) : list string := str_split (Ascii.ascii_of_nat 44) s.

Section Server.
Context {Ed : Ed25519} {De : DataEncoding}.

(** ** The key file *)

(** The file: [None] when it does not exist. [io] is an error of the file
    system. *)
Inductive key_error :=
| CorruptKeyFile
| KeyFileIo (e : io_error).

Definition load_or_create_key (file : option bytes) (random : bytes) (io : option io_error)
    : result key_error SecretKey * option bytes :=
  match file with
  | Some content =>
      match io with
      | Some e => (Err (KeyFileIo e), file)
      | None =>
          if (length content =? 32)%nat
          then (Ok (SecretKey_from_bytes content), file)
          else (Err CorruptKeyFile, file)
      end
  | None =>
      let key := SecretKey_from_bytes random in
      match io with
      | Some e => (Err (KeyFileIo e), None)
      | None => (Ok key, Some (SecretKey_to_bytes key))
      end
  end.

(** ** The command line *)

Record ServerArgs := mkServerArgs {
  local_service_addr : string;
  server_alpn : bytes;
  whitelist : gset EndpointId
}.

Definition builtin_whitelist : gset EndpointId :=
  match PublicKey_from_str "c2381bc8c69ce7ca39804b9b3edb04c014170500866272867ccc0a7daae505ad" with
  | Ok id => {[id]}
  | _ => ∅
  end.

(** The [for id_str in args[i + 1].split(',')] loop. *)
Fixpoint whitelist_of (pieces : list string) (acc : gset EndpointId)
    : result arg_error (gset EndpointId) :=
  match pieces with
  | [] => Ok acc
  | p :: pieces =>
      let id_str := trim p in
      if (id_str =? "")%string then whitelist_of pieces acc
      else
        let? id := map_err (fun _ => InvalidEndpointId) (PublicKey_from_str id_str) in
        whitelist_of pieces ({[id]} ∪ acc)
  end.

Fixpoint parse_server_opts (addr : string) (alpn : bytes) (wl : gset EndpointId) (args : list string)
    : result arg_error ServerArgs :=
  match args with
  | [] => Ok (mkServerArgs addr alpn wl)
  | a :: rest =>
      if (a =? "--")%string then parse_server_opts addr alpn wl rest
      else if (a =? "--local-addr")%string || (a =? "-l")%string then
        match rest with
        | v :: rest => parse_server_opts v alpn wl rest
        | [] => Err (MissingValue "--local-addr")
        end
      else if (a =? "--alpn")%string || (a =? "-a")%string then
        match rest with
        | v :: rest => parse_server_opts addr (str_bytes v) wl rest
        | [] => Err (MissingValue "--alpn")
        end
      else if (a =? "--whitelist")%string || (a =? "-w")%string then
        match rest with
        | v :: rest =>
            let? wl := whitelist_of (split_comma v) ∅ in
            parse_server_opts addr alpn wl rest
        | [] => Err (MissingValue "--whitelist")
        end
      else Err (UnknownOption a)
  end.

Definition parse_server_args (args : list string) : result arg_error ServerArgs :=
  if existsb is_help args then Err HelpExit
  else parse_server_opts "127.0.0.1:11435" default_alpn builtin_whitelist (drop 1 args).

(** The test at the top of [ProxyHandler::accept]. *)
Definition admitted (wl : gset EndpointId) (client : EndpointId) : bool :=
  negb (bool_decide (wl <> ∅) && negb (bool_decide (client ∈ wl))).

End Server.

(** ** Connecting a bridge to the local service *)

(** One [TcpStream::connect] under the 2 s timeout, with the milliseconds it
    takes. *)
Inductive connect_outcome :=
| Connected (ms : Z)
| Refused (e : io_error) (ms : Z)
| Elapsed.

Definition CONNECT_TIMEOUT : Z := 2000.
Definition RETRY_SLEEP : Z := 1000.
Definition MAX_LOCAL_RETRIES : nat := 30.

(** The loop of [bridge_streams_to_local]: the result, the attempts made and
    the time spent in milliseconds. *)
Fixpoint connect_local_loop (outcome : nat -> connect_outcome) (fuel local_retries : nat) (elapsed : Z)
    : option (result io_error unit * nat * Z) :=
  match fuel with
  | O => None
  | S fuel =>
      let local_retries := S local_retries in
      match outcome local_retries with
      | Connected ms => Some (Ok tt, local_retries, elapsed + ms)
      | Refused e ms =>
          if (MAX_LOCAL_RETRIES <=? local_retries)%nat
          then Some (Err e, local_retries, elapsed + ms)
          else connect_local_loop outcome fuel local_retries (elapsed + ms + RETRY_SLEEP)
      | Elapsed =>
          if (MAX_LOCAL_RETRIES <=? local_retries)%nat
          then Some (Err TimedOut, local_retries, elapsed + CONNECT_TIMEOUT)
          else connect_local_loop outcome fuel local_retries (elapsed + CONNECT_TIMEOUT + RETRY_SLEEP)
      end
  end.

Definition connect_local (outcome : nat -> connect_outcome) : option (result io_error unit * nat * Z) :=
  connect_local_loop outcome MAX_LOCAL_RETRIES 0 0.

(** [bridge_streams_to_local]: connect, [set_nodelay], then the bridge between
    the local connection and the stream; [None] when the schedule runs out. *)
Definition bridge_streams_to_local {L : Lz4} (outcome : nat -> connect_outcome)
    (set_nodelay : result io_error unit) (sched : list direction)
    (iroh_send : writer) (iroh_recv : reader) (tcp_recv : reader) (tcp_send : writer)
    : option (result io_error unit) :=
  match connect_local outcome with
  | Some (Ok _, _, _) =>
      match set_nodelay with
      | Ok _ =>
          match bridge_compressed sched tcp_recv iroh_send iroh_recv tcp_send with
          | Some (res, _, _) => Some res
          | None => None
          end
      | e => Some e
      end
  | Some (e, _, _) => Some e
  | None => None
  end.

(** ** The handler and the semaphore

    All connections share one [ProxyHandler]: a semaphore with 2000 permits, the
    whitelist. A connection is refused or loops over [accept_bi]; a stream waits
    for a permit and then runs as a task that keeps it. *)

Module Handler.
Section Handler.
Context (wl : gset EndpointId).

Definition MAX_STREAMS : nat := 2000.

(** The state of one connection's [accept] call. *)
Inductive conn_phase :=
| Arrived                  (* before the whitelist test *)
| Looping                  (* waiting in [accept_bi] *)
| WaitPermit (stream : nat)
| Rejected                 (* closed with code 1, "unauthorized" *)
| Ended.

Record state := mkState {
  permits : nat;
  conns : gmap nat (EndpointId * conn_phase);
  running : gmap nat EndpointId   (* the bridges, by stream, with their client *)
}.

Definition init : state := mkState MAX_STREAMS ∅ ∅.

Definition set_phase (c : nat) (client : EndpointId) (p : conn_phase) (s : state) : state :=
  mkState (permits s) (<[c := (client, p)]> (conns s)) (running s).

Inductive step : state -> state -> Prop :=
| step_arrive c client s :
    conns s !! c = None -> step s (set_phase c client Arrived s)
| step_reject c client s :
    conns s !! c = Some (client, Arrived) -> admitted wl client = false ->
    step s (set_phase c client Rejected s)
| step_admit c client s :
    conns s !! c = Some (client, Arrived) -> admitted wl client = true ->
    step s (set_phase c client Looping s)
| step_accept_bi c client stream s :
    conns s !! c = Some (client, Looping) -> running s !! stream = None ->
    step s (set_phase c client (WaitPermit stream) s)
| step_accept_err c client s :
    conns s !! c = Some (client, Looping) -> step s (set_phase c client Ended s)
| step_spawn c client stream n s :
    conns s !! c = Some (client, WaitPermit stream) -> permits s = S n ->
    running s !! stream = None ->
    step s (mkState n (<[c := (client, Looping)]> (conns s)) (<[stream := client]> (running s)))
| step_bridge_done stream client s :
    running s !! stream = Some client ->
    step s (mkState (S (permits s)) (conns s) (delete stream (running s))).

Definition reachable (s : state) : Prop := rtc step init s.

(** Past the whitelist test only admitted clients remain; every running bridge
    holds one permit. *)
Record inv (s : state) : Prop := mkInv {
  inv_permits : (permits s + size (running s) = MAX_STREAMS)%nat;
  inv_running stream client : running s !! stream = Some client -> admitted wl client = true;
  inv_conns c client p : conns s !! c = Some (client, p) ->
    match p with
    | Looping | WaitPermit _ | Ended => admitted wl client = true
    | Rejected => admitted wl client = false
    | Arrived => True
    end
}.

Lemma handler_inv_init : inv init.
Proof. split; simpl; [by rewrite map_size_empty|..]; intros *; by rewrite lookup_empty. Qed.

Lemma handler_inv_step s s' : inv s -> step s s' -> inv s'.
Proof.
  intros [Hp Hr Hc] Hstep.
  inversion Hstep as [c cl ? Hn|c cl ? H Ha|c cl ? H Ha|c cl st ? H Hn|c cl ? H|c cl st n ? H Hn Hs|st cl ? H];
    subst; split; simpl; try done;
    try (intros c' cl' p'; rewrite lookup_insert; case_decide; [|by apply Hc];
         intros [= <- <-]; try done; try (by apply Hc in H)).
  - rewrite map_size_insert_None by done. lia.
  - intros st' cl'. rewrite lookup_insert. case_decide; [|by apply Hr].
    intros [= <-]. by apply Hc in H.
  - rewrite map_size_delete_Some by eauto.
    pose proof (map_size_ne_0_lookup_2 (running s) st (ex_intro _ _ H)). lia.
  - intros st' cl'. rewrite lookup_delete. case_decide; [done|apply Hr].
Qed.

Lemma handler_reachable_inv s : reachable s -> inv s.
Proof. apply rtc_invariant; [apply handler_inv_init|apply handler_inv_step]. Qed.

End Handler.
End Handler.

(** ** Lemmas *)

Lemma admitted_spec (wl : gset EndpointId) client :
  admitted wl client = true <-> wl = ∅ \/ client ∈ wl.
Proof.
  unfold admitted. destruct (decide (wl = ∅)) as [->|Hne].
  - rewrite bool_decide_eq_false_2 by tauto. simpl. tauto.
  - rewrite (bool_decide_eq_true_2 (wl <> ∅)) by done.
    case_bool_decide; simpl; [tauto|]. split; [done|]. tauto.
Qed.

Section ServerFacts.
Context {Ed : Ed25519} {De : DataEncoding}.

Lemma whitelist_of_spec pieces acc wl :
  whitelist_of pieces acc = Ok wl ->
  forall id, id ∈ wl <->
    id ∈ acc \/ exists p, p ∈ pieces /\ trim p <> "" /\ PublicKey_from_str (trim p) = Ok id.
Proof.
  revert acc. induction pieces as [|p pieces IH]; intros acc; simpl.
  - intros [= ->] id. split; [auto|]. intros [?|(p & Hp & _)]; [done|]. by apply not_elem_of_nil in Hp.
  - destruct (String.eqb_spec (trim p) "") as [E|E].
    + intros H id. rewrite (IH _ H). split; intros [?|(q & Hq & Hne & Hk)]; auto.
      * right. exists q. rewrite elem_of_cons. auto.
      * apply elem_of_cons in Hq as [->|Hq]; [done|]. right. eauto.
    + destruct (PublicKey_from_str (trim p)) as [k|e|] eqn:Ek; simpl; [|done..].
      intros H id. rewrite (IH _ H), elem_of_union, elem_of_singleton. split.
      * intros [[->|?]|(q & Hq & Hne & Hk)]; auto.
        -- right. exists p. rewrite elem_of_cons. auto.
        -- right. exists q. rewrite elem_of_cons. auto.
      * intros [?|(q & Hq & Hne & Hk)]; auto.
        apply elem_of_cons in Hq as [->|Hq]; [left; left; congruence|]. right. eauto.
Qed.

Lemma whitelist_of_fails pieces acc :
  is_ok (whitelist_of pieces acc) = false ->
  exists p, p ∈ pieces /\ trim p <> "" /\ is_ok (PublicKey_from_str (trim p)) = false.
Proof.
  revert acc. induction pieces as [|p pieces IH]; intros acc; simpl; [done|].
  destruct (String.eqb_spec (trim p) "") as [E|E].
  - intros H. destruct (IH _ H) as (q & Hq & ?). exists q. rewrite elem_of_cons. auto.
  - destruct (PublicKey_from_str (trim p)) as [k|e|] eqn:Ek; simpl; intros H.
    + destruct (IH _ H) as (q & Hq & ?). exists q. rewrite elem_of_cons. auto.
    + exists p. rewrite elem_of_cons, Ek. auto.
    + exists p. rewrite elem_of_cons, Ek. auto.
Qed.

Lemma whitelist_of_ok pieces acc wl :
  whitelist_of pieces acc = Ok wl ->
  forall p, p ∈ pieces -> trim p <> "" -> is_ok (PublicKey_from_str (trim p)) = true.
Proof.
  revert acc. induction pieces as [|q pieces IH]; intros acc; simpl; [by intros _ p ?%not_elem_of_nil|].
  destruct (String.eqb_spec (trim q) "") as [E|E].
  - intros H p [->|Hp]%elem_of_cons Hne; [done|by apply (IH _ H)].
  - destruct (PublicKey_from_str (trim q)) as [k|e|] eqn:Ek; simpl; [|done..].
    intros H p [->|Hp]%elem_of_cons Hne; [by rewrite Ek|by apply (IH _ H)].
Qed.

(** *** Command lines

    The options of a command line, under the names they are given with. *)
Inductive server_option :=
| Separator
| LocalAddr (name v : string)
| Alpn (name v : string)
| Whitelist (name v : string).

Definition option_args (o : server_option) : list string :=
  match o with
  | Separator => ["--"]
  | LocalAddr name v | Alpn name v | Whitelist name v => [name; v]
  end.

Definition local_names : list string := ["--local-addr"; "-l"].
Definition alpn_names : list string := ["--alpn"; "-a"].
Definition whitelist_names : list string := ["--whitelist"; "-w"].

Definition option_named (o : server_option) : Prop :=
  match o with
  | Separator => True
  | LocalAddr name _ => name ∈ local_names
  | Alpn name _ => name ∈ alpn_names
  | Whitelist name _ => name ∈ whitelist_names
  end.

Definition local_value (o : server_option) : option string := if o is LocalAddr _ v then Some v else None.
Definition alpn_value (o : server_option) : option string := if o is Alpn _ v then Some v else None.
Definition whitelist_value (o : server_option) : option string := if o is Whitelist _ v then Some v else None.

(** The endpoint ids of a value, blanks skipped; whether all of it are ids. *)
Definition listed (v : string) (id : EndpointId) : Prop :=
  exists p, p ∈ split_comma v /\ trim p <> "" /\ PublicKey_from_str (trim p) = Ok id.
Definition well_listed (v : string) : Prop :=
  forall p, p ∈ split_comma v -> trim p <> "" -> is_ok (PublicKey_from_str (trim p)) = true.

(** Where a command line is not one of options: an argument that is none, an option
    without its value, or a whitelist with something that is not an id. *)
Inductive rejected : list string -> Prop :=
| rejected_unknown a rest : a ∉ "--" :: local_names ++ alpn_names ++ whitelist_names -> rejected (a :: rest)
| rejected_missing a : a ∈ local_names ++ alpn_names ++ whitelist_names -> rejected [a]
| rejected_malformed a v rest p :
    a ∈ whitelist_names -> p ∈ split_comma v -> trim p <> "" -> is_ok (PublicKey_from_str (trim p)) = false ->
    rejected (a :: v :: rest).

Definition parsed_as (addr : string) (alpn0 : bytes) (wl : gset EndpointId) (args : list string)
    (r : result arg_error ServerArgs) : Prop :=
  match r with
  | Ok r =>
      exists opts, Forall option_named opts /\ args = flat_map option_args opts /\
        local_service_addr r = default addr (last (omap local_value opts)) /\
        server_alpn r = default alpn0 (str_bytes <$> last (omap alpn_value opts)) /\
        Forall well_listed (omap whitelist_value opts) /\
        match last (omap whitelist_value opts) with
        | Some v => forall id, id ∈ whitelist r <-> listed v id
        | None => whitelist r = wl
        end
  | _ => exists opts rest, Forall option_named opts /\ args = flat_map option_args opts ++ rest /\ rejected rest
  end.

Lemma parsed_as_cons o addr alpn0 wl addr' alpn' wl' args r :
  option_named o ->
  addr' = default addr (local_value o) -> alpn' = default alpn0 (str_bytes <$> alpn_value o) ->
  match whitelist_value o with
  | Some v => well_listed v /\ forall id, id ∈ wl' <-> listed v id
  | None => wl' = wl
  end ->
  parsed_as addr' alpn' wl' args r -> parsed_as addr alpn0 wl (option_args o ++ args) r.
Proof.
  intros Ho -> -> Hw. destruct r as [r|e|].
  2,3: intros (opts & rest & Hn & -> & Hr); exists (o :: opts), rest; split_and!; [by constructor|by simpl; rewrite <- app_assoc|done].
  intros (opts & Hn & -> & Hl & Ha & Hwl & Hlast). exists (o :: opts). split; [by constructor|]. split; [done|].
  unfold omap in *. destruct o as [|n v|n v|n v]; simpl in *; rewrite ?last_cons.
  - subst wl'. done.
  - subst wl'. split_and!; [rewrite Hl; by destruct (last (list_omap _ _ local_value opts))|done..].
  - subst wl'. split_and!; [done|rewrite Ha; by destruct (last (list_omap _ _ alpn_value opts))|done..].
  - destruct Hw as [Hv Hw]. split_and!; [done|done|by constructor|].
    destruct (last (list_omap _ _ whitelist_value opts)); [done|]. by subst wl'.
Qed.

Lemma named_two (a x y : string) : ((a =? x)%string || (a =? y)%string) = true <-> a ∈ [x; y].
Proof. rewrite orb_true_iff, !String.eqb_eq. set_solver. Qed.

Lemma parse_opts_spec args addr alpn0 wl : parsed_as addr alpn0 wl args (parse_server_opts addr alpn0 wl args).
Proof.
  assert (H : forall n args addr alpn0 wl, (length args < n)%nat ->
            parsed_as addr alpn0 wl args (parse_server_opts addr alpn0 wl args)); [|by apply (H (S (length args))); lia].
  clear. induction n as [|n IH]; intros args addr alpn0 wl Hlen; [lia|]. destruct args as [|a rest].
  { exists []. by split_and!. }
  simpl in Hlen. cbn [parse_server_opts].
  destruct (String.eqb_spec a "--") as [->|H1].
  { apply (parsed_as_cons Separator addr alpn0 wl addr alpn0 wl rest); [done..|]. apply IH. lia. }
  destruct (_ || _) eqn:El.
  { apply named_two in El. destruct rest as [|v rest]; [exists [], [a]; split_and!; [done..|apply rejected_missing; rewrite !elem_of_app; auto]|].
    eapply (parsed_as_cons (LocalAddr a v)); [done..|apply IH; simpl in Hlen; lia]. }
  apply not_true_iff_false in El. rewrite named_two in El. destruct (_ || _) eqn:Ea.
  { apply named_two in Ea. destruct rest as [|v rest]; [exists [], [a]; split_and!; [done..|apply rejected_missing; rewrite !elem_of_app; auto]|].
    eapply (parsed_as_cons (Alpn a v)); [done..|apply IH; simpl in Hlen; lia]. }
  apply not_true_iff_false in Ea. rewrite named_two in Ea. destruct (_ || _) eqn:Ew.
  2: { exists [], (a :: rest). split_and!; [done..|]. constructor. apply not_true_iff_false in Ew. rewrite named_two in Ew.
       unfold local_names, alpn_names, whitelist_names. set_solver. }
  apply named_two in Ew.
  destruct rest as [|v rest]; [exists [], [a]; split_and!; [done..|apply rejected_missing; rewrite !elem_of_app; auto]|].
  assert (Hbad : is_ok (whitelist_of (split_comma v) ∅) = false ->
    exists opts tail, Forall option_named opts /\ a :: v :: rest = flat_map option_args opts ++ tail /\ rejected tail).
  { intros (p & Hp & Hne & Hk)%whitelist_of_fails. exists [], (a :: v :: rest). split_and!; [done..|].
    by apply (rejected_malformed a v rest p). }
  destruct (whitelist_of (split_comma v) ∅) as [wl'|e|] eqn:E; simpl; [|by apply Hbad..].
  eapply (parsed_as_cons (Whitelist a v)); [done|done|done| |apply IH; simpl in Hlen; lia].
  split; [exact (whitelist_of_ok _ _ _ E)|]. intros id. rewrite (whitelist_of_spec _ _ _ E id). set_solver.
Qed.

Lemma whitelist_of_blank pieces :
  Forall (fun p => trim p = "") pieces -> whitelist_of pieces ∅ = Ok ∅.
Proof. induction 1 as [|p pieces Hp _ IH]; [done|]. simpl. by rewrite Hp. Qed.

End ServerFacts.

Lemma connect_local_loop_spec outcome k elapsed :
  (k < MAX_LOCAL_RETRIES)%nat ->
  (forall i, match outcome i with
             | Connected ms | Refused _ ms => 0 <= ms <= CONNECT_TIMEOUT
             | Elapsed => True
             end) ->
  exists r n t, connect_local_loop outcome (MAX_LOCAL_RETRIES - k) k elapsed = Some (r, n, t) /\
    (k < n <= MAX_LOCAL_RETRIES)%nat /\
    elapsed <= t <= elapsed + (CONNECT_TIMEOUT + RETRY_SLEEP) * Z.of_nat (n - k) - RETRY_SLEEP /\
    (forall j, (k < j < n)%nat -> forall ms, outcome j <> Connected ms) /\
    match outcome n with
    | Connected _ => r = Ok tt
    | Refused e _ => r = Err e /\ n = MAX_LOCAL_RETRIES
    | Elapsed => r = Err TimedOut /\ n = MAX_LOCAL_RETRIES
    end.
Proof.
  intros Hk Hout. remember (MAX_LOCAL_RETRIES - k)%nat as fuel eqn:Hf. revert k elapsed Hf Hk.
  induction fuel as [|fuel IH]; intros k elapsed Hf Hk; [lia|]. cbn [connect_local_loop].
  unfold CONNECT_TIMEOUT, RETRY_SLEEP in *.
  assert (Hrec : forall e', (S k < MAX_LOCAL_RETRIES)%nat -> elapsed <= e' <= elapsed + 3000 ->
    (forall ms, outcome (S k) <> Connected ms) ->
    exists r n t, connect_local_loop outcome fuel (S k) e' = Some (r, n, t) /\
      (k < n <= MAX_LOCAL_RETRIES)%nat /\
      elapsed <= t <= elapsed + (2000 + 1000) * Z.of_nat (n - k) - 1000 /\
      (forall j, (k < j < n)%nat -> forall ms, outcome j <> Connected ms) /\
      match outcome n with
      | Connected _ => r = Ok tt
      | Refused e _ => r = Err e /\ n = MAX_LOCAL_RETRIES
      | Elapsed => r = Err TimedOut /\ n = MAX_LOCAL_RETRIES
      end).
  { intros e' Hlt He' Hne. destruct (IH (S k) e') as (r & n & t & -> & Hn & Ht & Hnone & Hr); [lia..|].
    exists r, n, t. split; [done|]. split; [lia|]. split; [lia|]. split; [|done].
    intros j Hj. destruct (decide (j = S k)) as [->|]; [done|]. apply Hnone. lia. }
  pose proof (Hout (S k)) as Ho. destruct (outcome (S k)) as [ms|e ms|] eqn:E.
  - exists (Ok tt), (S k), (elapsed + ms). rewrite E. split_and!; [done|lia..|done].
  - destruct (Nat.leb_spec MAX_LOCAL_RETRIES (S k)) as [Hle|Hlt].
    + exists (Err e), (S k), (elapsed + ms). rewrite E. split_and!; [done|lia..|done|lia].
    + apply Hrec; [lia..|done].
  - destruct (Nat.leb_spec MAX_LOCAL_RETRIES (S k)) as [Hle|Hlt].
    + exists (Err TimedOut), (S k), (elapsed + 2000). rewrite E. split_and!; [done|lia..|done|lia].
    + apply Hrec; [lia..|done].
Qed.

(** ** Properties *)

(** C6: in every reachable state of the server every bridge to the local
    service belongs to a client the whitelist admits, a refused connection
    stays without streams, and at most 2000 bridges run at once. *)
Theorem handler_admission wl s :
  Handler.reachable wl s ->
  (size (Handler.running s) <= 2000)%nat /\
  (forall stream client, Handler.running s !! stream = Some client -> wl = ∅ \/ client ∈ wl) /\
  (forall c client, Handler.conns s !! c = Some (client, Handler.Rejected) ->
     wl <> ∅ /\ client ∉ wl).
Proof.
  intros [Hp Hr Hc]%Handler.handler_reachable_inv. unfold Handler.MAX_STREAMS in Hp. split; [lia|]. split.
  - intros stream client Hs. apply admitted_spec. eauto.
  - intros c client Hs. specialize (Hc _ _ _ Hs). simpl in Hc.
    assert (~ (wl = ∅ \/ client ∈ wl)) by (rewrite <- admitted_spec; congruence). tauto.
Qed.

Lemma handler_admission_witness :
  let s := Handler.set_phase 7 example_key Handler.Looping
             (Handler.set_phase 7 example_key Handler.Arrived Handler.init) in
  (size (Handler.running s) <= 2000)%nat.
Proof.
  refine (proj1 (handler_admission {[example_key]} _ _)).
  eapply rtc_l; [by apply (Handler.step_arrive _ 7 example_key)|].
  eapply rtc_l; [|apply rtc_refl].
  apply (Handler.step_admit _ 7 example_key); [done|].
  apply admitted_spec. right. by apply elem_of_singleton.
Defined.

(** C37: A command line that is accepted is a sequence of options, the last of each
    kind counts, and the whitelist is exact: the endpoint ids in the comma-separated
    value of the last whitelist option, blanks skipped, and nothing of an earlier one
    or of the built-in whitelist, which only holds without the option. Every other
    command line asks for help or has an unknown argument, an option without a value,
    or a whitelist, be it one that would not count, with a malformed id. *)
Theorem whitelist_option_exact {Ed : Ed25519} {De : DataEncoding} args :
  match parse_server_args args with
  | Ok r =>
      existsb is_help args = false /\
      exists opts, Forall option_named opts /\ drop 1 args = flat_map option_args opts /\
        local_service_addr r = default "127.0.0.1:11435" (last (omap local_value opts)) /\
        server_alpn r = default default_alpn (str_bytes <$> last (omap alpn_value opts)) /\
        Forall well_listed (omap whitelist_value opts) /\
        match last (omap whitelist_value opts) with
        | Some v => forall id, id ∈ whitelist r <->
            exists p, p ∈ split_comma v /\ trim p <> "" /\ PublicKey_from_str (trim p) = Ok id
        | None => whitelist r = builtin_whitelist
        end
  | _ =>
      existsb is_help args = true \/
      exists opts rest, Forall option_named opts /\ drop 1 args = flat_map option_args opts ++ rest /\ rejected rest
  end.
Proof.
  unfold parse_server_args. destruct (existsb is_help args); [by left|].
  pose proof (parse_opts_spec (drop 1 args) "127.0.0.1:11435" default_alpn builtin_whitelist) as H.
  destruct (parse_server_opts _ _ _ _) as [r|e|]; [|by right..]. split; [done|exact H].
Qed.

(** An empty [--whitelist] turns the admission check off: when the value
    has no ids (only commas and blanks), the whitelist is empty and every client
    is admitted. *)
Theorem blank_whitelist_admits_everyone {Ed : Ed25519} {De : DataEncoding} prog v args client :
  is_help prog = false -> is_help v = false ->
  Forall (fun p => trim p = "") (split_comma v) ->
  parse_server_args [prog; "--whitelist"; v] = Ok args ->
  whitelist args = ∅ /\ admitted (whitelist args) client = true.
Proof.
  intros Hp Hv Hblank. unfold parse_server_args. cbn [existsb]. rewrite Hp, Hv. simpl.
  rewrite whitelist_of_blank by done. simpl. intros [= <-]. simpl. split; [done|].
  apply admitted_spec. by left.
Qed.

Lemma blank_whitelist_admits_everyone_witness :
  exists args, @parse_server_args checksum_keys data_encoding ["tunnel-listen"; "--whitelist"; " ,"]
      = Ok args /\ admitted (whitelist args) example_key = true.
Proof.
  eexists. split; [vm_compute; reflexivity|].
  apply (@blank_whitelist_admits_everyone checksum_keys data_encoding "tunnel-listen" " ,"); try done.
  vm_compute. repeat constructor.
Defined.

(** Connecting to the local service always returns, after at most 30
    attempts: with success at the first attempt that connects, and with the
    error of the 30th otherwise. It takes at most 89 s. *)
Theorem connect_local_bounded outcome :
  (forall i, match outcome i with
             | Connected ms | Refused _ ms => 0 <= ms <= CONNECT_TIMEOUT
             | Elapsed => True
             end) ->
  exists r n t, connect_local outcome = Some (r, n, t) /\ (1 <= n <= 30)%nat /\ 0 <= t <= 89000 /\
    (forall j, (1 <= j < n)%nat -> forall ms, outcome j <> Connected ms) /\
    match outcome n with
    | Connected _ => r = Ok tt
    | Refused e _ => r = Err e /\ n = 30%nat
    | Elapsed => r = Err TimedOut /\ n = 30%nat
    end.
Proof.
  intros Ho. destruct (connect_local_loop_spec outcome 0 0) as (r & n & t & Hrun & Hn & Ht & Hnone & Hr);
    [unfold MAX_LOCAL_RETRIES; lia|done|].
  unfold MAX_LOCAL_RETRIES, CONNECT_TIMEOUT, RETRY_SLEEP in *.
  exists r, n, t. split; [exact Hrun|]. split_and!; [lia..| |done]. intros j Hj. apply Hnone. lia.
Qed.

Lemma connect_local_bounded_witness :
  exists r n t, connect_local (fun _ => Elapsed) = Some (r, n, t) /\ 0 <= t <= 89000.
Proof.
  destruct (connect_local_bounded (fun _ => Elapsed)) as (r & n & t & H & _ & Ht & _); [done|].
  exists r, n, t. by split.
Defined.

(** The bound is reached: a local service that never answers makes the
    loop give up after 89 s, not after the 30 s its message reports. *)
Theorem connect_local_takes_89_seconds :
  connect_local (fun _ => Elapsed) = Some (Err TimedOut, 30%nat, 89000).
Proof. reflexivity. Qed.

(** The key file makes the identity permanent: the key created on the
    first start is the key every later start loads. *)
Theorem key_file_persistent {Ed : Ed25519} {EdL : Ed25519Laws Ed} random random' key file :
  length random = 32%nat ->
  load_or_create_key None random None = (Ok key, file) ->
  load_or_create_key file random' None = (Ok key, file).
Proof.
  intros Hl. unfold load_or_create_key. intros [= <- <-].
  unfold SecretKey_to_bytes, SecretKey_from_bytes. simpl.
  rewrite sk_to_bytes_length, sk_to_from by done. done.
Qed.

Lemma key_file_persistent_witness :
  let key := @SecretKey_from_bytes checksum_keys (replicate 32 Byte.x07) in
  @load_or_create_key checksum_keys (Some (replicate 32 Byte.x07)) [] None =
    (Ok key, Some (replicate 32 Byte.x07)).
Proof.
  apply (@key_file_persistent checksum_keys checksum_keys_laws (replicate 32 Byte.x07)); reflexivity.
Defined.
