(* ===== verification/RelayFrames.v ===== *)
(** * Frame types and protocol versions of the relay protocol

    [iroh-relay/src/protos/common.rs]: the tag that starts every frame, written
    as a QUIC variable-length integer. [iroh-relay/src/http.rs]: the protocol
    versions and their negotiation order. *)

From S2P Require Import Prelude External Instances.

(** ** Frame types *)

Inductive FrameType :=
| FtServerChallenge
| FtClientAuth
| FtServerConfirmsAuth
| FtServerDeniesAuth
| FtClientToRelayDatagram
| FtClientToRelayDatagramBatch
| FtRelayToClientDatagram
| FtRelayToClientDatagramBatch
| FtEndpointGone
| FtPing
| FtPong
| FtHealth
| FtRestarting
| FtStatus.

#[export] Instance FrameType_eq_dec : EqDecision FrameType.
Proof. solve_decision. Defined.

(** [repr(u32)]: the discriminants, in the order of the declaration. *)
Definition frame_types : list FrameType :=
  [FtServerChallenge; FtClientAuth; FtServerConfirmsAuth; FtServerDeniesAuth;
   FtClientToRelayDatagram; FtClientToRelayDatagramBatch; FtRelayToClientDatagram;
   FtRelayToClientDatagramBatch; FtEndpointGone; FtPing; FtPong; FtHealth; FtRestarting; FtStatus].

Definition frame_type_u32 (t : FrameType) : Z :=
  match t with
  | FtServerChallenge => 0
  | FtClientAuth => 1
  | FtServerConfirmsAuth => 2
  | FtServerDeniesAuth => 3
  | FtClientToRelayDatagram => 4
  | FtClientToRelayDatagramBatch => 5
  | FtRelayToClientDatagram => 6
  | FtRelayToClientDatagramBatch => 7
  | FtEndpointGone => 8
  | FtPing => 9
  | FtPong => 10
  | FtHealth => 11
  | FtRestarting => 12
  | FtStatus => 13
  end.

(** [FrameType::from_repr] (strum). *)
Definition from_repr (x : Z) : option FrameType :=
  List.find (fun t => frame_type_u32 t =? x) frame_types.

Inductive FrameTypeError :=
| UnexpectedEnd
| UnknownFrameType (tag : Z).

Section Frames.
Context {N : NoqProto}.

Definition frame_type_write_to (t : FrameType) (dst : bytes) : bytes :=
  dst ++ varint_encode (frame_type_u32 t).

(** [FrameType::encoded_len]; the last branch is [unreachable!]. *)
Definition frame_type_encoded_len (t : FrameType) : option Z :=
  let x := frame_type_u32 t in
  if x <? 2 ^ 6 then Some 1
  else if x <? 2 ^ 14 then Some 2
  else if x <? 2 ^ 30 then Some 4
  else None.

(** [FrameType::from_bytes]: the frame type and the rest of the buffer. *)
Definition frame_type_from_bytes (buf : bytes) : result FrameTypeError (FrameType * bytes) :=
  let? (tag, rest) := ok_or (varint_decode buf) UnexpectedEnd in
  let? _ := ensure (tag <=? u32_max) (UnknownFrameType tag) in
  let? t := ok_or (from_repr tag) (UnknownFrameType tag) in
  Ok (t, rest).

End Frames.

(** ** Protocol versions *)

Inductive ProtocolVersion := V1 | V2.

#[export] Instance ProtocolVersion_eq_dec : EqDecision ProtocolVersion.
Proof. solve_decision. Defined.

(** The derived [Ord]: in the order of the declaration. *)
Definition version_rank (v : ProtocolVersion) : Z :=
  match v with V1 => 0 | V2 => 1 end.

(** [ProtocolVersion::ALL]: newest first. *)
Definition ALL : list ProtocolVersion := [V2; V1].

Definition version_to_str (v : ProtocolVersion) : string :=
  match v with
  | V1 => "iroh-relay-v1"
  | V2 => "iroh-relay-v2"
  end.

Definition match_from_str (s : string) : option ProtocolVersion :=
  if (s =? "iroh-relay-v1")%string then Some V1
  else if (s =? "iroh-relay-v2")%string then Some V2
  else None.

Definition all_joined : string := String.concat ", " (map version_to_str ALL).

(** ** Lemmas *)

Lemma from_repr_u32 t : from_repr (frame_type_u32 t) = Some t.
Proof. by destruct t. Qed.

Lemma from_repr_Some x t : from_repr x = Some t -> frame_type_u32 t = x.
Proof. unfold from_repr. intros H. apply find_some in H as [_ H]. by apply Z.eqb_eq. Qed.

Lemma frame_type_u32_range t : 0 <= frame_type_u32 t < 2 ^ 6.
Proof. destruct t; simpl; lia. Qed.

Lemma frame_type_u32_inj t u : frame_type_u32 t = frame_type_u32 u -> t = u.
Proof. intros H. apply (f_equal from_repr) in H. rewrite !from_repr_u32 in H. congruence. Qed.

Section FrameFacts.
Context {N : NoqProto} {NL : NoqProtoLaws N}.

Lemma frame_type_roundtrip t rest :
  frame_type_from_bytes (varint_encode (frame_type_u32 t) ++ rest) = Ok (t, rest).
Proof.
  pose proof (frame_type_u32_range t). unfold frame_type_from_bytes.
  rewrite varint_roundtrip by lia. unfold rbind, ok_or, ensure.
  assert ((frame_type_u32 t <=? u32_max) = true) as -> by (apply Z.leb_le; unfold u32_max; lia).
  by rewrite from_repr_u32.
Qed.

Lemma frame_type_encoded_len_1 t : frame_type_encoded_len t = Some 1.
Proof. by destruct t. Qed.

Lemma length_frame_type t : length (varint_encode (frame_type_u32 t)) = 1%nat.
Proof. apply varint_encode_short, frame_type_u32_range. Qed.

Lemma frame_type_from_bytes_no_panic buf : frame_type_from_bytes buf <> Panic.
Proof.
  unfold frame_type_from_bytes. destruct (varint_decode buf) as [[tag rest]|]; simpl; [|done].
  unfold ensure. destruct (tag <=? u32_max); simpl; [|done]. by destruct (from_repr tag).
Qed.

End FrameFacts.

