(* ===== verification/RelayProto.v ===== *)
(** * The send/recv relay protocol

    [iroh-relay/src/protos/relay.rs]: the messages between relay and client,
    their encoding, and batches of datagrams. [Bytes] and [BytesMut] are byte
    strings; their accessors write and read big-endian integers. *)

From stdpp Require Import pretty.
From S2P Require Import Prelude External Instances Utf8 Keys RelayFrames.

(** ** Constants and errors *)

Definition MAX_PACKET_SIZE : Z := 64 * 1024.
Definition MAX_FRAME_SIZE : Z := 1024 * 1024.
Definition PING_INTERVAL : Z := from_secs 15.
Definition PER_CLIENT_SEND_QUEUE_DEPTH : nat := 512.

Inductive Error :=
| UnexpectedFrame (got expected : FrameType)
| FrameTooLarge (frame_len : Z)
| ErrFrameType (source : FrameTypeError)
| InvalidPublicKey (source : KeyParsingError)
| InvalidFrame
| InvalidFrameType (frame_type : FrameType)
| InvalidProtocolMessageEncoding
| FrameNotAllowedInVersion
| TooSmall.

(** [BufMut::put_u8], [put_u16], [put_u32]. *)
Definition put_u8 (dst : bytes) (x : Z) : bytes := dst ++ be_bytes 1 x.
Definition put_u16 (dst : bytes) (x : Z) : bytes := dst ++ be_bytes 2 x.
Definition put_u32 (dst : bytes) (x : Z) : bytes := dst ++ be_bytes 4 x.

(** [Buf::get_u8], [get_u16]: panic when the buffer is too short. *)
Definition get_u8 {E} (bs : bytes) : result E (Z * bytes) :=
  match bs with
  | b :: bs => Ok (byte.unsigned b, bs)
  | [] => Panic
  end.

Definition get_u16 {E} (bs : bytes) : result E (Z * bytes) :=
  match bs with
  | a :: b :: bs => Ok (from_be_bytes [a; b], bs)
  | _ => Panic
  end.

(** [&bs[..n]] and [&bs[n..]]: panic when [n] is out of range. *)
Definition slice_to {E} (n : nat) (bs : bytes) : result E bytes :=
  if (n <=? length bs)%nat then Ok (take n bs) else Panic.
Definition slice_from {E} (n : nat) (bs : bytes) : result E bytes :=
  if (n <=? length bs)%nat then Ok (drop n bs) else Panic.

(** ** Status *)

Inductive Status :=
| Healthy
| SameEndpointIdConnected
| Unknown (discriminant : Z).

#[export] Instance Status_eq_dec : EqDecision Status.
Proof. solve_decision. Defined.

Definition Status_write_to (s : Status) (dst : bytes) : bytes :=
  match s with
  | Healthy => put_u8 dst 0
  | SameEndpointIdConnected => put_u8 dst 1
  | Unknown discriminant => put_u8 dst discriminant
  end.

Definition Status_encoded_len (s : Status) : Z := 1.

Definition Status_from_bytes (bs : bytes) : result Error Status :=
  let? _ := ensure (negb (bool_decide (bs = []))) InvalidFrame in
  let? (discriminant, _) := get_u8 bs in
  match discriminant with
  | 0 => Ok Healthy
  | 1 => Ok SameEndpointIdConnected
  | n => Ok (Unknown n)
  end.

(** [Display for Status]. *)
Definition Status_to_string (s : Status) : string :=
  match s with
  | Healthy => "The connection is healthy and has recovered from previous problems"
  | SameEndpointIdConnected =>
      "Another endpoint connected with the same endpoint id. No more messages will be received."
  | Unknown n =>
      ("Unsupported health message (" ++ pretty n ++ ")")%string
  end.

Section Relay.
Context {N : NoqProto}.

(** ** Datagrams *)

Record Datagrams := mkDatagrams {
  ecn : option EcnCodepoint;
  segment_size : option Z;     (* a non-zero [u16] *)
  contents : bytes
}.

(** [From<T: AsRef<[u8]>>]. *)
Definition Datagrams_from (bs : bytes) : Datagrams := mkDatagrams None None bs.

(** [take_segments]: the batch taken off and what is left in [self]. The
    product wraps around as [usize] does. *)
Definition take_segments (self : Datagrams) (num_segments : Z) : Datagrams * Datagrams :=
  match segment_size self with
  | None => (mkDatagrams (ecn self) None (contents self), mkDatagrams (ecn self) None [])
  | Some segment_size =>
      let max_content_len := as_u64 (num_segments * segment_size) in
      let n := Z.to_nat (Z.min max_content_len (blen (contents self))) in
      let taken := take n (contents self) in
      let left := drop n (contents self) in
      let is_datagram_batch := (1 <? num_segments) && (segment_size <? blen taken) in
      (mkDatagrams (ecn self) (if is_datagram_batch then Some segment_size else None) taken,
       mkDatagrams (ecn self) (if blen left <=? segment_size then None else Some segment_size) left)
  end.

Definition Datagrams_write_to (d : Datagrams) (dst : bytes) : bytes :=
  let dst := put_u8 dst (match ecn d with Some e => ecn_as_u8 e | None => 0 end) in
  let dst := match segment_size d with Some s => put_u16 dst s | None => dst end in
  dst ++ contents d.

Definition Datagrams_encoded_len (d : Datagrams) : Z :=
  1 + (match segment_size d with Some _ => 2 | None => 0 end) + blen (contents d).

(** [NonZeroU16::new]. *)
Definition non_zero_u16 (x : Z) : option Z := if x =? 0 then None else Some x.

Definition Datagrams_from_bytes (bs : bytes) (is_batch : bool) : result Error Datagrams :=
  let? _ := if is_batch then ensure (3 <=? blen bs) InvalidFrame
            else ensure (1 <=? blen bs) InvalidFrame in
  let? (ecn_byte, bs) := get_u8 bs in
  let ecn := ecn_from_bits ecn_byte in
  let? (segment_size, bs) :=
    if is_batch
    then let? (s, bs) := get_u16 bs in Ok (non_zero_u16 s, bs)
    else Ok (None, bs) in
  Ok (mkDatagrams ecn segment_size bs).

(** ** Messages from the relay to a client *)

Inductive RelayToClientMsg :=
| R2CDatagrams (remote_endpoint_id : EndpointId) (datagrams : Datagrams)
| R2CEndpointGone (endpoint_id : EndpointId)
| R2CStatus (status : Status)
| R2CRestarting (reconnect_in try_for : Z)     (* durations *)
| R2CPing (data : bytes)
| R2CPong (data : bytes)
| R2CHealth (problem : bytes).

Definition RelayToClientMsg_typ (m : RelayToClientMsg) : FrameType :=
  match m with
  | R2CDatagrams _ d =>
      match segment_size d with
      | Some _ => FtRelayToClientDatagramBatch
      | None => FtRelayToClientDatagram
      end
  | R2CEndpointGone _ => FtEndpointGone
  | R2CPing _ => FtPing
  | R2CPong _ => FtPong
  | R2CStatus _ => FtStatus
  | R2CRestarting _ _ => FtRestarting
  | R2CHealth _ => FtHealth
  end.

Definition RelayToClientMsg_write_to (m : RelayToClientMsg) (dst : bytes) : bytes :=
  let dst := frame_type_write_to (RelayToClientMsg_typ m) dst in
  match m with
  | R2CDatagrams id d => Datagrams_write_to d (dst ++ as_bytes id)
  | R2CEndpointGone id => dst ++ as_bytes id
  | R2CPing data => dst ++ data
  | R2CPong data => dst ++ data
  | R2CHealth problem => dst ++ problem
  | R2CRestarting reconnect_in try_for =>
      put_u32 (put_u32 dst (as_u32 (as_millis reconnect_in))) (as_u32 (as_millis try_for))
  | R2CStatus status => Status_write_to status dst
  end.

Definition RelayToClientMsg_to_bytes (m : RelayToClientMsg) : bytes := RelayToClientMsg_write_to m [].

(** [encoded_len]; [None] only through the [unreachable!] of the frame type. *)
Definition RelayToClientMsg_encoded_len (m : RelayToClientMsg) : option Z :=
  let payload_len :=
    match m with
    | R2CDatagrams _ d => 32 + Datagrams_encoded_len d
    | R2CEndpointGone _ => 32
    | R2CPing _ | R2CPong _ => 8
    | R2CStatus status => Status_encoded_len status
    | R2CRestarting _ _ => 4 + 4
    | R2CHealth problem => blen problem
    end in
  option_map (fun n => n + payload_len) (frame_type_encoded_len (RelayToClientMsg_typ m)).

(** ** Messages from a client to the relay *)

Inductive ClientToRelayMsg :=
| C2RPing (data : bytes)
| C2RPong (data : bytes)
| C2RDatagrams (dst_endpoint_id : EndpointId) (datagrams : Datagrams).

Definition ClientToRelayMsg_typ (m : ClientToRelayMsg) : FrameType :=
  match m with
  | C2RDatagrams _ d =>
      match segment_size d with
      | Some _ => FtClientToRelayDatagramBatch
      | None => FtClientToRelayDatagram
      end
  | C2RPing _ => FtPing
  | C2RPong _ => FtPong
  end.

Definition ClientToRelayMsg_write_to (m : ClientToRelayMsg) (dst : bytes) : bytes :=
  let dst := frame_type_write_to (ClientToRelayMsg_typ m) dst in
  match m with
  | C2RDatagrams id d => Datagrams_write_to d (dst ++ as_bytes id)
  | C2RPing data => dst ++ data
  | C2RPong data => dst ++ data
  end.

Definition ClientToRelayMsg_to_bytes (m : ClientToRelayMsg) : bytes := ClientToRelayMsg_write_to m [].

Definition ClientToRelayMsg_encoded_len (m : ClientToRelayMsg) : option Z :=
  let payload_len :=
    match m with
    | C2RPing _ | C2RPong _ => 8
    | C2RDatagrams _ d => 32 + Datagrams_encoded_len d
    end in
  option_map (fun n => n + payload_len) (frame_type_encoded_len (ClientToRelayMsg_typ m)).

(** ** Decoding

    The key cache is threaded through: a datagram or endpoint-gone frame looks
    its endpoint id up once. *)

Context {Ed : Ed25519} {Lru : LruCache PublicKey}.

Definition RelayToClientMsg_decode (cache : KeyCache) (version : ProtocolVersion)
    (frame_type : FrameType) (content : bytes) : KeyCache * result Error RelayToClientMsg :=
  match frame_type with
  | FtRelayToClientDatagram | FtRelayToClientDatagramBatch =>
      if (LENGTH <=? length content)%nat then
        let (cache, key) := key_from_slice cache (take LENGTH content) in
        (cache,
         let? remote_endpoint_id := map_err InvalidPublicKey key in
         let? rest := slice_from LENGTH content in
         let? datagrams :=
           Datagrams_from_bytes rest (bool_decide (frame_type = FtRelayToClientDatagramBatch)) in
         Ok (R2CDatagrams remote_endpoint_id datagrams))
      else (cache, Err InvalidFrame)
  | FtEndpointGone =>
      if (length content =? LENGTH)%nat then
        let (cache, key) := key_from_slice cache content in
        (cache,
         let? endpoint_id := map_err InvalidPublicKey key in
         Ok (R2CEndpointGone endpoint_id))
      else (cache, Err InvalidFrame)
  | FtPing =>
      (cache,
       let? _ := ensure (length content =? 8)%nat InvalidFrame in
       let? data := slice_to 8 content in
       Ok (R2CPing data))
  | FtPong =>
      (cache,
       let? _ := ensure (length content =? 8)%nat InvalidFrame in
       let? data := slice_to 8 content in
       Ok (R2CPong data))
  | FtHealth =>
      (cache,
       let? _ := ensure (bool_decide (version = V1)) FrameNotAllowedInVersion in
       let? problem := from_utf8 content InvalidProtocolMessageEncoding in
       Ok (R2CHealth problem))
  | FtRestarting =>
      (cache,
       let? _ := ensure (length content =? 4 + 4)%nat InvalidFrame in
       let? a := slice_to 4 content in
       let? b := slice_from 4 content in
       Ok (R2CRestarting (from_millis (from_be_bytes a)) (from_millis (from_be_bytes b))))
  | FtStatus =>
      (cache,
       let? _ := ensure (version_rank V2 <=? version_rank version) FrameNotAllowedInVersion in
       let? status := Status_from_bytes content in
       Ok (R2CStatus status))
  | _ => (cache, Err (InvalidFrameType frame_type))
  end.

Definition RelayToClientMsg_from_bytes (cache : KeyCache) (version : ProtocolVersion)
    (content : bytes) : KeyCache * result Error RelayToClientMsg :=
  match frame_type_from_bytes content with
  | Ok (frame_type, content) =>
      let frame_len := blen content in
      if frame_len <=? MAX_PACKET_SIZE
      then RelayToClientMsg_decode cache version frame_type content
      else (cache, Err (FrameTooLarge frame_len))
  | Err e => (cache, Err (ErrFrameType e))
  | Panic => (cache, Panic)
  end.

(** There is no length check before [&content[..EndpointId::LENGTH]] here. *)
Definition ClientToRelayMsg_decode (cache : KeyCache) (frame_type : FrameType) (content : bytes)
    : KeyCache * result Error ClientToRelayMsg :=
  match frame_type with
  | FtClientToRelayDatagram | FtClientToRelayDatagramBatch =>
      match slice_to LENGTH content with
      | Ok slice =>
          let (cache, key) := key_from_slice cache slice in
          (cache,
           let? dst_endpoint_id := map_err InvalidPublicKey key in
           let? rest := slice_from LENGTH content in
           let? datagrams :=
             Datagrams_from_bytes rest (bool_decide (frame_type = FtClientToRelayDatagramBatch)) in
           Ok (C2RDatagrams dst_endpoint_id datagrams))
      | Err e => (cache, Err e)
      | Panic => (cache, Panic)
      end
  | FtPing =>
      (cache,
       let? _ := ensure (length content =? 8)%nat InvalidFrame in
       let? data := slice_to 8 content in
       Ok (C2RPing data))
  | FtPong =>
      (cache,
       let? _ := ensure (length content =? 8)%nat InvalidFrame in
       let? data := slice_to 8 content in
       Ok (C2RPong data))
  | _ => (cache, Err (InvalidFrameType frame_type))
  end.

Definition ClientToRelayMsg_from_bytes (cache : KeyCache) (content : bytes)
    : KeyCache * result Error ClientToRelayMsg :=
  match frame_type_from_bytes content with
  | Ok (frame_type, content) =>
      let frame_len := blen content in
      if frame_len <=? MAX_PACKET_SIZE
      then ClientToRelayMsg_decode cache frame_type content
      else (cache, Err (FrameTooLarge frame_len))
  | Err e => (cache, Err (ErrFrameType e))
  | Panic => (cache, Panic)
  end.

End Relay.

(** ** Lemmas: accessors *)

Lemma be_bytes_1 x : be_bytes 1 x = [byte.of_Z x].
Proof. rewrite be_bytes_S. change (2 ^ (8 * Z.of_nat 0)) with 1. by rewrite Z.div_1_r. Qed.

Lemma get_u8_put {E} x rest :
  0 <= x < 2 ^ 8 -> @get_u8 E (be_bytes 1 x ++ rest) = Ok (x, rest).
Proof.
  intros Hx. rewrite be_bytes_1. simpl. rewrite byte.unsigned_of_Z. unfold byte.wrap.
  by rewrite Z.mod_small.
Qed.

Lemma get_u16_put {E} x rest :
  0 <= x < 2 ^ 16 -> @get_u16 E (be_bytes 2 x ++ rest) = Ok (x, rest).
Proof.
  intros Hx. pose proof (length_be_bytes 2 x) as Hl.
  destruct (be_bytes 2 x) as [|a [|b [|]]] eqn:E'; try done. simpl.
  rewrite <- E', from_be_bytes_be_bytes by done. done.
Qed.

Lemma slice_to_app {E} n a b : length a = n -> @slice_to E n (a ++ b) = Ok a.
Proof.
  intros <-. unfold slice_to. rewrite length_app.
  by destruct (Nat.leb_spec (length a) (length a + length b)); [rewrite take_app_length|lia].
Qed.

Lemma slice_from_app {E} n a b : length a = n -> @slice_from E n (a ++ b) = Ok b.
Proof.
  intros <-. unfold slice_from. rewrite length_app.
  by destruct (Nat.leb_spec (length a) (length a + length b)); [rewrite drop_app_length|lia].
Qed.

Lemma slice_to_all {E} n a : length a = n -> @slice_to E n a = Ok a.
Proof. intros H. rewrite <- (app_nil_r a) at 1. by apply slice_to_app. Qed.

(** ** Lemmas: datagrams *)

Section DatagramFacts.
Context {N : NoqProto} {NL : NoqProtoLaws N}.

(** [Option<NonZeroU16>]. *)
Definition datagrams_wf (d : Datagrams) : Prop :=
  match segment_size d with Some s => 0 < s < 2 ^ 16 | None => True end.

Lemma Datagrams_write_to_app d dst : Datagrams_write_to d dst = dst ++ Datagrams_write_to d [].
Proof.
  unfold Datagrams_write_to, put_u8, put_u16. simpl.
  destruct (segment_size d); by rewrite <- !app_assoc.
Qed.

Lemma ecn_u8_range (o : option EcnCodepoint) :
  0 <= match o with Some e => ecn_as_u8 e | None => 0 end < 2 ^ 8.
Proof. destruct o; [apply ecn_u8|lia]. Qed.

Lemma ecn_of_u8 (o : option EcnCodepoint) :
  ecn_from_bits (match o with Some e => ecn_as_u8 e | None => 0 end) = o.
Proof. destruct o; [apply ecn_roundtrip|apply ecn_not_ect]. Qed.

Definition is_batch (d : Datagrams) : bool :=
  match segment_size d with Some _ => true | None => false end.

Lemma Datagrams_roundtrip d :
  datagrams_wf d -> Datagrams_from_bytes (Datagrams_write_to d []) (is_batch d) = Ok d.
Proof.
  intros Hwf. destruct d as [e s c]. unfold Datagrams_from_bytes, Datagrams_write_to, is_batch,
    datagrams_wf, put_u8, put_u16, ensure in *. simpl in *.
  pose proof (blen_nonneg c) as Hc.
  destruct s as [s|]; rewrite <- ?app_assoc; autorewrite with blen.
  - destruct (Z.leb_spec 3 (Z.of_nat 1 + (Z.of_nat 2 + blen c))); [|lia]. simpl.
    rewrite get_u8_put by apply ecn_u8_range. simpl. rewrite get_u16_put by lia. simpl.
    rewrite ecn_of_u8. unfold non_zero_u16. by destruct (Z.eqb_spec s 0); [lia|].
  - destruct (Z.leb_spec 1 (Z.of_nat 1 + blen c)); [|lia]. simpl.
    rewrite get_u8_put by apply ecn_u8_range. simpl. by rewrite ecn_of_u8.
Qed.

Lemma Datagrams_encoded_len_ok d : Datagrams_encoded_len d = blen (Datagrams_write_to d []).
Proof.
  unfold Datagrams_encoded_len, Datagrams_write_to, put_u8, put_u16.
  destruct (segment_size d); simpl; autorewrite with blen; simpl; lia.
Qed.

Lemma Datagrams_from_bytes_no_panic bs b : Datagrams_from_bytes bs b <> Panic.
Proof.
  unfold Datagrams_from_bytes, ensure. destruct b.
  - destruct (Z.leb_spec 3 (blen bs)) as [H|]; [|done].
    destruct bs as [|x [|y [|z bs]]]; unfold blen in H; simpl in H; (lia || done).
  - destruct (Z.leb_spec 1 (blen bs)) as [H|]; [|done].
    destruct bs; unfold blen in H; simpl in H; (lia || done).
Qed.

(** The datagrams of a batch: the contents cut every [s] bytes. *)
Fixpoint chunks_fuel (fuel s : nat) (l : bytes) : list bytes :=
  match fuel, l with
  | S fuel, _ :: _ => take s l :: chunks_fuel fuel s (drop s l)
  | _, _ => []
  end.

Definition chunks (s : nat) (l : bytes) : list bytes := chunks_fuel (length l) s l.

Definition one_segment (c : bytes) : list bytes := if decide (c = []) then [] else [c].

Definition segments (d : Datagrams) : list bytes :=
  match segment_size d with
  | Some s => chunks (Z.to_nat s) (contents d)
  | None => one_segment (contents d)
  end.

Lemma chunks_fuel_enough fuel s l :
  (0 < s)%nat -> (length l <= fuel)%nat -> chunks_fuel fuel s l = chunks s l.
Proof.
  intros Hs. unfold chunks. revert l. induction fuel as [fuel IH] using lt_wf_ind. intros l Hf.
  destruct l as [|x l]; [by destruct fuel|]. destruct fuel as [|fuel]; [simpl in Hf; lia|].
  simpl length. cbn [chunks_fuel]. f_equal.
  assert (Hd : (length (drop s (x :: l)) <= length l)%nat) by (rewrite length_drop; simpl; lia).
  simpl in Hf. rewrite (IH fuel) by lia.
  destruct (decide (length l = fuel)) as [->|]; [rewrite (IH fuel) by lia; done|].
  rewrite (IH (length l)) by lia. done.
Qed.

Lemma chunks_cons s l : (0 < s)%nat -> l <> [] -> chunks s l = take s l :: chunks s (drop s l).
Proof.
  intros Hs Hl. unfold chunks at 1. destruct l as [|x l]; [done|]. simpl length. cbn [chunks_fuel].
  f_equal. apply chunks_fuel_enough; [done|]. rewrite length_drop. simpl. lia.
Qed.

Lemma chunks_small s l :
  (0 < s)%nat -> (length l <= s)%nat -> chunks s l = one_segment l.
Proof.
  intros Hs Hl. destruct l as [|x l]; [done|]. rewrite chunks_cons by done.
  by rewrite take_ge, drop_ge by done.
Qed.

Lemma take_chunks n s l : (0 < s)%nat -> take n (chunks s l) = chunks s (take (n * s) l).
Proof.
  intros Hs. revert l. induction n as [|n IH]; intros l; [done|].
  destruct (decide (l = [])) as [->|Hl]; [by rewrite take_nil|].
  rewrite chunks_cons by done. simpl take at 1. rewrite IH.
  rewrite (chunks_cons s (take (S n * s) l)); [|done|].
  - rewrite take_take, skipn_firstn_comm. do 3 f_equal; lia.
  - destruct l; [done|]. destruct (S n * s)%nat eqn:E; [lia|done].
Qed.

Lemma drop_chunks n s l : (0 < s)%nat -> drop n (chunks s l) = chunks s (drop (n * s) l).
Proof.
  intros Hs. revert l. induction n as [|n IH]; intros l; [done|].
  destruct (decide (l = [])) as [->|Hl]; [by rewrite drop_nil|].
  rewrite chunks_cons by done. simpl drop at 1. rewrite IH, drop_drop. done.
Qed.

End DatagramFacts.

(** ** Lemmas: messages *)

Section MessageFacts.
Context {N : NoqProto} {NL : NoqProtoLaws N} {Ed : Ed25519} {EdL : Ed25519Laws Ed}.
Context {Lru : LruCache PublicKey} {LruL : LruCacheLaws Lru as_bytes}.

(** The values of the message types: array lengths, [str] validity, non-zero
    segment sizes, valid keys; durations are whole milliseconds of 32 bits and
    an unknown status is neither of the two known ones. *)
Definition RelayToClientMsg_wf (m : RelayToClientMsg) : Prop :=
  match m with
  | R2CDatagrams id d => valid_key id /\ datagrams_wf d
  | R2CEndpointGone id => valid_key id
  | R2CStatus (Unknown n) => 2 <= n < 2 ^ 8
  | R2CStatus _ => True
  | R2CRestarting a b =>
      exists x y, a = from_millis x /\ b = from_millis y /\ 0 <= x < 2 ^ 32 /\ 0 <= y < 2 ^ 32
  | R2CPing data | R2CPong data => length data = 8%nat
  | R2CHealth problem => utf8_valid problem = true
  end.

Definition ClientToRelayMsg_wf (m : ClientToRelayMsg) : Prop :=
  match m with
  | C2RDatagrams id d => valid_key id /\ datagrams_wf d
  | C2RPing data | C2RPong data => length data = 8%nat
  end.

(** The frames a version allows. *)
Definition allowed_in (v : ProtocolVersion) (m : RelayToClientMsg) : Prop :=
  match m with
  | R2CHealth _ => v = V1
  | R2CStatus _ => v = V2
  | _ => True
  end.

(** What follows the frame type on the wire. *)
Definition RelayToClientMsg_payload (m : RelayToClientMsg) : bytes :=
  match m with
  | R2CDatagrams id d => as_bytes id ++ Datagrams_write_to d []
  | R2CEndpointGone id => as_bytes id
  | R2CPing data | R2CPong data => data
  | R2CHealth problem => problem
  | R2CRestarting a b => be_bytes 4 (as_u32 (as_millis a)) ++ be_bytes 4 (as_u32 (as_millis b))
  | R2CStatus status => Status_write_to status []
  end.

Definition ClientToRelayMsg_payload (m : ClientToRelayMsg) : bytes :=
  match m with
  | C2RDatagrams id d => as_bytes id ++ Datagrams_write_to d []
  | C2RPing data | C2RPong data => data
  end.

Lemma blen_frame_type t : blen (varint_encode (frame_type_u32 t)) = 1.
Proof. unfold blen. by rewrite length_frame_type. Qed.

Lemma Status_write_to_app s dst : Status_write_to s dst = dst ++ Status_write_to s [].
Proof. by destruct s. Qed.

Lemma RelayToClientMsg_to_bytes_split m :
  RelayToClientMsg_to_bytes m =
    varint_encode (frame_type_u32 (RelayToClientMsg_typ m)) ++ RelayToClientMsg_payload m.
Proof.
  unfold RelayToClientMsg_to_bytes, RelayToClientMsg_write_to, frame_type_write_to. simpl app.
  destruct m as [id d| |status| | | |]; cbn [RelayToClientMsg_payload]; try done.
  - rewrite Datagrams_write_to_app. by rewrite <- app_assoc.
  - by rewrite Status_write_to_app.
  - unfold put_u32. by rewrite <- app_assoc.
Qed.

Lemma ClientToRelayMsg_to_bytes_split m :
  ClientToRelayMsg_to_bytes m =
    varint_encode (frame_type_u32 (ClientToRelayMsg_typ m)) ++ ClientToRelayMsg_payload m.
Proof.
  unfold ClientToRelayMsg_to_bytes, ClientToRelayMsg_write_to, frame_type_write_to. simpl app.
  destruct m as [| |id d]; cbn [ClientToRelayMsg_payload]; try done.
  rewrite Datagrams_write_to_app. by rewrite <- app_assoc.
Qed.

Lemma Status_roundtrip s :
  match s with Unknown n => 2 <= n < 2 ^ 8 | _ => True end ->
  Status_from_bytes (Status_write_to s []) = Ok s.
Proof.
  intros Hs. unfold Status_from_bytes, ensure.
  destruct s as [| |n]; cbn [Status_write_to]; unfold put_u8; rewrite be_bytes_1; simpl; try done.
  rewrite byte.unsigned_of_Z. unfold byte.wrap. rewrite Z.mod_small by lia.
  destruct n as [|[p|p|]|p]; try lia; done.
Qed.

Lemma as_millis_from_millis x : as_millis (from_millis x) = x.
Proof. unfold as_millis, from_millis. by rewrite Z.div_mul. Qed.

Lemma from_be_bytes_u32 x : 0 <= x < 2 ^ 32 -> from_be_bytes (be_bytes 4 (as_u32 x)) = x.
Proof.
  intros Hx. unfold as_u32. rewrite Z.mod_small by done. by apply from_be_bytes_be_bytes.
Qed.

Lemma key_from_slice_valid c id :
  cache_valid c -> valid_key id -> (key_from_slice c (as_bytes id)).2 = Ok id.
Proof.
  intros Hc Hid. destruct (key_from_slice_spec c (as_bytes id) Hc) as [_ ->].
  rewrite try_from_from_bytes. by apply from_bytes_as_bytes.
Qed.

Lemma datagram_frame_len id d :
  valid_key id -> length (as_bytes id ++ Datagrams_write_to d []) = (32 + length (Datagrams_write_to d []))%nat.
Proof. intros H. rewrite length_app. by rewrite valid_key_length. Qed.

Lemma RelayToClientMsg_decode_payload c v m :
  cache_valid c -> RelayToClientMsg_wf m -> allowed_in v m ->
  (RelayToClientMsg_decode c v (RelayToClientMsg_typ m) (RelayToClientMsg_payload m)).2 = Ok m.
Proof.
  intros Hc Hwf Hv. destruct m as [id d|id|s|a b|data|data|p]; cbn [RelayToClientMsg_payload].
  - destruct Hwf as [Hid Hd].
    assert (Ht : RelayToClientMsg_typ (R2CDatagrams id d) =
      if is_batch d then FtRelayToClientDatagramBatch else FtRelayToClientDatagram)
      by (unfold is_batch; simpl; by destruct (segment_size d)).
    pose proof (Datagrams_roundtrip d Hd) as Hrt.
    pose proof (key_from_slice_valid c id Hc Hid) as Hkey.
    rewrite Ht. unfold RelayToClientMsg_decode.
    rewrite (take_app_length' (as_bytes id)) by (by rewrite valid_key_length).
    rewrite slice_from_app by (by apply valid_key_length).
    destruct (Nat.leb_spec LENGTH (length (as_bytes id ++ Datagrams_write_to d [])));
      [|rewrite datagram_frame_len in * by done; unfold LENGTH in *; lia].
    destruct (is_batch d); destruct (key_from_slice c (as_bytes id)) as [c' r]; simpl in *;
      subst r; simpl; by rewrite Hrt.
  - simpl in *. rewrite valid_key_length by done. simpl.
    pose proof (key_from_slice_valid c id Hc Hwf).
    destruct (key_from_slice c (as_bytes id)) as [c' r]. simpl in *. by subst r.
  - simpl in *. subst v. simpl. by rewrite Status_roundtrip.
  - destruct Hwf as (x & y & -> & -> & Hx & Hy). simpl.
    rewrite length_app, !length_be_bytes. simpl.
    rewrite slice_to_app, slice_from_app by apply length_be_bytes. simpl.
    by rewrite !as_millis_from_millis, !from_be_bytes_u32.
  - simpl in *. rewrite Hwf. simpl. by rewrite slice_to_all.
  - simpl in *. rewrite Hwf. simpl. by rewrite slice_to_all.
  - simpl in *. subst v. simpl. unfold from_utf8. by rewrite Hwf.
Qed.

Lemma ClientToRelayMsg_decode_payload c m :
  cache_valid c -> ClientToRelayMsg_wf m ->
  (ClientToRelayMsg_decode c (ClientToRelayMsg_typ m) (ClientToRelayMsg_payload m)).2 = Ok m.
Proof.
  intros Hc Hwf. destruct m as [data|data|id d]; cbn [ClientToRelayMsg_payload].
  - simpl in *. rewrite Hwf. simpl. by rewrite slice_to_all.
  - simpl in *. rewrite Hwf. simpl. by rewrite slice_to_all.
  - destruct Hwf as [Hid Hd].
    assert (Ht : ClientToRelayMsg_typ (C2RDatagrams id d) =
      if is_batch d then FtClientToRelayDatagramBatch else FtClientToRelayDatagram)
      by (unfold is_batch; simpl; by destruct (segment_size d)).
    pose proof (Datagrams_roundtrip d Hd) as Hrt.
    pose proof (key_from_slice_valid c id Hc Hid) as Hkey.
    rewrite Ht. unfold ClientToRelayMsg_decode.
    rewrite slice_to_app, slice_from_app by (by apply valid_key_length).
    destruct (is_batch d); destruct (key_from_slice c (as_bytes id)) as [c' r]; simpl in *;
      subst r; simpl; by rewrite Hrt.
Qed.

Lemma key_from_slice_no_panic c slice :
  cache_valid c -> (key_from_slice c slice).2 <> Panic.
Proof.
  intros Hc. destruct (key_from_slice_spec c slice Hc) as [_ ->].
  rewrite try_from_from_bytes. apply from_bytes_no_panic.
Qed.

(** Decoding the datagrams after the key has been looked up. *)
Lemma datagram_tail_no_panic {A} (key : result KeyParsingError PublicKey) content b
    (f : PublicKey -> Datagrams -> A) :
  key <> Panic -> (LENGTH <= length content)%nat ->
  (let? id := map_err InvalidPublicKey key in
   let? rest := slice_from LENGTH content in
   let? d := Datagrams_from_bytes rest b in
   Ok (f id d)) <> Panic.
Proof.
  intros Hk Hl. destruct key as [id| |]; simpl; [|done..]. unfold slice_from.
  destruct (Nat.leb_spec LENGTH (length content)); [|lia]. simpl.
  pose proof (Datagrams_from_bytes_no_panic (drop LENGTH content) b).
  by destruct (Datagrams_from_bytes (drop LENGTH content) b).
Qed.

Lemma ping_tail_no_panic {A} (content : bytes) (f : bytes -> A) :
  (let? _ := ensure (length content =? 8)%nat InvalidFrame in
   let? data := slice_to 8 content in
   Ok (f data)) <> Panic.
Proof.
  unfold ensure, slice_to. destruct (Nat.eqb_spec (length content) 8) as [->|]; done.
Qed.

Lemma Status_from_bytes_no_panic bs : Status_from_bytes bs <> Panic.
Proof.
  unfold Status_from_bytes, ensure. destruct bs as [|b bs]; [done|]. simpl. by repeat case_match.
Qed.

Lemma RelayToClientMsg_decode_no_panic c v t content :
  cache_valid c -> (RelayToClientMsg_decode c v t content).2 <> Panic.
Proof.
  intros Hc. unfold RelayToClientMsg_decode. destruct t; cbn [snd]; try done;
    try apply ping_tail_no_panic.
  - destruct (Nat.leb_spec LENGTH (length content)); [|done].
    pose proof (key_from_slice_no_panic c (take LENGTH content) Hc).
    destruct (key_from_slice c (take LENGTH content)). by apply datagram_tail_no_panic.
  - destruct (Nat.leb_spec LENGTH (length content)); [|done].
    pose proof (key_from_slice_no_panic c (take LENGTH content) Hc).
    destruct (key_from_slice c (take LENGTH content)). by apply datagram_tail_no_panic.
  - destruct (length content =? LENGTH)%nat; [|done].
    pose proof (key_from_slice_no_panic c content Hc).
    destruct (key_from_slice c content) as [? []]; done.
  - unfold ensure, from_utf8. case_bool_decide; [|done]. simpl. by destruct (utf8_valid content).
  - unfold ensure, slice_to, slice_from.
    destruct (Nat.eqb_spec (length content) (4 + 4)) as [->|]; done.
  - pose proof (Status_from_bytes_no_panic content).
    destruct v; simpl; [done|]. by destruct (Status_from_bytes content).
Qed.

Lemma RelayToClientMsg_from_to_bytes cache version m :
  cache_valid cache -> RelayToClientMsg_wf m -> allowed_in version m ->
  blen (RelayToClientMsg_payload m) <= MAX_PACKET_SIZE ->
  (RelayToClientMsg_from_bytes cache version (RelayToClientMsg_to_bytes m)).2 = Ok m.
Proof.
  intros Hc Hwf Hv Hlen. unfold RelayToClientMsg_from_bytes.
  rewrite RelayToClientMsg_to_bytes_split, frame_type_roundtrip.
  destruct (Z.leb_spec (blen (RelayToClientMsg_payload m)) MAX_PACKET_SIZE); [|lia].
  by apply RelayToClientMsg_decode_payload.
Qed.

Lemma ClientToRelayMsg_from_to_bytes cache m :
  cache_valid cache -> ClientToRelayMsg_wf m ->
  blen (ClientToRelayMsg_payload m) <= MAX_PACKET_SIZE ->
  (ClientToRelayMsg_from_bytes cache (ClientToRelayMsg_to_bytes m)).2 = Ok m.
Proof.
  intros Hc Hwf Hlen. unfold ClientToRelayMsg_from_bytes.
  rewrite ClientToRelayMsg_to_bytes_split, frame_type_roundtrip.
  destruct (Z.leb_spec (blen (ClientToRelayMsg_payload m)) MAX_PACKET_SIZE); [|lia].
  by apply ClientToRelayMsg_decode_payload.
Qed.

Lemma datagram_payload_len id d :
  valid_key id -> blen (as_bytes id ++ Datagrams_write_to d []) = 32 + Datagrams_encoded_len d.
Proof.
  intros H. rewrite blen_app, <- Datagrams_encoded_len_ok. unfold blen. by rewrite valid_key_length.
Qed.

End MessageFacts.

(** ** Properties *)

Section Properties.
Context {N : NoqProto} {NL : NoqProtoLaws N} {Ed : Ed25519} {EdL : Ed25519Laws Ed}.
Context {Lru : LruCache PublicKey} {LruL : LruCacheLaws Lru as_bytes}.

(** A client decodes every message the relay encodes: for each well-formed
    message that fits a packet and is allowed in the negotiated version, decoding
    the encoding gives the message back, whatever the key cache holds. *)
Theorem relay_to_client_roundtrip cache version m :
  cache_valid cache -> RelayToClientMsg_wf m -> allowed_in version m ->
  blen (RelayToClientMsg_payload m) <= MAX_PACKET_SIZE ->
  (RelayToClientMsg_from_bytes cache version (RelayToClientMsg_to_bytes m)).2 = Ok m.
Proof.
  apply RelayToClientMsg_from_to_bytes.
Qed.

(** The relay decodes every message a client encodes. *)
Theorem client_to_relay_roundtrip cache m :
  cache_valid cache -> ClientToRelayMsg_wf m ->
  blen (ClientToRelayMsg_payload m) <= MAX_PACKET_SIZE ->
  (ClientToRelayMsg_from_bytes cache (ClientToRelayMsg_to_bytes m)).2 = Ok m.
Proof.
  apply ClientToRelayMsg_from_to_bytes.
Qed.

(** [encoded_len] is the number of bytes [to_bytes] writes, for both
    message types, so the buffers are allocated exactly. *)
Theorem encoded_len_exact m c :
  RelayToClientMsg_wf m -> ClientToRelayMsg_wf c ->
  RelayToClientMsg_encoded_len m = Some (blen (RelayToClientMsg_to_bytes m)) /\
  ClientToRelayMsg_encoded_len c = Some (blen (ClientToRelayMsg_to_bytes c)).
Proof.
  intros Hm Hc. unfold RelayToClientMsg_encoded_len, ClientToRelayMsg_encoded_len.
  rewrite !frame_type_encoded_len_1, RelayToClientMsg_to_bytes_split, ClientToRelayMsg_to_bytes_split.
  rewrite !blen_app, !blen_frame_type. simpl option_map. split; do 2 f_equal.
  - destruct m as [id d|id|[| |n]|a b|data|data|p]; cbn [RelayToClientMsg_payload]; simpl in Hm;
      unfold Status_encoded_len; cbn [Status_write_to]; unfold put_u8;
      autorewrite with blen; rewrite <- ?Datagrams_encoded_len_ok; unfold blen;
      rewrite ?valid_key_length by tauto; rewrite ?Hm; simpl; lia.
  - destruct c as [data|data|id d]; cbn [ClientToRelayMsg_payload]; simpl in Hc;
      autorewrite with blen; rewrite <- ?Datagrams_encoded_len_ok; unfold blen;
      rewrite ?valid_key_length by tauto; rewrite ?Hc; simpl; lia.
Qed.

(** No frame makes a client panic: [RelayToClientMsg::from_bytes] returns a
    message or an error on every byte string. *)
Theorem relay_to_client_decode_total cache version content :
  cache_valid cache -> (RelayToClientMsg_from_bytes cache version content).2 <> Panic.
Proof.
  intros Hc. unfold RelayToClientMsg_from_bytes.
  pose proof (frame_type_from_bytes_no_panic content) as Hf.
  destruct (frame_type_from_bytes content) as [[t rest]| |]; simpl; [|done..].
  destruct (blen rest <=? MAX_PACKET_SIZE); simpl; [|done].
  by apply RelayToClientMsg_decode_no_panic.
Qed.

(** C39: the relay's decoder does panic, and exactly on a datagram frame (or
    batch) that is too short for an endpoint id: the length check the client's
    decoder has before slicing is missing there. *)
Theorem client_to_relay_decode_panics cache content :
  cache_valid cache ->
  (ClientToRelayMsg_from_bytes cache content).2 = Panic <->
  exists t rest, frame_type_from_bytes content = Ok (t, rest) /\
    (t = FtClientToRelayDatagram \/ t = FtClientToRelayDatagramBatch) /\
    (length rest < LENGTH)%nat.
Proof.
  intros Hc. unfold ClientToRelayMsg_from_bytes.
  pose proof (frame_type_from_bytes_no_panic content) as Hf.
  destruct (frame_type_from_bytes content) as [[t rest]| |]; [|naive_solver..].
  split.
  - intros H. exists t, rest. split; [done|]. revert H.
    destruct (blen rest <=? MAX_PACKET_SIZE); [|done]. unfold ClientToRelayMsg_decode, slice_to.
    destruct t; cbn [snd]; try done;
      try (intros H; exfalso; revert H; apply ping_tail_no_panic).
    all: intros H; split; [tauto|]; revert H;
      destruct (Nat.leb_spec LENGTH (length rest)); [|done];
      pose proof (key_from_slice_no_panic cache (take LENGTH rest) Hc);
      destruct (key_from_slice cache (take LENGTH rest));
      intros H'; exfalso; revert H'; by apply datagram_tail_no_panic.
  - intros (t' & rest' & [= <- <-] & Ht & Hl).
    destruct (Z.leb_spec (blen rest) MAX_PACKET_SIZE) as [_|Hbig];
      [|unfold blen, MAX_PACKET_SIZE, LENGTH in *; lia].
    unfold ClientToRelayMsg_decode, slice_to.
    destruct (Nat.leb_spec LENGTH (length rest)); [lia|]. by destruct Ht as [-> | ->].
Qed.

(** [take_segments] splits a batch at a datagram boundary: what it returns
    are the first [n] datagrams, what it leaves are the others, both keep the
    ECN bits, and a batch of one datagram carries no segment size. *)
Theorem take_segments_splits d n :
  datagrams_wf d -> 1 <= n < 2 ^ 48 ->
  let (taken, left) := take_segments d n in
  segments taken = take (Z.to_nat n) (segments d) /\
  segments left = drop (Z.to_nat n) (segments d) /\
  contents taken ++ contents left = contents d /\
  ecn taken = ecn d /\ ecn left = ecn d /\
  (forall s, segment_size taken = Some s -> s < blen (contents taken)) /\
  (forall s, segment_size left = Some s -> s < blen (contents left)).
Proof.
  intros Hwf Hn. destruct d as [e [s|] c]; unfold take_segments, segments, datagrams_wf in *;
    cbn [segment_size contents ecn] in *.
  - unfold as_u64. rewrite Z.mod_small by nia.
    set (k := Z.to_nat (Z.min (n * s) (blen c))).
    assert (Htk : take k c = take (Z.to_nat n * Z.to_nat s) c /\
                  drop k c = drop (Z.to_nat n * Z.to_nat s) c).
    { rewrite <- Z2Nat.inj_mul by lia. unfold k, blen.
      destruct (Z.le_ge_cases (n * s) (Z.of_nat (length c))) as [H|H].
      - by rewrite Z.min_l.
      - rewrite Z.min_r, Nat2Z.id by lia. by rewrite !take_ge, !drop_ge by lia. }
    assert (Hs : (0 < Z.to_nat s)%nat) by lia.
    assert (Hone : forall l, blen l <= s ->
      one_segment l = chunks (Z.to_nat s) l).
    { intros l Hl. unfold blen in Hl. by rewrite chunks_small by lia. }
    assert (Hbatch : ((1 <? n) && (s <? blen (take k c))) = (s <? blen (take k c))).
    { destruct (Z.ltb_spec 1 n); [done|]. symmetry. apply Z.ltb_ge.
      assert (n = 1) as -> by lia. unfold k, blen. rewrite length_take. lia. }
    rewrite Hbatch. split; [|split]; [..|split; [apply take_drop|]].
    + rewrite take_chunks by done. rewrite <- (proj1 Htk).
      destruct (Z.ltb_spec s (blen (take k c))); [done|]. by apply Hone.
    + rewrite drop_chunks by done. rewrite <- (proj2 Htk).
      destruct (Z.leb_spec (blen (drop k c)) s); [|done]. by apply Hone.
    + split; [done|]. split; [done|]. split; intros s'.
      * destruct (Z.ltb_spec s (blen (take k c))); [|done]. by intros [= <-].
      * destruct (Z.leb_spec (blen (drop k c)) s); [done|]. by intros [= <-].
  - split; [|split; [|split; [apply app_nil_r|done]]].
    + symmetry. apply take_ge. unfold one_segment. case_decide; simpl; lia.
    + symmetry. apply drop_ge. unfold one_segment. case_decide; simpl; lia.
Qed.

End Properties.

(** ** Witnesses *)

Definition example_batch : @Datagrams noq_proto :=
  @mkDatagrams noq_proto (Some Ce) (Some 6) (String.list_byte_of_string "Hello World!").

Lemma relay_to_client_roundtrip_witness :
  (@RelayToClientMsg_from_bytes noq_proto checksum_keys (list_cache PublicKey as_bytes)
     (@KeyCache_new (list_cache PublicKey as_bytes) 0) V2
     (@RelayToClientMsg_to_bytes noq_proto (@R2CDatagrams noq_proto example_key example_batch))).2
  = Ok (@R2CDatagrams noq_proto example_key example_batch).
Proof.
  apply (@relay_to_client_roundtrip noq_proto noq_proto_laws checksum_keys checksum_keys_laws
    (list_cache PublicKey as_bytes) (list_cache_laws PublicKey as_bytes)).
  - exact I.
  - split; [vm_compute; eauto|]. split; reflexivity.
  - exact I.
  - vm_compute. discriminate.
Defined.

Lemma client_to_relay_roundtrip_witness :
  (@ClientToRelayMsg_from_bytes noq_proto checksum_keys (list_cache PublicKey as_bytes)
     (@KeyCache_new (list_cache PublicKey as_bytes) 0)
     (@ClientToRelayMsg_to_bytes noq_proto (@C2RDatagrams noq_proto example_key example_batch))).2
  = Ok (@C2RDatagrams noq_proto example_key example_batch).
Proof.
  apply (@client_to_relay_roundtrip noq_proto noq_proto_laws checksum_keys checksum_keys_laws
    (list_cache PublicKey as_bytes) (list_cache_laws PublicKey as_bytes)).
  - exact I.
  - split; [vm_compute; eauto|]. split; reflexivity.
  - vm_compute. discriminate.
Defined.

Lemma encoded_len_exact_witness :
  @ClientToRelayMsg_encoded_len noq_proto (@C2RPing noq_proto (replicate 8 Byte.x2a)) = Some 9.
Proof.
  change 9 with (blen (@ClientToRelayMsg_to_bytes noq_proto (@C2RPing noq_proto (replicate 8 Byte.x2a)))).
  apply (@encoded_len_exact noq_proto noq_proto_laws checksum_keys checksum_keys_laws
    (@R2CPing noq_proto (replicate 8 Byte.x00))); reflexivity.
Defined.

Lemma relay_to_client_decode_total_witness :
  (@RelayToClientMsg_from_bytes noq_proto checksum_keys (list_cache PublicKey as_bytes)
     (@KeyCache_new (list_cache PublicKey as_bytes) 0) V2 [Byte.x06; Byte.x00]).2 <> Panic.
Proof.
  apply (@relay_to_client_decode_total noq_proto checksum_keys checksum_keys_laws
    (list_cache PublicKey as_bytes) (list_cache_laws PublicKey as_bytes)).
  exact I.
Defined.

Lemma client_to_relay_decode_panics_witness :
  (@ClientToRelayMsg_from_bytes noq_proto checksum_keys (list_cache PublicKey as_bytes)
     (@KeyCache_new (list_cache PublicKey as_bytes) 0) [Byte.x04; Byte.x00]).2 = Panic.
Proof.
  apply (@client_to_relay_decode_panics noq_proto checksum_keys checksum_keys_laws
    (list_cache PublicKey as_bytes) (list_cache_laws PublicKey as_bytes)); [exact I|].
  exists FtClientToRelayDatagram, [Byte.x00]. split; [reflexivity|]. split; [tauto|].
  unfold LENGTH. simpl. lia.
Defined.

Lemma take_segments_splits_witness :
  @segments noq_proto (@take_segments noq_proto example_batch 1).1 =
    [String.list_byte_of_string "Hello "].
Proof.
  pose proof (@take_segments_splits noq_proto example_batch 1) as H.
  destruct (@take_segments noq_proto example_batch 1) as [taken left]. simpl.
  destruct H as [-> _]; [split; reflexivity|lia|]. vm_compute. reflexivity.
Defined.
