(* ===== verification/PingTracker.v ===== *)
(** * Ping tracking on a relay connection

    [iroh-relay/src/ping_tracker.rs]. Time and randomness are arguments: [now]
    is [Instant::now()], [ping_data] is [rand::random()]. *)

From S2P Require Import Prelude.

Module Ping.

Definition PING_TIMEOUT : Z := from_secs 5.
Definition MIN_HEALTH_CHECK_TIMEOUT : Z := from_millis 500.

Record PingInner := mkPingInner {
  data : bytes;
  deadline : Z;
  sent_at : Z
}.

Record PingTracker := mkPingTracker {
  inner : option PingInner;
  max_timeout : Z;
  last_rtt : option Z
}.

Definition PingTracker_new (max_timeout : Z) : PingTracker := mkPingTracker None max_timeout None.

Definition PingTracker_default : PingTracker := PingTracker_new PING_TIMEOUT.

Definition ping_timeout {E} (self : PingTracker) : result E Z :=
  match last_rtt self with
  | Some rtt =>
      let? d := duration_mul rtt 3 in
      clamp d MIN_HEALTH_CHECK_TIMEOUT (max_timeout self)
  | None => Ok (max_timeout self)
  end.

Definition new_ping_with_timeout (self : PingTracker) (timeout now : Z) (ping_data : bytes)
    : PingTracker * bytes :=
  (mkPingTracker (Some (mkPingInner ping_data (now + timeout) now)) (max_timeout self) (last_rtt self),
   ping_data).

Definition new_ping {E} (self : PingTracker) (now : Z) (ping_data : bytes)
    : result E (PingTracker * bytes) :=
  let? timeout := ping_timeout self in
  Ok (new_ping_with_timeout self timeout now ping_data).

(** [sent_at.elapsed()] saturates at zero. *)
Definition pong_received (self : PingTracker) (d : bytes) (now : Z) : PingTracker :=
  match inner self with
  | Some i =>
      if decide (data i = d)
      then mkPingTracker None (max_timeout self) (Some (saturating_duration_since now (sent_at i)))
      else self
  | None => self
  end.

(** [timeout()]: whether the future is ready at [now], and the state then. *)
Definition timeout_poll (self : PingTracker) (now : Z) : option PingTracker :=
  match inner self with
  | Some i =>
      if deadline i <=? now
      then Some (mkPingTracker None (max_timeout self) (last_rtt self))
      else None
  | None => None
  end.

(** ** Runs *)

Inductive event :=
| EvPing (now : Z) (ping_data : bytes)
| EvPong (now : Z) (pong_data : bytes).

Definition event_time (e : event) : Z :=
  match e with EvPing now _ | EvPong now _ => now end.

Definition handle (self : PingTracker) (e : event) : result False PingTracker :=
  match e with
  | EvPing now d => rmap fst (new_ping self now d)
  | EvPong now d => Ok (pong_received self d now)
  end.

Fixpoint run (self : PingTracker) (es : list event) : result False PingTracker :=
  match es with
  | [] => Ok self
  | e :: es => let? self := handle self e in run self es
  end.

(** The ping a run leaves open: the last one sent, unless its pong came. *)
Fixpoint outstanding (open : option (Z * bytes)) (es : list event) : option (Z * bytes) :=
  match es with
  | [] => open
  | EvPing now d :: es => outstanding (Some (now, d)) es
  | EvPong _ d :: es =>
      match open with
      | Some (_, d') => outstanding (if decide (d' = d) then None else open) es
      | None => outstanding None es
      end
  end.

(** ** Lemmas *)

Lemma ping_timeout_bounds self :
  MIN_HEALTH_CHECK_TIMEOUT <= max_timeout self ->
  (forall rtt, last_rtt self = Some rtt -> 0 <= rtt /\ 3 * rtt <= duration_max) ->
  exists t, @ping_timeout False self = Ok t /\ MIN_HEALTH_CHECK_TIMEOUT <= t <= max_timeout self.
Proof.
  intros Hmax Hrtt. unfold ping_timeout. destruct (last_rtt self) as [rtt|]; [|eexists; split; [done|lia]].
  destruct (Hrtt rtt eq_refl) as [H0 H1]. unfold duration_mul, clamp.
  destruct (Z.leb_spec (rtt * 3) duration_max); [|lia]. simpl.
  destruct (Z.leb_spec MIN_HEALTH_CHECK_TIMEOUT (max_timeout self)); [|lia].
  eexists. split; [done|]. lia.
Qed.

(** What a run from [self] keeps: the clock bounds every round trip. *)
Record tracked (horizon : Z) (self : PingTracker) (open : option (Z * bytes)) : Prop := mkTracked {
  tr_max : MIN_HEALTH_CHECK_TIMEOUT <= max_timeout self;
  tr_rtt rtt : last_rtt self = Some rtt -> 0 <= rtt <= horizon;
  tr_open :
    match inner self, open with
    | Some i, Some (t, d) =>
        data i = d /\ sent_at i = t /\ 0 <= t /\
        t + MIN_HEALTH_CHECK_TIMEOUT <= deadline i <= t + max_timeout self
    | None, None => True
    | _, _ => False
    end
}.

Lemma handle_tracked horizon self open e :
  3 * horizon <= duration_max -> 0 <= event_time e <= horizon -> tracked horizon self open ->
  exists self', handle self e = Ok self' /\ max_timeout self' = max_timeout self /\
    tracked horizon self' (outstanding open [e]).
Proof.
  intros Hh Ht [Hmax Hrtt Hopen]. destruct e as [now d|now d]; simpl in Ht.
  - destruct (ping_timeout_bounds self Hmax) as (t & Et & Hb).
    { intros rtt E. specialize (Hrtt rtt E). lia. }
    eexists. split; [simpl; unfold rmap, new_ping; rewrite Et; reflexivity|].
    split; [done|]. split; simpl; [done|done|]. split_and!; [done..|lia|lia|lia].
  - eexists. split; [reflexivity|]. simpl. unfold pong_received.
    destruct (inner self) as [i|] eqn:Ei; destruct open as [[t d']|]; try done;
      [|split; [done|]; split; [done..|by rewrite Ei]].
    destruct Hopen as (Hd & Hs & H0 & Hb). rewrite <- Hd. case_decide as E.
    + split; [done|]. split; simpl; [done| |done]. intros rtt [= <-].
      unfold saturating_duration_since. lia.
    + split; [done|]. split; [done..|]. rewrite Ei. auto.
Qed.

Lemma run_tracked horizon es self open :
  3 * horizon <= duration_max -> Forall (fun e => 0 <= event_time e <= horizon) es ->
  tracked horizon self open ->
  exists self', run self es = Ok self' /\ max_timeout self' = max_timeout self /\
    tracked horizon self' (outstanding open es).
Proof.
  intros Hh Hes. revert self open. induction Hes as [|e es He _ IH]; intros self open Htr; [eauto|].
  destruct (handle_tracked horizon self open e Hh He Htr) as (self1 & E1 & Hm1 & Htr1).
  destruct (IH self1 _ Htr1) as (self2 & E2 & Hm2 & Htr2).
  exists self2. simpl. rewrite E1. simpl. rewrite E2. split; [done|]. split; [congruence|].
  destruct e as [now d|now d]; simpl in *; [done|]. destruct open as [[t d']|]; [|done].
  by destruct (decide (d' = d)).
Qed.

(** ** Properties *)

(** Over any run of pings and pongs the tracker never panics and watches
    exactly the last ping whose pong has not come: stale and unknown pongs change
    nothing, without an open ping the timeout never fires, and an open ping times
    out at one instant, between 500 ms and 5 s after it was sent. *)
Theorem ping_tracker_run es :
  Forall (fun e => 0 <= event_time e <= duration_max / 3) es ->
  exists self, run PingTracker_default es = Ok self /\
    match outstanding None es with
    | None => forall now, timeout_poll self now = None
    | Some (sent, _) =>
        exists deadline, sent + from_millis 500 <= deadline <= sent + from_secs 5 /\
          forall now, is_Some (timeout_poll self now) <-> deadline <= now
    end.
Proof.
  intros Hes. destruct (run_tracked (duration_max / 3) es PingTracker_default None)
    as (self & Hrun & Hm & [_ _ Hopen]); [|done|by split|].
  { pose proof (Z.mul_div_le duration_max 3). lia. }
  exists self. split; [done|]. rewrite Hm in Hopen. unfold timeout_poll.
  destruct (outstanding None es) as [[t d]|]; destruct (inner self) as [i|]; try done.
  destruct Hopen as (_ & _ & _ & Hb). exists (deadline i). split; [done|]. intros now.
  destruct (Z.leb_spec (deadline i) now) as [H|H].
  - split; [done|eauto].
  - split; [by intros [? [=]]|lia].
Qed.

Lemma ping_tracker_run_witness :
  exists self, run PingTracker_default
      [EvPing 0 [Byte.x01]; EvPong 5 [Byte.x02]; EvPong 9 [Byte.x01]] = Ok self /\
    forall now, timeout_poll self now = None.
Proof.
  apply (ping_tracker_run [EvPing 0 [Byte.x01]; EvPong 5 [Byte.x02]; EvPong 9 [Byte.x01]]).
  repeat constructor; vm_compute; discriminate.
Defined.

End Ping.
