(* ===== verification/RateLimit.v ===== *)
(** * The relay's receive rate limiter

    [Bucket] and [RateLimited] of [iroh-relay/src/server/streams.rs]: a token
    bucket over machine integers, and the reader that stops polling its stream
    while the bucket is empty. [now] is [Instant::now()]. *)

From S2P Require Import Prelude.

Module Rate.

(** ** The bucket *)

Record Bucket := mkBucket {
  fill : Z;            (* i64 *)
  max : Z;             (* i64 *)
  last_fill : Z;       (* Instant *)
  refill_period : Z;   (* Duration *)
  refill : Z           (* i64 *)
}.

Record InvalidBucketConfig := mkInvalidBucketConfig {
  bad_max : Z;
  bad_bytes_per_second : Z;
  bad_refill_period : Z
}.

Definition Bucket_new (max bytes_per_second refill_period now : Z) : result InvalidBucketConfig Bucket :=
  let refill := Z.quot (i64_saturating_mul bytes_per_second (as_i64 (as_millis refill_period))) 1000 in
  let? _ := ensure ((0 <? max) && (0 <? bytes_per_second) && (0 <? as_u32 (as_millis refill_period))
                    && (0 <? refill))
              (mkInvalidBucketConfig max bytes_per_second refill_period) in
  Ok (mkBucket max max now refill_period refill).

(** The product of the periods and the refill is an [i64] multiplication, which
    wraps around in a release build. *)
Definition update_state {E} (self : Bucket) (now : Z) : result E Bucket :=
  let refill_periods :=
    as_u32 (as_millis (saturating_duration_since now (last_fill self)))
    / as_u32 (as_millis (refill_period self)) in
  if refill_periods =? 0 then Ok self
  else
    let f := i64_saturating_add (fill self) (as_i64 (refill_periods * refill self)) in
    let f := Z.min f (max self) in
    let? d := duration_mul (refill_period self) refill_periods in
    Ok (mkBucket f (max self) (last_fill self + d) (refill_period self) (refill self)).

(** [consume]: the bucket afterwards, and [Err deadline] when it is empty. *)
Definition consume (self : Bucket) (n now : Z) : result Z unit * Bucket :=
  let n := Z.min n i64_max in
  match @update_state Z self now with
  | Ok self =>
      let self := mkBucket (i64_saturating_sub (fill self) n) (max self) (last_fill self)
                    (refill_period self) (refill self) in
      if 0 <? fill self then (Ok tt, self)
      else
        let missing := i64_saturating_neg (fill self) in
        let periods_needed := Z.quot missing (refill self) + 1 in
        let periods_needed := Z.min periods_needed u32_max in
        match @duration_mul Z (refill_period self) periods_needed with
        | Ok d => (Err (last_fill self + d), self)
        | _ => (Panic, self)
        end
  | Err e => (Err e, self)
  | Panic => (Panic, self)
  end.

(** ** The rate-limited reader *)

Record ClientRateLimit := mkClientRateLimit {
  bytes_per_second : Z;             (* NonZeroU32 *)
  max_burst_bytes : option Z        (* NonZeroU32 *)
}.

Record RateLimited := mkRateLimited {
  bucket : option Bucket;
  bucket_refilled : option Z;       (* the deadline of the sleep *)
  limited_once : bool;
  bytes_rx_ratelimited_total : Z;
  conns_rx_ratelimited_total : Z
}.

Definition unlimited (bytes_total conns_total : Z) : RateLimited :=
  mkRateLimited None None false bytes_total conns_total.

Definition RateLimited_new (max_burst bps now bytes_total conns_total : Z)
    : result InvalidBucketConfig RateLimited :=
  let? b := Bucket_new max_burst bps (from_millis 100) now in
  Ok (mkRateLimited (Some b) None false bytes_total conns_total).

Definition from_cfg (cfg : option ClientRateLimit) (now bytes_total conns_total : Z)
    : result InvalidBucketConfig RateLimited :=
  match cfg with
  | Some cfg =>
      let bps := bytes_per_second cfg in
      let max_burst := match max_burst_bytes cfg with Some m => m | None => bps / 10 end in
      RateLimited_new max_burst bps now bytes_total conns_total
  | None => Ok (unlimited bytes_total conns_total)
  end.

Definition record_rate_limited (self : RateLimited) (n : Z) : RateLimited :=
  mkRateLimited (bucket self) (bucket_refilled self) true
    (bytes_rx_ratelimited_total self + n)
    (if limited_once self then conns_rx_ratelimited_total self
     else conns_rx_ratelimited_total self + 1).

(** A poll of the inner stream: not ready, an error, or so many bytes. *)
Inductive poll :=
| Pending
| ReadErr
| ReadBytes (n : Z).

(** [poll_read]: what it returns, whether it polled the inner stream, and the
    state. *)
Definition poll_read (self : RateLimited) (now : Z) (inner : poll) : option poll * bool * RateLimited :=
  match bucket self with
  | None => (Some inner, true, self)
  | Some b =>
      let waiting :=
        match bucket_refilled self with
        | Some d => now <? d
        | None => false
        end in
      if waiting then (Some Pending, false, self)
      else
        let self := mkRateLimited (bucket self) None (limited_once self)
                      (bytes_rx_ratelimited_total self) (conns_rx_ratelimited_total self) in
        match inner with
        | Pending => (Some Pending, true, self)
        | ReadErr => (Some ReadErr, true, self)
        | ReadBytes bytes_read =>
            match consume b bytes_read now with
            | (Ok _, b) =>
                (Some (ReadBytes bytes_read), true,
                 mkRateLimited (Some b) None (limited_once self)
                   (bytes_rx_ratelimited_total self) (conns_rx_ratelimited_total self))
            | (Err refill_time, b) =>
                let self := record_rate_limited self bytes_read in
                (Some (ReadBytes bytes_read), true,
                 mkRateLimited (Some b) (Some refill_time) (limited_once self)
                   (bytes_rx_ratelimited_total self) (conns_rx_ratelimited_total self))
            | (Panic, _) => (None, true, self)
            end
        end
  end.

(** ** Lemmas *)

(** The configurations the server builds: 32-bit rates and a period of whole
    milliseconds. *)
Record bucket_wf (b : Bucket) : Prop := mkBucketWf {
  wf_max : 0 < max b < 2 ^ 32;
  wf_refill : 0 < refill b < 2 ^ 30;
  wf_period : exists ms, refill_period b = from_millis ms /\ 0 < ms < 2 ^ 16;
  wf_fill : fill b <= max b
}.

(** The refill periods that have passed. *)
Definition periods (b : Bucket) (now : Z) : Z :=
  as_millis (saturating_duration_since now (last_fill b)) / as_millis (refill_period b).

(** The clock has not run for 2^32 milliseconds since the last refill. *)
Definition recent (b : Bucket) (now : Z) : Prop :=
  as_millis (saturating_duration_since now (last_fill b)) < 2 ^ 32.

Lemma as_millis_nonneg d : 0 <= d -> 0 <= as_millis d.
Proof. intros. unfold as_millis. apply Z.div_pos; lia. Qed.

Lemma elapsed_nonneg b now : 0 <= saturating_duration_since now (last_fill b).
Proof. unfold saturating_duration_since. lia. Qed.

Lemma as_i64_id z : in_i64 z -> as_i64 z = z.
Proof.
  unfold in_i64, as_i64, i64_min, i64_max. intros H. rewrite Z.mod_small by lia. lia.
Qed.

Lemma clamp_i64_id z : in_i64 z -> clamp_i64 z = z.
Proof. unfold in_i64, clamp_i64. lia. Qed.

Lemma period_millis b : bucket_wf b -> 0 < as_millis (refill_period b) < 2 ^ 16.
Proof.
  intros [_ _ (ms & -> & Hms) _]. unfold as_millis, from_millis. rewrite Z.div_mul by lia. done.
Qed.

Lemma periods_bounds b now : bucket_wf b -> recent b now -> 0 <= periods b now < 2 ^ 32.
Proof.
  intros Hwf Hr. pose proof (period_millis b Hwf) as Hp. unfold periods, recent in *.
  pose proof (as_millis_nonneg _ (elapsed_nonneg b now)). split; [apply Z.div_pos; lia|].
  apply Z.div_lt_upper_bound; [lia|]. nia.
Qed.

(** [update_state] adds the refill of the periods that have passed, up to the
    maximum, and moves [last_fill] by whole periods. *)
Lemma update_state_spec {E} b now :
  bucket_wf b -> recent b now -> i64_min <= fill b ->
  @update_state E b now =
    Ok (mkBucket (Z.min (fill b + periods b now * refill b) (max b)) (max b)
          (last_fill b + refill_period b * periods b now) (refill_period b) (refill b)).
Proof.
  intros Hwf Hr Hmin. pose proof (period_millis b Hwf) as Hp.
  pose proof (periods_bounds b now Hwf Hr) as Hpb.
  pose proof (as_millis_nonneg _ (elapsed_nonneg b now)) as He.
  destruct Hwf as [Hm Hre (ms & Hms & Hmsb) Hfill]. unfold recent in Hr.
  unfold update_state, as_u32. rewrite !Z.mod_small by lia. fold (periods b now).
  destruct (Z.eqb_spec (periods b now) 0) as [E0|E0].
  - rewrite E0. rewrite Z.mul_0_l, Z.mul_0_r, !Z.add_0_r. rewrite Z.min_l by lia. by destruct b.
  - rewrite as_i64_id by (unfold in_i64, i64_min, i64_max; nia).
    unfold duration_mul. destruct (Z.leb_spec (refill_period b * periods b now) duration_max) as [_|H].
    + simpl. do 2 f_equal. unfold i64_saturating_add, clamp_i64, i64_min, i64_max in *. nia.
    + exfalso. rewrite Hms in H. unfold from_millis, duration_max in H. nia.
Qed.

(** The tokens in the bucket at [now], before anything is taken. *)
Definition available (b : Bucket) (now : Z) : Z :=
  Z.min (fill b + periods b now * refill b) (max b).

(** The least number of periods after which the bucket is positive again. *)
Definition periods_needed (b : Bucket) : Z := - fill b / refill b + 1.

Definition refill_deadline (b : Bucket) : Z := last_fill b + refill_period b * periods_needed b.

Definition take_tokens (b : Bucket) (n now : Z) : Bucket :=
  mkBucket (available b now - n) (max b) (last_fill b + refill_period b * periods b now)
    (refill_period b) (refill b).

Lemma consume_spec b n now :
  bucket_wf b -> recent b now -> - 2 ^ 30 <= fill b -> 0 <= n <= 2 ^ 30 ->
  consume b n now =
    (if n <? available b now then Ok tt else Err (refill_deadline (take_tokens b n now)),
     take_tokens b n now).
Proof.
  intros Hwf Hr Hf Hn. pose proof (periods_bounds b now Hwf Hr) as Hp.
  unfold consume. rewrite Z.min_l by (unfold i64_max; lia).
  rewrite update_state_spec by (done || unfold i64_min; lia). cbn [fill max last_fill refill_period refill].
  fold (available b now).
  assert (Ha : - 2 ^ 30 <= available b now < 2 ^ 32).
  { destruct Hwf as [Hm Hre _ _]. unfold available. nia. }
  unfold i64_saturating_sub. rewrite clamp_i64_id by (unfold in_i64, i64_min, i64_max; lia).
  fold (take_tokens b n now).
  destruct (Z.ltb_spec 0 (available b now - n)), (Z.ltb_spec n (available b now)); try lia; [done|].
  unfold i64_saturating_neg. rewrite clamp_i64_id by (unfold in_i64, i64_min, i64_max; lia).
  destruct Hwf as [Hm Hre (ms & Hms & Hmsb) _].
  rewrite Z.quot_div_nonneg by lia.
  assert (Hq : 0 <= - (available b now - n) / refill b <= 2 ^ 31).
  { split; [apply Z.div_pos; lia|]. apply Z.div_le_upper_bound; [lia|]. nia. }
  rewrite Z.min_l by (unfold u32_max; lia).
  unfold duration_mul. destruct (Z.leb_spec (refill_period b * (- (available b now - n) / refill b + 1)) duration_max)
    as [_|H']; [done|].
  exfalso. rewrite Hms in H'. unfold from_millis, duration_max in H'. nia.
Qed.

(** The number of whole periods since the last refill. *)
Lemma periods_le b now k :
  bucket_wf b -> 0 < k -> (k <= periods b now <-> last_fill b + refill_period b * k <= now).
Proof.
  intros [_ _ (ms & Hms & Hmsb) _] Hk. unfold periods, saturating_duration_since, as_millis.
  rewrite Hms. unfold from_millis. rewrite Z.div_mul by lia. rewrite Z.div_div by lia.
  split; intros H.
  - assert (H' : 10 ^ 6 * ms * k <= Z.max 0 (now - last_fill b)).
    { pose proof (Z.mul_div_le (Z.max 0 (now - last_fill b)) (10 ^ 6 * ms)). nia. }
    assert (0 < ms * k) by nia. lia.
  - apply Z.div_le_lower_bound; nia.
Qed.

Lemma last_fill_le b now : bucket_wf b -> last_fill b <= now ->
  last_fill b + refill_period b * periods b now <= now.
Proof.
  intros Hwf H. destruct (Z.le_gt_cases (periods b now) 0).
  - assert (0 <= periods b now).
    { pose proof (period_millis b Hwf). unfold periods.
      apply Z.div_pos; [apply as_millis_nonneg, elapsed_nonneg|lia]. }
    replace (periods b now) with 0 by lia. lia.
  - apply periods_le; [done|lia|lia].
Qed.

Lemma periods_needed_pos b : bucket_wf b -> fill b <= 0 -> 0 < periods_needed b.
Proof.
  intros [_ Hre _ _] Hf. unfold periods_needed.
  assert (0 <= - fill b / refill b) by (apply Z.div_pos; lia). lia.
Qed.

(** The bucket is positive exactly from its deadline on. *)
Lemma available_deadline b now :
  bucket_wf b -> fill b <= 0 -> (0 < available b now <-> refill_deadline b <= now).
Proof.
  intros Hwf Hf. pose proof (periods_needed_pos b Hwf Hf) as Hpos. unfold refill_deadline.
  rewrite <- periods_le by done. destruct Hwf as [Hm Hre _ _]. unfold available, periods_needed in *.
  pose proof (Z.div_mod (- fill b) (refill b)) as Hdm.
  pose proof (Z.mod_pos_bound (- fill b) (refill b)). split; intros H'; nia.
Qed.

Lemma take_tokens_wf b n now :
  bucket_wf b -> 0 <= n -> bucket_wf (take_tokens b n now).
Proof.
  intros [Hm Hre Hp Hf] Hn. split; simpl; try done. unfold available. lia.
Qed.

(** ** Runs of the reader *)

(** A sequence of polls: the bytes handed out and the state, [None] on a panic. *)
Fixpoint poll_run (self : RateLimited) (polls : list (Z * poll)) : option (Z * RateLimited) :=
  match polls with
  | [] => Some (0, self)
  | (now, inner) :: polls =>
      match poll_read self now inner with
      | (Some out, _, self) =>
          match poll_run self polls with
          | Some (total, self) => Some (match out with ReadBytes n => n | _ => 0 end + total, self)
          | None => None
          end
      | (None, _, _) => None
      end
  end.

(** Polls at times that do not decrease, after [t] and before [t1], each handing
    out at most [M] bytes. *)
Fixpoint polls_ok (t t1 M : Z) (polls : list (Z * poll)) : Prop :=
  match polls with
  | [] => True
  | (now, inner) :: polls =>
      t <= now <= t1 /\ match inner with ReadBytes n => 0 <= n <= M | _ => True end /\
      polls_ok now t1 M polls
  end.

(** What holds of the reader at time [t] when [total] bytes were handed out since
    [t0]: the account of the bucket balances against the refills, and the bucket
    is positive or its deadline is being waited for. *)
Record balanced (t0 t M total : Z) (self : RateLimited) (b : Bucket) : Prop := mkBalanced {
  bal_is : bucket self = Some b;
  bal_wf : bucket_wf b;
  bal_fill : - M <= fill b;
  bal_time : t0 <= last_fill b <= t;
  bal_total : exists k, 0 <= k /\ last_fill b = t0 + refill_period b * k /\
    total + fill b <= max b + refill b * k;
  bal_wait : 0 < fill b \/ bucket_refilled self = Some (refill_deadline b) \/ refill_deadline b <= t
}.

Definition same_config (b b' : Bucket) : Prop :=
  max b' = max b /\ refill_period b' = refill_period b /\ refill b' = refill b.

(** One poll keeps the balance. *)
Lemma poll_read_balanced t0 t t1 M total self b now inner :
  0 <= M <= 2 ^ 30 -> as_millis (t1 - t0) < 2 ^ 32 -> t <= now <= t1 ->
  match inner with ReadBytes n => 0 <= n <= M | _ => True end ->
  balanced t0 t M total self b ->
  exists out polled self' b', poll_read self now inner = (Some out, polled, self') /\
    same_config b b' /\
    balanced t0 now M (total + match out with ReadBytes n => n | _ => 0 end) self' b'.
Proof.
  intros HM Hspan Hnow Hin [His Hwf Hfill Htime (k & Hk & Hlast & Htot) Hwait].
  assert (Hrec : recent b now).
  { unfold recent, saturating_duration_since. rewrite Z.max_r by lia.
    eapply Z.le_lt_trans; [|exact Hspan]. unfold as_millis. apply Z.div_le_mono; lia. }
  unfold poll_read. rewrite His.
  destruct (match bucket_refilled self with Some d => now <? d | None => false end) eqn:Hw.
  { eexists _, _, _, b. split; [done|]. split; [done|]. rewrite Z.add_0_r.
    split; try done; [lia|eauto|]. destruct Hwait as [?|[?|?]]; auto. right. right. lia. }
  assert (Hready : 0 < fill b \/ refill_deadline b <= now).
  { destruct Hwait as [?|[Hd|?]]; [auto| |right; lia]. rewrite Hd in Hw. apply Z.ltb_ge in Hw. auto. }
  destruct inner as [| |n].
  1, 2: eexists _, _, _, b; split; [done|]; split; [done|]; rewrite Z.add_0_r;
    split; try done; [lia|eauto|]; destruct Hready; auto.
  rewrite (consume_spec b n now) by (done || lia).
  pose proof (periods_bounds b now Hwf Hrec) as Hpb.
  assert (Hav : 0 < available b now).
  { destruct (Z.le_gt_cases (fill b) 0) as [Hle|Hgt].
    - apply available_deadline; [done..|]. destruct Hready; [lia|done].
    - destruct Hwf as [Hm Hre _ _]. unfold available. nia. }
  assert (Hbal : forall bt ct lo br, (0 < fill (take_tokens b n now) \/ br = Some (refill_deadline (take_tokens b n now))) ->
    balanced t0 now M (total + n) (mkRateLimited (Some (take_tokens b n now)) br lo bt ct) (take_tokens b n now)).
  { intros bt ct lo br Hbr. split; simpl.
    - done.
    - apply take_tokens_wf; [done|lia].
    - lia.
    - pose proof (last_fill_le b now Hwf). destruct Hwf as [_ _ (ms & Hms & Hmsb) _].
      rewrite Hms in *. unfold from_millis in *. nia.
    - exists (k + periods b now). split; [lia|]. split; [rewrite Hlast; lia|].
      unfold available. destruct Hwf as [_ Hre _ _]. nia.
    - destruct Hbr; auto. }
  destruct (Z.ltb_spec n (available b now)) as [Hlt|Hge].
  - eexists _, _, _, (take_tokens b n now). split; [reflexivity|]. split; [done|].
    apply Hbal. left. simpl. lia.
  - eexists _, _, _, (take_tokens b n now). split; [reflexivity|]. split; [done|].
    apply Hbal. auto.
Qed.

Lemma poll_run_balanced t0 t t1 M total self b polls :
  0 <= M <= 2 ^ 30 -> as_millis (t1 - t0) < 2 ^ 32 -> t <= t1 -> polls_ok t t1 M polls ->
  balanced t0 t M total self b ->
  exists n self' b', poll_run self polls = Some (n, self') /\ same_config b b' /\
    balanced t0 t1 M (total + n) self' b'.
Proof.
  intros HM Hspan. revert t total self b. induction polls as [|[now inner] polls IH];
    intros t total self b Ht Hok Hbal; simpl.
  - exists 0, self, b. split; [done|]. split; [done|]. rewrite Z.add_0_r.
    destruct Hbal as [? ? ? ? ? Hw]. split; try done; [lia|]. destruct Hw as [?|[?|?]]; auto. right. right. lia.
  - simpl in Hok. destruct Hok as (Hnow & Hin & Hok).
    destruct (poll_read_balanced t0 t t1 M total self b now inner HM Hspan Hnow Hin Hbal)
      as (out & polled & self1 & b1 & -> & (Hc1 & Hc2 & Hc3) & Hbal1).
    destruct (IH now _ self1 b1 ltac:(lia) Hok Hbal1) as (n & self2 & b2 & -> & (Hc4 & Hc5 & Hc6) & Hbal2).
    eexists _, self2, b2. split; [reflexivity|]. split; [unfold same_config; split_and!; congruence|].
    by rewrite Z.add_assoc.
Qed.

(** A bucket the server configures: rates of 32 bits, a period of 100 ms. *)
Lemma Bucket_new_config mx bps now b :
  0 <= bps <= u32_max -> 0 <= mx <= u32_max ->
  Bucket_new mx bps (from_millis 100) now = Ok b ->
  b = mkBucket mx mx now (from_millis 100) (bps / 10) /\ bucket_wf b.
Proof.
  unfold u32_max. intros Hb Hm. unfold Bucket_new, ensure.
  replace (as_millis (from_millis 100)) with 100 by reflexivity.
  replace (as_i64 100) with 100 by reflexivity. replace (as_u32 100) with 100 by reflexivity.
  unfold i64_saturating_mul. rewrite clamp_i64_id by (unfold in_i64, i64_min, i64_max; lia).
  rewrite Z.quot_div_nonneg by lia.
  replace (bps * 100 / 1000) with (bps / 10).
  2: { replace (bps * 100) with (100 * bps) by lia. change 1000 with (100 * 10).
       by rewrite Z.div_mul_cancel_l by lia. }
  destruct ((0 <? mx) && (0 <? bps) && (0 <? 100) && (0 <? bps / 10)) eqn:E; [|done].
  simpl. intros [= <-]. split; [done|].
  apply andb_prop in E as [E Hq]. apply andb_prop in E as [E _]. apply andb_prop in E as [E1 E2].
  apply Z.ltb_lt in Hq, E1, E2.
  assert (bps / 10 < 2 ^ 30) by (apply Z.div_lt_upper_bound; lia).
  split; simpl; try lia. exists 100. split; [done|lia].
Qed.

(** ** Properties *)

(** [consume] says [Ok] exactly when fewer bytes are taken than the bucket
    holds, and otherwise names the exact instant from which the bucket is
    positive again when nothing else is taken. *)
Theorem consume_exact b n now :
  bucket_wf b -> recent b now -> - 2 ^ 30 <= fill b -> 0 <= n <= 2 ^ 30 ->
  let (r, b') := consume b n now in
  r = (if n <? available b now then Ok tt else Err (refill_deadline b')) /\
  bucket_wf b' /\ fill b' = available b now - n /\
  (available b now <= n ->
   forall later, 0 < available b' later <-> refill_deadline b' <= later).
Proof.
  intros Hwf Hr Hf Hn. rewrite consume_spec by done. split; [done|].
  assert (Hwf' : bucket_wf (take_tokens b n now)) by (apply take_tokens_wf; [done|lia]).
  split; [done|]. split; [done|]. intros Hle later. apply available_deadline; [done|]. simpl. lia.
Qed.

Definition example_bucket : Bucket := mkBucket 1000 1000 0 (from_millis 100) 100.

Lemma example_bucket_wf : bucket_wf example_bucket.
Proof. split; simpl; try lia. exists 100. split; [done|lia]. Qed.

Lemma consume_exact_witness :
  (consume example_bucket 1000 0).1 = Err (from_millis 100).
Proof.
  pose proof (consume_exact example_bucket 1000 0 example_bucket_wf) as H.
  destruct (consume example_bucket 1000 0) as [r b'] eqn:E.
  destruct H as [-> _]; [vm_compute; reflexivity|vm_compute; discriminate|lia|].
  vm_compute in E. injection E as _ <-. reflexivity.
Defined.

(** A rate-limited connection keeps its rate. Over any sequence of polls of
    at most 49 days, the reader hands out at most the burst, one read, and the
    configured bytes per second of every 100 ms period that has passed. *)
Theorem reader_rate_bounded cfg t0 t1 M bt ct self polls :
  0 < bytes_per_second cfg <= u32_max ->
  (forall m, max_burst_bytes cfg = Some m -> 0 < m <= u32_max) ->
  from_cfg (Some cfg) t0 bt ct = Ok self ->
  0 <= M <= 2 ^ 30 -> t0 <= t1 -> as_millis (t1 - t0) < 2 ^ 32 -> polls_ok t0 t1 M polls ->
  exists total self', poll_run self polls = Some (total, self') /\
    total <= default (bytes_per_second cfg / 10) (max_burst_bytes cfg) + M
             + bytes_per_second cfg / 10 * ((t1 - t0) / from_millis 100).
Proof.
  intros Hbps Hburst Hcfg HM Ht Hspan Hok. unfold from_cfg, RateLimited_new in Hcfg.
  set (mx := match max_burst_bytes cfg with Some m => m | None => bytes_per_second cfg / 10 end) in Hcfg.
  assert (Hmx : 0 <= mx <= u32_max).
  { unfold mx. destruct (max_burst_bytes cfg) as [m|] eqn:E; [specialize (Hburst m eq_refl); lia|].
    split; [apply Z.div_pos; lia|]. apply Z.div_le_upper_bound; lia. }
  destruct (Bucket_new mx (bytes_per_second cfg) (from_millis 100) t0) as [b| |] eqn:Eb; try done.
  injection Hcfg as <-. apply Bucket_new_config in Eb as [Hb Hwf]; [|lia|done].
  destruct (poll_run_balanced t0 t0 t1 M 0 (mkRateLimited (Some b) None false bt ct) b polls)
    as (n & self' & b' & Hrun & (Hc1 & Hc2 & Hc3) & [_ Hwf' Hfill Htime (k & Hk & Hlast & Htot) _]);
    try done.
  - pose proof (wf_max _ Hwf). subst b. split; simpl in *; try done; try lia.
    exists 0. lia.
  - exists n, self'. split; [done|].
    assert (Hdef : default (bytes_per_second cfg / 10) (max_burst_bytes cfg) = mx).
    { unfold mx. by destruct (max_burst_bytes cfg). }
    rewrite Hdef. rewrite Hc1, Hc3 in Htot. rewrite Hc2 in Hlast. subst b. simpl in *.
    assert (k <= (t1 - t0) / from_millis 100).
    { apply Z.div_le_lower_bound; [unfold from_millis; lia|]. lia. }
    assert (0 <= bytes_per_second cfg / 10) by (apply Z.div_pos; lia). nia.
Qed.

Lemma reader_rate_bounded_witness :
  exists total self', poll_run (mkRateLimited (Some example_bucket) None false 0 0)
      [(0, ReadBytes 1500); (from_millis 50, ReadBytes 1500); (from_millis 700, ReadBytes 1500)]
      = Some (total, self') /\
    total <= 1000 + 2048 + 100 * (from_millis 700 / from_millis 100).
Proof.
  apply (reader_rate_bounded (mkClientRateLimit 1000 (Some 1000)) 0 (from_millis 700) 2048 0 0).
  - unfold u32_max. simpl. lia.
  - intros m [= <-]. unfold u32_max. lia.
  - reflexivity.
  - lia.
  - unfold from_millis. lia.
  - reflexivity.
  - simpl. unfold from_millis. lia.
Defined.

End Rate.
