(* ===== verification/RelayClients.v ===== *)
(** * The relay's client registry

    [iroh-relay/src/server/clients.rs] and the [Client] handle of
    [iroh-relay/src/server/client.rs]. A
    client's two bounded queues are part of its handle; the receiving end
    belongs to the connection's actor, which closes them when it exits. *)

From S2P Require Import Prelude External Instances Keys RelayFrames RelayProto.

Module Clients.
Section Clients.
Context {N : NoqProto}.

(** ** Data *)

Record Packet := mkPacket {
  src : EndpointId;
  data : Datagrams
}.

Record Client := mkClient {
  endpoint_id : EndpointId;
  connection_id : Z;
  done : bool;                               (* the cancellation token *)
  queues_open : bool;                        (* the actor holds the receivers *)
  channel_capacity : nat;
  packet_queue : list Packet;
  message_queue : list RelayToClientMsg;
  protocol_version : ProtocolVersion
}.

Record ClientState := mkClientState {
  active : Client;
  inactive : list Client
}.

(** The counters of [server::Metrics] these two files update. *)
Inductive counter :=
| bytes_sent | bytes_recv
| send_packets_sent | send_packets_recv | send_packets_dropped
| got_ping | sent_pong
| accepts_count | disconnects | unique_client_keys
| clients_inactive_added | clients_inactive_removed.

#[export] Instance counter_eq_dec : EqDecision counter.
Proof. solve_decision. Defined.

Definition Metrics : Type := counter -> Z.

Definition inc_by (c : counter) (n : Z) (m : Metrics) : Metrics :=
  fun c' => if decide (c' = c) then m c' + n else m c'.
Definition inc (c : counter) : Metrics -> Metrics := inc_by c 1.

(** [Clients(Arc<Inner>)] and the metrics its operations are given. *)
Record Clients := mkClients {
  clients : gmap EndpointId ClientState;
  sent_to : gmap EndpointId (gset EndpointId);
  metrics : Metrics
}.

Definition empty : Clients := mkClients ∅ ∅ (fun _ => 0).

(** ** The client handle *)

Inductive TrySendError := Full | Closed.

(** [mpsc::Sender::try_send] on a bounded queue. *)
Definition try_send {A} (open : bool) (capacity : nat) (q : list A) (x : A)
    : result TrySendError (list A) :=
  if negb open then Err Closed
  else if (capacity <=? length q)%nat then Err Full
  else Ok (q ++ [x]).

Definition with_packets (c : Client) (q : list Packet) : Client :=
  mkClient (endpoint_id c) (connection_id c) (done c) (queues_open c) (channel_capacity c)
    q (message_queue c) (protocol_version c).

Definition with_messages (c : Client) (q : list RelayToClientMsg) : Client :=
  mkClient (endpoint_id c) (connection_id c) (done c) (queues_open c) (channel_capacity c)
    (packet_queue c) q (protocol_version c).

(** [Config]: what [Client::new] takes from it. *)
Record Config := mkConfig {
  cfg_endpoint_id : EndpointId;
  cfg_connection_id : Z;
  cfg_channel_capacity : nat;
  cfg_protocol_version : ProtocolVersion
}.

Definition Client_new (cfg : Config) : Client :=
  mkClient (cfg_endpoint_id cfg) (cfg_connection_id cfg) false true (cfg_channel_capacity cfg)
    [] [] (cfg_protocol_version cfg).

Definition start_shutdown (c : Client) : Client :=
  mkClient (endpoint_id c) (connection_id c) true (queues_open c) (channel_capacity c)
    (packet_queue c) (message_queue c) (protocol_version c).

Definition try_send_packet (c : Client) (src : EndpointId) (data : Datagrams)
    : result TrySendError unit * Client :=
  match try_send (queues_open c) (channel_capacity c) (packet_queue c) (mkPacket src data) with
  | Ok q => (Ok tt, with_packets c q)
  | Err e => (Err e, c)
  | Panic => (Panic, c)
  end.

Definition send_message (c : Client) (m : RelayToClientMsg) : result TrySendError unit * Client :=
  match try_send (queues_open c) (channel_capacity c) (message_queue c) m with
  | Ok q => (Ok tt, with_messages c q)
  | Err e => (Err e, c)
  | Panic => (Panic, c)
  end.

Definition try_send_peer_gone (c : Client) (key : EndpointId) : result TrySendError unit * Client :=
  send_message c (R2CEndpointGone key).

(** A version 1 client gets the text of the status. *)
Definition health_message (v : ProtocolVersion) (status : Status) : RelayToClientMsg :=
  match v with
  | V2 => R2CStatus status
  | V1 => R2CHealth (String.list_byte_of_string (Status_to_string status))
  end.

Definition try_send_health (c : Client) (status : Status) : result TrySendError unit * Client :=
  send_message c (health_message (protocol_version c) status).

(** ** The registry *)

(** [register], after [Client::new]. *)
Definition insert_client (self : Clients) (client : Client) : Clients :=
  let id := endpoint_id client in
  match clients self !! id with
  | Some state =>
      let old_client := (try_send_health (active state) SameEndpointIdConnected).2 in
      mkClients (<[id := mkClientState client (inactive state ++ [old_client])]> (clients self))
        (sent_to self) (inc clients_inactive_added (metrics self))
  | None =>
      mkClients (<[id := mkClientState client []]> (clients self)) (sent_to self) (metrics self)
  end.

Definition register (self : Clients) (cfg : Config) : Clients :=
  insert_client self (Client_new cfg).

(** [Vec::pop]. *)
Definition pop {A} (l : list A) : option (A * list A) :=
  match rev l with
  | x :: r => Some (x, rev r)
  | [] => None
  end.

(** The loop over [notify_peers]. The peers are distinct keys of the map, so the
    order of the set does not matter. *)
Definition notify_peers (gone : EndpointId) (peers : gset EndpointId)
    (m : gmap EndpointId ClientState) : gmap EndpointId ClientState :=
  map_imap (fun id state =>
    Some (if decide (id ∈ peers)
          then mkClientState (try_send_peer_gone (active state) gone).2 (inactive state)
          else state)) m.

Definition unregister (self : Clients) (id : EndpointId) (conn : Z) : Clients :=
  match clients self !! id with
  | None => self
  | Some state =>
      if connection_id (active state) =? conn then
        match pop (inactive state) with
        | Some (last_inactive_client, rest) =>
            let active := (try_send_health last_inactive_client Healthy).2 in
            mkClients (<[id := mkClientState active rest]> (clients self)) (sent_to self)
              (inc clients_inactive_removed (metrics self))
        | None =>
            let remaining := delete id (clients self) in
            mkClients
              (match sent_to self !! id with
               | Some peers => notify_peers id peers remaining
               | None => remaining
               end)
              (delete id (sent_to self)) (metrics self)
        end
      else
        mkClients
          (<[id := mkClientState (active state)
                     (List.filter (fun c => negb (connection_id c =? conn)) (inactive state))]> (clients self))
          (sent_to self) (inc clients_inactive_removed (metrics self))
  end.

(** [disconnect]: the inactive clients come before the active one. *)
Fixpoint shutdown_first (conn : Z) (cs : list Client) : option (list Client) :=
  match cs with
  | [] => None
  | c :: cs =>
      if connection_id c =? conn then Some (start_shutdown c :: cs)
      else option_map (cons c) (shutdown_first conn cs)
  end.

Definition disconnect (self : Clients) (id : EndpointId) (conn : option Z) : bool * Clients :=
  match clients self !! id with
  | None => (false, self)
  | Some state =>
      let put st := mkClients (<[id := st]> (clients self)) (sent_to self) (metrics self) in
      match conn with
      | Some conn =>
          match shutdown_first conn (inactive state) with
          | Some inactive => (true, put (mkClientState (active state) inactive))
          | None =>
              if connection_id (active state) =? conn
              then (true, put (mkClientState (start_shutdown (active state)) (inactive state)))
              else (false, self)
          end
      | None =>
          (true, put (mkClientState (start_shutdown (active state)) (map start_shutdown (inactive state))))
      end
  end.

Inductive ForwardPacketError := ForwardFull | ForwardClosed.

Definition send_packet (self : Clients) (dst : EndpointId) (data : Datagrams) (src : EndpointId)
    : result ForwardPacketError unit * Clients :=
  match clients self !! dst with
  | None => (Ok tt, mkClients (clients self) (sent_to self) (inc send_packets_dropped (metrics self)))
  | Some state =>
      let put c := <[dst := mkClientState c (inactive state)]> (clients self) in
      match try_send_packet (active state) src data with
      | (Ok _, c) =>
          (Ok tt,
           mkClients (put c) (<[src := {[dst]} ∪ default ∅ (sent_to self !! src)]> (sent_to self))
             (metrics self))
      | (Err Full, c) => (Err ForwardFull, mkClients (put c) (sent_to self) (metrics self))
      | (Err Closed, c) =>
          (Err ForwardClosed, mkClients (put (start_shutdown c)) (sent_to self) (metrics self))
      | (Panic, _) => (Panic, self)
      end
  end.

(** [shutdown]: every client is removed from the map and told to stop. *)
Definition shutdown (self : Clients) : Clients * list Client :=
  (mkClients ∅ (sent_to self) (metrics self),
   map start_shutdown
     (concat (map (fun kv => active kv.2 :: inactive kv.2) (map_to_list (clients self))))).

(** The receiving ends are dropped with the actor. *)
Definition close_queues (c : Client) : Client :=
  mkClient (endpoint_id c) (connection_id c) (done c) false (channel_capacity c)
    (packet_queue c) (message_queue c) (protocol_version c).

(** ** Sequences of operations *)

Inductive op :=
| Register (cfg : Config)
| Unregister (id : EndpointId) (conn : Z)
| Disconnect (id : EndpointId) (conn : option Z)
| SendPacket (dst : EndpointId) (data : Datagrams) (src : EndpointId).

Definition apply (s : Clients) (o : op) : Clients :=
  match o with
  | Register cfg => register s cfg
  | Unregister id conn => unregister s id conn
  | Disconnect id conn => (disconnect s id conn).2
  | SendPacket dst data src => (send_packet s dst data src).2
  end.

Definition run (s : Clients) (ops : list op) : Clients := fold_left apply ops s.

(** ** Specification

    An endpoint has a stack of connections, newest first, and the set of peers
    its packets have reached since it was last absent. *)

Record Spec := mkSpec {
  conns : EndpointId -> list Z;
  reached : EndpointId -> gset EndpointId
}.

Definition spec_init : Spec := mkSpec (fun _ => []) (fun _ => ∅).

Definition upd {A} (f : EndpointId -> A) (k : EndpointId) (v : A) : EndpointId -> A :=
  fun e => if decide (e = k) then v else f e.

(** [accepted]: the packet was queued for the destination. *)
Definition spec_step (sp : Spec) (o : op) (accepted : bool) : Spec :=
  match o with
  | Register cfg =>
      let e := cfg_endpoint_id cfg in
      mkSpec (upd (conns sp) e (cfg_connection_id cfg :: conns sp e)) (reached sp)
  | Unregister e c =>
      let left := List.filter (fun c' => negb (c' =? c)) (conns sp e) in
      mkSpec (upd (conns sp) e left)
        (match conns sp e, left with
         | _ :: _, [] => upd (reached sp) e ∅
         | _, _ => reached sp
         end)
  | Disconnect _ _ => sp
  | SendPacket dst _ src =>
      if accepted then mkSpec (conns sp) (upd (reached sp) src ({[dst]} ∪ reached sp src)) else sp
  end.

(** Whether the registry queues the packet of the operation. *)
Definition accepts (s : Clients) (o : op) : bool :=
  match o with
  | SendPacket dst data src =>
      match clients s !! dst with
      | Some state => is_ok (try_send_packet (active state) src data).1
      | None => false
      end
  | _ => false
  end.

Fixpoint spec_run (s : Clients) (sp : Spec) (ops : list op) : Spec :=
  match ops with
  | [] => sp
  | o :: ops => spec_run (apply s o) (spec_step sp o (accepts s o)) ops
  end.

(** ** The registry's view of the specification *)

Definition state_conns (st : ClientState) : list Z :=
  connection_id (active st) :: rev (map connection_id (inactive st)).

Definition abs_conns (s : Clients) (e : EndpointId) : list Z :=
  match clients s !! e with
  | Some st => state_conns st
  | None => []
  end.

Definition abs_reached (s : Clients) (e : EndpointId) : gset EndpointId :=
  default ∅ (sent_to s !! e).

Definition registered (ops : list op) : list Z :=
  omap (fun o => match o with Register cfg => Some (cfg_connection_id cfg) | _ => None end) ops.

(** No connection is listed twice. *)
Definition distinct (s : Clients) : Prop := forall e, NoDup (abs_conns s e).

Definition refines (s : Clients) (sp : Spec) : Prop :=
  (forall e, conns sp e = abs_conns s e) /\ (forall e, reached sp e = abs_reached s e).

(** ** Lemmas *)

Lemma pop_Some {A} (l : list A) x r : pop l = Some (x, r) -> l = r ++ [x].
Proof.
  unfold pop; intros H. destruct (rev l) as [|y t] eqn:E; simplify_eq.
  rewrite <- (rev_involutive l), E. reflexivity.
Qed.

Lemma pop_None {A} (l : list A) : pop l = None -> l = [].
Proof.
  unfold pop; intros H. destruct (rev l) as [|y t] eqn:E; [|discriminate].
  rewrite <- (rev_involutive l), E. reflexivity.
Qed.

Lemma pop_app {A} (l : list A) x : pop (l ++ [x]) = Some (x, l).
Proof. unfold pop. rewrite rev_app_distr; simpl. now rewrite rev_involutive. Qed.

Lemma send_message_id c m : connection_id (send_message c m).2 = connection_id c.
Proof. unfold send_message. now destruct (try_send _ _ _ _). Qed.

Lemma try_send_packet_id c p d : connection_id (try_send_packet c p d).2 = connection_id c.
Proof. unfold try_send_packet. now destruct (try_send _ _ _ _). Qed.

Lemma try_send_total {A} open cap (q : list A) x : try_send open cap q x <> Panic.
Proof. unfold try_send. repeat case_match; discriminate. Qed.

Lemma try_send_packet_total c p d : (try_send_packet c p d).1 <> Panic.
Proof.
  unfold try_send_packet. pose proof (try_send_total (queues_open c) (channel_capacity c) (packet_queue c) (mkPacket p d)).
  now destruct (try_send _ _ _ _).
Qed.

Lemma upd_same {A} (f : EndpointId -> A) k v : upd f k v k = v.
Proof. unfold upd. now rewrite decide_True. Qed.

Lemma upd_other {A} (f : EndpointId -> A) k v e : e <> k -> upd f k v e = f e.
Proof. unfold upd. intros. now rewrite decide_False. Qed.

(** Replacing one state of the map. *)
Lemma abs_conns_insert m st t mt e k :
  abs_conns (mkClients (<[k := st]> m) t mt) e =
  upd (abs_conns (mkClients m t mt)) k (state_conns st) e.
Proof.
  unfold upd, abs_conns; simpl. case_decide; subst.
  - now rewrite lookup_insert_eq.
  - now rewrite lookup_insert_ne.
Qed.

Lemma abs_conns_insert_same m st st' t mt e k :
  m !! k = Some st -> state_conns st' = state_conns st ->
  abs_conns (mkClients (<[k := st']> m) t mt) e = abs_conns (mkClients m t mt) e.
Proof.
  intros Hk Hs. rewrite abs_conns_insert. unfold upd, abs_conns; simpl.
  case_decide; [subst; now rewrite Hk|reflexivity].
Qed.

Lemma lookup_notify_peers gone peers m id :
  notify_peers gone peers m !! id =
  (fun st => if decide (id ∈ peers)
             then mkClientState (try_send_peer_gone (active st) gone).2 (inactive st) else st) <$> m !! id.
Proof. unfold notify_peers. rewrite map_lookup_imap. now destruct (m !! id). Qed.

Lemma abs_conns_notify gone peers m t mt e :
  abs_conns (mkClients (notify_peers gone peers m) t mt) e = abs_conns (mkClients m t mt) e.
Proof.
  unfold abs_conns; simpl. rewrite lookup_notify_peers. destruct (m !! e) as [st|]; simpl; [|done].
  case_decide; [|done]. unfold state_conns; simpl. unfold try_send_peer_gone. now rewrite send_message_id.
Qed.

Lemma shutdown_first_ids conn cs cs' :
  shutdown_first conn cs = Some cs' -> map connection_id cs' = map connection_id cs.
Proof.
  revert cs'. induction cs as [|c cs IH]; simpl; [discriminate|]; intros cs' H.
  destruct (connection_id c =? conn); simplify_eq; [done|].
  destruct (shutdown_first conn cs); simplify_eq/=. f_equal; auto.
Qed.

Lemma filter_not_in (l : list Z) c : c ∉ l -> List.filter (fun x => negb (x =? c)) l = l.
Proof.
  induction l as [|x l IH]; simpl; intros H; [done|].
  apply not_elem_of_cons in H as [Hx Hl].
  rewrite (proj2 (Z.eqb_neq x c)) by congruence. simpl. f_equal; auto.
Qed.

Lemma filter_map_ids (f : Client -> Z) c (l : list Client) :
  map f (List.filter (fun x => negb (f x =? c)) l) = List.filter (fun x => negb (x =? c)) (map f l).
Proof. induction l as [|x l IH]; simpl; [done|]. destruct (f x =? c); simpl; [|f_equal]; auto. Qed.

Lemma filter_rev {A} (f : A -> bool) (l : list A) : List.filter f (rev l) = rev (List.filter f l).
Proof.
  induction l as [|x l IH]; simpl; [done|].
  rewrite List.filter_app, IH; simpl. destruct (f x); simpl; [done|]. now rewrite app_nil_r.
Qed.

(** *** Each operation against the specification *)

Lemma register_conns s cfg e :
  abs_conns (register s cfg) e =
  upd (abs_conns s) (cfg_endpoint_id cfg) (cfg_connection_id cfg :: abs_conns s (cfg_endpoint_id cfg)) e.
Proof.
  unfold register, insert_client; simpl.
  destruct (clients s !! cfg_endpoint_id cfg) as [st|] eqn:Hs; simpl; rewrite abs_conns_insert;
    unfold upd; case_decide; try reflexivity; subst.
  - unfold state_conns; simpl. rewrite map_app, rev_app_distr; simpl.
    unfold try_send_health. rewrite send_message_id. unfold abs_conns. now rewrite Hs.
  - unfold abs_conns. now rewrite Hs.
Qed.

Lemma unregister_state_conns s e c :
  distinct s ->
  abs_conns (unregister s e c) e = List.filter (fun c' => negb (c' =? c)) (abs_conns s e).
Proof.
  intros Hd. specialize (Hd e). unfold unregister. destruct (clients s !! e) as [st|] eqn:Hs.
  2: { unfold abs_conns. now rewrite Hs. }
  unfold abs_conns in Hd |- * at 2; rewrite Hs in Hd |- *. unfold state_conns in Hd |- * at 1; simpl.
  apply NoDup_cons in Hd as [Hnot Hd].
  destruct (Z.eqb_spec (connection_id (active st)) c) as [Hc|Hc]; subst; simpl.
  - rewrite filter_not_in by done.
    destruct (pop (inactive st)) as [[x r]|] eqn:Hp.
    + apply pop_Some in Hp as ->. rewrite abs_conns_insert, upd_same. unfold state_conns; simpl.
      unfold try_send_health. now rewrite send_message_id, map_app, rev_app_distr.
    + apply pop_None in Hp as ->. simpl.
      destruct (sent_to s !! e); [rewrite abs_conns_notify|]; unfold abs_conns; simpl;
        now rewrite lookup_delete_eq.
  - rewrite abs_conns_insert, upd_same. unfold state_conns; simpl.
    now rewrite filter_map_ids, filter_rev.
Qed.

Lemma unregister_other_conns s e c e' :
  e' <> e -> abs_conns (unregister s e c) e' = abs_conns s e'.
Proof.
  intros Hne. unfold unregister. destruct (clients s !! e) as [st|]; [|done].
  destruct (_ =? c); [destruct (pop _) as [[x r]|]; [|destruct (sent_to s !! e); [rewrite abs_conns_notify|]]|];
    unfold abs_conns; simpl; rewrite ?lookup_insert_ne, ?lookup_delete_ne by congruence; done.
Qed.

Lemma unregister_conns s e c e' :
  distinct s ->
  abs_conns (unregister s e c) e' =
  upd (abs_conns s) e (List.filter (fun c' => negb (c' =? c)) (abs_conns s e)) e'.
Proof.
  intros Hd. unfold upd. case_decide; subst.
  - now apply unregister_state_conns.
  - now apply unregister_other_conns.
Qed.

Lemma disconnect_conns s e c e' : abs_conns (disconnect s e c).2 e' = abs_conns s e'.
Proof.
  unfold disconnect. destruct (clients s !! e) as [st|] eqn:Hs; [|done].
  destruct c as [c|]; simpl.
  - destruct (shutdown_first c (inactive st)) as [ia|] eqn:Hf; simpl.
    + eapply abs_conns_insert_same; [done|]. unfold state_conns; simpl.
      now rewrite (shutdown_first_ids _ _ _ Hf).
    + destruct (_ =? c); simpl; [|done]. eapply abs_conns_insert_same; [done|reflexivity].
  - eapply abs_conns_insert_same; [done|]. unfold state_conns; simpl. now rewrite map_map.
Qed.

Lemma send_packet_conns s dst data p e : abs_conns (send_packet s dst data p).2 e = abs_conns s e.
Proof.
  unfold send_packet. destruct (clients s !! dst) as [st|] eqn:Hs; [|done].
  pose proof (try_send_packet_id (active st) p data) as Hid.
  destruct (try_send_packet (active st) p data) as [[?|[]|] c]; simpl in *; try done;
    (eapply abs_conns_insert_same; [done|]; unfold state_conns; simpl; now rewrite Hid).
Qed.

Lemma unregister_reached s e c e' :
  distinct s ->
  abs_reached (unregister s e c) e' =
  match abs_conns s e, List.filter (fun c' => negb (c' =? c)) (abs_conns s e) with
  | _ :: _, [] => upd (abs_reached s) e ∅ e'
  | _, _ => abs_reached s e'
  end.
Proof.
  intros Hd. specialize (Hd e). unfold unregister, abs_conns in *. destruct (clients s !! e) as [st|] eqn:Hs; [|done].
  unfold state_conns in *; simpl. apply NoDup_cons in Hd as [Hnot Hd].
  destruct (Z.eqb_spec (connection_id (active st)) c) as [Hc|Hc]; subst; simpl; [|done].
  rewrite filter_not_in by done.
  destruct (pop (inactive st)) as [[x r]|] eqn:Hp.
  - apply pop_Some in Hp as ->. rewrite map_app, rev_app_distr; done.
  - apply pop_None in Hp as ->. simpl. unfold abs_reached, upd; simpl.
    case_decide; subst; [now rewrite lookup_delete_eq|now rewrite lookup_delete_ne by congruence].
Qed.

Lemma send_packet_reached s dst data p e :
  abs_reached (send_packet s dst data p).2 e =
  (if accepts s (SendPacket dst data p) then upd (abs_reached s) p ({[dst]} ∪ abs_reached s p) e
   else abs_reached s e).
Proof.
  unfold send_packet, accepts. destruct (clients s !! dst) as [st|] eqn:Hs; [|done].
  destruct (try_send_packet (active st) p data) as [[?|[]|] c]; simpl; try done.
  unfold abs_reached, upd; simpl. case_decide; subst.
  - now rewrite lookup_insert_eq.
  - now rewrite lookup_insert_ne by congruence.
Qed.

Lemma disconnect_reached s e c : sent_to (disconnect s e c).2 = sent_to s.
Proof. unfold disconnect. repeat (case_match; simpl; try done). Qed.

Lemma register_reached s cfg : sent_to (register s cfg) = sent_to s.
Proof. unfold register, insert_client. now case_match. Qed.

Lemma apply_refines s sp o :
  distinct s -> refines s sp -> refines (apply s o) (spec_step sp o (accepts s o)).
Proof.
  intros Hd [Hc Hr]. destruct o as [cfg|e c|e c|dst data p]; split; intros e'; simpl.
  - rewrite register_conns. unfold upd. now rewrite !Hc.
  - rewrite Hr. unfold abs_reached. now rewrite register_reached.
  - rewrite unregister_conns by done. unfold upd. now rewrite !Hc.
  - rewrite unregister_reached, <- Hc by done.
    destruct (conns sp e); [|destruct (List.filter _ _)]; unfold upd; now rewrite ?Hr.
  - now rewrite disconnect_conns.
  - rewrite Hr. unfold abs_reached. now rewrite disconnect_reached.
  - rewrite send_packet_conns. simpl. destruct (match clients s !! dst with Some _ => _ | None => _ end); apply Hc.
  - rewrite send_packet_reached. simpl.
    destruct (match clients s !! dst with Some _ => _ | None => _ end); simpl; unfold upd; now rewrite !Hr.
Qed.

(** The connections of the registry have not been registered later. *)
Definition unused (s : Clients) (ids : list Z) : Prop := forall e c, c ∈ abs_conns s e -> c ∉ ids.

Lemma filter_subset (f : Z -> bool) l x : x ∈ List.filter f l -> x ∈ l.
Proof. rewrite !list_elem_of_In, List.filter_In. tauto. Qed.

Lemma apply_distinct s o ops :
  distinct s -> unused s (registered (o :: ops)) -> NoDup (registered (o :: ops)) ->
  distinct (apply s o) /\ unused (apply s o) (registered ops) /\ NoDup (registered ops).
Proof.
  intros Hd Hu Hn. destruct o as [cfg|e c|e c|dst data p]; simpl in *.
  - apply NoDup_cons in Hn as [Hn0 Hn]. split; [|split; [|done]].
    + intros e. rewrite register_conns. unfold upd. case_decide; [|apply Hd].
      apply NoDup_cons; split; [|apply Hd]. intros Hin. apply (Hu _ _ Hin). left.
    + intros e c. rewrite register_conns. unfold upd. case_decide.
      * intros [->|Hin]%elem_of_cons; [done|]. intros Hr. apply (Hu _ _ Hin). now right.
      * intros Hin Hr. apply (Hu _ _ Hin). now right.
  - split; [|split; [|done]].
    + intros e'. rewrite unregister_conns by done. unfold upd. case_decide; [|apply Hd].
      apply NoDup_ListNoDup, List.NoDup_filter, NoDup_ListNoDup, Hd.
    + intros e' c'. rewrite unregister_conns by done. unfold upd. case_decide; [|apply Hu].
      intros Hin%filter_subset. now apply (Hu e).
  - split; [|split; [|done]]; intros e'; rewrite disconnect_conns; [apply Hd|apply Hu].
  - split; [|split; [|done]]; intros e'; rewrite send_packet_conns; [apply Hd|apply Hu].
Qed.

Lemma run_refines ops : forall s sp,
  distinct s -> refines s sp -> unused s (registered ops) -> NoDup (registered ops) ->
  distinct (run s ops) /\ refines (run s ops) (spec_run s sp ops).
Proof.
  induction ops as [|o ops IH]; intros s sp Hd Hr Hu Hn; [done|].
  destruct (apply_distinct s o ops) as (Hd' & Hu' & Hn'); try done.
  simpl. apply IH; try done. now apply apply_refines.
Qed.

Lemma empty_refines : distinct empty /\ refines empty spec_init /\ (forall ids, unused empty ids).
Proof.
  assert (H : forall e, abs_conns empty e = []) by (intros e; unfold abs_conns; simpl; now rewrite lookup_empty).
  split; [|split; [split|]].
  - intros e. rewrite H. constructor.
  - intros e. now rewrite H.
  - intros e. unfold abs_reached; simpl. now rewrite lookup_empty.
  - intros ids e c. rewrite H. intros []%elem_of_nil.
Qed.

Lemma run_empty_refines ops :
  NoDup (registered ops) ->
  distinct (run empty ops) /\ refines (run empty ops) (spec_run empty spec_init ops).
Proof. destruct empty_refines as (? & ? & ?). intros. now apply run_refines. Qed.

Lemma abs_conns_nil s e : abs_conns s e = [] -> clients s !! e = None.
Proof. unfold abs_conns. now destruct (clients s !! e). Qed.

Lemma abs_conns_cons s e c l :
  abs_conns s e = c :: l ->
  exists st, clients s !! e = Some st /\ connection_id (active st) = c /\
             l = rev (map connection_id (inactive st)).
Proof. unfold abs_conns. destruct (clients s !! e) as [st|]; [|done]. intros [= <- <-]. eauto. Qed.

(** ** The registry *)

(** Whatever sequence of registrations, disconnections, packets and
    unregistrations the connections of the relay perform, the registry lists for
    every endpoint exactly its registered and not yet unregistered connections,
    newest first with the newest active, has no entry for an endpoint without
    one, and records exactly the peers the endpoint's packets have reached since
    it was last absent. Connection ids are unique, as their counter makes them. *)
Theorem registry_refines ops :
  NoDup (registered ops) ->
  let s := run empty ops in
  let sp := spec_run empty spec_init ops in
  (forall e, match clients s !! e with
             | Some st => conns sp e = connection_id (active st) :: rev (map connection_id (inactive st))
             | None => conns sp e = []
             end) /\
  (forall e, reached sp e = default ∅ (sent_to s !! e)).
Proof.
  intros Hn. destruct (run_empty_refines ops Hn) as [_ [Hc Hr]]. split; [|exact Hr].
  intros e. specialize (Hc e). unfold abs_conns in Hc. now destruct (clients _ !! e).
Qed.

Lemma try_send_packet_room c p d :
  try_send_packet c p d =
  if negb (queues_open c) then (Err Closed, c)
  else if (channel_capacity c <=? length (packet_queue c))%nat then (Err Full, c)
  else (Ok tt, with_packets c (packet_queue c ++ [mkPacket p d])).
Proof. unfold try_send_packet, try_send. destruct (queues_open c); simpl; [|done]. now destruct (_ <=? _)%nat. Qed.

(** A packet for an endpoint is queued, behind the packets already queued,
    for its newest connection and for no other. It is refused with an error only
    if that connection's queue is full or its actor has gone, and it is counted
    as dropped exactly when the endpoint has no connection. *)
Theorem packets_reach_newest ops dst data p :
  NoDup (registered ops) ->
  let s := run empty ops in
  match conns (spec_run empty spec_init ops) dst with
  | [] =>
      send_packet s dst data p =
      (Ok tt, mkClients (clients s) (sent_to s) (inc send_packets_dropped (metrics s)))
  | c :: _ =>
      exists st, clients s !! dst = Some st /\ connection_id (active st) = c /\
      let '(r, s') := send_packet s dst data p in
      let q := packet_queue (active st) in
      metrics s' = metrics s /\
      (forall e, e <> dst -> clients s' !! e = clients s !! e) /\
      exists st', clients s' !! dst = Some st' /\ inactive st' = inactive st /\
        connection_id (active st') = c /\ message_queue (active st') = message_queue (active st) /\
        (r, packet_queue (active st')) =
        (if negb (queues_open (active st)) then (Err ForwardClosed, q)
         else if (channel_capacity (active st) <=? length q)%nat then (Err ForwardFull, q)
         else (Ok tt, q ++ [mkPacket p data]))
  end.
Proof.
  intros Hn s. destruct (run_empty_refines ops Hn) as [_ [Hc _]]. rewrite Hc. fold s.
  destruct (abs_conns s dst) as [|c l] eqn:Hl.
  - unfold send_packet. now rewrite (abs_conns_nil _ _ Hl).
  - destruct (abs_conns_cons _ _ _ _ Hl) as (st & Hst & Hid & _). exists st. do 2 (split; [done|]).
    unfold send_packet. rewrite Hst, try_send_packet_room. simpl.
    destruct (queues_open (active st)), (channel_capacity (active st) <=? _)%nat; simpl;
      (split; [done|]); (split; [intros e He; now rewrite lookup_insert_ne by congruence|]);
      rewrite lookup_insert_eq; eexists; repeat split; simpl; done.
Qed.

Lemma peer_gone_room c gone :
  (try_send_peer_gone c gone).2 =
  with_messages c (message_queue c ++
    if queues_open c && (length (message_queue c) <? channel_capacity c)%nat
    then [R2CEndpointGone gone] else []).
Proof.
  unfold try_send_peer_gone, send_message, try_send, with_messages.
  destruct c as [a b d o cap q m v]; simpl. destruct o; simpl; [|now rewrite app_nil_r].
  destruct (Nat.leb_spec cap (length m)) as [H|H]; simpl.
  - rewrite (proj2 (Nat.ltb_ge _ _)) by done. now rewrite app_nil_r.
  - rewrite (proj2 (Nat.ltb_lt _ _)) by done. done.
Qed.

Lemma with_messages_id c : with_messages c (message_queue c ++ []) = c.
Proof. rewrite app_nil_r. now destruct c. Qed.

(** When the last connection of an endpoint unregisters, the endpoint leaves
    the registry and the newest connection of every peer that its packets have
    reached is sent one EndpointGone for it, if its queue has room. No other
    connection is sent anything, and nothing else of the registry changes. *)
Theorem peer_gone_exact ops e c :
  NoDup (registered ops) ->
  let s := run empty ops in
  let sp := spec_run empty spec_init ops in
  conns sp e = [c] ->
  let s' := unregister s e c in
  clients s' !! e = None /\ sent_to s' = delete e (sent_to s) /\
  forall p, p <> e ->
    clients s' !! p =
    (fun st =>
       let a := active st in
       let room := queues_open a && (length (message_queue a) <? channel_capacity a)%nat in
       mkClientState
         (with_messages a (message_queue a ++
            if bool_decide (p ∈ reached sp e) && room then [R2CEndpointGone e] else []))
         (inactive st)) <$> clients s !! p.
Proof.
  intros Hn s sp Hc1 s'. destruct (run_empty_refines ops Hn) as [_ [Hc Hr]].
  rewrite Hc in Hc1. destruct (abs_conns_cons _ _ _ _ Hc1) as (st & Hst & Hid & Hin).
  assert (Hia : inactive st = []) by (destruct (inactive st) as [|x l]; [done|]; simpl in Hin; now destruct (rev _)).
  assert (Hs' : s' = mkClients (match sent_to s !! e with
                                | Some peers => notify_peers e peers (delete e (clients s))
                                | None => delete e (clients s) end) (delete e (sent_to s)) (metrics s)).
  { unfold s', unregister. unfold s. rewrite Hst, Hid, Z.eqb_refl, Hia. reflexivity. }
  clearbody s'. subst s'. simpl. split; [|split; [done|]].
  - destruct (sent_to s !! e); rewrite ?lookup_notify_peers, lookup_delete_eq; done.
  - intros p Hp. fold sp in Hr. rewrite (Hr e). unfold abs_reached. fold s.
    destruct (sent_to s !! e) as [peers|]; simpl.
    + rewrite lookup_notify_peers, lookup_delete_ne by congruence. destruct (clients s !! p) as [st'|]; simpl; [|done].
      f_equal. case_decide.
      * rewrite bool_decide_true by done. simpl. now rewrite peer_gone_room.
      * rewrite bool_decide_false by done. simpl. rewrite with_messages_id. now destruct st'.
    + rewrite lookup_delete_ne by congruence. destruct (clients s !! p) as [st'|]; simpl; [|done].
      rewrite bool_decide_false by set_solver. simpl. rewrite with_messages_id. now destruct st'.
Qed.

(** The active connection of [e] is [c] and its actor has gone. *)
Definition dead_active (s : Clients) (e : EndpointId) (c : Z) : Prop :=
  exists st, clients s !! e = Some st /\ connection_id (active st) = c /\ queues_open (active st) = false.

(** An operation that neither registers [e] nor unregisters its connection [c]. *)
Definition bystander (e : EndpointId) (c : Z) (o : op) : bool :=
  match o with
  | Register cfg => negb (bool_decide (cfg_endpoint_id cfg = e))
  | Unregister e' c' => negb (bool_decide (e' = e) && (c' =? c))
  | _ => true
  end.

Lemma dead_active_insert m t mt k st e c :
  dead_active (mkClients m t mt) e c ->
  (k = e -> connection_id (active st) = c /\ queues_open (active st) = false) ->
  dead_active (mkClients (<[k := st]> m) t mt) e c.
Proof.
  intros (st0 & H0 & Hid & Ho) Hk. unfold dead_active; simpl in *.
  destruct (decide (k = e)) as [->|Hne].
  - exists st. rewrite lookup_insert_eq. destruct (Hk eq_refl). auto.
  - exists st0. rewrite lookup_insert_ne by done. auto.
Qed.

Lemma send_message_open c m : queues_open (send_message c m).2 = queues_open c.
Proof. unfold send_message. now destruct (try_send _ _ _ _). Qed.

Lemma dead_active_notify gone peers m t mt e c :
  dead_active (mkClients m t mt) e c -> dead_active (mkClients (notify_peers gone peers m) t mt) e c.
Proof.
  intros (st & H0 & Hid & Ho). unfold dead_active; simpl in *. rewrite lookup_notify_peers, H0; simpl.
  eexists; split; [done|]. case_decide; [|done]. simpl. unfold try_send_peer_gone.
  now rewrite send_message_id, send_message_open.
Qed.

Lemma unregister_dead_active s e c e' c' :
  dead_active s e c -> ~ (e' = e /\ c' = c) -> dead_active (unregister s e' c') e c.
Proof.
  intros Hd Hne. unfold unregister. destruct (clients s !! e') as [st|] eqn:Hs; [|done].
  assert (Ha : e' = e -> connection_id (active st) = c /\ queues_open (active st) = false).
  { intros ->. destruct Hd as (st0 & H0 & Hi & Ho). rewrite Hs in H0. now injection H0 as ->. }
  destruct (Z.eqb_spec (connection_id (active st)) c') as [Hc|Hc].
  - assert (Hee : e' <> e) by (intros ->; destruct Ha as [<- _]; auto).
    assert (Hdel : forall t mt, dead_active (mkClients (delete e' (clients s)) t mt) e c).
    { destruct Hd as (st0 & H0 & Hi & Ho). intros. exists st0. simpl. now rewrite lookup_delete_ne. }
    destruct (pop (inactive st)) as [[x r]|].
    + now apply dead_active_insert.
    + destruct (sent_to s !! e'); [apply dead_active_notify|]; apply Hdel.
  - apply dead_active_insert; [done|]. exact Ha.
Qed.

Lemma disconnect_dead_active s e c e' c' :
  dead_active s e c -> dead_active (disconnect s e' c').2 e c.
Proof.
  intros Hd. unfold disconnect. destruct (clients s !! e') as [st|] eqn:Hs; [|done].
  assert (Ha : e' = e -> connection_id (active st) = c /\ queues_open (active st) = false).
  { intros ->. destruct Hd as (st0 & H0 & Hi & Ho). rewrite Hs in H0. now injection H0 as ->. }
  destruct c' as [c'|]; [destruct (shutdown_first c' _); [|destruct (_ =? c'); [|done]]|];
    simpl; now apply dead_active_insert.
Qed.

Lemma send_packet_dead_active s e c dst data p :
  dead_active s e c -> dead_active (send_packet s dst data p).2 e c.
Proof.
  intros Hd. unfold send_packet. destruct (clients s !! dst) as [st|] eqn:Hs; [|done].
  assert (Ha : dst = e -> connection_id (active st) = c /\ queues_open (active st) = false).
  { intros ->. destruct Hd as (st0 & H0 & Hi & Ho). rewrite Hs in H0. now injection H0 as ->. }
  rewrite try_send_packet_room.
  destruct (negb (queues_open (active st))); [|destruct (_ <=? _)%nat]; simpl; now apply dead_active_insert.
Qed.

Lemma apply_dead_active s e c o :
  dead_active s e c -> bystander e c o = true -> dead_active (apply s o) e c.
Proof.
  intros Hd Hb. destruct o as [cfg|e' c'|e' c'|dst data p]; simpl in *.
  - apply negb_true_iff, bool_decide_eq_false in Hb.
    unfold register, insert_client; simpl. case_match; now apply dead_active_insert.
  - apply unregister_dead_active; [done|]. intros [-> ->].
    now rewrite bool_decide_true, Z.eqb_refl in Hb.
  - now apply disconnect_dead_active.
  - now apply send_packet_dead_active.
Qed.

Lemma run_dead_active ops : forall s e c,
  dead_active s e c -> forallb (bystander e c) ops = true -> dead_active (run s ops) e c.
Proof.
  induction ops as [|o ops IH]; intros s e c Hd Hb; [done|]. simpl in *.
  apply andb_true_iff in Hb as [Ho Hb]. apply IH; [|done]. now apply apply_dead_active.
Qed.

Lemma insert_client_dead s cl :
  queues_open cl = false -> dead_active (insert_client s cl) (endpoint_id cl) (connection_id cl).
Proof.
  intros Ho. unfold insert_client, dead_active.
  destruct (clients s !! endpoint_id cl); simpl; rewrite lookup_insert_eq; eexists; eauto.
Qed.

Lemma insert_client_conns s cl :
  abs_conns (insert_client s cl) (endpoint_id cl) = connection_id cl :: abs_conns s (endpoint_id cl).
Proof.
  unfold insert_client. unfold abs_conns at 2.
  destruct (clients s !! endpoint_id cl) as [st|] eqn:Hs; simpl; rewrite abs_conns_insert, upd_same; [|done].
  unfold state_conns; simpl. rewrite map_app, rev_app_distr; simpl.
  unfold try_send_health. now rewrite send_message_id.
Qed.

(** [register] starts the connection's actor before it puts the client into
    the map. If the actor ends in between (its stream is already closed, say), its
    unregistration finds nothing to remove and the client of the dead actor is
    inserted afterwards. It is then the endpoint's active connection above the
    live ones, and until the endpoint registers again every packet for it is
    refused, whatever the other connections of the relay do. *)
Theorem early_exit_black_hole s cfg ops data p :
  let e := cfg_endpoint_id cfg in
  let c := cfg_connection_id cfg in
  distinct s -> c ∉ abs_conns s e ->
  let s1 := unregister s e c in
  let s2 := insert_client s1 (close_queues (Client_new cfg)) in
  forallb (bystander e c) ops = true ->
  abs_conns s2 e = c :: abs_conns s e /\
  (send_packet (run s2 ops) e data p).1 = Err ForwardClosed.
Proof.
  intros e c Hd Hc s1 s2 Hb. split.
  - unfold s2. replace e with (endpoint_id (close_queues (Client_new cfg))) by done.
    rewrite insert_client_conns. simpl. unfold s1. fold e c.
    now rewrite unregister_state_conns, filter_not_in.
  - destruct (run_dead_active ops s2 e c) as (st & Hst & _ & Ho);
      [apply (insert_client_dead s1 (close_queues (Client_new cfg))); done|done|].
    unfold send_packet. now rewrite Hst, try_send_packet_room, Ho.
Qed.

End Clients.
End Clients.

Section Witnesses.
Import Clients.

Definition alice : EndpointId := example_key.
Definition bob : EndpointId := mkPublicKey (replicate 32 Byte.x17).

Definition example_ops : list (@op noq_proto) :=
  [Register (mkConfig alice 0 2 V1); Register (mkConfig bob 1 2 V2);
   SendPacket bob example_batch alice; Register (mkConfig alice 2 2 V2);
   Unregister alice 0].

Lemma registry_refines_witness :
  conns (spec_run empty spec_init example_ops) alice = [2].
Proof.
  pose proof (proj1 (registry_refines example_ops (ltac:(vm_compute; repeat constructor; set_solver))) alice) as H.
  vm_compute in H. vm_compute. exact H.
Defined.

Lemma packets_reach_newest_witness :
  exists st st' : @ClientState noq_proto,
    clients (run empty example_ops) !! alice = Some st /\
    clients (send_packet (run empty example_ops) alice example_batch bob).2 !! alice = Some st' /\
    inactive st' = inactive st /\ connection_id (active st') = 2.
Proof.
  pose proof (packets_reach_newest example_ops alice example_batch bob
    (ltac:(vm_compute; repeat constructor; set_solver))) as H.
  replace (conns (spec_run empty spec_init example_ops) alice) with [2] in H by (vm_compute; reflexivity).
  destruct H as (st & Hst & Hid & H). exists st.
  destruct (send_packet (run empty example_ops) alice example_batch bob) as [r s'].
  destruct H as (_ & _ & st' & Hst' & Hin & Hid' & _). exists st'. auto.
Defined.

Lemma peer_gone_exact_witness :
  (fun st : @ClientState noq_proto => message_queue (active st)) <$>
    clients (unregister (run empty example_ops) alice 2) !! bob
  = Some [R2CEndpointGone alice].
Proof.
  pose proof (peer_gone_exact example_ops alice 2) as H. cbv zeta in H.
  destruct H as (_ & _ & H); [vm_compute; repeat constructor; set_solver|vm_compute; reflexivity|].
  rewrite (H bob) by (intros E; vm_compute in E; discriminate E).
  vm_cast_no_check (@eq_refl (option (list (@RelayToClientMsg noq_proto))) (Some [R2CEndpointGone alice])).
Defined.

Definition late : Config := mkConfig alice 3 2 V2.

Lemma early_exit_black_hole_witness :
  (send_packet
     (run (insert_client
             (unregister (run empty example_ops) (cfg_endpoint_id late) (cfg_connection_id late))
             (close_queues (Client_new late)))
        [SendPacket bob example_batch alice; Unregister alice 2])
     (cfg_endpoint_id late) example_batch bob).1 = Err ForwardClosed.
Proof.
  apply (early_exit_black_hole (run empty example_ops) late
           [SendPacket bob example_batch alice; Unregister alice 2] example_batch bob).
  - apply (run_empty_refines example_ops). vm_compute; repeat constructor; set_solver.
  - vm_compute. set_solver.
  - vm_compute. reflexivity.
Defined.

End Witnesses.
