(* ===== verification/RelayActor.v ===== *)
(** * The relay's connection actor

    The message stream of [iroh-relay/src/server/streams.rs] ([RelayedStream]),
    the websocket adapter of [iroh-relay/src/protos/streams.rs] ([WsBytesFramed]),
    the client's end of the connection in [iroh-relay/src/client/conn.rs] ([Conn])
    and the actor and client counter of [iroh-relay/src/server/client.rs]. One
    turn of the actor's loop is a function of what the [biased] select finds
    ready and of how the stream answers the writes of that turn. *)

From S2P Require Import Prelude External Instances Keys RelayFrames RelayProto PingTracker RelayClients.
Import Clients.

Module Actor.
Section Actor.
Context {N : NoqProto} {Ed : Ed25519} {Lru : LruCache PublicKey}.
Context {Ws : Websockets}.

(** ** WsBytesFramed *)

(** [poll_next] on the messages the websocket yields, in order: [None] when it
    has ended or when it is left waiting for more. *)
Fixpoint ws_poll_next {E} (io : list (result E ws_message))
    : option (result E bytes) * list (result E ws_message) :=
  match io with
  | [] => (None, [])
  | Ok msg :: io =>
      if ws_is_close msg then (None, io)
      else if ws_is_ping msg || ws_is_pong msg then ws_poll_next io
      else if negb (ws_is_binary msg) then ws_poll_next io
      else (Some (Ok (ws_into_payload msg)), io)
  | Err e :: io => (Some (Err e), io)
  | Panic :: io => (Some Panic, io)
  end.

(** ** RelayedStream *)

Inductive StreamError := mkStreamError.

Inductive SendError :=
| SendStreamError (source : StreamError)
| ExceedsMaxPacketSize (size : Z)
| EmptyPacket.

(** [start_send]: the bytes handed to the inner sink. *)
Definition start_send (item : RelayToClientMsg) : result SendError bytes :=
  match RelayToClientMsg_encoded_len item with
  | None => Panic
  | Some size =>
      let? _ := ensure (size <=? MAX_PACKET_SIZE) (ExceedsMaxPacketSize size) in
      let? _ := match item with
                | R2CDatagrams _ datagrams => ensure (negb (blen (contents datagrams) =? 0)) EmptyPacket
                | _ => Ok tt
                end in
      Ok (RelayToClientMsg_to_bytes item)
  end.

Inductive RecvError :=
| RecvProto (source : Error)
| RecvStreamError (source : StreamError).

(** [poll_next]: an item of the inner stream, decoded. *)
Definition stream_next (key_cache : KeyCache) (item : option (result StreamError bytes))
    : KeyCache * option (result RecvError ClientToRelayMsg) :=
  match item with
  | Some (Ok msg) =>
      let '(key_cache, r) := ClientToRelayMsg_from_bytes key_cache msg in
      (key_cache, Some (map_err RecvProto r))
  | Some (Err e) => (key_cache, Some (Err (RecvStreamError e)))
  | Some Panic => (key_cache, Some Panic)
  | None => (key_cache, None)
  end.

(** ** Conn: the same on the client's end

    Its [SendError] and [RecvError] have the constructors of the server's. *)

Definition conn_start_send (frame : ClientToRelayMsg) : result SendError bytes :=
  match ClientToRelayMsg_encoded_len frame with
  | None => Panic
  | Some size =>
      let? _ := ensure (size <=? MAX_PACKET_SIZE) (ExceedsMaxPacketSize size) in
      let? _ := match frame with
                | C2RDatagrams _ datagrams => ensure (negb (blen (contents datagrams) =? 0)) EmptyPacket
                | _ => Ok tt
                end in
      Ok (ClientToRelayMsg_to_bytes frame)
  end.

Definition conn_next (key_cache : KeyCache) (protocol_version : ProtocolVersion)
    (item : option (result StreamError bytes)) : KeyCache * option (result RecvError RelayToClientMsg) :=
  match item with
  | Some (Ok msg) =>
      let '(key_cache, message) := RelayToClientMsg_from_bytes key_cache protocol_version msg in
      (key_cache, Some (map_err RecvProto message))
  | Some (Err e) => (key_cache, Some (Err (RecvStreamError e)))
  | Some Panic => (key_cache, Some Panic)
  | None => (key_cache, None)
  end.

(** ** ClientCounter *)

(** A date as its day number. *)
Record ClientCounter := mkClientCounter {
  seen : gset EndpointId;
  last_clear_date : Z
}.

Definition ClientCounter_default (today : Z) : ClientCounter := mkClientCounter ∅ today.

Definition check_and_clear (self : ClientCounter) (today : Z) : ClientCounter :=
  if today =? last_clear_date self then self else mkClientCounter ∅ today.

Definition ClientCounter_update (self : ClientCounter) (today : Z) (client : EndpointId)
    : ClientCounter * bool :=
  let self := check_and_clear self today in
  (mkClientCounter ({[client]} ∪ seen self) (last_clear_date self),
   bool_decide (client ∉ seen self)).

(** ** The actor *)

Inductive WriteFrameError :=
| WriteStream (source : SendError)
| WriteTimeout.

Inductive HandleFrameError :=
| StreamTerminated
| HandleRecv (source : RecvError)
| HandleSend (source : WriteFrameError).

Inductive RunError :=
| Flush
| HandleFrame (source : HandleFrameError)
| PacketSend (source : WriteFrameError)
| HandleDropped
| WriteFrame (source : WriteFrameError)
| TickFlush.

Record Actor := mkActor {
  guard_endpoint_id : EndpointId;
  guard_connection_id : Z;
  packet_send_queue : list Packet;
  message_send_queue : list RelayToClientMsg;
  client_counter : ClientCounter;
  ping_tracker : Ping.PingTracker;
  interval_period : Z;
  interval_deadline : Z;
  written : list RelayToClientMsg           (* the frames the stream was handed *)
}.

(** How the stream and the clock answer during one turn. *)
Inductive WriteAnswer := WriteReady | WriteFailed (e : StreamError) | WriteElapsed.

Record Env := mkEnv {
  now : Z;
  random_secs : Z;                                   (* [random_range(1..=5)] *)
  ping_data : bytes;                                 (* [rand::random()] *)
  cancelled : bool;
  incoming : option (option (result RecvError ClientToRelayMsg)); (* [None]: pending *)
  senders_dropped : bool;
  write_answer : WriteAnswer;
  flush_ok : bool
}.

Definition set_written (a : Actor) (w : list RelayToClientMsg) : Actor :=
  mkActor (guard_endpoint_id a) (guard_connection_id a) (packet_send_queue a) (message_send_queue a)
    (client_counter a) (ping_tracker a) (interval_period a) (interval_deadline a) w.
Definition set_ping_tracker (a : Actor) (t : Ping.PingTracker) : Actor :=
  mkActor (guard_endpoint_id a) (guard_connection_id a) (packet_send_queue a) (message_send_queue a)
    (client_counter a) t (interval_period a) (interval_deadline a) (written a).
Definition set_deadline (a : Actor) (d : Z) : Actor :=
  mkActor (guard_endpoint_id a) (guard_connection_id a) (packet_send_queue a) (message_send_queue a)
    (client_counter a) (ping_tracker a) (interval_period a) d (written a).
Definition set_queues (a : Actor) (ps : list Packet) (ms : list RelayToClientMsg) : Actor :=
  mkActor (guard_endpoint_id a) (guard_connection_id a) ps ms
    (client_counter a) (ping_tracker a) (interval_period a) (interval_deadline a) (written a).
Definition set_counter (a : Actor) (c : ClientCounter) : Actor :=
  mkActor (guard_endpoint_id a) (guard_connection_id a) (packet_send_queue a) (message_send_queue a)
    c (ping_tracker a) (interval_period a) (interval_deadline a) (written a).

Definition with_metrics (s : Clients) (f : Metrics -> Metrics) : Clients :=
  mkClients (clients s) (sent_to s) (f (metrics s)).

(** [timeout(self.timeout, self.stream.send(frame))]. *)
Definition write_frame (env : Env) (a : Actor) (frame : RelayToClientMsg)
    : result WriteFrameError Actor :=
  match write_answer env with
  | WriteElapsed => Err WriteTimeout
  | WriteFailed e => Err (WriteStream (SendStreamError e))
  | WriteReady =>
      let? _ := map_err WriteStream (start_send frame) in
      Ok (set_written a (written a ++ [frame]))
  end.

Definition send_raw (env : Env) (s : Clients) (a : Actor) (packet : Packet)
    : Clients * result WriteFrameError Actor :=
  let datagrams := data packet in
  (with_metrics s (inc_by bytes_sent (blen (contents datagrams))),
   write_frame env a (R2CDatagrams (src packet) datagrams)).

Definition actor_send_packet (env : Env) (s : Clients) (a : Actor) (packet : Packet)
    : Clients * result WriteFrameError Actor :=
  let '(s, r) := send_raw env s a packet in
  match r with
  | Ok a => (with_metrics s (inc send_packets_sent), Ok a)
  | Err err => (with_metrics s (inc send_packets_dropped), Err err)
  | Panic => (s, Panic)
  end.

Definition handle_frame_send_packet (s : Clients) (a : Actor) (dst : EndpointId) (data : Datagrams)
    : result ForwardPacketError unit * Clients :=
  send_packet (with_metrics s (inc send_packets_recv)) dst data (guard_endpoint_id a).

Definition handle_frame (env : Env) (s : Clients) (a : Actor)
    (maybe_frame : option (result RecvError ClientToRelayMsg))
    : Clients * result HandleFrameError Actor :=
  match maybe_frame with
  | None => (s, Err StreamTerminated)
  | Some (Err e) => (s, Err (HandleRecv e))
  | Some Panic => (s, Panic)
  | Some (Ok (C2RDatagrams dst_key datagrams)) =>
      let packet_len := blen (contents datagrams) in
      let '(_, s) := handle_frame_send_packet s a dst_key datagrams in
      (with_metrics s (inc_by bytes_recv packet_len), Ok a)
  | Some (Ok (C2RPing data)) =>
      let s := with_metrics s (inc got_ping) in
      match write_frame env a (R2CPong data) with
      | Ok a => (with_metrics s (inc sent_pong), Ok a)
      | Err e => (s, Err (HandleSend e))
      | Panic => (s, Panic)
      end
  | Some (Ok (C2RPong data)) =>
      (s, Ok (set_ping_tracker a (Ping.pong_received (ping_tracker a) data (now env))))
  end.

(** [mpsc::Receiver::recv]: [None] when pending, [Some None] when the queue is
    empty and every sender has gone. *)
Definition recv {A} (dropped : bool) (q : list A) : option (option (A * list A)) :=
  match q with
  | x :: q => Some (Some (x, q))
  | [] => if dropped then Some None else None
  end.

Inductive Event :=
| EvCancelled
| EvFrame (maybe_frame : option (result RecvError ClientToRelayMsg))
| EvPacket (packet : option (Packet * list Packet))
| EvMessage (message : option (RelayToClientMsg * list RelayToClientMsg))
| EvPongTimeout (tracker : Ping.PingTracker)
| EvTick.

(** The [biased] select: the branches in the order they are written. *)
Definition select (env : Env) (a : Actor) : option Event :=
  if cancelled env then Some EvCancelled else
  match incoming env with
  | Some f => Some (EvFrame f)
  | None =>
  match recv (senders_dropped env) (packet_send_queue a) with
  | Some p => Some (EvPacket p)
  | None =>
  match recv (senders_dropped env) (message_send_queue a) with
  | Some m => Some (EvMessage m)
  | None =>
  match Ping.timeout_poll (ping_tracker a) (now env) with
  | Some t => Some (EvPongTimeout t)
  | None => if interval_deadline a <=? now env then Some EvTick else None
  end end end end.

Inductive Flow := Continue (a : Actor) | Finished (a : Actor) | Failed (e : RunError) | Panicked.

Definition bind_flow {E} (inj : E -> RunError) (r : result E Actor) (k : Actor -> Flow) : Flow :=
  match r with
  | Ok a => k a
  | Err e => Failed (inj e)
  | Panic => Panicked
  end.

(** One turn of the loop of [run_inner]. *)
Definition turn (env : Env) (s : Clients) (a : Actor) : Clients * Flow :=
  let flush a := if flush_ok env then Continue a else Failed TickFlush in
  match select env a with
  | None => (s, Continue a)
  | Some EvCancelled => (s, if flush_ok env then Finished a else Failed Flush)
  | Some (EvFrame maybe_frame) =>
      let '(s, r) := handle_frame env s a maybe_frame in
      (s, bind_flow HandleFrame r (fun a => flush (set_deadline a (now env + interval_period a))))
  | Some (EvPacket None) => (s, Failed HandleDropped)
  | Some (EvPacket (Some (packet, rest))) =>
      let '(s, r) := actor_send_packet env s (set_queues a rest (message_send_queue a)) packet in
      (s, bind_flow PacketSend r flush)
  | Some (EvMessage None) => (s, Failed HandleDropped)
  | Some (EvMessage (Some (message, rest))) =>
      (s, bind_flow WriteFrame (write_frame env (set_queues a (packet_send_queue a) rest) message) flush)
  | Some (EvPongTimeout tracker) => (s, Finished (set_ping_tracker a tracker))
  | Some EvTick =>
      let a := set_deadline a (now env + (from_secs (random_secs env) + PING_INTERVAL)) in
      match Ping.new_ping (E := False) (ping_tracker a) (now env) (ping_data env) with
      | Ok (tracker, data) =>
          (s, bind_flow WriteFrame (write_frame env (set_ping_tracker a tracker) (R2CPing data)) flush)
      | _ => (s, Panicked)
      end
  end.

(** [run_inner] after its first tick, over the turns the environment offers. *)
Fixpoint run_inner (envs : list Env) (s : Clients) (a : Actor) : Clients * Flow :=
  match envs with
  | [] => (s, Continue a)
  | env :: envs =>
      match turn env s a with
      | (s, Continue a) => run_inner envs s a
      | r => r
      end
  end.

(** [Client::new] builds the actor, its queues empty. [today] and [period] are
    read when it is built and started. *)
Definition actor_new (cfg : Config) (today start random_secs : Z) : Actor :=
  let period := from_secs random_secs + PING_INTERVAL in
  mkActor (cfg_endpoint_id cfg) (cfg_connection_id cfg) [] [] (ClientCounter_default today)
    Ping.PingTracker_default period (start + period) [].

(** [run]: up to the loop, and after it. *)
Definition run_start (s : Clients) (a : Actor) (today : Z) : Clients * Actor :=
  let s := with_metrics s (inc accepts_count) in
  let '(counter, new) := ClientCounter_update (client_counter a) today (guard_endpoint_id a) in
  ((if new then with_metrics s (inc unique_client_keys) else s), set_counter a counter).

Definition run_end (s : Clients) (endpoint_id : EndpointId) (connection_id : Z) : Clients :=
  with_metrics (unregister s endpoint_id connection_id) (inc disconnects).

(** ** Lemmas *)

Definition is_pong (m : RelayToClientMsg) : bool :=
  match m with R2CPong _ => true | _ => false end.

Definition pongs (ms : list RelayToClientMsg) : list RelayToClientMsg := List.filter is_pong ms.

(** The Pong a turn owes: the answer to the Ping it reads. *)
Definition owed (env : Env) : list RelayToClientMsg :=
  match incoming env with
  | Some (Some (Ok (C2RPing data))) => if cancelled env then [] else [R2CPong data]
  | _ => []
  end.

Definition no_pongs (ms : list RelayToClientMsg) : Prop := pongs ms = [].

Lemma write_frame_Ok env a m a' :
  write_frame env a m = Ok a' -> a' = set_written a (written a ++ [m]) /\ write_answer env = WriteReady.
Proof.
  unfold write_frame. destruct (write_answer env); try discriminate.
  destruct (start_send m); simpl; intros [= <-]. done.
Qed.

Lemma handle_frame_pongs env s a f s' a' :
  cancelled env = false -> incoming env = Some f ->
  handle_frame env s a f = (s', Ok a') ->
  pongs (written a') = pongs (written a) ++ owed env /\ message_send_queue a' = message_send_queue a.
Proof.
  intros Hc Hi H. unfold owed. rewrite Hi, Hc.
  destruct f as [[[d|d|dst d]|e|]|]; simpl in H; simplify_eq.
  - destruct (write_frame env a (R2CPong d)) as [a1|e|] eqn:Hw; simplify_eq.
    apply write_frame_Ok in Hw as [-> _]. simpl. unfold pongs. by rewrite List.filter_app.
  - simpl. by rewrite app_nil_r.
  - destruct (handle_frame_send_packet s a dst d) as [r s2]. simplify_eq. by rewrite app_nil_r.
Qed.

Lemma bind_flow_Continue {E} (inj : E -> RunError) r k a :
  bind_flow inj r k = Continue a -> exists a1, r = Ok a1 /\ k a1 = Continue a.
Proof. destruct r; simpl; try discriminate. eauto. Qed.

Lemma flush_Continue (b : bool) (e : RunError) (a a' : Actor) :
  (if b then Continue a else Failed e) = Continue a' -> a' = a.
Proof. destruct b; [|discriminate]. by intros [= ->]. Qed.

Lemma no_pongs_tail m ms : no_pongs (m :: ms) -> no_pongs ms /\ is_pong m = false.
Proof. unfold no_pongs, pongs. simpl. destruct (is_pong m); [discriminate|]. done. Qed.

Lemma pongs_snoc ms m : is_pong m = false -> pongs (ms ++ [m]) = pongs ms.
Proof. intros H. unfold pongs. rewrite List.filter_app. simpl. by rewrite H, app_nil_r. Qed.

Lemma owed_no_frame env : incoming env = None -> owed env = [].
Proof. unfold owed. by intros ->. Qed.

Lemma turn_pongs env s a s' a' :
  no_pongs (message_send_queue a) -> turn env s a = (s', Continue a') ->
  pongs (written a') = pongs (written a) ++ owed env /\ no_pongs (message_send_queue a').
Proof.
  intros Hq H. unfold turn, select in H.
  destruct (cancelled env) eqn:Hc; [by destruct (flush_ok env)|].
  destruct (incoming env) as [f|] eqn:Hi.
  { destruct (handle_frame env s a f) as [s1 r] eqn:Hh. injection H as -> H.
    apply bind_flow_Continue in H as (a1 & -> & ->%flush_Continue). simpl.
    apply handle_frame_pongs in Hh as [-> ->]; done. }
  rewrite owed_no_frame, app_nil_r by done.
  destruct (packet_send_queue a) as [|p ps]; simpl in H.
  - destruct (senders_dropped env); simpl in H; [discriminate|].
    destruct (message_send_queue a) as [|m ms] eqn:Hms; simpl in H.
    + destruct (Ping.timeout_poll _ _); simpl in H; [discriminate|].
      destruct (_ <=? now env).
      2: { injection H as <- <-. by rewrite Hms. }
      destruct (Ping.new_ping _ _ _) as [[t d]|?|]; try discriminate. injection H as -> H.
      apply bind_flow_Continue in H as (a1 & [-> _]%write_frame_Ok & ->%flush_Continue). simpl.
      by rewrite pongs_snoc, Hms.
    + injection H as -> H. apply bind_flow_Continue in H as (a1 & [-> _]%write_frame_Ok & ->%flush_Continue).
      simpl. apply no_pongs_tail in Hq as [Hq Hm]. by rewrite pongs_snoc.
  - unfold actor_send_packet, send_raw in H. destruct (write_frame env _ _) as [a1|e|] eqn:Hw; simpl in H; try discriminate.
    apply write_frame_Ok in Hw as [-> _]. injection H as <- ->%flush_Continue. simpl.
    by rewrite pongs_snoc.
Qed.

(** ** Properties *)

(** As long as its loop goes on, the actor answers the Pings of its client
    with Pongs that carry the same payload, in the order of the Pings, and sends
    no other Pong, whatever else it receives, forwards or sends in between. *)
Theorem actor_answers_pings envs s a s' a' :
  no_pongs (message_send_queue a) ->
  run_inner envs s a = (s', Continue a') ->
  pongs (written a') = pongs (written a) ++ concat (map owed envs).
Proof.
  revert s a. induction envs as [|env envs IH]; intros s a Hq H; simpl in H.
  - injection H as <- <-. by rewrite app_nil_r.
  - destruct (turn env s a) as [s1 [a1|a1|e|]] eqn:Ht; try discriminate.
    apply turn_pongs in Ht as [Hp Hq1]; [|done]. simpl.
    rewrite (IH _ _ Hq1 H), Hp. by rewrite app_assoc.
Qed.

(** [n] connections accepted on the same day. *)
Definition accept_all (today : Z) (cfgs : list Config) (s : Clients) : Clients :=
  fold_left (fun s cfg => (run_start s (actor_new cfg today 0 1) today).1) cfgs s.

(** Every actor has a client counter of its own, so the metric of unique
    client keys goes up with every connection accepted, also when all of them are
    of the same endpoint: it always equals the number of connections. *)
Theorem unique_keys_count_connections today cfgs s :
  metrics (accept_all today cfgs s) unique_client_keys =
    metrics s unique_client_keys + Z.of_nat (length cfgs).
Proof.
  revert s. induction cfgs as [|cfg cfgs IH]; intros s; simpl; [lia|].
  unfold accept_all in *. simpl. rewrite IH.
  unfold run_start, ClientCounter_update, check_and_clear. simpl. rewrite Z.eqb_refl. simpl.
  rewrite bool_decide_true by set_solver. simpl. unfold inc, inc_by. simpl. lia.
Qed.

(** ** One datagram from client to client *)

Section Delivery.
Context {NL : NoqProtoLaws N} {EdL : Ed25519Laws Ed} {LruL : LruCacheLaws Lru as_bytes}.

(** A turn in which the actor reads [bs] from its stream. *)
Definition reads (cache : KeyCache) (bs : bytes) (env : Env) : Prop :=
  cancelled env = false /\ flush_ok env = true /\
  incoming env = Some (stream_next cache (Some (Ok bs))).2.

(** A turn in which the actor has nothing to read and its stream takes frames. *)
Definition writes (env : Env) : Prop :=
  cancelled env = false /\ incoming env = None /\ write_answer env = WriteReady /\ flush_ok env = true.

Lemma stream_next_to_bytes cache m :
  cache_valid cache -> ClientToRelayMsg_wf m -> blen (ClientToRelayMsg_payload m) <= MAX_PACKET_SIZE ->
  (stream_next cache (Some (Ok (ClientToRelayMsg_to_bytes m)))).2 = Some (Ok m).
Proof.
  intros Hc Hm Hl. pose proof (ClientToRelayMsg_from_to_bytes cache m Hc Hm Hl) as H.
  unfold stream_next. destruct (ClientToRelayMsg_from_bytes _ _) as [c r]. simpl in *. by subst r.
Qed.

Lemma encoded_len_datagrams id d :
  RelayToClientMsg_encoded_len (R2CDatagrams id d) = Some (1 + (32 + Datagrams_encoded_len d)).
Proof. unfold RelayToClientMsg_encoded_len. by rewrite frame_type_encoded_len_1. Qed.

Lemma start_send_datagrams id d :
  start_send (R2CDatagrams id d) =
  if 1 + (32 + Datagrams_encoded_len d) <=? MAX_PACKET_SIZE then
    if blen (contents d) =? 0 then Err EmptyPacket else Ok (RelayToClientMsg_to_bytes (R2CDatagrams id d))
  else Err (ExceedsMaxPacketSize (1 + (32 + Datagrams_encoded_len d))).
Proof.
  unfold start_send. rewrite encoded_len_datagrams. unfold ensure.
  destruct (_ <=? _); simpl; [|done]. by destruct (_ =? 0).
Qed.

(** A datagram the relay reads is queued for the destination. *)
Lemma turn_forwards env cache s a dst d st :
  cache_valid cache -> valid_key dst -> datagrams_wf d ->
  32 + Datagrams_encoded_len d <= MAX_PACKET_SIZE ->
  reads cache (ClientToRelayMsg_to_bytes (C2RDatagrams dst d)) env ->
  clients s !! dst = Some st -> queues_open (active st) = true ->
  (length (packet_queue (active st)) < channel_capacity (active st))%nat ->
  exists s' a' st', turn env s a = (s', Continue a') /\ clients s' !! dst = Some st' /\
    packet_queue (active st') = packet_queue (active st) ++ [mkPacket (guard_endpoint_id a) d].
Proof.
  intros Hcache Hdst Hd Hlen (Hc & Hf & Hi) Hst Hopen Hroom.
  rewrite stream_next_to_bytes in Hi; [|done|done|simpl; by rewrite datagram_payload_len].
  unfold turn, select. rewrite Hc, Hi, Hf. simpl.
  unfold handle_frame_send_packet, send_packet. simpl. rewrite Hst, try_send_packet_room, Hopen. simpl.
  destruct (Nat.leb_spec (channel_capacity (active st)) (length (packet_queue (active st)))); [lia|].
  eexists _, _, _. split; [done|]. simpl. rewrite lookup_insert_eq. split; [done|]. done.
Qed.

(** The destination's turn hands the head of its packet queue to its stream. *)
Lemma turn_sends env s b p ps :
  writes env -> packet_send_queue b = p :: ps ->
  (turn env s b).2 =
  match start_send (R2CDatagrams (src p) (data p)) with
  | Ok _ => Continue (set_written (set_queues b ps (message_send_queue b))
                        (written b ++ [R2CDatagrams (src p) (data p)]))
  | Err e => Failed (PacketSend (WriteStream e))
  | Panic => Panicked
  end.
Proof.
  intros (Hc & Hi & Hw & Hf) Hq. unfold turn, select. rewrite Hc, Hi, Hq. simpl.
  unfold actor_send_packet, send_raw, write_frame. rewrite Hw.
  by destruct (start_send _); simpl; rewrite ?Hf.
Qed.

Lemma conn_start_send_datagrams dst d bs :
  conn_start_send (C2RDatagrams dst d) = Ok bs ->
  bs = ClientToRelayMsg_to_bytes (C2RDatagrams dst d) /\
  1 + (32 + Datagrams_encoded_len d) <= MAX_PACKET_SIZE /\ (blen (contents d) =? 0) = false.
Proof.
  unfold conn_start_send, ClientToRelayMsg_encoded_len. rewrite frame_type_encoded_len_1.
  cbn [option_map]. unfold ensure.
  destruct (Z.leb_spec (1 + (32 + Datagrams_encoded_len d)) MAX_PACKET_SIZE); cbn [rbind]; [|done].
  destruct (blen (contents d) =? 0); cbn [negb rbind]; [done|]. by intros [= <-].
Qed.

Lemma conn_next_datagrams cache version id d :
  cache_valid cache -> valid_key id -> datagrams_wf d -> 32 + Datagrams_encoded_len d <= MAX_PACKET_SIZE ->
  (conn_next cache version (Some (Ok (RelayToClientMsg_to_bytes (R2CDatagrams id d))))).2 =
  Some (Ok (R2CDatagrams id d)).
Proof.
  intros Hc Hid Hd Hl. unfold conn_next.
  assert (H : (RelayToClientMsg_from_bytes cache version (RelayToClientMsg_to_bytes (R2CDatagrams id d))).2
              = Ok (R2CDatagrams id d)).
  { apply RelayToClientMsg_from_to_bytes; [done|by split|done|]. simpl. by rewrite datagram_payload_len. }
  destruct (RelayToClientMsg_from_bytes _ _ _) as [c r]. simpl in H. by subst r.
Qed.

(** C9: A datagram that one client sends to another through the relay arrives
    unchanged. Whatever the sender's connection accepts, if the destination is
    connected and can take it, the turn in which the sender's actor reads it
    queues it for the destination, the destination's actor writes it in its next
    turn, and the destination's connection yields the datagram with the sender's
    key. *)
Theorem relay_delivers s a b st dst d bs cache cache' version env1 env2 :
  cache_valid cache -> cache_valid cache' -> valid_key (guard_endpoint_id a) -> valid_key dst ->
  datagrams_wf d -> conn_start_send (C2RDatagrams dst d) = Ok bs ->
  clients s !! dst = Some st -> queues_open (active st) = true ->
  packet_queue (active st) = [] -> (0 < channel_capacity (active st))%nat ->
  reads cache bs env1 -> writes env2 ->
  let m := R2CDatagrams (guard_endpoint_id a) d in
  exists s' a' st', turn env1 s a = (s', Continue a') /\ clients s' !! dst = Some st' /\
    (packet_send_queue b = packet_queue (active st') ->
     exists b', (turn env2 s' b).2 = Continue b' /\ written b' = written b ++ [m] /\
       (conn_next cache' version (Some (Ok (RelayToClientMsg_to_bytes m)))).2 = Some (Ok m)).
Proof.
  intros Hcache Hcache' Ha Hdst Hd Hsend Hst Hopen Hq Hcap H1 H2 m.
  apply conn_start_send_datagrams in Hsend as (-> & Hlen & Hne).
  destruct (turn_forwards env1 cache s a dst d st) as (s' & a' & st' & Ht & Hst' & Hp); try done; [lia|by rewrite Hq|].
  exists s', a', st'. split; [done|]. split; [done|]. rewrite Hp, Hq. intros Hb.
  rewrite (turn_sends env2 s' b _ _ H2 Hb), start_send_datagrams. cbn [src data]. rewrite Hne.
  destruct (Z.leb_spec (1 + (32 + Datagrams_encoded_len d)) MAX_PACKET_SIZE); [|lia].
  eexists. split; [done|]. split; [done|]. apply conn_next_datagrams; try done. lia.
Qed.

(** The relay reads datagrams it cannot write: the frame of a datagram with
    no contents, or one whose payload is exactly [MAX_PACKET_SIZE] bytes, is
    decoded and queued, but the destination's stream refuses it and the
    destination's actor ends. One client can so end the connection of another
    client while its own goes on; only the sender's own [Conn] would refuse it. *)
Theorem unsendable_datagram_ends_destination s a b st dst d cache env1 env2 :
  cache_valid cache -> valid_key dst -> datagrams_wf d ->
  contents d = [] \/ 32 + Datagrams_encoded_len d = MAX_PACKET_SIZE ->
  clients s !! dst = Some st -> queues_open (active st) = true ->
  packet_queue (active st) = [] -> (0 < channel_capacity (active st))%nat ->
  reads cache (ClientToRelayMsg_to_bytes (C2RDatagrams dst d)) env1 -> writes env2 ->
  exists s' a' st', turn env1 s a = (s', Continue a') /\ clients s' !! dst = Some st' /\
    (packet_send_queue b = packet_queue (active st') ->
     exists e, (turn env2 s' b).2 = Failed (PacketSend (WriteStream e))).
Proof.
  intros Hcache Hdst Hd Hbad Hst Hopen Hq Hcap H1 H2.
  assert (Hlen : 32 + Datagrams_encoded_len d <= MAX_PACKET_SIZE).
  { destruct Hbad as [Hbad| ->]; [|done]. unfold Datagrams_encoded_len. rewrite Hbad.
    unfold MAX_PACKET_SIZE. destruct (segment_size d); vm_compute; discriminate. }
  destruct (turn_forwards env1 cache s a dst d st) as (s' & a' & st' & Ht & Hst' & Hp); try done; [by rewrite Hq|].
  exists s', a', st'. split; [done|]. split; [done|]. rewrite Hp, Hq. intros Hb.
  rewrite (turn_sends env2 s' b _ _ H2 Hb), start_send_datagrams. simpl.
  destruct Hbad as [-> | ->]; [destruct (_ <=? _)|]; eexists; reflexivity.
Qed.

End Delivery.

End Actor.
End Actor.

(** ** Witnesses *)

Section Witnesses.
Import Actor.

#[local] Existing Instance noq_proto.
#[local] Existing Instance noq_proto_laws.
#[local] Existing Instance checksum_keys.
#[local] Existing Instance checksum_keys_laws.
#[local] Instance key_lru : LruCache PublicKey := list_cache PublicKey as_bytes.
#[local] Instance key_lru_laws : LruCacheLaws key_lru as_bytes := list_cache_laws PublicKey as_bytes.

Definition quiet : Env := mkEnv 0 1 [] false None false WriteReady true.

Definition reading (m : ClientToRelayMsg) : Env :=
  mkEnv 0 1 [] false
    (Some (stream_next Disabled (Some (Ok (ClientToRelayMsg_to_bytes m)))).2) false WriteReady true.

Definition two_clients : Clients := run empty [Register (mkConfig alice 0 2 V2); Register (mkConfig bob 1 2 V2)].

Definition alice_actor : Actor := actor_new (mkConfig alice 0 2 V2) 0 0 1.

Definition bob_actor (d : Datagrams) : Actor :=
  set_queues (actor_new (mkConfig bob 1 2 V2) 0 0 1) [mkPacket alice d] [].

Definition bob_state : ClientState := mkClientState (Client_new (mkConfig bob 1 2 V2)) [].

Definition no_contents : Datagrams := mkDatagrams None None [].

Definition ping1 : bytes := replicate 8 Byte.x01.
Definition ping2 : bytes := replicate 8 Byte.x02.

Lemma actor_answers_pings_witness :
  exists s a, run_inner [reading (C2RPing ping1); quiet; reading (C2RPing ping2)] two_clients alice_actor
                = (s, Continue a) /\ pongs (written a) = [R2CPong ping1; R2CPong ping2].
Proof.
  destruct (run_inner [reading (C2RPing ping1); quiet; reading (C2RPing ping2)] two_clients alice_actor)
    as [s fl] eqn:H.
  assert (Hfl : match fl with Continue _ => True | _ => False end)
    by (change fl with ((s, fl).2); rewrite <- H; vm_compute; exact I).
  destruct fl as [a| | |]; try contradiction. exists s, a. split; [reflexivity|].
  rewrite (actor_answers_pings _ two_clients alice_actor s a eq_refl H).
  vm_cast_no_check (@eq_refl (list RelayToClientMsg) [R2CPong ping1; R2CPong ping2]).
Defined.

Lemma relay_delivers_witness :
  exists s' a' st', turn (reading (C2RDatagrams bob example_batch)) two_clients alice_actor = (s', Continue a') /\
    clients s' !! bob = Some st' /\
    (packet_send_queue (bob_actor example_batch) = packet_queue (active st') ->
     exists b', (turn quiet s' (bob_actor example_batch)).2 = Continue b' /\
       written b' = written (bob_actor example_batch) ++ [R2CDatagrams alice example_batch] /\
       (conn_next Disabled V2 (Some (Ok (RelayToClientMsg_to_bytes (R2CDatagrams alice example_batch))))).2 =
       Some (Ok (R2CDatagrams alice example_batch))).
Proof.
  apply (relay_delivers two_clients alice_actor (bob_actor example_batch) bob_state bob example_batch
           (ClientToRelayMsg_to_bytes (C2RDatagrams bob example_batch))
           Disabled Disabled V2 (reading (C2RDatagrams bob example_batch)) quiet);
    try exact I; try reflexivity; try (repeat split; reflexivity).
  - vm_compute. eauto.
  - vm_compute. eauto.
  - simpl. lia.
Defined.

Lemma unsendable_datagram_ends_destination_witness :
  exists s' a' st', turn (reading (C2RDatagrams bob no_contents)) two_clients alice_actor = (s', Continue a') /\
    clients s' !! bob = Some st' /\
    (packet_send_queue (bob_actor no_contents) = packet_queue (active st') ->
     exists e, (turn quiet s' (bob_actor no_contents)).2 = Failed (PacketSend (WriteStream e))).
Proof.
  apply (unsendable_datagram_ends_destination two_clients alice_actor (bob_actor no_contents) bob_state bob
           no_contents Disabled (reading (C2RDatagrams bob no_contents)) quiet);
    try exact I; try reflexivity; try (repeat split; reflexivity).
  - vm_compute. eauto.
  - left. reflexivity.
  - simpl. lia.
Defined.

End Witnesses.
