(* ===== verification/Handshake.v ===== *)
(** * The relay handshake

    [iroh-relay/src/protos/handshake.rs]. Each side is a process: a tree of the
    frames it sends and the messages it waits for. The two sides are run
    against each other through two queues. *)

From S2P Require Import Prelude External Instances Utf8 Keys RelayFrames.

Module Handshake.

(** ** Processes *)

(** What [io.try_next()] gives. *)
Inductive Incoming := Message (payload : bytes) | StreamEnd | StreamFailure.

(** [Send]: [io.send] and [io.flush]; the process is told whether both worked. *)
Inductive proc (A : Type) :=
| Ret (a : A)
| Send (frame : bytes) (k : bool -> proc A)
| Next (k : Incoming -> proc A).
Arguments Ret {A} a.
Arguments Send {A} frame k.
Arguments Next {A} k.

Fixpoint pbind {A B} (p : proc A) (k : A -> proc B) : proc B :=
  match p with
  | Ret a => k a
  | Send frame c => Send frame (fun ok => pbind (c ok) k)
  | Next c => Next (fun i => pbind (c i) k)
  end.

(** The [?] of an [async fn]. *)
Definition ptry {E A B} (p : proc (result E A)) (k : A -> proc (result E B)) : proc (result E B) :=
  pbind p (fun r => match r with
                    | Ok a => k a
                    | Err e => Ret (Err e)
                    | Panic => Ret Panic
                    end).

Notation "'await?' x := m 'in' k" := (ptry m (fun x => k))
  (at level 10, x pattern, m at level 100, k at level 200).

(** Both sides, over reliable queues: the left side moves first. *)
Fixpoint run_both {A B} (fuel : nat) (p : proc A) (q : proc B) (to_p to_q : list bytes) : option (A * B) :=
  match fuel with
  | O => None
  | S fuel =>
      match p, to_p with
      | Send f k, _ => run_both fuel (k true) q to_p (to_q ++ [f])
      | Next k, m :: to_p => run_both fuel (k (Message m)) q to_p to_q
      | _, _ =>
          match q, to_q with
          | Send f k, _ => run_both fuel p (k true) (to_p ++ [f]) to_q
          | Next k, m :: to_q => run_both fuel p (k (Message m)) to_p to_q
          | Ret b, _ => match p with Ret a => Some (a, b) | _ => None end
          | _, _ => None
          end
      end
  end.

(** A process against any peer and network: how each frame it sends fares and
    what each message it waits for is. [None] when the answers run out. *)
Inductive answer := Sent (ok : bool) | Got (i : Incoming).

Fixpoint drive {A} (p : proc A) (answers : list answer) : option A * list bytes :=
  match p, answers with
  | Ret a, _ => (Some a, [])
  | Send f k, Sent ok :: answers => let '(r, out) := drive (k ok) answers in (r, f :: out)
  | Next k, Got i :: answers => drive (k i) answers
  | _, _ => (None, [])
  end.

Section Handshake.
Context {N : NoqProto} {Ed : Ed25519} {P : Postcard} {H : HandshakeCrypto}.

(** ** Frames *)

Definition DOMAIN_SEP_CHALLENGE : string := "iroh-relay handshake v1 challenge signature".
Definition DOMAIN_SEP_TLS_EXPORT_LABEL : bytes := String.list_byte_of_string "iroh-relay handshake v1".

Record KeyMaterialClientAuth := mkKeyMaterialClientAuth {
  km_public_key : PublicKey;
  km_signature : bytes;                  (* [u8; 64] *)
  key_material_suffix : bytes            (* [u8; 16] *)
}.

Record ServerChallenge := mkServerChallenge { challenge : bytes (* [u8; 16] *) }.

Record ClientAuth := mkClientAuth {
  public_key : PublicKey;
  signature : bytes                      (* [u8; 64] *)
}.

Record ServerDeniesAuth := mkServerDeniesAuth { reason : bytes }.

Inductive Error :=
| Websocket
| UnexpectedStreamEnd
| FrameTypeErr (source : FrameTypeError)
| ServerDeniedAuth (reason : bytes)
| UnexpectedFrameType (frame_type : FrameType) (expected_types : list FrameType)
| DeserializationError (frame_type : FrameType)
| ClientAuthHeaderInvalid (value : HeaderValue).

Inductive VerificationError :=
| NoKeyingMaterial
| MismatchedSuffix (expected actual : bytes)
| VSignatureInvalid.

(** The derived [Serialize] and [Deserialize], with [PublicKey]'s own. *)
Definition ServerChallenge_fields (c : ServerChallenge) : list serde_value := [SArray (challenge c)].
Definition ClientAuth_fields (c : ClientAuth) : list serde_value :=
  [SArray (as_bytes (public_key c)); SBytes (signature c)].
Definition ServerDeniesAuth_fields (d : ServerDeniesAuth) : list serde_value := [SStr (reason d)].
Definition KeyMaterialClientAuth_fields (c : KeyMaterialClientAuth) : list serde_value :=
  [SArray (as_bytes (km_public_key c)); SBytes (km_signature c); SArray (key_material_suffix c)].

(** A byte string for a [u8; n] field. *)
Definition byte_array (n : nat) (bs : bytes) : option bytes :=
  if (length bs =? n)%nat then Some bs else None.

Definition deserialize_public_key (data : bytes) : option PublicKey :=
  match PublicKey_try_from data with Ok k => Some k | _ => None end.

Definition ServerChallenge_deserialize (bs : bytes) : option ServerChallenge :=
  match postcard_from_bytes [ShArray 16] bs with
  | Some [SArray c] => Some (mkServerChallenge c)
  | _ => None
  end.

Definition ClientAuth_deserialize (bs : bytes) : option ClientAuth :=
  match postcard_from_bytes [ShArray 32; ShBytes] bs with
  | Some [SArray k; SBytes s] =>
      match deserialize_public_key k, byte_array 64 s with
      | Some k, Some s => Some (mkClientAuth k s)
      | _, _ => None
      end
  | _ => None
  end.

Definition ServerConfirmsAuth_deserialize (bs : bytes) : option unit :=
  match postcard_from_bytes [] bs with Some _ => Some tt | None => None end.

Definition ServerDeniesAuth_deserialize (bs : bytes) : option ServerDeniesAuth :=
  match postcard_from_bytes [ShStr] bs with
  | Some [SStr r] => Some (mkServerDeniesAuth r)
  | _ => None
  end.

Definition KeyMaterialClientAuth_deserialize (bs : bytes) : option KeyMaterialClientAuth :=
  match postcard_from_bytes [ShArray 32; ShBytes; ShArray 16] bs with
  | Some [SArray k; SBytes s; SArray suffix] =>
      match deserialize_public_key k, byte_array 64 s with
      | Some k, Some s => Some (mkKeyMaterialClientAuth k s suffix)
      | _, _ => None
      end
  | _ => None
  end.

(** ** Reading and writing frames *)

Definition encode_frame (tag : FrameType) (fields : list serde_value) : bytes :=
  frame_type_write_to tag [] ++ postcard_to_vec fields.

Definition write_frame (tag : FrameType) (fields : list serde_value) : proc (result Error unit) :=
  Send (encode_frame tag fields) (fun ok => Ret (if ok then Ok tt else Err Websocket)).

Definition read_frame (expected_types : list FrameType) : proc (result Error (FrameType * bytes)) :=
  Next (fun i => Ret (
    match i with
    | StreamFailure => Err Websocket
    | StreamEnd => Err UnexpectedStreamEnd
    | Message payload =>
        let? (frame_type, payload) := map_err FrameTypeErr (frame_type_from_bytes payload) in
        let? _ := ensure (bool_decide (frame_type ∈ expected_types))
                    (UnexpectedFrameType frame_type expected_types) in
        Ok (frame_type, payload)
    end)).

Definition deserialize_frame {F} (tag : FrameType) (deserialize : bytes -> option F) (frame : bytes)
    : result Error F :=
  ok_or (deserialize frame) (DeserializationError tag).

(** ** Signing and verifying *)

Definition message_to_sign (c : ServerChallenge) : bytes := derive_key DOMAIN_SEP_CHALLENGE (challenge c).

Definition ClientAuth_new (secret_key : SecretKey) (c : ServerChallenge) : ClientAuth :=
  mkClientAuth (public secret_key) (sig_bytes (sign secret_key (message_to_sign c))).

Definition ClientAuth_verify (self : ClientAuth) (c : ServerChallenge) : result VerificationError unit :=
  map_err (fun _ => VSignatureInvalid)
    (verify (public_key self) (message_to_sign c) (mkSignature (signature self))).

(** [ExportKeyingMaterial] of the stream: 32 bytes for a label and a context. *)
Definition Exporter : Type := bytes -> bytes -> option bytes.

(** [split_at(16)] of the 32 bytes. *)
Definition split_key_material (key_material : bytes) : bytes * bytes :=
  (take 16 key_material, drop 16 key_material).

Definition KeyMaterialClientAuth_new (secret_key : SecretKey) (io : Exporter)
    : option KeyMaterialClientAuth :=
  match io DOMAIN_SEP_TLS_EXPORT_LABEL (as_bytes (public secret_key)) with
  | None => None
  | Some key_material =>
      let '(message, suffix) := split_key_material key_material in
      Some (mkKeyMaterialClientAuth (public secret_key) (sig_bytes (sign secret_key message)) suffix)
  end.

Definition into_header_value (self : KeyMaterialClientAuth) : result False HeaderValue :=
  match header_from_str (base64url_encode (postcard_to_vec (KeyMaterialClientAuth_fields self))) with
  | Some h => Ok h
  | None => Panic
  end.

Definition KeyMaterialClientAuth_verify (self : KeyMaterialClientAuth) (io : Exporter)
    : result VerificationError unit :=
  let? key_material :=
    ok_or (io DOMAIN_SEP_TLS_EXPORT_LABEL (as_bytes (km_public_key self))) NoKeyingMaterial in
  let '(message, suffix) := split_key_material key_material in
  let? _ := ensure (bool_decide (suffix = key_material_suffix self))
              (MismatchedSuffix (key_material_suffix self) suffix) in
  map_err (fun _ => VSignatureInvalid)
    (verify (km_public_key self) message (mkSignature (km_signature self))).

(** ** The client's side *)

(** The [match] that ends [clientside]. *)
Definition client_finish (tag : FrameType) (frame : bytes) : result Error unit :=
  match tag with
  | FtServerConfirmsAuth =>
      deserialize_frame FtServerConfirmsAuth ServerConfirmsAuth_deserialize frame
  | FtServerDeniesAuth =>
      let? denial := deserialize_frame FtServerDeniesAuth ServerDeniesAuth_deserialize frame in
      Err (ServerDeniedAuth (reason denial))
  | _ => Panic
  end.

Definition clientside (secret_key : SecretKey) : proc (result Error unit) :=
  await? (tag, frame) :=
    read_frame [FtServerChallenge; FtServerConfirmsAuth; FtServerDeniesAuth] in
  await? (tag, frame) :=
    (if decide (tag = FtServerChallenge) then
       await? c := Ret (deserialize_frame FtServerChallenge ServerChallenge_deserialize frame) in
       let client_info := ClientAuth_new secret_key c in
       await? _ := write_frame FtClientAuth (ClientAuth_fields client_info) in
       read_frame [FtServerConfirmsAuth; FtServerDeniesAuth]
     else Ret (Ok (tag, frame))) in
  Ret (client_finish tag frame).

(** ** The server's side *)

Inductive Mechanism := SignedChallenge | SignedKeyMaterial.

Record SuccessfulAuthentication := mkSuccessfulAuthentication {
  client_key : PublicKey;
  mechanism : Mechanism
}.

(** The first half of [serverside]: the header, if there is one. [Ok None] goes
    on with a challenge. *)
Definition check_header (io : Exporter) (client_auth_header : option HeaderValue)
    : result Error (option SuccessfulAuthentication) :=
  match client_auth_header with
  | None => Ok None
  | Some header =>
      let? client_auth_bytes := ok_or (base64url_decode (header_as_ref header)) (ClientAuthHeaderInvalid header) in
      let? client_auth := ok_or (KeyMaterialClientAuth_deserialize client_auth_bytes) (ClientAuthHeaderInvalid header) in
      match KeyMaterialClientAuth_verify client_auth io with
      | Ok _ => Ok (Some (mkSuccessfulAuthentication (km_public_key client_auth) SignedKeyMaterial))
      | Err _ => Ok None
      | Panic => Panic
      end
  end.

Definition signature_invalid : bytes := String.list_byte_of_string "signature invalid".
Definition not_authorized : bytes := String.list_byte_of_string "not authorized".

(** The server's answer to the signed challenge, which ends [serverside]. *)
Definition server_verdict (c : ServerChallenge) (client_auth : ClientAuth)
    : proc (result Error SuccessfulAuthentication) :=
  match ClientAuth_verify client_auth c with
  | Err _ =>
      let denial := mkServerDeniesAuth signature_invalid in
      await? _ := write_frame FtServerDeniesAuth (ServerDeniesAuth_fields denial) in
      Ret (Err (ServerDeniedAuth (reason denial)))
  | Ok _ => Ret (Ok (mkSuccessfulAuthentication (public_key client_auth) SignedChallenge))
  | Panic => Ret Panic
  end.

(** [random]: the 16 bytes drawn for the challenge. *)
Definition serverside (io : Exporter) (client_auth_header : option HeaderValue) (random : bytes)
    : proc (result Error SuccessfulAuthentication) :=
  await? early := Ret (check_header io client_auth_header) in
  match early with
  | Some auth => Ret (Ok auth)
  | None =>
      let c := mkServerChallenge random in
      await? _ := write_frame FtServerChallenge (ServerChallenge_fields c) in
      await? (_, frame) := read_frame [FtClientAuth] in
      await? client_auth := Ret (deserialize_frame FtClientAuth ClientAuth_deserialize frame) in
      server_verdict c client_auth
  end.

(** ** Authorization *)

Inductive Access := Allow | Deny (reason : option bytes).

Definition accept (self : SuccessfulAuthentication) : proc (result Error PublicKey) :=
  await? _ := write_frame FtServerConfirmsAuth [] in
  Ret (Ok (client_key self)).

Definition deny (reason : option bytes) : proc Error :=
  let reason := default not_authorized reason in
  pbind (write_frame FtServerDeniesAuth (ServerDeniesAuth_fields (mkServerDeniesAuth reason)))
    (fun r => Ret (match r with
                   | Err err => err
                   | _ => ServerDeniedAuth reason
                   end)).

Definition authorize_if (self : SuccessfulAuthentication) (access : Access)
    : proc (result Error PublicKey) :=
  match access with
  | Allow => accept self
  | Deny reason => pbind (deny reason) (fun e => Ret (Err e))
  end.

(** The request's ids, which the guard reports when it is dropped. *)
Record OnDisconnectGuard := mkOnDisconnectGuard {
  guard_endpoint_id : PublicKey;
  guard_connection_id : Z
}.

(** The calls [authorize_with] makes to the access control. *)
Inductive access_call := OnConnect (conn : Z) | OnDisconnect (endpoint_id : PublicKey) (conn : Z).

(** [authorize_with] for the request of a connection, and the access-control
    calls made until it returns: a guard that is not returned is dropped. *)
Definition authorize_with (self : SuccessfulAuthentication) (endpoint_id : PublicKey) (conn : Z)
    (on_connect : Access) : proc (result Error OnDisconnectGuard * list access_call) :=
  match on_connect with
  | Allow =>
      let guard := mkOnDisconnectGuard endpoint_id conn in
      pbind (accept self) (fun r =>
        Ret (match r with
             | Ok _ => (Ok guard, [OnConnect conn])
             | Err e => (Err e, [OnConnect conn; OnDisconnect endpoint_id conn])
             | Panic => (Panic, [OnConnect conn; OnDisconnect endpoint_id conn])
             end))
  | Deny reason => pbind (deny reason) (fun e => Ret (Err e, [OnConnect conn]))
  end.

(** ** Lemmas *)

Section Facts.
Context {NL : NoqProtoLaws N} {EdL : Ed25519Laws Ed} {PL : PostcardLaws P} {HL : HandshakeCryptoLaws H}.

Lemma encode_frame_type tag fields :
  frame_type_from_bytes (encode_frame tag fields) = Ok (tag, postcard_to_vec fields).
Proof. unfold encode_frame, frame_type_write_to. simpl. apply frame_type_roundtrip. Qed.

Lemma decode_fields shapes vs :
  Forall serde_wf vs -> map shape_of vs = shapes -> postcard_from_bytes shapes (postcard_to_vec vs) = Some vs.
Proof. intros Hwf <-. by apply postcard_roundtrip. Qed.

Lemma deserialize_public_key_valid k : valid_key k -> deserialize_public_key (as_bytes k) = Some k.
Proof.
  intros Hk. unfold deserialize_public_key. by rewrite try_from_from_bytes, from_bytes_as_bytes.
Qed.

Lemma deserialize_public_key_Some bs k :
  deserialize_public_key bs = Some k -> as_bytes k = bs /\ valid_key k.
Proof.
  unfold deserialize_public_key. rewrite try_from_from_bytes.
  destruct (PublicKey_from_bytes bs) as [k'| |] eqn:E; [|done|done]. intros [= <-]. by apply from_bytes_ok.
Qed.

Lemma ServerChallenge_deserialize_ok c :
  length (challenge c) = 16%nat ->
  ServerChallenge_deserialize (postcard_to_vec (ServerChallenge_fields c)) = Some c.
Proof.
  intros Hl. unfold ServerChallenge_deserialize. rewrite (decode_fields _ (ServerChallenge_fields c)).
  - by destruct c.
  - by repeat constructor.
  - simpl. by rewrite Hl.
Qed.

Lemma ClientAuth_deserialize_ok c :
  valid_key (public_key c) -> length (signature c) = 64%nat ->
  ClientAuth_deserialize (postcard_to_vec (ClientAuth_fields c)) = Some c.
Proof.
  intros Hk Hl. unfold ClientAuth_deserialize. rewrite (decode_fields _ (ClientAuth_fields c)).
  - simpl. rewrite deserialize_public_key_valid by done. unfold byte_array. rewrite Hl. by destruct c.
  - by repeat constructor.
  - simpl. by rewrite valid_key_length.
Qed.

Lemma ServerDeniesAuth_deserialize_ok d :
  utf8_valid (reason d) = true ->
  ServerDeniesAuth_deserialize (postcard_to_vec (ServerDeniesAuth_fields d)) = Some d.
Proof.
  intros Hu. unfold ServerDeniesAuth_deserialize. rewrite (decode_fields _ (ServerDeniesAuth_fields d)).
  - by destruct d.
  - by repeat constructor.
  - done.
Qed.

Lemma ServerConfirmsAuth_deserialize_ok : ServerConfirmsAuth_deserialize (postcard_to_vec []) = Some tt.
Proof. unfold ServerConfirmsAuth_deserialize. by rewrite (decode_fields [] []). Qed.

Lemma KeyMaterialClientAuth_deserialize_ok c :
  valid_key (km_public_key c) -> length (km_signature c) = 64%nat -> length (key_material_suffix c) = 16%nat ->
  KeyMaterialClientAuth_deserialize (postcard_to_vec (KeyMaterialClientAuth_fields c)) = Some c.
Proof.
  intros Hk Hl Hs. unfold KeyMaterialClientAuth_deserialize.
  rewrite (decode_fields _ (KeyMaterialClientAuth_fields c)).
  - simpl. rewrite deserialize_public_key_valid by done. unfold byte_array. rewrite Hl. by destruct c.
  - by repeat constructor.
  - simpl. by rewrite valid_key_length, Hs.
Qed.

Lemma ClientAuth_verify_own sk c : ClientAuth_verify (ClientAuth_new sk c) c = Ok tt.
Proof.
  unfold ClientAuth_verify. simpl.
  replace (mkSignature (sk_sign (as_signing_key sk) (message_to_sign c))) with (sign sk (message_to_sign c)) by done.
  by rewrite verify_own.
Qed.

Lemma verify_no_panic k m s : valid_key k -> verify k m s <> Panic.
Proof. intros [vk Hk]. unfold verify, as_verifying_key. rewrite Hk. simpl. by destruct (verify_strict _ _ _). Qed.

Lemma verify_Ok k m s :
  verify k m s = Ok tt -> exists vk, vk_from_bytes (as_bytes k) = Some vk /\ verify_strict vk m (sig_bytes s) = true.
Proof.
  unfold verify, as_verifying_key. destruct (vk_from_bytes (as_bytes k)) as [vk|]; simpl; [|done].
  destruct (verify_strict vk m (sig_bytes s)) eqn:E; [|done]. eauto.
Qed.

(** The exporter gives the 32 bytes it is asked for. *)
Definition exporter_ok (io : Exporter) : Prop :=
  forall label context km, io label context = Some km -> length km = 32%nat.

(** The header a client with this key sends, if its stream exports any. *)
Definition client_header (sk : SecretKey) (io : Exporter) (header : option HeaderValue) : Prop :=
  match KeyMaterialClientAuth_new sk io with
  | Some auth => exists h, into_header_value auth = Ok h /\ header = Some h
  | None => header = None
  end.

(** A header of an honest client never fails the handshake: it authenticates the
    client or is passed over. *)
Lemma check_header_own sk io_c io_s header :
  exporter_ok io_c -> client_header sk io_c header ->
  check_header io_s header = Ok None \/
  check_header io_s header = Ok (Some (mkSuccessfulAuthentication (public sk) SignedKeyMaterial)).
Proof.
  intros Hio Hh. unfold client_header, KeyMaterialClientAuth_new in Hh.
  destruct (io_c _ _) as [km|] eqn:Hkm; [|subst; by left]. apply Hio in Hkm.
  destruct Hh as (h & Hh & ->). unfold into_header_value in Hh.
  set (auth := mkKeyMaterialClientAuth _ _ _) in Hh.
  destruct (base64url_header (postcard_to_vec (KeyMaterialClientAuth_fields auth))) as (h' & Hh' & Hr).
  rewrite Hh' in Hh. injection Hh as ->. simpl. rewrite Hr, base64url_roundtrip. simpl.
  rewrite KeyMaterialClientAuth_deserialize_ok.
  - simpl. destruct (KeyMaterialClientAuth_verify auth io_s) as [u|e|] eqn:Hv; [by right|by left|].
    exfalso. unfold KeyMaterialClientAuth_verify in Hv. destruct (io_s _ _) as [b|]; simpl in Hv; [|done].
    unfold ensure in Hv. destruct (bool_decide _); simpl in Hv; [|done].
    pose proof (verify_no_panic (public sk) (take 16 b) (mkSignature (km_signature auth)) (public_valid sk)) as Hn.
    simpl in Hn, Hv. by destruct (verify _ _ _).
  - apply public_valid.
  - apply sign_length.
  - simpl. rewrite length_drop, Hkm. done.
Qed.

(** With the same key material on both ends no challenge is needed. *)
Lemma check_header_same sk io header :
  exporter_ok io -> client_header sk io header -> header <> None ->
  check_header io header = Ok (Some (mkSuccessfulAuthentication (public sk) SignedKeyMaterial)).
Proof.
  intros Hio Hh Hsome. unfold client_header, KeyMaterialClientAuth_new in Hh.
  destruct (io _ _) as [km|] eqn:Hkm; [|done]. pose proof (Hio _ _ _ Hkm) as Hl.
  destruct Hh as (h & Hh & ->). unfold into_header_value in Hh.
  set (auth := mkKeyMaterialClientAuth _ _ _) in Hh.
  destruct (base64url_header (postcard_to_vec (KeyMaterialClientAuth_fields auth))) as (h' & Hh' & Hr).
  rewrite Hh' in Hh. injection Hh as ->. simpl. rewrite Hr, base64url_roundtrip. simpl.
  rewrite KeyMaterialClientAuth_deserialize_ok; simpl;
    [|apply public_valid|apply sign_length|by rewrite length_drop, Hl].
  unfold KeyMaterialClientAuth_verify. change (km_public_key auth) with (public sk). rewrite Hkm.
  simpl. rewrite bool_decide_true by done. simpl.
  replace (mkSignature _) with (sign sk (take 16 km)) by done. by rewrite verify_own.
Qed.

(** The server's side up to the answer to the client. *)
Definition server_session (io : Exporter) (header : option HeaderValue) (random : bytes) (access : Access)
    : proc (result Error (PublicKey * Mechanism)) :=
  await? auth := serverside io header random in
  await? key := authorize_if auth access in
  Ret (Ok (key, mechanism auth)).

(** What the two sides end with. *)
Definition client_outcome (access : Access) : result Error unit :=
  match access with
  | Allow => Ok tt
  | Deny reason => Err (ServerDeniedAuth (default not_authorized reason))
  end.

Definition server_outcome (access : Access) (auth : SuccessfulAuthentication)
    : result Error (PublicKey * Mechanism) :=
  match access with
  | Allow => Ok (client_key auth, mechanism auth)
  | Deny reason => Err (ServerDeniedAuth (default not_authorized reason))
  end.

Definition access_wf (access : Access) : Prop :=
  match access with Deny (Some reason) => utf8_valid reason = true | _ => True end.

Definition read_frame_result (expected_types : list FrameType) (payload : bytes)
    : result Error (FrameType * bytes) :=
  let? (frame_type, payload) := map_err FrameTypeErr (frame_type_from_bytes payload) in
  let? _ := ensure (bool_decide (frame_type ∈ expected_types))
              (UnexpectedFrameType frame_type expected_types) in
  Ok (frame_type, payload).

Lemma read_encoded tag fields expected :
  tag ∈ expected ->
  read_frame_result expected (encode_frame tag fields) = Ok (tag, postcard_to_vec fields).
Proof.
  intros Ht. unfold read_frame_result. rewrite encode_frame_type. simpl. by rewrite bool_decide_true.
Qed.

(** One step of either side. *)
Lemma run_read {A B} n expected tag fields (g : FrameType * bytes -> proc (result Error A)) (q : proc B) to_p to_q :
  tag ∈ expected ->
  run_both (S n) (ptry (read_frame expected) g) q (encode_frame tag fields :: to_p) to_q =
  run_both n (g (tag, postcard_to_vec fields)) q to_p to_q.
Proof.
  intros Ht. simpl. fold (read_frame_result expected (encode_frame tag fields)). by rewrite read_encoded.
Qed.

Lemma run_peer_write {A B} n expected tag fields (f : FrameType * bytes -> proc (result Error A))
    (g : unit -> proc (result Error B)) to_q :
  run_both (S n) (ptry (read_frame expected) f) (ptry (write_frame tag fields) g) [] to_q =
  run_both n (ptry (read_frame expected) f) (g tt) [encode_frame tag fields] to_q.
Proof. done. Qed.

Lemma run_peer_read {A B} n expected' expected tag fields (f : FrameType * bytes -> proc (result Error A))
    (g : FrameType * bytes -> proc (result Error B)) to_q :
  tag ∈ expected ->
  run_both (S n) (ptry (read_frame expected') f) (ptry (read_frame expected) g) []
    (encode_frame tag fields :: to_q) =
  run_both n (ptry (read_frame expected') f) (g (tag, postcard_to_vec fields)) [] to_q.
Proof.
  intros Ht. simpl. fold (read_frame_result expected (encode_frame tag fields)). by rewrite read_encoded.
Qed.

(** The client after the server's challenge. *)
Lemma client_after_challenge {B} n sk c (q : proc B) to_p to_q :
  length (challenge c) = 16%nat ->
  run_both (S (S n)) (clientside sk) q
    (encode_frame FtServerChallenge (ServerChallenge_fields c) :: to_p) to_q =
  run_both n
    (ptry (read_frame [FtServerConfirmsAuth; FtServerDeniesAuth])
       (fun '(tag, frame) => Ret (client_finish tag frame)))
    q to_p (to_q ++ [encode_frame FtClientAuth (ClientAuth_fields (ClientAuth_new sk c))]).
Proof.
  intros Hc. unfold clientside. rewrite run_read by set_solver.
  rewrite decide_True by done. unfold deserialize_frame.
  by rewrite ServerChallenge_deserialize_ok.
Qed.

(** The end of the handshake, wherever the client reads the answer. *)
Lemma run_answer n expected auth access :
  FtServerConfirmsAuth ∈ expected -> FtServerDeniesAuth ∈ expected -> access_wf access ->
  run_both (S (S (S n)))
    (ptry (read_frame expected) (fun '(tag, frame) => Ret (client_finish tag frame)))
    (await? key := authorize_if auth access in Ret (Ok (key, mechanism auth))) [] [] =
  Some (client_outcome access, server_outcome access auth).
Proof.
  intros H1 H2 Hwf. set (p := ptry _ _). destruct access as [|r].
  - transitivity (run_both (S (S n)) p (Ret (Ok (E := Error) (client_key auth, mechanism auth)))
      [encode_frame FtServerConfirmsAuth []] []); [done|].
    unfold p. rewrite run_read by done. simpl. unfold deserialize_frame.
    by rewrite ServerConfirmsAuth_deserialize_ok.
  - set (d := mkServerDeniesAuth (default not_authorized r)).
    transitivity (run_both (S (S n)) p (Ret (Err (A := PublicKey * Mechanism) (ServerDeniedAuth (reason d))))
      [encode_frame FtServerDeniesAuth (ServerDeniesAuth_fields d)] []); [done|].
    unfold p. rewrite run_read by done. simpl. unfold deserialize_frame.
    rewrite ServerDeniesAuth_deserialize_ok; [done|]. by destruct r.
Qed.

(** The client passes over the challenge when the answer comes first. *)
Lemma client_without_challenge {B} n sk tag fields (q : proc B) to_p to_q :
  tag ∈ [FtServerConfirmsAuth; FtServerDeniesAuth] ->
  run_both (S n) (clientside sk) q (encode_frame tag fields :: to_p) to_q =
  run_both n (Ret (client_finish tag (postcard_to_vec fields))) q to_p to_q.
Proof.
  intros Ht. unfold clientside. rewrite run_read by set_solver.
  rewrite decide_False by (intros ->; set_solver). done.
Qed.

Lemma key_material_both sk io header random access auth :
  access_wf access -> check_header io header = Ok (Some auth) ->
  run_both 8 (clientside sk) (server_session io header random access) [] [] =
  Some (client_outcome access, server_outcome access auth).
Proof.
  intros Hwf Hh. unfold server_session, serverside. rewrite Hh. destruct access as [|r].
  - transitivity (run_both 7 (clientside sk) (Ret (Ok (E := Error) (client_key auth, mechanism auth)))
      [encode_frame FtServerConfirmsAuth []] []); [done|].
    rewrite client_without_challenge by set_solver. simpl. unfold deserialize_frame.
    by rewrite ServerConfirmsAuth_deserialize_ok.
  - set (d := mkServerDeniesAuth (default not_authorized r)).
    transitivity (run_both 7 (clientside sk) (Ret (Err (A := PublicKey * Mechanism) (ServerDeniedAuth (reason d))))
      [encode_frame FtServerDeniesAuth (ServerDeniesAuth_fields d)] []); [done|].
    rewrite client_without_challenge by set_solver. simpl. unfold deserialize_frame.
    rewrite ServerDeniesAuth_deserialize_ok; [done|]. by destruct r.
Qed.

Lemma server_reads_auth {A B} n sk c expected (f : FrameType * bytes -> proc (result Error A))
    (g : SuccessfulAuthentication -> proc (result Error B)) :
  run_both (S n) (ptry (read_frame expected) f)
    (ptry (await? (_, frame) := read_frame [FtClientAuth] in
           await? client_auth := Ret (deserialize_frame FtClientAuth ClientAuth_deserialize frame) in
           server_verdict c client_auth) g) []
    [encode_frame FtClientAuth (ClientAuth_fields (ClientAuth_new sk c))] =
  run_both n (ptry (read_frame expected) f)
    (g (mkSuccessfulAuthentication (public sk) SignedChallenge)) [] [].
Proof.
  simpl. fold (read_frame_result [FtClientAuth] (encode_frame FtClientAuth (ClientAuth_fields (ClientAuth_new sk c)))).
  rewrite read_encoded by set_solver. cbn [ptry pbind]. unfold deserialize_frame.
  rewrite ClientAuth_deserialize_ok by (apply public_valid || apply sign_length).
  simpl. unfold server_verdict. by rewrite ClientAuth_verify_own.
Qed.

Lemma challenge_both sk io header random access :
  length random = 16%nat -> access_wf access -> check_header io header = Ok None ->
  run_both 8 (clientside sk) (server_session io header random access) [] [] =
  Some (client_outcome access,
        server_outcome access (mkSuccessfulAuthentication (public sk) SignedChallenge)).
Proof.
  intros Hr Hwf Hh. set (c := mkServerChallenge random).
  unfold server_session, serverside. rewrite Hh.
  transitivity (run_both 7 (clientside sk)
    (ptry (await? (_, frame) := read_frame [FtClientAuth] in
           await? client_auth := Ret (deserialize_frame FtClientAuth ClientAuth_deserialize frame) in
           server_verdict c client_auth)
       (fun auth => await? key := authorize_if auth access in Ret (Ok (key, mechanism auth))))
    [encode_frame FtServerChallenge (ServerChallenge_fields c)] []); [done|].
  rewrite client_after_challenge by done. simpl app. rewrite server_reads_auth.
  by rewrite run_answer by (done || set_solver).
Qed.

(** ** Any peer *)

Lemma ServerChallenge_deserialize_len bs c :
  ServerChallenge_deserialize bs = Some c -> length (challenge c) = 16%nat.
Proof.
  unfold ServerChallenge_deserialize. destruct (postcard_from_bytes _ _) as [vs|] eqn:E; [|done].
  apply postcard_shape in E. destruct vs as [|[bs'| |] [|]]; try done. intros [= <-]. by injection E.
Qed.

Lemma ClientAuth_deserialize_valid bs c : ClientAuth_deserialize bs = Some c -> valid_key (public_key c).
Proof.
  unfold ClientAuth_deserialize. destruct (postcard_from_bytes _ _) as [vs|]; [|done].
  destruct vs as [|[k| |] [|[|sg|] [|]]]; try done.
  destruct (deserialize_public_key k) as [k'|] eqn:E; [|done]. destruct (byte_array 64 sg); [|done].
  intros [= <-]. by apply deserialize_public_key_Some in E as [_ ?].
Qed.

Lemma KeyMaterialClientAuth_deserialize_valid bs c :
  KeyMaterialClientAuth_deserialize bs = Some c -> valid_key (km_public_key c).
Proof.
  unfold KeyMaterialClientAuth_deserialize. destruct (postcard_from_bytes _ _) as [vs|]; [|done].
  destruct vs as [|[k| |] [|[|sg|] [|[suf| |] [|]]]]; try done.
  destruct (deserialize_public_key k) as [k'|] eqn:E; [|done]. destruct (byte_array 64 sg); [|done].
  intros [= <-]. by apply deserialize_public_key_Some in E as [_ ?].
Qed.

(** A message that is a ClientAuth frame. *)
Definition carries_auth (m : bytes) (c : ClientAuth) : Prop :=
  exists payload, frame_type_from_bytes m = Ok (FtClientAuth, payload) /\ ClientAuth_deserialize payload = Some c.

(** What a server has seen when it takes [auth] for authentic: a signature that
    the client's key verifies, of the server's challenge or of the key material
    the TLS session exports for that key. *)
Definition authentic (io : Exporter) (header : option HeaderValue) (random : bytes)
    (answers : list answer) (auth : SuccessfulAuthentication) : Prop :=
  exists vk, vk_from_bytes (as_bytes (client_key auth)) = Some vk /\
  match mechanism auth with
  | SignedChallenge =>
      exists m c, In (Got (Message m)) answers /\ carries_auth m c /\ public_key c = client_key auth /\
        verify_strict vk (derive_key DOMAIN_SEP_CHALLENGE random) (signature c) = true
  | SignedKeyMaterial =>
      exists h c bs km, header = Some h /\ base64url_decode (header_as_ref h) = Some bs /\
        KeyMaterialClientAuth_deserialize bs = Some c /\ km_public_key c = client_key auth /\
        io DOMAIN_SEP_TLS_EXPORT_LABEL (as_bytes (client_key auth)) = Some km /\
        drop 16 km = key_material_suffix c /\ verify_strict vk (take 16 km) (km_signature c) = true
  end.

Lemma check_header_sound io header random answers auth :
  check_header io header = Ok (Some auth) -> authentic io header random answers auth.
Proof.
  unfold check_header. destruct header as [h|]; [|done].
  destruct (base64url_decode (header_as_ref h)) as [bs|] eqn:Hb; simpl; [|done].
  destruct (KeyMaterialClientAuth_deserialize bs) as [c|] eqn:Hc; simpl; [|done].
  destruct (KeyMaterialClientAuth_verify c io) as [[]|e|] eqn:Hv; intros [= <-].
  unfold KeyMaterialClientAuth_verify in Hv. destruct (io _ _) as [km|] eqn:Hkm; simpl in Hv; [|done].
  unfold ensure in Hv. case_bool_decide as Hsuf; simpl in Hv; [|done].
  destruct (verify _ _ _) as [[]|e|] eqn:Hver; try done. apply verify_Ok in Hver as (vk & Hvk & Hs).
  exists vk. split; [done|]. simpl. exists h, c, bs, km. done.
Qed.

Lemma check_header_no_panic io header : check_header io header <> Panic.
Proof.
  unfold check_header. destruct header as [h|]; [|done].
  destruct (base64url_decode (header_as_ref h)) as [bs|]; simpl; [|done].
  destruct (KeyMaterialClientAuth_deserialize bs) as [c|] eqn:Hc; simpl; [|done].
  apply KeyMaterialClientAuth_deserialize_valid in Hc. unfold KeyMaterialClientAuth_verify.
  destruct (io _ _) as [km|]; simpl; [|done]. unfold ensure. case_bool_decide; simpl; [|done].
  pose proof (verify_no_panic _ (take 16 km) (mkSignature (km_signature c)) Hc).
  by destruct (verify _ _ _).
Qed.

Lemma read_frame_result_Ok expected m tag payload :
  read_frame_result expected m = Ok (tag, payload) ->
  frame_type_from_bytes m = Ok (tag, payload) /\ tag ∈ expected.
Proof.
  unfold read_frame_result. destruct (frame_type_from_bytes m) as [[t p]|e|]; simpl; try done.
  unfold ensure. case_bool_decide; simpl; [|done]. by intros [= -> ->].
Qed.

Lemma read_frame_result_no_panic expected m : read_frame_result expected m <> Panic.
Proof.
  unfold read_frame_result. pose proof (frame_type_from_bytes_no_panic m).
  destruct (frame_type_from_bytes m) as [[t p]|e|]; simpl; try done.
  unfold ensure. by case_bool_decide.
Qed.

Lemma drive_server io header random answers r out :
  drive (serverside io header random) answers = (Some r, out) ->
  match r with
  | Ok auth => authentic io header random answers auth
  | Err _ => True
  | Panic => False
  end.
Proof.
  unfold serverside. pose proof (check_header_no_panic io header) as Hnp.
  destruct (check_header io header) as [[auth|]|e|] eqn:Hh; simpl; [|..|done].
  - destruct answers; intros [= <- <-]; by apply check_header_sound.
  - destruct answers as [|[ok|i] answers]; try done. destruct ok; simpl.
    2: { destruct answers; by intros [= <- <-]. }
    destruct answers as [|[ok|i] answers]; try done.
    destruct i as [m| |]; simpl.
    2,3: destruct answers; by intros [= <- <-].
    fold (read_frame_result [FtClientAuth] m).
    pose proof (read_frame_result_no_panic [FtClientAuth] m) as Hnr.
    destruct (read_frame_result [FtClientAuth] m) as [[tag payload]|e|] eqn:Hr; simpl; [|..|done].
    2: { destruct answers; by intros [= <- <-]. }
    apply read_frame_result_Ok in Hr as [Hm Ht]. apply list_elem_of_singleton in Ht as ->.
    unfold deserialize_frame. destruct (ClientAuth_deserialize payload) as [c|] eqn:Hc; simpl.
    2: { destruct answers; by intros [= <- <-]. }
    intros Hd. cbn [ptry pbind] in Hd. unfold server_verdict, ClientAuth_verify in Hd.
    pose proof (verify_no_panic (public_key c) (message_to_sign (mkServerChallenge random))
      (mkSignature (signature c)) (ClientAuth_deserialize_valid _ _ Hc)) as Hnv.
    destruct (verify _ _ _) as [[]|e|] eqn:Hv; simpl in Hd; [| |done].
    + simpl in Hd; injection Hd as <- <-;
        apply verify_Ok in Hv as (vk & Hvk & Hs); exists vk; (split; [done|]); simpl;
        exists m, c; (split; [by right; left|]); (split; [by exists payload|]); done.
    + destruct answers as [|[ok|i] answers]; try done. destruct ok; simpl in Hd;
        simpl in Hd; injection Hd as <- <-; done.
  - destruct answers; by intros [= <- <-].
Qed.

(** The client sends nothing, or one signed challenge. *)
Definition client_output (sk : SecretKey) (out : list bytes) : Prop :=
  out = [] \/
  exists c, length (challenge c) = 16%nat /\
    out = [encode_frame FtClientAuth (ClientAuth_fields (ClientAuth_new sk c))].

Lemma client_finish_no_panic tag payload :
  tag ∈ [FtServerConfirmsAuth; FtServerDeniesAuth] -> client_finish tag payload <> Panic.
Proof.
  rewrite elem_of_cons, list_elem_of_singleton. intros [-> | ->]; simpl; unfold deserialize_frame, ok_or.
  - by destruct (ServerConfirmsAuth_deserialize payload).
  - by destruct (ServerDeniesAuth_deserialize payload).
Qed.

Lemma drive_answer answers r out :
  drive (ptry (read_frame [FtServerConfirmsAuth; FtServerDeniesAuth])
           (fun '(tag, frame) => Ret (client_finish tag frame))) answers = (r, out) ->
  r <> Some Panic /\ out = [].
Proof.
  destruct answers as [|[ok|i] answers]; simpl; try (by intros [= <- <-]).
  destruct i as [m| |]; simpl; try (by intros [= <- <-]).
  fold (read_frame_result [FtServerConfirmsAuth; FtServerDeniesAuth] m).
  pose proof (read_frame_result_no_panic [FtServerConfirmsAuth; FtServerDeniesAuth] m) as Hn.
  destruct (read_frame_result _ m) as [[tag payload]|e|] eqn:Hr; simpl; [| |done]; intros [= <- <-]; [|done].
  apply read_frame_result_Ok in Hr as [_ Ht]. split; [|done].
  pose proof (client_finish_no_panic tag payload Ht). congruence.
Qed.

Lemma drive_client sk answers r out :
  drive (clientside sk) answers = (r, out) -> r <> Some Panic /\ client_output sk out.
Proof.
  unfold client_output. destruct answers as [|[ok|i] answers]; simpl.
  1,2: intros [= <- <-]; split; [done|by left].
  destruct i as [m| |]; simpl.
  2,3: intros [= <- <-]; split; [done|by left].
  fold (read_frame_result [FtServerChallenge; FtServerConfirmsAuth; FtServerDeniesAuth] m).
  pose proof (read_frame_result_no_panic [FtServerChallenge; FtServerConfirmsAuth; FtServerDeniesAuth] m) as Hn.
  destruct (read_frame_result _ m) as [[tag payload]|e|] eqn:Hr; cbn [pbind drive]; [| |done].
  2: intros [= <- <-]; split; [done|by left].
  apply read_frame_result_Ok in Hr as [_ Ht].
  destruct (decide (tag = FtServerChallenge)) as [->|Hne].
  - unfold deserialize_frame.
    destruct (ServerChallenge_deserialize payload) as [c|] eqn:Hc; cbn [ok_or ptry pbind drive].
    2: intros [= <- <-]; split; [done|by left].
    apply ServerChallenge_deserialize_len in Hc. unfold write_frame. cbn [ptry pbind drive].
    destruct answers as [|[[]|i] answers]; try (intros [= <- <-]; split; [done|by left]).
    + destruct (drive _ answers) as [r' out'] eqn:Hd. intros [= <- <-].
      apply drive_answer in Hd as [Hd ->]. split; [done|right; eauto].
    + simpl. intros [= <- <-]. split; [done|right; eauto].
  - intros [= <- <-]. split; [|by left].
    assert (Ht' : tag ∈ [FtServerConfirmsAuth; FtServerDeniesAuth]) by set_solver.
    pose proof (client_finish_no_panic tag payload Ht'). congruence.
Qed.

(** ** Properties *)

(** Between an honest client and an honest relay the handshake completes:
    the relay learns the client's key and the client learns the decision of the
    access control, reason included. A client that sent an authentication header
    is authenticated by it, without a challenge, whenever both ends export the
    same key material; otherwise a challenge is signed. *)
Theorem handshake_completes sk io_c io_s header random access :
  length random = 16%nat -> access_wf access -> exporter_ok io_c -> client_header sk io_c header ->
  exists mech,
    run_both 8 (clientside sk) (server_session io_s header random access) [] [] =
      Some (client_outcome access, server_outcome access (mkSuccessfulAuthentication (public sk) mech)) /\
    (header = None -> mech = SignedChallenge) /\
    (header <> None -> io_s = io_c -> mech = SignedKeyMaterial).
Proof.
  intros Hr Hwf Hio Hh. destruct (check_header_own sk io_c io_s header Hio Hh) as [Hc|Hc].
  - exists SignedChallenge. split; [by apply challenge_both|]. split; [done|].
    intros Hn ->. rewrite (check_header_same sk io_c header Hio Hh Hn) in Hc. done.
  - exists SignedKeyMaterial. split; [by apply key_material_both|]. split; [|done].
    intros ->. done.
Qed.

(** Whatever a peer and the network do, the relay takes a connection for
    authentic only with a signature that verifies under the very key it then
    attributes to the client: of this connection's challenge, received in a
    ClientAuth frame, or of key material exported for that key from this
    connection's TLS session, received in the header. *)
Theorem serverside_authenticates io header random answers auth out :
  drive (serverside io header random) answers = (Some (Ok auth), out) ->
  authentic io header random answers auth.
Proof. apply (drive_server io header random answers (Ok auth) out). Qed.

(** The client's key signs nothing the relay chooses: whatever the relay
    sends, the client sends at most one frame, and the signature in it is of a
    key derived from a 16-byte challenge under the domain separation string. *)
Theorem clientside_signs_only_challenges sk answers r out :
  drive (clientside sk) answers = (r, out) ->
  out = [] \/
  exists c, length c = 16%nat /\
    out = [encode_frame FtClientAuth
             (ClientAuth_fields (mkClientAuth (public sk)
                (sig_bytes (sign sk (derive_key DOMAIN_SEP_CHALLENGE c)))))].
Proof.
  intros Hd. apply drive_client in Hd as [_ [->|([c] & Hl & ->)]]; [by left|right; by exists c].
Qed.

(** No input makes either side of the handshake panic. *)
Theorem handshake_never_panics sk io header random answers :
  (drive (clientside sk) answers).1 <> Some Panic /\
  (drive (serverside io header random) answers).1 <> Some Panic.
Proof.
  split.
  - destruct (drive (clientside sk) answers) as [r out] eqn:Hd. by apply drive_client in Hd as [? _].
  - destruct (drive (serverside io header random) answers) as [[r|] out] eqn:Hd; [|done].
    apply drive_server in Hd. by destruct r.
Qed.

End Facts.
End Handshake.
End Handshake.

(** ** Witnesses *)

Section Witnesses.
Import Handshake.

#[local] Existing Instance noq_proto.
#[local] Existing Instance noq_proto_laws.
#[local] Existing Instance checksum_keys.
#[local] Existing Instance checksum_keys_laws.
#[local] Existing Instance unary_postcard.
#[local] Existing Instance unary_postcard_laws.
#[local] Existing Instance padded_crypto.
#[local] Existing Instance padded_crypto_laws.

Definition secret : SecretKey := mkSecretKey (key32_of (replicate 32 Byte.x07)).
Definition dice : bytes := replicate 16 Byte.x05.
Definition no_export : Exporter := fun _ _ => None.

Lemma handshake_completes_witness :
  exists mech,
    run_both 8 (clientside secret) (server_session no_export None dice Allow) [] [] =
      Some (Ok tt, Ok (public secret, mech)) /\ mech = SignedChallenge.
Proof.
  destruct (handshake_completes secret no_export no_export None dice Allow) as (mech & Hrun & Hm & _).
  - reflexivity.
  - exact I.
  - discriminate.
  - reflexivity.
  - exists mech. split; [exact Hrun|exact (Hm eq_refl)].
Defined.

Definition signed_dice : bytes :=
  encode_frame FtClientAuth (ClientAuth_fields (ClientAuth_new secret (mkServerChallenge dice))).

Lemma serverside_authenticates_witness :
  authentic no_export None dice [Sent true; Got (Message signed_dice)]
    (mkSuccessfulAuthentication (public secret) SignedChallenge).
Proof.
  apply (serverside_authenticates no_export None dice [Sent true; Got (Message signed_dice)]
    (mkSuccessfulAuthentication (public secret) SignedChallenge)
    [encode_frame FtServerChallenge (ServerChallenge_fields (mkServerChallenge dice))]).
  vm_cast_no_check (@eq_refl (option (result Error SuccessfulAuthentication) * list bytes)
    (Some (Ok (mkSuccessfulAuthentication (public secret) SignedChallenge)),
     [encode_frame FtServerChallenge (ServerChallenge_fields (mkServerChallenge dice))])).
Defined.

Lemma clientside_signs_only_challenges_witness :
  let out := (drive (clientside secret) [Got StreamEnd]).2 in
  out = [] \/
  exists c, length c = 16%nat /\
    out = [encode_frame FtClientAuth
             (ClientAuth_fields (mkClientAuth (public secret)
                (sig_bytes (sign secret (derive_key DOMAIN_SEP_CHALLENGE c)))))].
Proof.
  apply (clientside_signs_only_challenges secret [Got StreamEnd]
    (Some (Err UnexpectedStreamEnd)) []).
  reflexivity.
Defined.

Lemma handshake_never_panics_witness :
  (drive (clientside secret) [Got (Message signed_dice)]).1 <> Some Panic /\
  (drive (serverside no_export None dice) [Sent true; Got (Message [])]).1 <> Some Panic.
Proof.
  split.
  - apply (handshake_never_panics secret no_export None dice [Got (Message signed_dice)]).
  - apply (handshake_never_panics secret no_export None dice [Sent true; Got (Message [])]).
Defined.

End Witnesses.
