(* ===== verification/Addrs.v ===== *)
(** * Addresses

    [iroh-base/src/endpoint_addr.rs]: endpoint addresses, and custom transport
    addresses with their binary and text forms. An IPv6 address is its 16
    octets; a relay URL is its text. *)

From S2P Require Import Prelude External Instances Keys.

Module Addrs.

(** ** Socket addresses *)

Inductive IpAddr := V4 (octets : bytes) | V6 (octets : bytes).

Inductive SocketAddr :=
| SocketV4 (ip : bytes) (port : Z)
| SocketV6 (ip : bytes) (port flowinfo scope_id : Z).

#[export] Instance IpAddr_eq_dec : EqDecision IpAddr.
Proof. solve_decision. Defined.
#[export] Instance SocketAddr_eq_dec : EqDecision SocketAddr.
Proof. solve_decision. Defined.

#[export] Instance SocketAddr_countable : Countable SocketAddr.
Proof.
  refine (inj_countable'
    (fun a => match a with
              | SocketV4 ip p => inl (ip, p)
              | SocketV6 ip p f s => inr (ip, p, f, s)
              end)
    (fun x => match x with
              | inl (ip, p) => SocketV4 ip p
              | inr (ip, p, f, s) => SocketV6 ip p f s
              end) _).
  by intros [].
Defined.

(** [SocketAddr::new] and [SocketAddr::ip]. *)
Definition socket_addr_new (ip : IpAddr) (port : Z) : SocketAddr :=
  match ip with
  | V4 ip => SocketV4 ip port
  | V6 ip => SocketV6 ip port 0 0
  end.

Definition socket_ip (a : SocketAddr) : IpAddr :=
  match a with
  | SocketV4 ip _ => V4 ip
  | SocketV6 ip _ _ _ => V6 ip
  end.

Definition socket_port (a : SocketAddr) : Z :=
  match a with
  | SocketV4 _ port => port
  | SocketV6 _ port _ _ => port
  end.

(** [Ipv6Addr::to_canonical]: an IPv4-mapped address becomes the IPv4 one. *)
Definition v4_mapped_prefix : bytes := replicate 10 Byte.x00 ++ [Byte.xff; Byte.xff].

Definition to_canonical (ip : bytes) : IpAddr :=
  if bool_decide (take 12 ip = v4_mapped_prefix) then V4 (drop 12 ip) else V6 ip.

Abbreviation RelayUrl := string.

(** ** Custom transport addresses *)

Inductive CustomAddrBytes :=
| Inline (size : Z) (data : bytes)          (* u8 and [u8; 30] *)
| Heap (data : bytes).

#[export] Instance CustomAddrBytes_eq_dec : EqDecision CustomAddrBytes.
Proof. solve_decision. Defined.

Record CustomAddr := mkCustomAddr {
  id : Z;                                    (* u64 *)
  data : CustomAddrBytes
}.

#[export] Instance CustomAddr_eq_dec : EqDecision CustomAddr.
Proof. solve_decision. Defined.

#[export] Instance CustomAddrBytes_countable : Countable CustomAddrBytes.
Proof.
  refine (inj_countable'
    (fun a => match a with Inline s d => inl (s, d) | Heap d => inr d end)
    (fun x => match x with inl (s, d) => Inline s d | inr d => Heap d end) _).
  by intros [].
Defined.

#[export] Instance CustomAddr_countable : Countable CustomAddr.
Proof.
  refine (inj_countable' (fun a => (id a, data a)) (fun x => mkCustomAddr x.1 x.2) _).
  by intros [].
Defined.

Definition CustomAddrBytes_len (b : CustomAddrBytes) : Z :=
  match b with
  | Inline size _ => size
  | Heap data => blen data
  end.

(** [&data[..size]] panics past the array's end. *)
Definition CustomAddrBytes_as_bytes {E} (b : CustomAddrBytes) : result E bytes :=
  match b with
  | Inline size data => if size <=? blen data then Ok (take (Z.to_nat size) data) else Panic
  | Heap data => Ok data
  end.

Definition copy_from_slice (data : bytes) : CustomAddrBytes :=
  if blen data <=? 30 then
    Inline (blen data) (data ++ replicate (30 - length data) Byte.x00)
  else Heap data.

Definition from_parts (id : Z) (data : bytes) : CustomAddr := mkCustomAddr id (copy_from_slice data).

(** [u64::to_le_bytes] and [u64::from_le_bytes]. *)
Definition le_bytes (n : nat) (z : Z) : bytes := rev (be_bytes n z).
Definition from_le_bytes (bs : bytes) : Z := from_be_bytes (rev bs).

(** [to_vec]: 8 bytes of the id, little endian, and the data. *)
Definition to_vec {E} (a : CustomAddr) : result E bytes :=
  let? d := CustomAddrBytes_as_bytes (data a) in
  Ok (le_bytes 8 (id a) ++ d).

Definition from_bytes (bs : bytes) : result string CustomAddr :=
  if blen bs <? 8 then Err "data too short"%string
  else Ok (from_parts (from_le_bytes (take 8 bs)) (drop 8 bs)).

Section CustomText.
Context {De : DataEncoding}.

(** [{:x}] of a [u64]: at most sixteen digits. *)
Fixpoint hex_digits (fuel : nat) (n : Z) (acc : string) : string :=
  match fuel with
  | O => acc
  | S fuel =>
      let acc := String (hex_digit (n mod 16)) acc in
      if n / 16 =? 0 then acc else hex_digits fuel (n / 16) acc
  end.

Definition lower_hex (n : Z) : string := hex_digits 16 n EmptyString.

(** A digit of [u64::from_str_radix(_, 16)]: either case. *)
Definition radix16_value (c : Ascii.ascii) : option Z :=
  let n := Z.of_N (Ascii.N_of_ascii c) in
  if (48 <=? n) && (n <=? 57) then Some (n - 48)
  else if (97 <=? n) && (n <=? 102) then Some (n - 87)
  else if (65 <=? n) && (n <=? 70) then Some (n - 55)
  else None.

Fixpoint radix16_digits (s : string) (acc : Z) : option Z :=
  match s with
  | EmptyString => Some acc
  | String c s =>
      match radix16_value c with
      | Some d => let acc := acc * 16 + d in if acc <=? u64_max then radix16_digits s acc else None
      | None => None
      end
  end.

Definition plus_sign : Ascii.ascii := Ascii.ascii_of_nat 43.
Definition underscore : Ascii.ascii := Ascii.ascii_of_nat 95.

(** [u64::from_str_radix(s, 16)]: an optional plus sign, then digits. *)
Definition u64_from_hex (s : string) : option Z :=
  match s with
  | EmptyString => None
  | String c rest =>
      if Ascii.eqb c plus_sign then
        match rest with EmptyString => None | _ => radix16_digits rest 0 end
      else radix16_digits s 0
  end.

(** [split_once('_')]. *)
Fixpoint split_underscore (s : string) : option (string * string) :=
  match s with
  | EmptyString => None
  | String c s =>
      if Ascii.eqb c underscore then Some (EmptyString, s)
      else option_map (fun '(a, b) => (String c a, b)) (split_underscore s)
  end.

Inductive CustomAddrParseError := MissingSeparator | InvalidId | InvalidData.

Definition CustomAddr_to_string {E} (a : CustomAddr) : result E string :=
  let? d := CustomAddrBytes_as_bytes (data a) in
  Ok (lower_hex (id a) ++ String underscore (hexlower_encode d))%string.

Definition CustomAddr_from_str (s : string) : result CustomAddrParseError CustomAddr :=
  let? (id_str, data_str) := ok_or (split_underscore s) MissingSeparator in
  let? id := ok_or (u64_from_hex id_str) InvalidId in
  let? data := ok_or (hexlower_decode data_str) InvalidData in
  Ok (from_parts id data).

End CustomText.

(** *** Round trips of the two forms *)

Lemma copy_from_slice_as_bytes {E} (d : bytes) : CustomAddrBytes_as_bytes (E := E) (copy_from_slice d) = Ok d.
Proof.
  unfold copy_from_slice. destruct (blen d <=? 30); [|done]. simpl.
  assert (blen d <= blen (d ++ replicate (30 - length d) Byte.x00)) by (unfold blen; rewrite length_app; lia).
  destruct (Z.leb_spec (blen d) (blen (d ++ replicate (30 - length d) Byte.x00))); [|lia].
  unfold blen. by rewrite Nat2Z.id, take_app_length.
Qed.

Lemma custom_addr_bytes_roundtrip n d :
  0 <= n < 2 ^ 64 ->
  exists bs, to_vec (E := string) (from_parts n d) = Ok bs /\ from_bytes bs = Ok (from_parts n d).
Proof.
  intros Hn. unfold to_vec. simpl. rewrite copy_from_slice_as_bytes. eexists. split; [done|].
  assert (Hl : length (le_bytes 8 n) = 8%nat) by (unfold le_bytes; by rewrite length_rev, length_be_bytes).
  unfold from_bytes. destruct (Z.ltb_spec (blen (le_bytes 8 n ++ d)) 8) as [H|_].
  { unfold blen in H. rewrite length_app, Hl in H. lia. }
  rewrite (take_app_length' _ _ 8), (drop_app_length' _ _ 8) by done.
  unfold from_le_bytes, le_bytes. by rewrite rev_involutive, from_be_bytes_be_bytes.
Qed.

Lemma radix16_hex_digit n : 0 <= n < 16 -> radix16_value (hex_digit n) = Some n.
Proof.
  intros H. assert (n = Z.of_nat (Z.to_nat n)) as -> by lia.
  assert (Hn : (Z.to_nat n < 16)%nat) by lia. revert Hn. generalize (Z.to_nat n) as k.
  intros k Hk. do 16 (destruct k as [|k]; [reflexivity|]). lia.
Qed.

(** The characters a printed digit cannot be. *)
Lemma hex_digit_ne n c : 0 <= n < 16 -> radix16_value c = None -> Ascii.eqb (hex_digit n) c = false.
Proof.
  intros Hn Hc. apply Ascii.eqb_neq. intros Heq. rewrite <- Heq, radix16_hex_digit in Hc by done. done.
Qed.

Lemma radix16_digits_hex fuel n s :
  0 <= n < 16 ^ Z.of_nat fuel -> n <= u64_max -> (0 < fuel)%nat ->
  radix16_digits (hex_digits fuel n s) 0 = radix16_digits s n.
Proof.
  revert n s. induction fuel as [|fuel IH]; intros n s Hn Hm Hf; [lia|]. cbn [hex_digits].
  pose proof (Z.div_mod n 16 ltac:(lia)) as Hdm. pose proof (Z.mod_pos_bound n 16 ltac:(lia)) as Hmod.
  assert (Hlast : forall m, m * 16 + n mod 16 = n ->
    radix16_digits (String (hex_digit (n mod 16)) s) m = radix16_digits s n).
  { intros m Heq. cbn [radix16_digits]. rewrite radix16_hex_digit, Heq by done.
    by destruct (Z.leb_spec n u64_max); [|lia]. }
  destruct (Z.eqb_spec (n / 16) 0) as [Hz|Hz]; [apply Hlast; lia|].
  assert (0 < n / 16) by (pose proof (Z.div_pos n 16); lia).
  rewrite Nat2Z.inj_succ, Z.pow_succ_r in Hn by lia.
  rewrite IH; [apply Hlast; lia| |nia|].
  - split; [lia|]. apply Z.div_lt_upper_bound; lia.
  - destruct fuel; [|lia]. simpl in Hn. lia.
Qed.

Lemma hex_digits_head fuel n s : (0 < fuel)%nat ->
  exists d rest, 0 <= d < 16 /\ hex_digits fuel n s = String (hex_digit d) rest.
Proof.
  revert n s. induction fuel as [|fuel IH]; intros n s Hf; [lia|]. cbn [hex_digits].
  pose proof (Z.mod_pos_bound n 16 ltac:(lia)). destruct (n / 16 =? 0); [eauto|].
  destruct fuel; [simpl; eauto|]. apply IH. lia.
Qed.

Lemma split_underscore_hex fuel n s t a b :
  split_underscore (s ++ t) = Some (a, b) ->
  exists pre, split_underscore (hex_digits fuel n s ++ t) = Some (pre, b) /\ (a = s -> pre = hex_digits fuel n s).
Proof.
  revert n s a. induction fuel as [|fuel IH]; intros n s a Hs; [simpl; eauto|]. cbn [hex_digits].
  pose proof (Z.mod_pos_bound n 16 ltac:(lia)).
  assert (Hd : split_underscore (String (hex_digit (n mod 16)) s ++ t) = Some (String (hex_digit (n mod 16)) a, b)).
  { change (split_underscore (String ?c s ++ t)) with (split_underscore (String c (s ++ t))). cbn [split_underscore]. rewrite hex_digit_ne by done. by rewrite Hs. }
  destruct (n / 16 =? 0).
  - eexists. split; [exact Hd|]. by intros ->.
  - destruct (IH (n / 16) _ _ Hd) as (pre & -> & Hpre). eexists. split; [done|]. intros ->. by apply Hpre.
Qed.

Lemma custom_addr_text_roundtrip {De : DataEncoding} {Dl : DataEncodingLaws De} n d :
  0 <= n < 2 ^ 64 ->
  exists s, CustomAddr_to_string (E := string) (from_parts n d) = Ok s /\
    CustomAddr_from_str s = Ok (from_parts n d).
Proof.
  intros Hn. unfold CustomAddr_to_string. simpl. rewrite copy_from_slice_as_bytes. eexists. split; [done|].
  unfold CustomAddr_from_str, lower_hex.
  destruct (split_underscore_hex 16 n EmptyString (String underscore (hexlower_encode d)) EmptyString (hexlower_encode d))
    as (pre & -> & Hpre); [reflexivity|]. rewrite (Hpre eq_refl).
  assert (Hid : u64_from_hex (hex_digits 16 n EmptyString) = Some n).
  { destruct (hex_digits_head 16 n EmptyString) as (c & rest & Hc & Heq); [lia|].
    unfold u64_from_hex. rewrite Heq. cbv iota. rewrite hex_digit_ne by done. rewrite <- Heq.
    rewrite radix16_digits_hex; [done|..]; change (16 ^ Z.of_nat 16) with (2 ^ 64); unfold u64_max; lia. }
  cbn [ok_or rbind]. rewrite Hid. cbn [ok_or rbind]. by rewrite hexlower_roundtrip.
Qed.

(** ** Endpoint addresses *)

Inductive TransportAddr :=
| TransportRelay (url : RelayUrl)
| TransportIp (addr : SocketAddr)
| TransportCustom (addr : CustomAddr).

#[export] Instance TransportAddr_eq_dec : EqDecision TransportAddr.
Proof. solve_decision. Defined.

#[export] Instance TransportAddr_countable : Countable TransportAddr.
Proof.
  refine (inj_countable'
    (fun a => match a with TransportRelay u => inl u | TransportIp a => inr (inl a) | TransportCustom a => inr (inr a) end)
    (fun x => match x with inl u => TransportRelay u | inr (inl a) => TransportIp a | inr (inr a) => TransportCustom a end) _).
  by intros [].
Defined.

Definition is_relay (a : TransportAddr) : bool := if a is TransportRelay _ then true else false.
Definition is_ip (a : TransportAddr) : bool := if a is TransportIp _ then true else false.
Definition is_custom (a : TransportAddr) : bool := if a is TransportCustom _ then true else false.

(** [addrs] is a [BTreeSet]. *)
Record EndpointAddr := mkEndpointAddr {
  endpoint_id : EndpointId;
  addrs : gset TransportAddr
}.

Definition EndpointAddr_new (id : PublicKey) : EndpointAddr := mkEndpointAddr id ∅.
Definition EndpointAddr_from_parts (id : PublicKey) (l : list TransportAddr) : EndpointAddr :=
  mkEndpointAddr id (list_to_set l).
Definition with_relay_url (a : EndpointAddr) (url : RelayUrl) : EndpointAddr :=
  mkEndpointAddr (endpoint_id a) ({[TransportRelay url]} ∪ addrs a).
Definition with_ip_addr (a : EndpointAddr) (ip : SocketAddr) : EndpointAddr :=
  mkEndpointAddr (endpoint_id a) ({[TransportIp ip]} ∪ addrs a).
Definition with_addrs (a : EndpointAddr) (l : list TransportAddr) : EndpointAddr :=
  mkEndpointAddr (endpoint_id a) (fold_left (fun s x => {[x]} ∪ s) l (addrs a)).
Definition is_empty (a : EndpointAddr) : bool := bool_decide (addrs a = ∅).
Definition ip_addrs (a : EndpointAddr) : list SocketAddr :=
  omap (fun x => if x is TransportIp ip then Some ip else None) (elements (addrs a)).
Definition relay_urls (a : EndpointAddr) : list RelayUrl :=
  omap (fun x => if x is TransportRelay u then Some u else None) (elements (addrs a)).

End Addrs.
