(* ===== verification/NetText.v ===== *)
(** * The text of socket addresses

    [Display] and [FromStr] of the standard library's [SocketAddr], which
    [iroh-dns/src/endpoint_info.rs] publishes and parses: decimal and
    hexadecimal numbers, IPv4 dotted quads, IPv6 groups with the [::]
    abbreviation, ports and scope ids. The parser consumes a prefix of its input
    and gives back the rest; a failed read consumes nothing. *)

From S2P Require Import Prelude External Instances Keys Addrs.
Import Addrs.

Module NetText.

Abbreviation ascii := Ascii.ascii.

(** ** Printing numbers *)

(** The digits of [n], most significant first; [fuel] digits are enough for
    [n < base ^ fuel]. *)
Fixpoint to_digits (base : Z) (fuel : nat) (n : Z) : list Z :=
  match fuel with
  | O => []
  | S fuel =>
      if n / base =? 0 then [n mod base] else to_digits base fuel (n / base) ++ [n mod base]
  end.

Definition show_digits (ds : list Z) (rest : string) : string :=
  foldr (fun d s => String (hex_digit d) s) rest ds.

(** [{}] and [{:x}] of an integer of at most 64 bits. *)
Definition show_dec (n : Z) : string := show_digits (to_digits 10 20 n) EmptyString.
Definition show_hex (n : Z) : string := show_digits (to_digits 16 16 n) EmptyString.

(** ** The parser *)

Definition parser (A : Type) : Type := string -> option (A * string).

Definition p_ret {A} (a : A) : parser A := fun s => Some (a, s).

Definition p_bind {A B} (p : parser A) (k : A -> parser B) : parser B :=
  fun s => match p s with Some (a, s) => k a s | None => None end.

Notation "'read' x := p 'in' k" := (p_bind p (fun x => k)) (at level 10, x pattern, k at level 200).

(** [parse_with]: the whole input is consumed. *)
Definition parse_with {A} (p : parser A) (s : string) : option A :=
  match p s with
  | Some (a, EmptyString) => Some a
  | _ => None
  end.

Definition read_given_char (c : ascii) : parser unit :=
  fun s => match s with
           | String c' s => if Ascii.eqb c c' then Some (tt, s) else None
           | EmptyString => None
           end.

(** [char::to_digit]. *)
Definition to_digit (radix : Z) (c : ascii) : option Z :=
  match radix16_value c with
  | Some d => if d <? radix then Some d else None
  | None => None
  end.

Fixpoint read_digits (radix : Z) (s : string) : list Z * string :=
  match s with
  | EmptyString => ([], s)
  | String c s' =>
      match to_digit radix c with
      | Some d => let '(ds, rest) := read_digits radix s' in (d :: ds, rest)
      | None => ([], s)
      end
  end.

Definition digits_value (radix : Z) (ds : list Z) : Z := fold_left (fun acc d => acc * radix + d) ds 0.

(** [read_number]: the longest run of digits; it fails when there are none or
    more than [max_digits], on a forbidden leading zero and past [max]. *)
Definition read_number (radix : Z) (max_digits : option nat) (allow_zero_prefix : bool) (max : Z) : parser Z :=
  fun s =>
    let '(ds, rest) := read_digits radix s in
    let too_long := match max_digits with Some k => (k <? length ds)%nat | None => false end in
    let zero_prefix := match ds with 0 :: _ :: _ => negb allow_zero_prefix | _ => false end in
    if (length ds =? 0)%nat || too_long || zero_prefix || (max <? digits_value radix ds) then None
    else Some (digits_value radix ds, rest).

(** [read_separator]: the separator comes before every element but the first. *)
Definition read_separator {A} (sep : ascii) (first : bool) (p : parser A) : parser A :=
  if first then p else read _ := read_given_char sep in p.

Definition dot : ascii := Ascii.ascii_of_nat 46.
Definition colon : ascii := Ascii.ascii_of_nat 58.
Definition percent : ascii := Ascii.ascii_of_nat 37.
Definition open_bracket : ascii := Ascii.ascii_of_nat 91.
Definition close_bracket : ascii := Ascii.ascii_of_nat 93.

Definition read_octet : parser Z := read_number 10 (Some 3%nat) false u8_max.

Definition read_ipv4_addr : parser bytes :=
  read a := read_octet in
  read b := read_separator dot false read_octet in
  read c := read_separator dot false read_octet in
  read d := read_separator dot false read_octet in
  p_ret (map byte.of_Z [a; b; c; d]).

Definition read_group : parser Z := read_number 16 (Some 4%nat) true u16_max.

(** The two groups an embedded IPv4 address stands for. *)
Definition v4_groups (ip : bytes) : list Z := [from_be_bytes (take 2 ip); from_be_bytes (drop 2 ip)].

(** [read_groups]: at most [n] groups, of which the last two may be written as
    an IPv4 address; the flag says that they were. *)
Fixpoint read_groups (n : nat) (first : bool) (s : string) : list Z * bool * string :=
  match n with
  | O => ([], false, s)
  | S n' =>
      match (if (1 <=? n')%nat then read_separator colon first read_ipv4_addr s else None) with
      | Some (ip, s) => (v4_groups ip, true, s)
      | None =>
          match read_separator colon first read_group s with
          | Some (g, s) => let '(gs, v4, s) := read_groups n' false s in (g :: gs, v4, s)
          | None => ([], false, s)
          end
      end
  end.

Definition read_ipv6_segments : parser (list Z) :=
  fun s =>
    let '(head, v4, s) := read_groups 8 true s in
    if (length head =? 8)%nat then Some (head, s)
    else if v4 then None
    else (read _ := read_given_char colon in
          read _ := read_given_char colon in
          fun s =>
            let '(tail, _, s) := read_groups (7 - length head) true s in
            Some (head ++ replicate (8 - length head - length tail) 0 ++ tail, s)) s.

Definition segments_to_ip (segments : list Z) : bytes := flat_map (be_bytes 2) segments.

Definition read_ipv6_addr : parser bytes := read segments := read_ipv6_segments in p_ret (segments_to_ip segments).

Definition read_port : parser Z :=
  read _ := read_given_char colon in read_number 10 None true u16_max.

Definition read_scope_id : parser Z :=
  read _ := read_given_char percent in read_number 10 None true u32_max.

(** [p().unwrap_or(default)]. *)
Definition unwrap_or {A} (p : parser A) (default : A) : parser A :=
  fun s => match p s with Some r => Some r | None => Some (default, s) end.

Definition read_socket_addr_v4 : parser SocketAddr :=
  read ip := read_ipv4_addr in
  read port := read_port in
  p_ret (SocketV4 ip port).

Definition read_socket_addr_v6 : parser SocketAddr :=
  read _ := read_given_char open_bracket in
  read ip := read_ipv6_addr in
  read scope_id := unwrap_or read_scope_id 0 in
  read _ := read_given_char close_bracket in
  read port := read_port in
  p_ret (SocketV6 ip port 0 scope_id).

Definition read_socket_addr : parser SocketAddr :=
  fun s => match read_socket_addr_v4 s with Some r => Some r | None => read_socket_addr_v6 s end.

(** [SocketAddr::from_str]. *)
Definition SocketAddr_from_str (s : string) : option SocketAddr := parse_with read_socket_addr s.

(** ** Printing addresses *)

Definition segments (ip : bytes) : list Z :=
  map (fun i => from_be_bytes (take 2 (drop (2 * i) ip))) (seq 0 8).

Record span := mkSpan { start : nat; len : nat }.

(** The scan for the first longest run of zero segments: the longest run so
    far, the current one, the position. *)
Fixpoint scan_zeroes (segs : list Z) (i : nat) (current longest : span) : span :=
  match segs with
  | [] => longest
  | seg :: segs =>
      if seg =? 0 then
        let current := mkSpan (if (len current =? 0)%nat then i else start current) (S (len current)) in
        scan_zeroes segs (S i) current (if (len longest <? len current)%nat then current else longest)
      else scan_zeroes segs (S i) (mkSpan 0 0) longest
  end.

Definition zeroes (segs : list Z) : span := scan_zeroes segs 0 (mkSpan 0 0) (mkSpan 0 0).

(** [fmt_subslice], with the text that follows it. *)
Fixpoint fmt_more (segs : list Z) (rest : string) : string :=
  match segs with
  | [] => rest
  | seg :: segs => String colon (show_digits (to_digits 16 16 seg) (fmt_more segs rest))
  end.

Definition fmt_subslice (segs : list Z) (rest : string) : string :=
  match segs with
  | [] => rest
  | seg :: segs => show_digits (to_digits 16 16 seg) (fmt_more segs rest)
  end.

Definition fmt_ipv4 (ip : bytes) (rest : string) : string :=
  match map byte.unsigned ip with
  | [a; b; c; d] =>
      show_digits (to_digits 10 20 a) (String dot
        (show_digits (to_digits 10 20 b) (String dot
          (show_digits (to_digits 10 20 c) (String dot
            (show_digits (to_digits 10 20 d) rest))))))
  | _ => rest
  end.

Definition fmt_ipv6 (ip : bytes) (rest : string) : string :=
  match to_canonical ip with
  | V4 v4 => String colon (String colon (show_digits (to_digits 16 16 65535) (String colon (fmt_ipv4 v4 rest))))
  | V6 _ =>
      let segs := segments ip in
      let z := zeroes segs in
      if (1 <? len z)%nat
      then fmt_subslice (take (start z) segs)
             (String colon (String colon (fmt_subslice (drop (start z + len z) segs) rest)))
      else fmt_subslice segs rest
  end.

Definition fmt_port (port : Z) (rest : string) : string :=
  String colon (show_digits (to_digits 10 20 port) rest).

(** [Display for SocketAddr]: the flow information is not printed. *)
Definition SocketAddr_to_string (a : SocketAddr) : string :=
  match a with
  | SocketV4 ip port => fmt_ipv4 ip (fmt_port port EmptyString)
  | SocketV6 ip port _ scope_id =>
      String open_bracket
        (fmt_ipv6 ip
          ((if scope_id =? 0 then fun rest => rest
            else fun rest => String percent (show_digits (to_digits 10 20 scope_id) rest))
             (String close_bracket (fmt_port port EmptyString))))
  end.

(** ** Numbers round trip *)

Lemma to_digits_bound base fuel n :
  2 <= base -> Forall (fun d => 0 <= d < base) (to_digits base fuel n).
Proof.
  intros Hb. revert n. induction fuel as [|fuel IH]; intros n; simpl; [constructor|].
  pose proof (Z.mod_pos_bound n base ltac:(lia)).
  destruct (n / base =? 0); [by apply Forall_singleton|]. apply Forall_app. split; [apply IH|by apply Forall_singleton].
Qed.

Lemma to_digits_value base fuel n :
  2 <= base -> 0 <= n < base ^ Z.of_nat fuel -> (0 < fuel)%nat -> digits_value base (to_digits base fuel n) = n.
Proof.
  intros Hb. revert n. induction fuel as [|fuel IH]; intros n Hn Hf; [lia|]. cbn [to_digits].
  pose proof (Z.div_mod n base ltac:(lia)). pose proof (Z.mod_pos_bound n base ltac:(lia)).
  destruct (Z.eqb_spec (n / base) 0) as [Hz|Hz]; [unfold digits_value; simpl; lia|].
  rewrite Nat2Z.inj_succ, Z.pow_succ_r in Hn by lia.
  pose proof (Z.div_pos n base ltac:(lia) ltac:(lia)).
  unfold digits_value. rewrite fold_left_app. cbn [fold_left]. fold (digits_value base (to_digits base fuel (n / base))).
  rewrite IH; [lia| |].
  - split; [lia|]. apply Z.div_lt_upper_bound; lia.
  - destruct fuel; [|lia]. change (base ^ Z.of_nat 0) with 1 in Hn. rewrite Z.div_small in Hz by lia. done.
Qed.

Lemma to_digits_length base fuel n k :
  2 <= base -> 0 <= n < base ^ Z.of_nat k -> (0 < k)%nat -> (length (to_digits base fuel n) <= k)%nat.
Proof.
  intros Hb. revert n k. induction fuel as [|fuel IH]; intros n k Hn Hk; simpl; [lia|].
  destruct (Z.eqb_spec (n / base) 0) as [Hz|Hz]; [simpl; lia|]. rewrite length_app. simpl.
  destruct k as [|k]; [lia|]. rewrite Nat2Z.inj_succ, Z.pow_succ_r in Hn by lia.
  pose proof (Z.div_pos n base ltac:(lia) ltac:(lia)).
  assert (Hk' : (0 < k)%nat).
  { destruct k; [|lia]. change (base ^ Z.of_nat 0) with 1 in Hn. rewrite Z.div_small in Hz by lia. done. }
  assert (length (to_digits base fuel (n / base)) <= k)%nat; [|lia].
  apply IH; [|lia]. split; [lia|]. apply Z.div_lt_upper_bound; lia.
Qed.

(** The first digit is zero only for the number zero. *)
Lemma to_digits_head base fuel n :
  2 <= base -> 0 <= n -> (0 < fuel)%nat -> n < base ^ Z.of_nat fuel ->
  exists d ds, to_digits base fuel n = d :: ds /\ (d = 0 -> ds = []).
Proof.
  intros Hb. revert n. induction fuel as [|fuel IH]; intros n Hn Hf Hlt; [lia|]. cbn [to_digits].
  destruct (Z.eqb_spec (n / base) 0) as [Hz|Hz]; [by eexists _, _|].
  pose proof (Z.div_pos n base ltac:(lia) ltac:(lia)).
  rewrite Nat2Z.inj_succ, Z.pow_succ_r in Hlt by lia.
  assert (Hf' : (0 < fuel)%nat).
  { destruct fuel; [|lia]. change (base ^ Z.of_nat 0) with 1 in Hlt. rewrite Z.div_small in Hz by lia. done. }
  destruct (IH (n / base)) as (d & ds & Heq & Hd); [lia..|apply Z.div_lt_upper_bound; lia|].
  rewrite Heq. eexists _, _. split; [done|]. intros Hd0. rewrite Hd in Heq by done. subst d.
  exfalso. assert (Hv : digits_value base (to_digits base fuel (n / base)) = n / base).
  { apply to_digits_value; [lia| |lia]. split; [lia|apply Z.div_lt_upper_bound; lia]. }
  rewrite Heq in Hv. unfold digits_value in Hv. simpl in Hv. lia.
Qed.

(** What may follow a number: nothing that continues it. *)
Definition ends_number (radix : Z) (rest : string) : Prop :=
  match rest with
  | EmptyString => True
  | String c _ => to_digit radix c = None
  end.

Lemma to_digit_hex_digit radix d : 0 <= d < radix -> radix <= 16 -> to_digit radix (hex_digit d) = Some d.
Proof.
  intros Hd Hr. unfold to_digit. rewrite radix16_hex_digit by lia. by destruct (Z.ltb_spec d radix); [|lia].
Qed.

Lemma read_digits_show radix ds rest :
  radix <= 16 -> Forall (fun d => 0 <= d < radix) ds -> ends_number radix rest ->
  read_digits radix (show_digits ds rest) = (ds, rest).
Proof.
  intros Hr Hds Hrest. induction Hds as [|d ds Hd Hds IH].
  - destruct rest as [|c rest]; [done|]. simpl in *. by rewrite Hrest.
  - cbn [show_digits foldr read_digits]. rewrite to_digit_hex_digit by done.
    fold (show_digits ds rest). by rewrite IH.
Qed.

Lemma read_number_show radix fuel n max_digits allow max rest :
  2 <= radix <= 16 -> 0 <= n <= max -> (0 < fuel)%nat -> n < radix ^ Z.of_nat fuel ->
  match max_digits with Some k => (0 < k)%nat /\ max < radix ^ Z.of_nat k | None => True end ->
  ends_number radix rest ->
  read_number radix max_digits allow max (show_digits (to_digits radix fuel n) rest) = Some (n, rest).
Proof.
  intros Hr Hn Hf Hlt Hk Hrest. unfold read_number.
  rewrite read_digits_show; [|lia|by apply to_digits_bound; lia|done].
  destruct (to_digits_head radix fuel n) as (d & ds & Heq & Hd); [lia..|].
  assert (Hl : match max_digits with Some k => (length (to_digits radix fuel n) <= k)%nat | None => True end).
  { destruct max_digits as [k|]; [|done]. apply to_digits_length; [lia..|tauto]. }
  pose proof (to_digits_value radix fuel n ltac:(lia) ltac:(lia) Hf) as Hv. rewrite Hv.
  rewrite Heq in Hl |- *. simpl length.
  assert (match max_digits with Some k => (k <? S (length ds))%nat | None => false end = false) as ->.
  { destruct max_digits; [|done]. apply Nat.ltb_ge. simpl in Hl. lia. }
  assert (match d :: ds with 0 :: _ :: _ => negb allow | _ => false end = false) as ->.
  { destruct (decide (d = 0)) as [->|]; [by rewrite Hd|]. destruct d; [done|..]; by destruct ds. }
  by destruct (Z.ltb_spec max n); [lia|].
Qed.

(** ** IPv4 *)

Lemma read_octet_show n rest :
  0 <= n <= 255 -> ends_number 10 rest -> read_octet (show_digits (to_digits 10 20 n) rest) = Some (n, rest).
Proof. intros Hn Hr. apply read_number_show; try done; unfold u8_max; lia. Qed.

Lemma read_sep_char {A} sep (p : parser A) rest : read_separator sep false p (String sep rest) = p rest.
Proof. unfold read_separator, p_bind, read_given_char. by rewrite Ascii.eqb_refl. Qed.

Lemma read_ipv4_fmt ip rest :
  length ip = 4%nat -> ends_number 10 rest -> read_ipv4_addr (fmt_ipv4 ip rest) = Some (ip, rest).
Proof.
  intros Hl Hr. destruct ip as [|a [|b [|c [|d [|]]]]]; try done. unfold fmt_ipv4, read_ipv4_addr. simpl map.
  pose proof (byte.unsigned_range a). pose proof (byte.unsigned_range b).
  pose proof (byte.unsigned_range c). pose proof (byte.unsigned_range d).
  unfold p_bind at 1. rewrite read_octet_show by (done || lia).
  unfold p_bind at 1. rewrite read_sep_char, read_octet_show by (done || lia).
  unfold p_bind at 1. rewrite read_sep_char, read_octet_show by (done || lia).
  unfold p_bind at 1. rewrite read_sep_char, read_octet_show by (done || lia).
  unfold p_ret. by rewrite !byte.of_Z_unsigned.
Qed.

(** ** Groups of an IPv6 address *)

(** What may follow a group: no digit, no dot, and no further group. *)
Definition stops (rest : string) : Prop :=
  match rest with
  | EmptyString => True
  | String c r => to_digit 16 c = None /\ c <> dot /\ (c = colon -> ends_number 16 r)
  end.

Lemma stops_ends_number rest : stops rest -> ends_number 16 rest.
Proof. by destruct rest as [|c r]; [|intros [? _]]. Qed.

Lemma to_digit_10_16 c : to_digit 16 c = None -> to_digit 10 c = None.
Proof.
  unfold to_digit. destruct (radix16_value c) as [d|]; [|done].
  destruct (Z.ltb_spec d 16); [done|]. by destruct (Z.ltb_spec d 10); [lia|].
Qed.

Lemma ends_number_10_16 rest : ends_number 16 rest -> ends_number 10 rest.
Proof. destruct rest; [done|]. apply to_digit_10_16. Qed.

Lemma read_number_none radix k allow max rest :
  ends_number radix rest -> read_number radix k allow max rest = None.
Proof. destruct rest as [|c r]; [done|]. simpl. unfold read_number. simpl. by intros ->. Qed.

Lemma stops_no_ipv4 rest : stops rest -> read_ipv4_addr rest = None.
Proof.
  intros H. unfold read_ipv4_addr, p_bind, read_octet.
  by rewrite read_number_none by by apply ends_number_10_16, stops_ends_number.
Qed.

Lemma stops_no_more {A} (p : parser A) rest :
  stops rest -> (forall r, ends_number 16 r -> p r = None) -> read_separator colon false p rest = None.
Proof.
  intros H Hp. unfold read_separator, p_bind, read_given_char. destruct rest as [|c r]; [done|].
  destruct (Ascii.eqb_spec colon c) as [<-|]; [|done]. apply Hp. by apply H.
Qed.

(** A group is not the start of an IPv4 address when no dot follows. *)
Lemma read_digits_suffix radix ds rest :
  Forall (fun d => 0 <= d < 16) ds -> ends_number radix rest ->
  exists ds', (read_digits radix (show_digits ds rest)).2 = show_digits ds' rest /\ Forall (fun d => 0 <= d < 16) ds'.
Proof.
  intros Hds Hrest. induction Hds as [|d ds Hd Hds (ds' & Heq & Hds')].
  - exists []. split; [|done]. destruct rest as [|c rest]; [done|]. simpl in *. by rewrite Hrest.
  - cbn [show_digits foldr read_digits]. fold (show_digits ds rest).
    destruct (to_digit radix (hex_digit d)).
    + destruct (read_digits radix (show_digits ds rest)) as [l r]. simpl in *. eauto.
    + exists (d :: ds). split; [done|by constructor].
Qed.

Lemma no_dot_after_digits ds rest :
  Forall (fun d => 0 <= d < 16) ds -> (forall r, rest <> String dot r) ->
  read_given_char dot (show_digits ds rest) = None.
Proof.
  intros Hds Hr. destruct Hds as [|d ds Hd Hds].
  - unfold read_given_char. destruct rest as [|c r]; [done|]. cbn [show_digits foldr].
    destruct (Ascii.eqb_spec dot c) as [<-|]; [by destruct (Hr r)|done].
  - cbn [show_digits foldr]. unfold read_given_char.
    rewrite Ascii.eqb_sym, hex_digit_ne; [done|done|reflexivity].
Qed.

Lemma group_not_ipv4 ds rest :
  Forall (fun d => 0 <= d < 16) ds -> ends_number 10 rest -> (forall r, rest <> String dot r) ->
  read_ipv4_addr (show_digits ds rest) = None.
Proof.
  intros Hds Hr Hdot. unfold read_ipv4_addr, read_octet, read_number, p_bind at 1.
  destruct (read_digits_suffix 10 ds rest Hds Hr) as (ds' & Hrd & Hds').
  destruct (read_digits 10 (show_digits ds rest)) as [l r]. simpl in Hrd. subst r.
  case_match; [|done]. simplify_eq. case_match; simplify_eq.
  unfold p_bind at 1, read_separator, p_bind at 1. by rewrite no_dot_after_digits.
Qed.

Definition u16 (g : Z) : Prop := 0 <= g <= 65535.

Lemma hex_group_bound g : Forall (fun d => 0 <= d < 16) (to_digits 16 16 g).
Proof. apply to_digits_bound. lia. Qed.

Lemma read_group_show g rest :
  u16 g -> ends_number 16 rest -> read_group (show_digits (to_digits 16 16 g) rest) = Some (g, rest).
Proof. intros Hg Hr. apply read_number_show; try done; unfold u16, u16_max in *; lia. Qed.

Lemma fmt_more_not_dot gs rest : stops rest -> forall r, fmt_more gs rest <> String dot r.
Proof. intros H r. destruct gs; simpl; [|done]. intros ->. by destruct H as (_ & ? & _). Qed.

Lemma fmt_more_ends gs rest : stops rest -> ends_number 16 (fmt_more gs rest).
Proof. intros H. destruct gs; simpl; [by apply stops_ends_number|done]. Qed.

Lemma read_groups_more n gs rest :
  (length gs <= n)%nat -> Forall u16 gs -> stops rest ->
  read_groups n false (fmt_more gs rest) = (gs, false, rest).
Proof.
  revert gs. induction n as [|n IH]; intros gs Hl Hgs Hr.
  - destruct gs; [done|simpl in Hl; lia].
  - cbn [read_groups]. destruct gs as [|g gs].
    + cbn [fmt_more]. rewrite !stops_no_more; try done.
      * by destruct (1 <=? n)%nat.
      * intros r Hr'. by apply read_number_none.
      * intros r Hr'. unfold read_ipv4_addr, p_bind, read_octet.
        by rewrite read_number_none by by apply ends_number_10_16.
    + inversion Hgs; subst. cbn [fmt_more]. rewrite !read_sep_char, group_not_ipv4, read_group_show; try done.
      * rewrite IH by (done || simpl in Hl; lia). by destruct (1 <=? n)%nat.
      * by apply fmt_more_ends.
      * apply hex_group_bound.
      * by apply ends_number_10_16, fmt_more_ends.
      * by apply fmt_more_not_dot.
Qed.

Lemma read_groups_fmt n gs rest :
  (length gs <= n)%nat -> Forall u16 gs -> stops rest ->
  read_groups n true (fmt_subslice gs rest) = (gs, false, rest).
Proof.
  intros Hl Hgs Hr. destruct n as [|n]; [destruct gs; [done|simpl in Hl; lia]|]. cbn [read_groups].
  unfold read_separator. destruct gs as [|g gs].
  - cbn [fmt_subslice]. rewrite stops_no_ipv4 by done.
    unfold read_group. rewrite read_number_none by by apply stops_ends_number. by destruct (1 <=? n)%nat.
  - inversion Hgs; subst. cbn [fmt_subslice]. rewrite group_not_ipv4, read_group_show; try done.
    + rewrite read_groups_more by (done || simpl in Hl; lia). by destruct (1 <=? n)%nat.
    + by apply fmt_more_ends.
    + apply hex_group_bound.
    + by apply ends_number_10_16, fmt_more_ends.
    + by apply fmt_more_not_dot.
Qed.

(** ** The run of zeroes *)

(** [sp] lies before position [i] of [segs] and covers only zeroes. *)
Definition zero_span (segs : list Z) (i : nat) (sp : span) : Prop :=
  (start sp + len sp <= i)%nat /\
  forall k, (start sp <= k < start sp + len sp)%nat -> segs !! k = Some 0.

Lemma scan_zeroes_span all pre segs current longest :
  all = pre ++ segs -> zero_span all (length pre) current -> zero_span all (length pre) longest ->
  (len current <> 0 -> start current + len current = length pre)%nat ->
  zero_span all (length all) (scan_zeroes segs (length pre) current longest).
Proof.
  revert pre current longest. induction segs as [|seg segs IH]; intros pre current longest -> Hc Hl Hend; simpl.
  - by rewrite app_nil_r in *.
  - assert (Hpre : pre ++ seg :: segs = (pre ++ [seg]) ++ segs) by by rewrite <- app_assoc.
    assert (Hlen : S (length pre) = length (pre ++ [seg])) by (rewrite length_app; simpl; lia).
    assert (Hmono : forall sp, zero_span (pre ++ seg :: segs) (length pre) sp ->
      zero_span (pre ++ seg :: segs) (length (pre ++ [seg])) sp).
    { intros sp [? ?]. split; [lia|done]. }
    destruct (Z.eqb_spec seg 0) as [->|]; rewrite Hlen.
    + set (c := mkSpan (if (len current =? 0)%nat then length pre else start current) (S (len current))).
      assert (Hc' : zero_span (pre ++ 0 :: segs) (length (pre ++ [0])) c /\
        (start c + len c = length (pre ++ [0%Z]))%nat).
      { destruct Hc as [Hc1 Hc2]. unfold zero_span, c. simpl.
        destruct (Nat.eqb_spec (len current) 0) as [E|E]; (split; [split|]); try lia; intros k Hk.
        - assert (k = length pre) as -> by lia. by rewrite list_lookup_middle.
        - destruct (decide (k = length pre)) as [->|]; [by rewrite list_lookup_middle|]. apply Hc2. lia. }
      apply IH; [done|tauto| |tauto]. case_match; [tauto|auto].
    + apply IH; [done| |auto|done]. split; simpl; lia.
Qed.

Lemma zeroes_split segs :
  segs = take (start (zeroes segs)) segs ++ replicate (len (zeroes segs)) 0 ++ drop (start (zeroes segs) + len (zeroes segs)) segs.
Proof.
  assert (H : zero_span segs (length segs) (zeroes segs)).
  { apply (scan_zeroes_span segs [] segs); [done|..]; try (split; simpl; lia). }
  destruct H as [Hb Hz]. set (z := zeroes segs) in *.
  rewrite <- (take_drop (start z) segs) at 1. f_equal.
  rewrite <- (take_drop (len z) (drop (start z) segs)) at 1. rewrite drop_drop. f_equal.
  apply list_eq_same_length with (len z); [by rewrite length_replicate|rewrite length_take, length_drop; lia|].
  intros i x y Hi. rewrite lookup_take_lt, lookup_drop, Hz by lia. rewrite lookup_replicate. intros [= <-] [-> _]. done.
Qed.

(** ** IPv6 *)

Lemma be_bytes_pair a b : be_bytes 2 (from_be_bytes [a; b]) = [a; b].
Proof. by apply be_bytes_from_be_bytes. Qed.

Lemma segments_ip ip : length ip = 16%nat -> segments_to_ip (segments ip) = ip.
Proof.
  intros Hl. do 16 (destruct ip as [|? ip]; [done|]). destruct ip; [|done].
  unfold segments_to_ip, segments. cbn [seq map Nat.mul Nat.add drop take flat_map].
  by rewrite !be_bytes_pair.
Qed.

Lemma from_be_bytes_u16 bs : length bs = 2%nat -> u16 (from_be_bytes bs).
Proof.
  intros Hl. pose proof (from_be_bytes_bound bs) as H. rewrite Hl in H. unfold u16.
  change (2 ^ (8 * Z.of_nat 2)) with 65536 in H. lia.
Qed.

Lemma segments_u16 ip : length ip = 16%nat -> Forall u16 (segments ip) /\ length (segments ip) = 8%nat.
Proof.
  intros Hl. split; [|done]. unfold segments. rewrite Forall_forall. intros g (i & -> & Hi)%list_elem_of_fmap.
  apply elem_of_seq in Hi. apply from_be_bytes_u16. rewrite length_take, length_drop. lia.
Qed.

Lemma stops_double_colon rest : stops (String colon (String colon rest)).
Proof. done. Qed.

Lemma read_two_colons {A} (k : parser A) rest :
  (read _ := read_given_char colon in read _ := read_given_char colon in k)
    (String colon (String colon rest)) = k rest.
Proof. reflexivity. Qed.

Lemma read_ipv6_abbreviated a b rest :
  Forall u16 a -> Forall u16 b -> (length a + length b <= 7)%nat -> stops rest ->
  read_ipv6_segments (fmt_subslice a (String colon (String colon (fmt_subslice b rest)))) =
  Some (a ++ replicate (8 - length a - length b) 0 ++ b, rest).
Proof.
  intros Ha Hb Hl Hr. unfold read_ipv6_segments.
  rewrite read_groups_fmt by (done || lia). destruct (Nat.eqb_spec (length a) 8); [lia|].
  rewrite read_two_colons, read_groups_fmt by (done || lia). done.
Qed.

Lemma read_groups_S n first s :
  read_groups (S n) first s =
  match (if (1 <=? n)%nat then read_separator colon first read_ipv4_addr s else None) with
  | Some (ip, s) => (v4_groups ip, true, s)
  | None =>
      match read_separator colon first read_group s with
      | Some (g, s) => let '(gs, v4, s) := read_groups n false s in (g :: gs, v4, s)
      | None => ([], false, s)
      end
  end.
Proof. reflexivity. Qed.

Lemma read_ipv6_mapped v4 rest :
  length v4 = 4%nat -> stops rest ->
  read_ipv6_segments (String colon (String colon (show_digits (to_digits 16 16 65535) (String colon (fmt_ipv4 v4 rest))))) =
  Some (replicate 5 0 ++ 65535 :: v4_groups v4, rest).
Proof.
  intros Hl Hr. unfold read_ipv6_segments.
  change (String colon (String colon ?r)) with (fmt_subslice [] (String colon (String colon r))).
  rewrite read_groups_fmt by (done || simpl; lia). cbn [length Nat.eqb fmt_subslice].
  rewrite read_two_colons.
  set (tail := String colon (fmt_ipv4 v4 rest)).
  assert (Hipv4 : read_groups 6 false tail = (v4_groups v4, true, rest)).
  { unfold tail. rewrite read_groups_S. cbn [Nat.leb]. rewrite read_sep_char, read_ipv4_fmt; [done|done|].
    by apply ends_number_10_16, stops_ends_number. }
  change (7 - 0)%nat with 7%nat. rewrite read_groups_S. cbn [Nat.leb]. unfold read_separator.
  rewrite group_not_ipv4, read_group_show; [|by unfold u16|done|apply hex_group_bound|done|done].
  by rewrite Hipv4.
Qed.

Lemma mapped_ip ip :
  length ip = 16%nat -> take 12 ip = v4_mapped_prefix ->
  segments_to_ip (replicate 5 0 ++ 65535 :: v4_groups (drop 12 ip)) = ip.
Proof.
  intros Hl Hp. do 16 (destruct ip as [|? ip]; [done|]). destruct ip; [|done].
  unfold v4_mapped_prefix in Hp. simpl in Hp. simplify_eq. unfold segments_to_ip, v4_groups.
  cbn [drop take replicate app flat_map]. rewrite !be_bytes_pair. vm_compute. reflexivity.
Qed.

Lemma read_ipv6_fmt ip rest :
  length ip = 16%nat -> stops rest -> read_ipv6_addr (fmt_ipv6 ip rest) = Some (ip, rest).
Proof.
  intros Hl Hr. unfold read_ipv6_addr, p_bind, fmt_ipv6, to_canonical.
  destruct (segments_u16 ip Hl) as [Hu Hlen].
  case_bool_decide as Hm.
  - rewrite read_ipv6_mapped by (done || rewrite length_drop; lia). unfold p_ret. by rewrite mapped_ip.
  - pose proof (zeroes_split (segments ip)) as Hz. set (z := zeroes (segments ip)) in *.
    destruct (Nat.ltb_spec 1 (len z)).
    + assert (Hs : (length (take (start z) (segments ip)) + length (drop (start z + len z) (segments ip)) + len z = 8)%nat).
      { rewrite <- Hlen. rewrite Hz at 3. rewrite !length_app, length_replicate. lia. }
      rewrite read_ipv6_abbreviated; [|by apply Forall_take|by apply Forall_drop|lia|done].
      unfold p_ret. replace (8 - _ - _)%nat with (len z) by lia. by rewrite <- Hz, segments_ip.
    + unfold read_ipv6_segments. rewrite read_groups_fmt by (done || lia). rewrite Hlen. simpl Nat.eqb.
      unfold p_ret. by rewrite segments_ip.
Qed.

(** ** Socket addresses *)

Definition SocketAddr_wf (a : SocketAddr) : Prop :=
  match a with
  | SocketV4 ip port => length ip = 4%nat /\ u16 port
  | SocketV6 ip port flowinfo scope_id =>
      length ip = 16%nat /\ u16 port /\ flowinfo = 0 /\ 0 <= scope_id <= u32_max
  end.

Lemma read_port_fmt port rest :
  u16 port -> ends_number 10 rest -> read_port (fmt_port port rest) = Some (port, rest).
Proof.
  intros Hp Hr. unfold read_port, fmt_port, p_bind, read_given_char. rewrite Ascii.eqb_refl.
  apply read_number_show; try done; unfold u16, u16_max in *; lia.
Qed.

(** An IPv6 address starts with a bracket, which no IPv4 address does. *)
Lemma read_socket_addr_bracket s : read_socket_addr (String open_bracket s) = read_socket_addr_v6 (String open_bracket s).
Proof. reflexivity. Qed.

(** Printing a socket address and parsing the text gives the address back,
    when it has no flow information. *)
Lemma socket_addr_text_roundtrip a :
  SocketAddr_wf a -> SocketAddr_from_str (SocketAddr_to_string a) = Some a.
Proof.
  unfold SocketAddr_from_str, parse_with. destruct a as [ip port|ip port flowinfo scope_id]; cbn [SocketAddr_wf SocketAddr_to_string].
  - intros [Hl Hp]. unfold read_socket_addr, read_socket_addr_v4, p_bind.
    rewrite read_ipv4_fmt, read_port_fmt by done. done.
  - intros (Hl & Hp & -> & Hs). rewrite read_socket_addr_bracket. unfold read_socket_addr_v6, p_bind at 1.
    unfold read_given_char at 1. rewrite Ascii.eqb_refl.
    unfold p_bind at 1. rewrite read_ipv6_fmt; [|done|by destruct (scope_id =? 0)].
    assert (Hport : (read _ := read_given_char close_bracket in read port := read_port in
      p_ret (SocketV6 ip port 0 scope_id)) (String close_bracket (fmt_port port EmptyString)) =
      Some (SocketV6 ip port 0 scope_id, EmptyString)).
    { unfold p_bind, read_given_char. rewrite Ascii.eqb_refl. by rewrite read_port_fmt. }
    unfold p_bind at 1, unwrap_or, read_scope_id. destruct (Z.eqb_spec scope_id 0) as [->|].
    + change ((read _ := read_given_char percent in read_number 10 None true u32_max)
        (String close_bracket (fmt_port port EmptyString))) with (@None (Z * string)).
      cbv iota beta. by rewrite Hport.
    + set (rest := String close_bracket (fmt_port port EmptyString)) in *.
      assert (Hn : (read _ := read_given_char percent in read_number 10 None true u32_max)
        (String percent (show_digits (to_digits 10 20 scope_id) rest)) = Some (scope_id, rest)).
      { unfold p_bind, read_given_char. rewrite Ascii.eqb_refl. apply read_number_show; try done; [lia|].
        unfold u32_max in *. change (10 ^ Z.of_nat 20) with (10 ^ 20). lia. }
      cbv beta. rewrite Hn. cbv iota beta. by rewrite Hport.
Qed.

(** ** What the parser accepts is well formed *)

Lemma to_digit_nonneg radix c d : to_digit radix c = Some d -> 0 <= d.
Proof.
  unfold to_digit, radix16_value. intros H. repeat case_match; simplify_eq;
    repeat match goal with H : _ && _ = true |- _ => apply andb_prop in H as [? ?] end; lia.
Qed.

Lemma read_digits_nonneg radix s : Forall (fun d => 0 <= d) (read_digits radix s).1.
Proof.
  induction s as [|c s IH]; simpl; [constructor|]. destruct (to_digit radix c) as [d|] eqn:E; [|constructor].
  destruct (read_digits radix s). constructor; [by eapply to_digit_nonneg|done].
Qed.

Lemma digits_value_nonneg radix ds : 0 <= radix -> Forall (fun d => 0 <= d) ds -> 0 <= digits_value radix ds.
Proof.
  intros Hr Hds. unfold digits_value.
  assert (H : forall z, 0 <= z -> 0 <= fold_left (fun acc d => acc * radix + d) ds z); [|by apply H].
  induction Hds as [|d ds Hd Hds IH]; intros z Hz; [done|]. simpl. apply IH. nia.
Qed.

Lemma read_number_bound radix k allow max s n r :
  0 <= radix -> read_number radix k allow max s = Some (n, r) -> 0 <= n <= max.
Proof.
  intros Hr. unfold read_number. pose proof (read_digits_nonneg radix s) as H.
  destruct (read_digits radix s) as [ds rest]. simpl in H.
  destruct (Z.ltb_spec max (digits_value radix ds)); [by rewrite orb_true_r|].
  case_match; [done|]. intros [= <- <-]. split; [by apply digits_value_nonneg|done].
Qed.

Lemma p_bind_some {A B} (p : parser A) (k : A -> parser B) s r :
  p_bind p k s = Some r -> exists a s', p s = Some (a, s') /\ k a s' = Some r.
Proof. unfold p_bind. destruct (p s) as [[a s']|]; [eauto|done]. Qed.

Ltac p_inv := repeat match goal with
  | H : p_bind _ _ _ = Some _ |- _ => apply p_bind_some in H as (? & ? & ? & H)
  | H : p_ret _ _ = Some _ |- _ => unfold p_ret in H; simplify_eq
  end.

Lemma read_ipv4_length s ip r : read_ipv4_addr s = Some (ip, r) -> length ip = 4%nat.
Proof. intros H. unfold read_ipv4_addr in H. by p_inv. Qed.

Lemma read_groups_length n first s : (length (read_groups n first s).1.1 <= n)%nat.
Proof.
  revert first s. induction n as [|n IH]; intros first s; [done|]. cbn [read_groups].
  destruct (Nat.leb_spec 1 n).
  - destruct (read_separator colon first read_ipv4_addr s) as [[ip s']|]; [simpl; lia|].
    destruct (read_separator colon first read_group s) as [[g s']|]; [|simpl; lia].
    specialize (IH false s'). destruct (read_groups n false s') as [[gs b] s'']. simpl in *. lia.
  - destruct (read_separator colon first read_group s) as [[g s']|]; [|simpl; lia].
    specialize (IH false s'). destruct (read_groups n false s') as [[gs b] s'']. simpl in *. lia.
Qed.

Lemma segments_to_ip_length segs : length (segments_to_ip segs) = (2 * length segs)%nat.
Proof.
  unfold segments_to_ip. induction segs as [|g segs IH]; [done|]. cbn [flat_map].
  rewrite length_app, length_be_bytes, IH. simpl. lia.
Qed.

Lemma read_ipv6_length s ip r : read_ipv6_addr s = Some (ip, r) -> length ip = 16%nat.
Proof.
  unfold read_ipv6_addr. intros H. apply p_bind_some in H as (segs & s' & Hs & H). unfold p_ret in H.
  injection H as <- <-. rewrite segments_to_ip_length. unfold read_ipv6_segments in Hs.
  pose proof (read_groups_length 8 true s) as Hh. destruct (read_groups 8 true s) as [[head v4] s1]. simpl in Hh.
  destruct (Nat.eqb_spec (length head) 8); [injection Hs as <- <-; lia|]. destruct v4; [done|].
  apply p_bind_some in Hs as (? & s2 & _ & Hs). apply p_bind_some in Hs as (? & s3 & _ & Hs).
  pose proof (read_groups_length (7 - length head) true s3) as Ht.
  destruct (read_groups (7 - length head) true s3) as [[tail b] s4]. simpl in Ht. injection Hs as <- <-.
  rewrite !length_app, length_replicate. lia.
Qed.

Lemma read_port_bound s port r : read_port s = Some (port, r) -> u16 port.
Proof.
  unfold read_port. intros H. p_inv.
  match goal with H : read_number _ _ _ _ _ = _ |- _ => apply read_number_bound in H; [|lia] end.
  unfold u16, u16_max in *. lia.
Qed.

Lemma read_scope_bound s id r : unwrap_or read_scope_id 0 s = Some (id, r) -> 0 <= id <= u32_max.
Proof.
  unfold unwrap_or. destruct (read_scope_id s) as [[n r']|] eqn:E; intros [= <- <-]; [|unfold u32_max; lia].
  unfold read_scope_id in E. p_inv.
  match goal with H : read_number _ _ _ _ _ = _ |- _ => by apply read_number_bound in H; [|lia] end.
Qed.

Lemma SocketAddr_from_str_wf s a : SocketAddr_from_str s = Some a -> SocketAddr_wf a.
Proof.
  unfold SocketAddr_from_str, parse_with, read_socket_addr. intros H.
  destruct (read_socket_addr_v4 s) as [[b r]|] eqn:E4.
  - destruct r; [|done]. injection H as <-. unfold read_socket_addr_v4 in E4. p_inv.
    split; [by eapply read_ipv4_length|by eapply read_port_bound].
  - destruct (read_socket_addr_v6 s) as [[b r]|] eqn:E6; [|done]. destruct r; [|done]. injection H as <-.
    unfold read_socket_addr_v6 in E6. p_inv.
    split; [by eapply read_ipv6_length|]. split; [by eapply read_port_bound|]. split; [done|].
    by eapply read_scope_bound.
Qed.

(** ** Custom addresses are not socket addresses *)

Lemma show_digits_app a b rest : show_digits (a ++ b) rest = show_digits a (show_digits b rest).
Proof. unfold show_digits. apply foldr_app. Qed.

Lemma show_digits_append ds rest t : (show_digits ds rest ++ t)%string = show_digits ds (rest ++ t).
Proof. induction ds as [|d ds IH]; [done|]. exact (f_equal (String (hex_digit d)) IH). Qed.

Lemma hex_digits_show fuel n acc : hex_digits fuel n acc = show_digits (to_digits 16 fuel n) acc.
Proof.
  revert n acc. induction fuel as [|fuel IH]; intros n acc; [done|]. cbn [hex_digits to_digits].
  destruct (n / 16 =? 0); [done|]. by rewrite IH, show_digits_app.
Qed.

Lemma custom_text_not_socket n t : SocketAddr_from_str (lower_hex n ++ String underscore t)%string = None.
Proof.
  unfold SocketAddr_from_str, parse_with, lower_hex. rewrite hex_digits_show, show_digits_append. simpl String.append.
  unfold read_socket_addr, read_socket_addr_v4, p_bind at 1.
  rewrite group_not_ipv4; [|apply hex_group_bound|done|done].
  unfold read_socket_addr_v6, p_bind at 1, read_given_char.
  pose proof (hex_group_bound n) as Hb. destruct Hb as [|d ds Hd _]; [done|]. cbn [show_digits foldr].
  by rewrite Ascii.eqb_sym, hex_digit_ne.
Qed.

Example socket_v6_text :
  SocketAddr_to_string (SocketV6 (segments_to_ip [8193; 3512; 0; 0; 1; 0; 0; 1]) 443 0 0) =
  "[2001:db8::1:0:0:1]:443"%string.
Proof. vm_compute. reflexivity. Qed.

Example socket_mapped_text :
  SocketAddr_to_string (SocketV6 (segments_to_ip [0; 0; 0; 0; 0; 65535; 49320; 1]) 80 0 7) =
  "[::ffff:192.168.0.1%7]:80"%string.
Proof. vm_compute. reflexivity. Qed.

End NetText.
