(* ===== verification/EndpointInfo.v ===== *)
(** * Endpoint info and its DNS records

    [iroh-dns/src/endpoint_info.rs] and [attrs.rs]: what an endpoint publishes
    about itself, its form as [key=value] strings in TXT records, and the parser
    of those records. A [BTreeMap] keyed by the three attributes is a finite map
    iterated in their order. *)

From S2P Require Import Prelude External Instances Keys Addrs NetText.
Import Addrs NetText.

Module Info.

(** ** EndpointData *)

(** [UserData]: a string of at most [MAX_LENGTH] bytes. *)
Record UserData := mkUserData { user_str : string }.

#[export] Instance UserData_eq_dec : EqDecision UserData.
Proof. solve_decision. Defined.

Definition MAX_LENGTH : nat := 245.

Inductive MaxLengthExceededError := mkMaxLengthExceededError.

Definition UserData_from_str (s : string) : result MaxLengthExceededError UserData :=
  let? _ := ensure (String.length s <=? MAX_LENGTH)%nat mkMaxLengthExceededError in
  Ok (mkUserData s).

Record EndpointData := mkEndpointData {
  data_addrs : list TransportAddr;
  data_user_data : option UserData
}.

Definition EndpointData_default : EndpointData := mkEndpointData [] None.

(** [dedup]: the first occurrence of each item, in order, and the set of items. *)
Fixpoint dedup_from (seen : gset TransportAddr) (items : list TransportAddr)
    : list TransportAddr * gset TransportAddr :=
  match items with
  | [] => ([], seen)
  | item :: items =>
      if decide (item ∈ seen) then dedup_from seen items
      else let '(kept, seen) := dedup_from ({[item]} ∪ seen) items in (item :: kept, seen)
  end.

Definition dedup (items : list TransportAddr) : list TransportAddr * gset TransportAddr := dedup_from ∅ items.

Definition EndpointData_new (l : list TransportAddr) : EndpointData := mkEndpointData (dedup l).1 None.

Definition set_user_data (d : EndpointData) (u : option UserData) : EndpointData :=
  mkEndpointData (data_addrs d) u.

Definition add_relay_url (d : EndpointData) (relay_url : RelayUrl) : EndpointData :=
  let addr := TransportRelay relay_url in
  if decide (addr ∈ data_addrs d) then d
  else mkEndpointData (data_addrs d ++ [addr]) (data_user_data d).

(** The loop of [add_addrs]. *)
Fixpoint push_new (kept : list TransportAddr) (addr_set : gset TransportAddr) (l : list TransportAddr)
    : list TransportAddr :=
  match l with
  | [] => kept
  | addr :: l =>
      if decide (addr ∈ addr_set) then push_new kept addr_set l
      else push_new (kept ++ [addr]) ({[addr]} ∪ addr_set) l
  end.

Definition add_addrs (d : EndpointData) (l : list TransportAddr) : EndpointData :=
  let '(kept, addr_set) := dedup (data_addrs d) in
  mkEndpointData (push_new kept addr_set l) (data_user_data d).

Definition add_ip_addrs (d : EndpointData) (l : list SocketAddr) : EndpointData :=
  add_addrs d (map TransportIp l).

Definition clear_ip_addrs (d : EndpointData) : EndpointData :=
  mkEndpointData (List.filter (fun a => negb (is_ip a)) (data_addrs d)) (data_user_data d).

Definition clear_relay_urls (d : EndpointData) : EndpointData :=
  mkEndpointData (List.filter (fun a => negb (is_relay a)) (data_addrs d)) (data_user_data d).

Definition data_relay_urls (d : EndpointData) : list RelayUrl :=
  omap (fun a => if a is TransportRelay u then Some u else None) (data_addrs d).

Definition data_ip_addrs (d : EndpointData) : list SocketAddr :=
  omap (fun a => if a is TransportIp ip then Some ip else None) (data_addrs d).

Definition has_addrs (d : EndpointData) : bool := negb (bool_decide (data_addrs d = [])).

(** [AddrFilter]: a function that borrows the addresses or gives new ones. *)
Inductive filtered := Borrowed | Owned (l : list TransportAddr).

Definition AddrFilter := option (list TransportAddr -> filtered).

Definition unfiltered : AddrFilter := Some (fun _ => Borrowed).
Definition relay_only : AddrFilter := Some (fun l => Owned (List.filter is_relay l)).
Definition ip_only : AddrFilter := Some (fun l => Owned (List.filter (fun a => negb (is_relay a)) l)).

Definition filter_apply (f : AddrFilter) (l : list TransportAddr) : filtered :=
  match f with
  | Some f => f l
  | None => Borrowed
  end.

Definition apply_filter (d : EndpointData) (f : AddrFilter) : EndpointData :=
  match filter_apply f (data_addrs d) with
  | Borrowed => d
  | Owned l => set_user_data (EndpointData_new l) (data_user_data d)
  end.

(** ** EndpointInfo *)

Record EndpointInfo := mkEndpointInfo {
  info_endpoint_id : EndpointId;
  info_data : EndpointData
}.

Definition EndpointInfo_new (id : EndpointId) : EndpointInfo := mkEndpointInfo id EndpointData_default.

Definition info_with_relay_url (i : EndpointInfo) (u : RelayUrl) : EndpointInfo :=
  mkEndpointInfo (info_endpoint_id i) (add_relay_url (info_data i) u).
Definition info_with_ip_addrs (i : EndpointInfo) (l : list SocketAddr) : EndpointInfo :=
  mkEndpointInfo (info_endpoint_id i) (add_ip_addrs (info_data i) l).
Definition info_with_user_data (i : EndpointInfo) (u : option UserData) : EndpointInfo :=
  mkEndpointInfo (info_endpoint_id i) (set_user_data (info_data i) u).

(** The set is in the order of [TransportAddr]; the addresses of an info made
    from it are [elements], in whatever order. *)
Definition info_from_endpoint_addr (a : EndpointAddr) : EndpointInfo :=
  mkEndpointInfo (endpoint_id a) (mkEndpointData (elements (addrs a)) None).

Definition to_endpoint_addr (i : EndpointInfo) : EndpointAddr :=
  mkEndpointAddr (info_endpoint_id i) (list_to_set (data_addrs (info_data i))).

(** ** TXT attributes *)

Inductive IrohAttr := AttrRelay | AttrAddr | AttrUserData.

#[export] Instance IrohAttr_eq_dec : EqDecision IrohAttr.
Proof. solve_decision. Defined.

#[export] Instance IrohAttr_countable : Countable IrohAttr.
Proof.
  refine (inj_countable'
    (fun a => match a with AttrRelay => 0%nat | AttrAddr => 1%nat | AttrUserData => 2%nat end)
    (fun n => match n with 0%nat => AttrRelay | 1%nat => AttrAddr | _ => AttrUserData end) _).
  by intros [].
Defined.

(** The derived order of the variants. *)
Definition attr_order : list IrohAttr := [AttrRelay; AttrAddr; AttrUserData].

Definition attr_to_string (a : IrohAttr) : string :=
  match a with
  | AttrRelay => "relay"
  | AttrAddr => "addr"
  | AttrUserData => "user-data"
  end.

Definition attr_from_str (s : string) : option IrohAttr :=
  if (s =? "relay")%string then Some AttrRelay
  else if (s =? "addr")%string then Some AttrAddr
  else if (s =? "user-data")%string then Some AttrUserData
  else None.

Definition IROH_TXT_NAME : string := "_iroh".

Inductive ParseError :=
| UnexpectedFormat (s : string)
| AttrFromString (key : string)
| NumLabels (num_labels : nat)
| NotAnIrohRecord (label : string)
| DecodingError (source : KeyParsingError).

Abbreviation attr_map := (gmap IrohAttr (list string)).

Record TxtAttrs := mkTxtAttrs {
  txt_endpoint_id : EndpointId;
  txt_attrs : attr_map
}.

(** [attrs.entry(k).or_default().push(v)]. *)
Definition push_attr (m : attr_map) (k : IrohAttr) (v : string) : attr_map :=
  <[k := default [] (m !! k) ++ [v]]> m.

Definition TxtAttrs_from_parts (id : EndpointId) (pairs : list (IrohAttr * string)) : TxtAttrs :=
  mkTxtAttrs id (fold_left (fun m '(k, v) => push_attr m k v) pairs ∅).

Definition equals_sign : Ascii.ascii := Ascii.ascii_of_nat 61.
Definition dot_char : Ascii.ascii := Ascii.ascii_of_nat 46.

(** The loop of [from_strings]: the key and the value are the first two pieces
    between equals signs. *)
Fixpoint attrs_from_strings (m : attr_map) (strings : list string) : result ParseError attr_map :=
  match strings with
  | [] => Ok m
  | s :: strings =>
      match str_split equals_sign s with
      | key :: value :: _ =>
          let? attr := ok_or (attr_from_str key) (AttrFromString key) in
          attrs_from_strings (push_attr m attr value) strings
      | _ => Err (UnexpectedFormat s)
      end
  end.

Definition TxtAttrs_from_strings (id : EndpointId) (strings : list string) : result ParseError TxtAttrs :=
  rmap (mkTxtAttrs id) (attrs_from_strings ∅ strings).

Definition to_txt_strings (a : TxtAttrs) : list string :=
  flat_map (fun k => map (fun v => attr_to_string k ++ String equals_sign v)%string
                         (default [] (txt_attrs a !! k))) attr_order.

Section Records.
Context {Ed : Ed25519} {De : DataEncoding} {Uc : UrlCrate}.

Definition endpoint_id_from_txt_name (name : string) : result ParseError EndpointId :=
  match str_split dot_char name with
  | label :: id_label :: _ =>
      let? _ := ensure (label =? IROH_TXT_NAME)%string (NotAnIrohRecord label) in
      map_err DecodingError (from_z32 id_label)
  | labels => Err (NumLabels (length labels))
  end.

Definition attrs_from_txt_lookup (name : string) (lookup : list string) : result ParseError TxtAttrs :=
  let? queried_endpoint_id := endpoint_id_from_txt_name name in
  TxtAttrs_from_strings queried_endpoint_id lookup.

(** The pairs of [endpoint_info_to_attrs]. *)
Fixpoint addr_pairs {E} (l : list TransportAddr) : result E (list (IrohAttr * string)) :=
  match l with
  | [] => Ok []
  | addr :: l =>
      let? kv :=
        match addr with
        | TransportRelay url => Ok (AttrRelay, url)
        | TransportIp addr => Ok (AttrAddr, SocketAddr_to_string addr)
        | TransportCustom addr => rmap (fun v => (AttrAddr, v)) (CustomAddr_to_string addr)
        end in
      let? rest := addr_pairs l in
      Ok (kv :: rest)
  end.

Definition endpoint_info_to_attrs {E} (info : EndpointInfo) : result E TxtAttrs :=
  let? pairs := addr_pairs (data_addrs (info_data info)) in
  let user := match data_user_data (info_data info) with
              | Some u => [(AttrUserData, user_str u)]
              | None => []
              end in
  Ok (TxtAttrs_from_parts (info_endpoint_id info) (pairs ++ user)).

Definition parse_addr (s : string) : option TransportAddr :=
  match SocketAddr_from_str s with
  | Some addr => Some (TransportIp addr)
  | None => TransportCustom <$> to_ok (CustomAddr_from_str s)
  end.

Definition endpoint_info_from_attrs (attrs : TxtAttrs) : EndpointInfo :=
  let a := txt_attrs attrs in
  let relay_urls := omap (fun s => TransportRelay <$> url_parse s) (default [] (a !! AttrRelay)) in
  let addrs := omap parse_addr (default [] (a !! AttrAddr)) in
  let user_data := match default [] (a !! AttrUserData) with
                   | s :: _ => to_ok (UserData_from_str s)
                   | [] => None
                   end in
  let data := set_user_data EndpointData_default user_data in
  mkEndpointInfo (txt_endpoint_id attrs) (add_addrs data (relay_urls ++ addrs)).

Definition info_to_txt_strings {E} (info : EndpointInfo) : result E (list string) :=
  rmap to_txt_strings (endpoint_info_to_attrs info).

Definition info_from_txt_lookup (domain_name : string) (lookup : list string) : result ParseError EndpointInfo :=
  rmap endpoint_info_from_attrs (attrs_from_txt_lookup domain_name lookup).

End Records.

(** ** Lemmas: deduplication *)

Lemma dedup_from_spec seen items :
  (dedup_from seen items).2 = list_to_set items ∪ seen /\
  NoDup (dedup_from seen items).1 /\
  (forall a, a ∈ (dedup_from seen items).1 <-> a ∈ items /\ a ∉ seen).
Proof.
  revert seen. induction items as [|x items IH]; intros seen; simpl.
  - split; [set_solver|]. split; [constructor|set_solver].
  - case_decide as Hx.
    + destruct (IH seen) as (-> & Hn & Hm). split; [set_solver|]. split; [done|]. intros a. rewrite Hm. set_solver.
    + destruct (IH ({[x]} ∪ seen)) as (Hs & Hn & Hm).
      destruct (dedup_from ({[x]} ∪ seen) items) as [kept s]. simpl in *.
      split; [set_solver|]. split; [constructor; [rewrite Hm; set_solver|done]|].
      intros a. rewrite !elem_of_cons, Hm. destruct (decide (a = x)); set_solver.
Qed.

Lemma dedup_from_id seen items :
  NoDup items -> (forall a, a ∈ items -> a ∉ seen) -> (dedup_from seen items).1 = items.
Proof.
  revert seen. induction items as [|x items IH]; intros seen Hn Hs; [done|]. apply NoDup_cons in Hn as [Hx Hn].
  simpl. rewrite decide_False by (apply Hs; set_solver).
  specialize (IH ({[x]} ∪ seen) Hn). destruct (dedup_from ({[x]} ∪ seen) items) as [kept s]. simpl in *.
  f_equal. apply IH. set_solver.
Qed.

Lemma push_new_dedup kept s l : push_new kept s l = kept ++ (dedup_from s l).1.
Proof.
  revert kept s. induction l as [|x l IH]; intros kept s; simpl; [by rewrite app_nil_r|].
  case_decide; [apply IH|]. rewrite IH, <- app_assoc. by destruct (dedup_from ({[x]} ∪ s) l).
Qed.

(** [add_addrs] keeps the addresses without duplicates and adds the new ones. *)
Lemma add_addrs_spec d l :
  NoDup (data_addrs d) ->
  exists new, data_addrs (add_addrs d l) = data_addrs d ++ new /\ NoDup (data_addrs d ++ new) /\
    (forall a, a ∈ data_addrs d ++ new <-> a ∈ data_addrs d \/ a ∈ l).
Proof.
  intros Hn. unfold add_addrs, dedup. destruct (dedup_from ∅ (data_addrs d)) as [kept s] eqn:E.
  pose proof (dedup_from_spec ∅ (data_addrs d)) as (Hs & _ & _). rewrite E in Hs. simpl in Hs.
  pose proof (dedup_from_id ∅ (data_addrs d) Hn ltac:(set_solver)) as Hk. rewrite E in Hk. simpl in Hk. subst kept s.
  simpl. rewrite push_new_dedup. eexists. split; [done|].
  destruct (dedup_from_spec (list_to_set (data_addrs d) ∪ ∅) l) as (_ & Hn' & Hm). split.
  - apply NoDup_app. split; [done|]. split; [|done]. intros a Ha Hb%Hm. set_solver.
  - intros a. rewrite elem_of_app, Hm. destruct (decide (a ∈ data_addrs d)); set_solver.
Qed.

(** ** Lemmas: attributes *)

Definition attr_get (m : attr_map) (k : IrohAttr) : list string := default [] (m !! k).

Lemma attr_get_push m k v k' :
  attr_get (push_attr m k v) k' = attr_get m k' ++ (if decide (k = k') then [v] else []).
Proof.
  unfold attr_get, push_attr. case_decide as Hk; [subst; by rewrite lookup_insert_eq|].
  by rewrite lookup_insert_ne, app_nil_r.
Qed.

Definition values_of (k : IrohAttr) (pairs : list (IrohAttr * string)) : list string :=
  omap (fun kv => if decide (kv.1 = k) then Some kv.2 else None) pairs.

Lemma values_of_app k a b : values_of k (a ++ b) = values_of k a ++ values_of k b.
Proof. apply omap_app. Qed.

Lemma attr_get_from_parts id pairs k : attr_get (txt_attrs (TxtAttrs_from_parts id pairs)) k = values_of k pairs.
Proof.
  unfold TxtAttrs_from_parts. cbn [txt_attrs].
  assert (H : forall m, attr_get (fold_left (fun m '(k, v) => push_attr m k v) pairs m) k = attr_get m k ++ values_of k pairs).
  { induction pairs as [|[k' v] pairs IH]; intros m; simpl; [by rewrite app_nil_r|].
    rewrite IH, attr_get_push, <- app_assoc. f_equal. by case_decide. }
  by rewrite H.
Qed.

(** The value as the parser sees it: what comes before the next equals sign. *)
Definition before_equals (v : string) : string :=
  match str_split equals_sign v with
  | p :: _ => p
  | [] => EmptyString
  end.

Lemma before_equals_lacks v : lacks equals_sign v = true -> before_equals v = v.
Proof. intros H. unfold before_equals. by rewrite str_split_lacks. Qed.

Lemma split_attr_string k v : exists rest,
  str_split equals_sign (attr_to_string k ++ String equals_sign v)%string =
  attr_to_string k :: before_equals v :: rest.
Proof.
  rewrite str_split_sep by by destruct k. unfold before_equals.
  destruct (str_split_nonempty equals_sign v) as (p & ps & ->). eauto.
Qed.

Lemma attr_from_to_string k : attr_from_str (attr_to_string k) = Some k.
Proof. by destruct k. Qed.

Definition attr_strings (k : IrohAttr) (vs : list string) : list string :=
  map (fun v => attr_to_string k ++ String equals_sign v)%string vs.

(** Reading the strings of one attribute appends their values to it. *)
Lemma attrs_from_strings_key m k vs rest :
  exists m', attrs_from_strings m (attr_strings k vs ++ rest) = attrs_from_strings m' rest /\
    forall k', attr_get m' k' = attr_get m k' ++ (if decide (k = k') then map before_equals vs else []).
Proof.
  revert m. induction vs as [|v vs IH]; intros m.
  - exists m. split; [done|]. intros k'. case_decide; by rewrite app_nil_r.
  - destruct (IH (push_attr m k (before_equals v))) as (m' & Hm' & Hget). exists m'. split.
    + cbn [attr_strings map app attrs_from_strings]. destruct (split_attr_string k v) as (ps & ->).
      rewrite attr_from_to_string. exact Hm'.
    + intros k'. rewrite Hget, attr_get_push, <- app_assoc. by case_decide.
Qed.

Lemma from_strings_to_strings id a :
  exists m, TxtAttrs_from_strings id (to_txt_strings a) = Ok (mkTxtAttrs id m) /\
    forall k, attr_get m k = map before_equals (attr_get (txt_attrs a) k).
Proof.
  unfold TxtAttrs_from_strings, to_txt_strings, attr_order. cbn [flat_map].
  change (map (fun v => attr_to_string ?k ++ String equals_sign v)%string ?vs) with (attr_strings k vs).
  destruct (attrs_from_strings_key ∅ AttrRelay (default [] (txt_attrs a !! AttrRelay))
    (attr_strings AttrAddr (default [] (txt_attrs a !! AttrAddr)) ++
     attr_strings AttrUserData (default [] (txt_attrs a !! AttrUserData)) ++ [])) as (m1 & -> & H1).
  destruct (attrs_from_strings_key m1 AttrAddr (default [] (txt_attrs a !! AttrAddr))
    (attr_strings AttrUserData (default [] (txt_attrs a !! AttrUserData)) ++ [])) as (m2 & -> & H2).
  destruct (attrs_from_strings_key m2 AttrUserData (default [] (txt_attrs a !! AttrUserData)) []) as (m3 & -> & H3).
  exists m3. split; [done|]. intros k. rewrite H3, H2, H1.
  unfold attr_get at 1. rewrite lookup_empty. by destruct k; simpl; rewrite ?app_nil_r.
Qed.

(** ** Lemmas: the text of an address has no equals sign *)

Lemma lacks_show_digits c ds rest :
  radix16_value c = None -> Forall (fun d => 0 <= d < 16) ds ->
  lacks c (show_digits ds rest) = lacks c rest.
Proof.
  intros Hc Hds. induction Hds as [|d ds Hd Hds IH]; [done|].
  change (show_digits (d :: ds) rest) with (String (hex_digit d) (show_digits ds rest)).
  change (lacks c (String (hex_digit d) (show_digits ds rest))) with
    (negb (Ascii.eqb (hex_digit d) c) && lacks c (show_digits ds rest)).
  by rewrite hex_digit_ne, IH by done.
Qed.

Lemma lacks_dec n rest : lacks equals_sign (show_digits (to_digits 10 20 n) rest) = lacks equals_sign rest.
Proof.
  apply lacks_show_digits; [done|]. eapply Forall_impl; [apply (to_digits_bound 10); lia|]. simpl. lia.
Qed.

Lemma lacks_hex n rest : lacks equals_sign (show_digits (to_digits 16 16 n) rest) = lacks equals_sign rest.
Proof. apply lacks_show_digits; [done|]. apply to_digits_bound. lia. Qed.

Lemma lacks_other c s : c <> equals_sign -> lacks equals_sign (String c s) = lacks equals_sign s.
Proof. intros H. unfold lacks. simpl str_forall. apply Ascii.eqb_neq in H. by rewrite H. Qed.

Create HintDb text.
Hint Rewrite lacks_dec lacks_hex : text.
Hint Rewrite (lacks_other dot) (lacks_other colon) (lacks_other percent)
  (lacks_other open_bracket) (lacks_other close_bracket) using done : text.

Lemma lacks_fmt_more segs rest : lacks equals_sign (fmt_more segs rest) = lacks equals_sign rest.
Proof. induction segs as [|g segs IH]; [done|]. cbn [fmt_more]. by autorewrite with text. Qed.

Lemma lacks_fmt_subslice segs rest : lacks equals_sign (fmt_subslice segs rest) = lacks equals_sign rest.
Proof. destruct segs; [done|]. cbn [fmt_subslice]. autorewrite with text. apply lacks_fmt_more. Qed.

Lemma lacks_fmt_ipv4 ip rest : lacks equals_sign (fmt_ipv4 ip rest) = lacks equals_sign rest.
Proof.
  unfold fmt_ipv4. destruct (map byte.unsigned ip) as [|a [|b [|c [|d [|]]]]]; try done. by autorewrite with text.
Qed.

Lemma lacks_socket_addr a : lacks equals_sign (SocketAddr_to_string a) = true.
Proof.
  assert (Hport : forall port, lacks equals_sign (fmt_port port EmptyString) = true).
  { intros port. unfold fmt_port. by autorewrite with text. }
  destruct a as [ip port|ip port flowinfo scope]; cbn [SocketAddr_to_string].
  - by rewrite lacks_fmt_ipv4.
  - assert (Hip : forall rest, lacks equals_sign (fmt_ipv6 ip rest) = lacks equals_sign rest).
    { intros rest. unfold fmt_ipv6. destruct (to_canonical ip).
      - autorewrite with text. apply lacks_fmt_ipv4.
      - case_match; [|apply lacks_fmt_subslice]. rewrite lacks_fmt_subslice. autorewrite with text.
        apply lacks_fmt_subslice. }
    autorewrite with text. rewrite Hip. case_match; autorewrite with text; apply Hport.
Qed.

Section TextFacts.
Context {Ed : Ed25519} {De : DataEncoding} {Uc : UrlCrate}.
Context {EdL : Ed25519Laws Ed} {DeL : DataEncodingLaws De}.

Lemma lower_hex_lacks s : str_forall is_lower_hex s = true -> lacks equals_sign s = true.
Proof.
  apply str_forall_impl. intros c H. destruct (Ascii.eqb_spec c equals_sign) as [->|]; done.
Qed.

(** An address as the endpoint builds it: a URL is its own serialization, a
    socket address has no flow information, a custom address is made of parts. *)
Definition addr_wf (a : TransportAddr) : Prop :=
  match a with
  | TransportRelay url => url_parse url = Some url
  | TransportIp addr => SocketAddr_wf addr
  | TransportCustom c => exists n d, 0 <= n < 2 ^ 64 /\ c = from_parts n d
  end.

Lemma custom_text n d :
  0 <= n < 2 ^ 64 ->
  exists s, (forall E, CustomAddr_to_string (E := E) (from_parts n d) = Ok s) /\
    lacks equals_sign s = true /\ parse_addr s = Some (TransportCustom (from_parts n d)).
Proof.
  intros Hn. exists (lower_hex n ++ String underscore (hexlower_encode d))%string. split_and!.
  - intros E. unfold CustomAddr_to_string. cbn [data from_parts]. by rewrite copy_from_slice_as_bytes.
  - unfold lower_hex. rewrite hex_digits_show, show_digits_append. autorewrite with text.
    apply (lower_hex_lacks (hexlower_encode d)), hexlower_symbols.
  - unfold parse_addr. rewrite custom_text_not_socket.
    destruct (custom_addr_text_roundtrip n d Hn) as (s & Hs & Hp).
    unfold CustomAddr_to_string in Hs. cbn [data from_parts] in Hs. rewrite copy_from_slice_as_bytes in Hs.
    injection Hs as <-. by rewrite Hp.
Qed.

(** The addresses other than relays. *)
Definition direct (l : list TransportAddr) : list TransportAddr := List.filter (fun a => negb (is_relay a)) l.

Definition relays_of (l : list TransportAddr) : list RelayUrl :=
  omap (fun a => if a is TransportRelay u then Some u else None) l.

Lemma list_omap_fmap' {A B C} (f : A -> B) (g : B -> option C) l : omap g (map f l) = omap (fun a => g (f a)) l.
Proof. induction l as [|a l IH]; [done|]. cbn. by rewrite IH. Qed.

Lemma addr_pairs_values l :
  Forall addr_wf l ->
  exists pairs, (forall E, addr_pairs (E := E) l = Ok pairs) /\ values_of AttrRelay pairs = relays_of l /\
    values_of AttrUserData pairs = [] /\
    Forall2 (fun s a => parse_addr (before_equals s) = Some a) (values_of AttrAddr pairs) (direct l).
Proof.
  intros Hl. induction Hl as [|a l Ha Hl (pairs & Hp & Hr & Hu & Hd)].
  - exists []. by split_and!; [..|constructor].
  - destruct a as [url|addr|c].
    + exists ((AttrRelay, url) :: pairs). split_and!; [|by simpl; f_equal|done|done].
      intros E. cbn [addr_pairs rbind]. by rewrite Hp.
    + exists ((AttrAddr, SocketAddr_to_string addr) :: pairs).
      split_and!; [|done|done|].
      * intros E. cbn [addr_pairs rbind]. by rewrite Hp.
      * change (values_of AttrAddr ((AttrAddr, ?s) :: pairs)) with (s :: values_of AttrAddr pairs).
        constructor; [|done]. rewrite before_equals_lacks by apply lacks_socket_addr.
        unfold parse_addr. by rewrite socket_addr_text_roundtrip.
    + destruct Ha as (n & d & Hn & ->). destruct (custom_text n d Hn) as (s & Hs & Hls & Hps).
      exists ((AttrAddr, s) :: pairs). split_and!; [|done|done|].
      * intros E. cbn [addr_pairs rbind]. rewrite Hs. cbn [rmap rbind]. by rewrite Hp.
      * change (values_of AttrAddr ((AttrAddr, s) :: pairs)) with (s :: values_of AttrAddr pairs).
        constructor; [|done]. by rewrite before_equals_lacks.
Qed.

Lemma Forall2_omap {A B} (f : A -> option B) l k : Forall2 (fun a b => f a = Some b) l k -> omap f l = k.
Proof. induction 1 as [|a b l k Hab _ IH]; [done|]. cbn. by rewrite Hab, IH. Qed.

Lemma Forall2_NoDup {A B} (f : A -> option B) l k : Forall2 (fun a b => f a = Some b) l k -> NoDup k -> NoDup l.
Proof.
  induction 1 as [|a b l k Hab H IH]; [constructor|]. intros [Hb Hk]%NoDup_cons. constructor; [|by apply IH].
  intros [i Hi]%list_elem_of_lookup. apply Hb. destruct (Forall2_lookup_l _ _ _ _ _ H Hi) as (b' & Hin & Hab').
  assert (b' = b) as -> by congruence. by apply list_elem_of_lookup_2 with i.
Qed.

Lemma attr_strings_NoDup k vs : NoDup vs -> NoDup (attr_strings k vs).
Proof.
  intros H. apply NoDup_fmap_2_strong; [|done]. intros v w _ _ Heq. apply str_app_inj in Heq. by injection Heq.
Qed.

(** The key of a string. *)
Lemma attr_string_key k v s : s ∈ attr_strings k v -> exists rest, str_split equals_sign s = attr_to_string k :: rest.
Proof. intros (w & -> & _)%list_elem_of_fmap. destruct (split_attr_string k w) as (rest & ->). eauto. Qed.

Lemma to_txt_strings_NoDup a : (forall k, NoDup (attr_get (txt_attrs a) k)) -> NoDup (to_txt_strings a).
Proof.
  intros H. unfold to_txt_strings, attr_order. cbn [flat_map].
  change (map (fun v => attr_to_string ?k ++ String equals_sign v)%string ?vs) with (attr_strings k vs).
  rewrite app_nil_r. apply NoDup_app. split_and!; [apply attr_strings_NoDup, H| |].
  - intros s Hs Hs'. destruct (attr_string_key _ _ _ Hs) as (rest & Hr).
    apply elem_of_app in Hs' as [Hs'|Hs']; destruct (attr_string_key _ _ _ Hs') as (rest' & Hr');
      rewrite Hr in Hr'; discriminate Hr'.
  - apply NoDup_app. split_and!; [apply attr_strings_NoDup, H| |apply attr_strings_NoDup, H].
    intros s Hs Hs'. destruct (attr_string_key _ _ _ Hs) as (rest & Hr), (attr_string_key _ _ _ Hs') as (rest' & Hr').
    rewrite Hr in Hr'. discriminate Hr'.
Qed.

Lemma relays_of_NoDup l : NoDup l -> NoDup (relays_of l).
Proof.
  induction 1 as [|a l Ha Hl IH]; [constructor|]. unfold relays_of. cbn. destruct a as [u| |]; try done.
  constructor; [|done]. intros (a & Hin & Heq)%list_elem_of_omap. destruct a; by simplify_eq.
Qed.


Lemma attrs_from_strings_no_panic strings m : attrs_from_strings m strings <> Panic.
Proof.
  revert m. induction strings as [|s strings IH]; intros m; [done|]. cbn [attrs_from_strings].
  destruct (str_split equals_sign s) as [|k [|v vs]]; try done. destruct (attr_from_str k); [apply IH|done].
Qed.

Lemma txt_name_no_panic name : endpoint_id_from_txt_name name <> Panic.
Proof.
  unfold endpoint_id_from_txt_name, ensure. destruct (str_split dot_char name) as [|label [|l2 ls]]; try done.
  case_match; [|done]. cbn [rbind]. unfold from_z32. destruct (z32_decode l2) as [bs|]; [|done].
  cbn [ok_or rbind]. rewrite try_from_from_bytes. pose proof (from_bytes_no_panic bs).
  by destruct (PublicKey_from_bytes bs).
Qed.

Lemma txt_name_id id origin :
  valid_key id ->
  endpoint_id_from_txt_name (IROH_TXT_NAME ++ String dot_char (to_z32 id ++ String dot_char origin))%string = Ok id.
Proof.
  intros Hid. unfold endpoint_id_from_txt_name. rewrite str_split_sep, str_split_sep; [| |done].
  - unfold from_z32, to_z32. rewrite z32_roundtrip. cbn [ok_or rbind ensure].
    by rewrite try_from_from_bytes, from_bytes_as_bytes.
  - apply (str_forall_impl is_lower_alnum); [|apply z32_symbols].
    intros c Hc. destruct (Ascii.eqb_spec c dot_char) as [->|]; done.
Qed.

(** What the parser makes of the published strings. *)
Definition parsed_relays (l : list TransportAddr) : list TransportAddr :=
  omap (fun u => TransportRelay <$> url_parse (before_equals u)) (relays_of l).

Lemma parsed_relays_map l :
  omap (fun s => TransportRelay <$> url_parse s) (map before_equals (relays_of l)) = parsed_relays l.
Proof.
  unfold parsed_relays. generalize (relays_of l). intros r. induction r as [|x r IH]; [done|]. cbn. by rewrite IH.
Qed.

Definition cut_user_data (u : UserData) : UserData := mkUserData (before_equals (user_str u)).

Definition user_data_wf (u : option UserData) : Prop :=
  match u with
  | Some u => (String.length (user_str u) <= MAX_LENGTH)%nat
  | None => True
  end.

Lemma before_equals_length v : (String.length (before_equals v) <= String.length v)%nat.
Proof.
  unfold before_equals. induction v as [|c v IH]; simpl; [lia|].
  destruct (str_split_nonempty equals_sign v) as (p & ps & Hp). rewrite Hp in IH |- *.
  destruct (Ascii.eqb c equals_sign); simpl; lia.
Qed.

Lemma user_data_parsed u : user_data_wf (Some u) -> to_ok (UserData_from_str (before_equals (user_str u))) = Some (cut_user_data u).
Proof.
  intros Hu. unfold UserData_from_str, ensure. simpl in Hu. pose proof (before_equals_length (user_str u)).
  by destruct (Nat.leb_spec (String.length (before_equals (user_str u))) MAX_LENGTH); [|lia].
Qed.

Lemma parsed_relays_exact l :
  Forall addr_wf l -> Forall (fun u => lacks equals_sign u = true) (relays_of l) ->
  parsed_relays l = List.filter is_relay l.
Proof.
  unfold parsed_relays. intros Hl. induction Hl as [|a l Ha Hl IH]; [done|].
  destruct a as [url|addr|c]; [|by apply IH..]. intros Hr. cbn in Hr. apply Forall_cons in Hr as [Hu Hr]. cbn.
  rewrite before_equals_lacks by done. simpl in Ha. rewrite Ha. simpl. f_equal. by apply IH.
Qed.

Lemma relay_direct_NoDup l : NoDup l -> NoDup (List.filter is_relay l ++ direct l).
Proof.
  intros Hl. apply NoDup_app. split_and!.
  - apply NoDup_ListNoDup, List.NoDup_filter. by apply NoDup_ListNoDup.
  - intros a [Ha Hra]%list_elem_of_In%filter_In [_ Hda]%list_elem_of_In%filter_In. by rewrite Hra in Hda.
  - apply NoDup_ListNoDup, List.NoDup_filter. by apply NoDup_ListNoDup.
Qed.

(** An info whose fields are as their types promise. *)
Record info_wf (i : EndpointInfo) : Prop := mkInfoWf {
  info_wf_id : valid_key (info_endpoint_id i);
  info_wf_addrs : Forall addr_wf (data_addrs (info_data i));
  info_wf_nodup : NoDup (data_addrs (info_data i));
  info_wf_user : user_data_wf (data_user_data (info_data i))
}.

Lemma radix16_digits_bound s acc n : radix16_digits s acc = Some n -> 0 <= acc <= u64_max -> 0 <= n <= u64_max.
Proof.
  revert acc. induction s as [|c s IH]; intros acc H Ha; cbn [radix16_digits] in H; [by simplify_eq|].
  destruct (radix16_value c) as [d|] eqn:E; [|done]. case_match eqn:El; [|done].
  apply (IH _ H). apply Z.leb_le in El. split; [|done].
  assert (to_digit 16 c = Some d \/ to_digit 16 c = None) as [Ht|Ht] by (unfold to_digit; rewrite E; case_match; eauto).
  - apply to_digit_nonneg in Ht. lia.
  - unfold to_digit in Ht. rewrite E in Ht. destruct (Z.ltb_spec d 16); [done|lia].
Qed.

Lemma CustomAddr_from_str_wf s c : CustomAddr_from_str s = Ok c -> addr_wf (TransportCustom c).
Proof.
  unfold CustomAddr_from_str. destruct (split_underscore s) as [[a b]|]; [|done]. cbn [ok_or rbind].
  destruct (u64_from_hex a) as [n|] eqn:En; [|done]. cbn [ok_or rbind].
  destruct (hexlower_decode b) as [d|]; [|done]. intros [= <-]. exists n, d. split; [|done].
  assert (0 <= n <= u64_max); [|unfold u64_max in *; lia].
  unfold u64_from_hex in En. destruct a as [|ch a]; [done|].
  assert (0 <= 0 <= u64_max) by (unfold u64_max; lia).
  destruct (Ascii.eqb ch plus_sign); [destruct a; [done|]|]; by eapply radix16_digits_bound.
Qed.

Lemma parse_addr_wf s a : parse_addr s = Some a -> addr_wf a.
Proof.
  unfold parse_addr. destruct (SocketAddr_from_str s) as [addr|] eqn:E.
  - intros [= <-]. by apply SocketAddr_from_str_wf in E.
  - destruct (CustomAddr_from_str s) as [c| |] eqn:Ec; intros [= <-]. by eapply CustomAddr_from_str_wf.
Qed.

Lemma from_attrs_wf {UcL : UrlCrateLaws Uc} attrs :
  valid_key (txt_endpoint_id attrs) -> info_wf (endpoint_info_from_attrs attrs).
Proof.
  intros Hid. unfold endpoint_info_from_attrs. cbv zeta.
  set (l := omap _ _ ++ omap _ _).
  set (user := match default [] (txt_attrs attrs !! AttrUserData) with s :: _ => _ | [] => None end).
  assert (Hl : Forall addr_wf l).
  { apply Forall_app. split; apply Forall_forall; intros a (s & Hs & Ha)%list_elem_of_omap.
    - destruct (url_parse s) as [u|] eqn:E; [|done]. injection Ha as <-. by eapply url_parse_idempotent.
    - by eapply parse_addr_wf. }
  destruct (add_addrs_spec (set_user_data EndpointData_default user) l ltac:(constructor)) as (new & Hnew & Hn & Hm).
  constructor; cbn [info_endpoint_id info_data]; [done|..].
  - rewrite Hnew. apply Forall_forall. intros a Ha%Hm. destruct Ha as [Ha|Ha]; [by apply elem_of_nil in Ha|].
    by eapply Forall_forall in Hl.
  - by rewrite Hnew.
  - assert (data_user_data (add_addrs (set_user_data EndpointData_default user) l) = user) as -> by done.
    clear. subst user. destruct (default [] (txt_attrs attrs !! AttrUserData)) as [|s ss]; [exact I|].
    unfold UserData_from_str, ensure. by destruct (Nat.leb_spec (String.length s) MAX_LENGTH).
Qed.

(** C40: Whatever the TXT records of a name contain, a parsed endpoint info is
    well formed: a valid key, normalized relay URLs, socket addresses within
    their ranges, custom addresses of a 64-bit id, no address twice, user data of
    at most 245 bytes. The parser never panics. *)
Theorem parsed_info_wf {UcL : UrlCrateLaws Uc} name lookup :
  match info_from_txt_lookup name lookup with
  | Ok info => info_wf info
  | Err _ => True
  | Panic => False
  end.
Proof.
  unfold info_from_txt_lookup, attrs_from_txt_lookup.
  destruct (endpoint_id_from_txt_name name) as [id|e|] eqn:Eid; cbn [rbind rmap].
  - assert (Hid : valid_key id).
    { unfold endpoint_id_from_txt_name in Eid. destruct (str_split dot_char name) as [|label [|l2 ls]]; try done.
      destruct (ensure _ _); try done. cbn [rbind] in Eid. unfold from_z32 in Eid.
      destruct (z32_decode l2) as [bs|]; [|done]. cbn [ok_or rbind] in Eid. rewrite try_from_from_bytes in Eid.
      destruct (PublicKey_from_bytes bs) eqn:Eb; try done. injection Eid as <-. by apply from_bytes_ok in Eb as [_ ?]. }
    unfold TxtAttrs_from_strings.
    pose proof (attrs_from_strings_no_panic lookup ∅) as Hp.
    destruct (attrs_from_strings ∅ lookup) as [m| |]; [by apply from_attrs_wf|done|done].
  - done.
  - by apply txt_name_no_panic in Eid.
Qed.

(** The strings of an info, read back under its id. *)
Lemma info_strings_parse info :
  Forall addr_wf (data_addrs (info_data info)) -> user_data_wf (data_user_data (info_data info)) ->
  let id := info_endpoint_id info in
  let l := data_addrs (info_data info) in
  exists strings, (forall E, info_to_txt_strings (E := E) info = Ok strings) /\
    rmap endpoint_info_from_attrs (TxtAttrs_from_strings id strings) =
      Ok (mkEndpointInfo id (mkEndpointData (dedup (parsed_relays l ++ direct l)).1
                               (cut_user_data <$> data_user_data (info_data info)))).
Proof.
  intros Hl Hu id l. destruct (addr_pairs_values l Hl) as (pairs & Hp & Hr & Hnu & Hd).
  set (user := data_user_data (info_data info)) in *.
  set (u := match user with Some u => [(AttrUserData, user_str u)] | None => [] end).
  exists (to_txt_strings (TxtAttrs_from_parts id (pairs ++ u))). split.
  { intros E. unfold info_to_txt_strings, endpoint_info_to_attrs. fold l. by rewrite Hp. }
  destruct (from_strings_to_strings id (TxtAttrs_from_parts id (pairs ++ u))) as (m & -> & Hm).
  cbn [rmap rbind]. f_equal. unfold endpoint_info_from_attrs. cbn [txt_endpoint_id txt_attrs].
  change (default [] (m !! ?k)) with (attr_get m k). rewrite !Hm, !attr_get_from_parts, !values_of_app, Hr, Hnu.
  assert (Hu' : values_of AttrRelay u = [] /\ values_of AttrAddr u = [] /\
    values_of AttrUserData u = match user with Some ud => [user_str ud] | None => [] end).
  { subst u. by destruct user. }
  destruct Hu' as (-> & -> & ->). rewrite !app_nil_r, (list_omap_fmap' before_equals parse_addr), (Forall2_omap _ _ _ Hd), parsed_relays_map.
  unfold add_addrs, dedup. cbn [set_user_data data_addrs EndpointData_default dedup_from data_user_data].
  rewrite push_new_dedup, app_nil_l. do 2 f_equal.
  destruct user as [ud|]; [|done]. cbn [app map]. by rewrite user_data_parsed.
Qed.

(** No string is published twice. *)
Lemma info_strings_NoDup info strings :
  info_wf info -> info_to_txt_strings (E := ParseError) info = Ok strings -> NoDup strings.
Proof.
  intros [Hid Hl Hn Hu] H. destruct (addr_pairs_values _ Hl) as (pairs & Hp & Hr & Hnu & Hd).
  unfold info_to_txt_strings, endpoint_info_to_attrs in H. rewrite Hp in H. cbn [rmap rbind] in H. injection H as <-.
  apply to_txt_strings_NoDup. intros k. rewrite attr_get_from_parts, values_of_app.
  destruct k.
  - rewrite Hr. destruct (data_user_data _); simpl; rewrite app_nil_r; by apply relays_of_NoDup.
  - assert (NoDup (values_of AttrAddr pairs)).
    { eapply Forall2_NoDup; [exact Hd|]. by apply relay_direct_NoDup, NoDup_app in Hn as (_ & _ & ?). }
    destruct (data_user_data _); simpl; by rewrite app_nil_r.
  - rewrite Hnu. destruct (data_user_data _); simpl; [apply NoDup_singleton|constructor].
Qed.

(** Without equals signs nothing is cut. *)
Definition no_equals (d : EndpointData) : Prop :=
  Forall (fun u => lacks equals_sign u = true) (relays_of (data_addrs d)) /\
  (forall u, data_user_data d = Some u -> lacks equals_sign (user_str u) = true).

Lemma parsed_exact d :
  Forall addr_wf (data_addrs d) -> NoDup (data_addrs d) -> no_equals d ->
  mkEndpointData (dedup (parsed_relays (data_addrs d) ++ direct (data_addrs d))).1 (cut_user_data <$> data_user_data d) =
  mkEndpointData (List.filter is_relay (data_addrs d) ++ direct (data_addrs d)) (data_user_data d).
Proof.
  intros Hl Hn [Hru Huser]. rewrite parsed_relays_exact by done. f_equal.
  - apply dedup_from_id; [by apply relay_direct_NoDup|set_solver].
  - destruct (data_user_data d) as [[ud]|]; [|done]. simpl. unfold cut_user_data.
    rewrite before_equals_lacks; [done|]. by apply (Huser (mkUserData ud)).
Qed.

(** The same data up to the order of the addresses. *)
Definition same_data (d d' : EndpointData) : Prop :=
  data_addrs d' ≡ₚ data_addrs d /\ data_user_data d' = data_user_data d.

Lemma relay_direct_Permutation l : List.filter is_relay l ++ direct l ≡ₚ l.
Proof.
  induction l as [|a l IH]; [done|]. unfold direct in *. simpl. destruct (is_relay a); simpl; [by rewrite IH|].
  by rewrite <- Permutation_middle, IH.
Qed.

Lemma parsed_same d :
  Forall addr_wf (data_addrs d) -> NoDup (data_addrs d) -> no_equals d ->
  same_data d (mkEndpointData (dedup (parsed_relays (data_addrs d) ++ direct (data_addrs d))).1
                 (cut_user_data <$> data_user_data d)).
Proof. intros Hl Hn Hne. rewrite parsed_exact by done. split; [apply relay_direct_Permutation|done]. Qed.

(** Endpoint info published as TXT records parses back. The parser finds the
    endpoint id in the record's name, every direct and custom address in its
    order, the relays before them, and the user data; but a relay URL or user
    data with an equals sign is cut at it, because the value is only the second
    piece between equals signs. Without equals signs nothing but the position of
    the relays changes. *)
Theorem endpoint_info_txt_roundtrip info origin :
  info_wf info ->
  let id := info_endpoint_id info in
  let d := info_data info in
  let parsed := mkEndpointData (dedup (parsed_relays (data_addrs d) ++ direct (data_addrs d))).1
                               (cut_user_data <$> data_user_data d) in
  exists strings, info_to_txt_strings (E := ParseError) info = Ok strings /\
    info_from_txt_lookup (IROH_TXT_NAME ++ String dot_char (to_z32 id ++ String dot_char origin))%string strings =
      Ok (mkEndpointInfo id parsed) /\
    (no_equals d -> parsed = mkEndpointData (List.filter is_relay (data_addrs d) ++ direct (data_addrs d)) (data_user_data d)).
Proof.
  intros [Hid Hl Hn Hu] id d parsed. destruct (info_strings_parse info Hl Hu) as (strings & Hs & Hp).
  exists strings. split; [done|]. split; [|intros Hne; by apply parsed_exact].
  unfold info_from_txt_lookup, attrs_from_txt_lookup. rewrite txt_name_id by done. exact Hp.
Qed.

End TextFacts.

Definition example_id : EndpointId := mkPublicKey (replicate 32 Byte.x07).

Definition example_info : EndpointInfo :=
  mkEndpointInfo example_id (mkEndpointData
    [TransportIp (SocketV4 [Byte.x7f; Byte.x00; Byte.x00; Byte.x01] 443); TransportRelay "https://relay.example/"]
    (Some (mkUserData "role=server"))).

Lemma example_info_wf : @info_wf checksum_keys scheme_urls example_info.
Proof.
  constructor.
  - vm_compute. eauto.
  - apply Forall_cons. split; [by unfold addr_wf, SocketAddr_wf, u16; split; [reflexivity|lia]|].
    apply Forall_singleton. reflexivity.
  - apply (bool_decide_unpack _). vm_compute. exact I.
  - simpl. unfold MAX_LENGTH. lia.
Qed.

Lemma endpoint_info_txt_roundtrip_witness :
  let d := info_data example_info in
  let parsed := mkEndpointData (dedup (@parsed_relays scheme_urls (data_addrs d) ++ direct (data_addrs d))).1
                               (cut_user_data <$> data_user_data d) in
  exists strings, @info_to_txt_strings data_encoding ParseError example_info = Ok strings /\
    @info_from_txt_lookup checksum_keys data_encoding scheme_urls
      (IROH_TXT_NAME ++ String dot_char (@to_z32 data_encoding example_id ++ String dot_char "example"))%string strings =
      Ok (mkEndpointInfo example_id parsed) /\
    (no_equals d -> parsed = mkEndpointData (List.filter is_relay (data_addrs d) ++ direct (data_addrs d)) (data_user_data d)).
Proof.
  apply (@endpoint_info_txt_roundtrip checksum_keys data_encoding scheme_urls checksum_keys_laws
           data_encoding_laws example_info "example"), example_info_wf.
Defined.

Lemma parsed_info_wf_witness :
  match @info_from_txt_lookup checksum_keys data_encoding scheme_urls "_iroh.07" ["addr=127.0.0.1:80"] with
  | Ok info => @info_wf checksum_keys scheme_urls info
  | Err _ => True
  | Panic => False
  end.
Proof.
  apply (@parsed_info_wf checksum_keys data_encoding scheme_urls checksum_keys_laws scheme_urls_laws).
Defined.

Example user_data_is_cut : cut_user_data (mkUserData "role=server") = mkUserData "role".
Proof. reflexivity. Qed.

End Info.
