(* ===== verification/Pkarr.v ===== *)
(** * Signed packets

    [iroh-dns/src/pkarr.rs]: DNS packets signed by the endpoint they are about,
    and the monotonic timestamps that order them. The methods of
    [iroh-dns/src/attrs.rs] and [endpoint_info.rs] that go through them. The DNS
    wire format is that of the [simple_dns] crate. *)

From Stdlib Require Import Sorted.
From S2P Require Import Prelude External Instances Keys Addrs NetText EndpointInfo.
Import Addrs NetText Info.

Module Pkarr.

(** ** Sizes and errors *)

Definition MAX_DNS_PACKET_SIZE : Z := 1000.
Definition HEADER_SIZE : Z := 104.
Definition MAX_SIGNED_PACKET_SIZE : Z := HEADER_SIZE + MAX_DNS_PACKET_SIZE.

Inductive SignedPacketBuildError :=
| PacketTooLarge (len : Z)
| BuildDnsError.

Inductive SignedPacketVerifyError :=
| TooShort (len : Z)
| TooLarge (len : Z)
| PacketSignatureError (source : SignatureError)
| VerifyDnsError
| InvalidKey (source : KeyParsingError).

Record SignedPacket := mkSignedPacket { packet_bytes : bytes }.

(** [signable]: the bencoded sequence number and value of BEP 44. *)
Definition signable (timestamp : Z) (v : bytes) : bytes :=
  String.list_byte_of_string
    ("3:seqi" ++ show_dec timestamp ++ "e1:v" ++ show_dec (blen v) ++ ":")%string ++ v.

(** [ends_with('.')] and the slice without the last character. *)
Fixpoint strip_dot (s : string) : string :=
  match s with
  | EmptyString => EmptyString
  | String c EmptyString => if Ascii.eqb c dot_char then EmptyString else s
  | String c s => String c (strip_dot s)
  end.

Definition normalize_name (origin name : string) : string :=
  let name := strip_dot name in
  let last := default EmptyString (last (str_split dot_char name)) in
  if (last =? origin)%string then name
  else if (last =? "@")%string || (last =? "")%string then origin
  else (name ++ String dot_char origin)%string.

(** ** Timestamps

    [Timestamp::now]: the last timestamp is a shared atomic. A call reads the
    clock, loads the last timestamp and tries to exchange it until it succeeds;
    a failed or spurious exchange loads it again. *)

Inductive now_phase :=
| Trying (micros last : Z)
| Returned (timestamp : Z).

Record clock_state := mkClock {
  last_timestamp : Z;
  calls : gmap nat now_phase;
  returned : list Z            (* newest first *)
}.

Inductive now_step : clock_state -> clock_state -> Prop :=
| now_start t micros s :
    calls s !! t = None -> 0 <= micros ->
    now_step s (mkClock (last_timestamp s) (<[t := Trying micros (last_timestamp s)]> (calls s)) (returned s))
| now_exchange t micros last s :
    calls s !! t = Some (Trying micros last) -> last_timestamp s = last ->
    let next := Z.max micros (last + 1) in
    now_step s (mkClock next (<[t := Returned next]> (calls s)) (next :: returned s))
| now_retry t micros last s :
    calls s !! t = Some (Trying micros last) ->
    now_step s (mkClock (last_timestamp s) (<[t := Trying micros (last_timestamp s)]> (calls s)) (returned s)).

Definition clock_init : clock_state := mkClock 0 ∅ [].

(** ** Packets *)

Section Packets.
Context {Ed : Ed25519} {De : DataEncoding} {Sd : SimpleDns}.

(** The records of [from_txt_strings]. *)
Fixpoint txt_answers (name : dns_name) (ttl : Z) (values : list string)
    : result SignedPacketBuildError (list (dns_name * Z * option dns_txt)) :=
  match values with
  | [] => Ok []
  | value :: values =>
      let? txt := ok_or (txt_of_string value) BuildDnsError in
      let? rest := txt_answers name ttl values in
      Ok ((name, ttl, Some txt) :: rest)
  end.

(** [timestamp] is what [Timestamp::now] gives. *)
Definition from_txt_strings (secret_key : SecretKey) (name : string) (values : list string) (ttl timestamp : Z)
    : result SignedPacketBuildError SignedPacket :=
  let public_key := public secret_key in
  let dns_name := name_new_unchecked (normalize_name (to_z32 public_key) name) in
  let? answers := txt_answers dns_name ttl values in
  let? encoded_packet := ok_or (packet_build answers) BuildDnsError in
  let? _ := ensure (blen encoded_packet <=? MAX_DNS_PACKET_SIZE) (PacketTooLarge (blen encoded_packet)) in
  let signature := sign secret_key (signable timestamp encoded_packet) in
  Ok (mkSignedPacket (as_bytes public_key ++ sig_bytes signature ++ be_bytes 8 timestamp ++ encoded_packet)).

(** [bytes[a..b]]: panics out of range. *)
Definition slice {E} (bs : bytes) (a b : nat) : result E bytes :=
  if (b <=? length bs)%nat then Ok (take (b - a) (drop a bs)) else Panic.

Definition packet_from_bytes (bs : bytes) : result SignedPacketVerifyError SignedPacket :=
  let? _ := ensure (HEADER_SIZE <=? blen bs) (TooShort (blen bs)) in
  let? _ := ensure (blen bs <=? MAX_SIGNED_PACKET_SIZE) (TooLarge (blen bs)) in
  let? key := slice bs 0 32 in
  let? public_key := map_err InvalidKey (PublicKey_try_from key) in
  let? signature := slice bs 32 96 in
  let? ts := slice bs 96 104 in
  let encoded_packet := drop 104 bs in
  let? _ := map_err PacketSignatureError
    (verify public_key (signable (from_be_bytes ts) encoded_packet) (mkSignature signature)) in
  let? _ := ok_or (packet_parse encoded_packet) VerifyDnsError in
  Ok (mkSignedPacket bs).

Definition from_relay_payload (public_key : PublicKey) (payload : bytes) : result SignedPacketVerifyError SignedPacket :=
  packet_from_bytes (as_bytes public_key ++ payload).

Definition from_bytes_unchecked (bs : bytes) : result SignedPacketVerifyError SignedPacket :=
  let? _ := ensure (HEADER_SIZE <=? blen bs) (TooShort (blen bs)) in
  let? _ := ensure (blen bs <=? MAX_SIGNED_PACKET_SIZE) (TooLarge (blen bs)) in
  let? _ := ok_or (packet_parse (drop 104 bs)) VerifyDnsError in
  Ok (mkSignedPacket bs).

Definition from_parts_unchecked (public_key signature : bytes) (timestamp : Z) (encoded_packet : bytes)
    : result SignedPacketVerifyError SignedPacket :=
  from_bytes_unchecked (public_key ++ signature ++ be_bytes 8 timestamp ++ encoded_packet).

Definition to_relay_payload (p : SignedPacket) : bytes := drop 32 (packet_bytes p).

(** The accessors: the constructors make sure of the lengths, and the checked
    ones of the key. *)
Definition packet_public_key {E} (p : SignedPacket) : result E PublicKey :=
  let? key := slice (packet_bytes p) 0 32 in
  match PublicKey_try_from key with
  | Ok k => Ok k
  | _ => Panic
  end.

Definition packet_signature {E} (p : SignedPacket) : result E Signature :=
  rmap mkSignature (slice (packet_bytes p) 32 96).

Definition packet_timestamp {E} (p : SignedPacket) : result E Z :=
  rmap from_be_bytes (slice (packet_bytes p) 96 104).

Definition encoded_packet (p : SignedPacket) : bytes := drop 104 (packet_bytes p).

(** The value of one answer under [name], for [txt_records]. *)
Definition txt_record (zone : dns_name) (normalized name : string) (rr : dns_name * Z * option dns_txt) : option string :=
  match rr with
  | (rr_name, _, Some txt) =>
      if (name_to_string rr_name =? normalized)%string then txt_to_string txt
      else
        match name_without rr_name zone with
        | Some relative => if (name_to_string relative =? name)%string then txt_to_string txt else None
        | None => None
        end
  | (_, _, None) => None
  end.

Definition txt_records {E} (p : SignedPacket) (name : string) : result E (list string) :=
  let? key := packet_public_key p in
  let origin := to_z32 key in
  match packet_parse (encoded_packet p), name_new origin with
  | Some answers, Some zone => Ok (omap (txt_record zone (normalize_name origin name) name) answers)
  | _, _ => Ok []
  end.

Definition all_txt_record (zone : dns_name) (rr : dns_name * Z * option dns_txt) : option (string * string) :=
  match rr with
  | (rr_name, _, Some txt) =>
      match txt_to_string txt with
      | Some value => Some (default EmptyString (name_to_string <$> name_without rr_name zone), value)
      | None => None
      end
  | (_, _, None) => None
  end.

Definition all_txt_records {E} (p : SignedPacket) : result E (list (string * string)) :=
  let? key := packet_public_key p in
  match packet_parse (encoded_packet p), name_new (to_z32 key) with
  | Some answers, Some zone => Ok (omap (all_txt_record zone) answers)
  | _, _ => Ok []
  end.

Definition more_recent_than {E} (self other : SignedPacket) : result E bool :=
  let? a := packet_timestamp self in
  let? b := packet_timestamp other in
  if a =? b
  then Ok (match bytes_compare (encoded_packet self) (encoded_packet other) with Gt => true | _ => false end)
  else Ok (b <? a).

(** ** Endpoint info in signed packets *)

Context {Uc : UrlCrate}.

Definition to_pkarr_signed_packet (info : EndpointInfo) (secret_key : SecretKey) (ttl timestamp : Z)
    : result SignedPacketBuildError SignedPacket :=
  let? strings := info_to_txt_strings info in
  from_txt_strings secret_key IROH_TXT_NAME strings ttl timestamp.

Definition from_pkarr_signed_packet (packet : SignedPacket) : result ParseError EndpointInfo :=
  let? pubkey := packet_public_key packet in
  let? endpoint_id := match PublicKey_from_bytes (as_bytes pubkey) with Ok k => Ok k | _ => Panic end in
  let? txt_strs := txt_records packet IROH_TXT_NAME in
  rmap endpoint_info_from_attrs (TxtAttrs_from_strings endpoint_id txt_strs).

End Packets.

#[local] Opaque to_digits.

(** ** Lemmas: the signed bytes *)

Lemma string_of_bytes_app a b :
  String.string_of_list_byte (a ++ b) = (String.string_of_list_byte a ++ String.string_of_list_byte b)%string.
Proof. induction a as [|x a IH]; [done|]. exact (f_equal (String (Ascii.ascii_of_byte x)) IH). Qed.

Lemma signable_string ts v :
  String.string_of_list_byte (signable ts v) =
  ("3:seqi" ++ show_digits (to_digits 10 20 ts)
     ("e1:v" ++ show_digits (to_digits 10 20 (blen v)) (String colon (String.string_of_list_byte v))))%string.
Proof.
  unfold signable, show_dec. rewrite string_of_bytes_app, String.string_of_list_byte_of_string.
  rewrite <- !str_app_assoc, show_digits_append. cbn [String.append]. rewrite show_digits_append. done.
Qed.

(** A number is determined by its text and what follows it. *)
Lemma show_digits_inj n m rest rest' :
  0 <= n < 10 ^ 20 -> 0 <= m < 10 ^ 20 -> ends_number 10 rest -> ends_number 10 rest' ->
  show_digits (to_digits 10 20 n) rest = show_digits (to_digits 10 20 m) rest' -> n = m /\ rest = rest'.
Proof.
  intros Hn Hm Hr Hr' Heq.
  assert (Hd : forall k, Forall (fun d => 0 <= d < 10) (to_digits 10 20 k)) by (intros k; apply to_digits_bound; lia).
  pose proof (read_digits_show 10 (to_digits 10 20 n) rest ltac:(lia) (Hd n) Hr) as H1.
  pose proof (read_digits_show 10 (to_digits 10 20 m) rest' ltac:(lia) (Hd m) Hr') as H2.
  rewrite Heq, H2 in H1. injection H1 as Hdig ->. split; [|done].
  rewrite <- (to_digits_value 10 20 n), <- (to_digits_value 10 20 m), Hdig by (simpl; lia). done.
Qed.

Lemma string_of_bytes_inj a b : String.string_of_list_byte a = String.string_of_list_byte b -> a = b.
Proof.
  intros H. rewrite <- (String.list_byte_of_string_of_list_byte a), <- (String.list_byte_of_string_of_list_byte b).
  by rewrite H.
Qed.

(** The signed bytes determine the timestamp and the packet. *)
Lemma signable_inj ts v ts' v' :
  0 <= ts <= u64_max -> 0 <= ts' <= u64_max -> blen v < 10 ^ 20 -> blen v' < 10 ^ 20 ->
  signable ts v = signable ts' v' -> ts = ts' /\ v = v'.
Proof.
  intros Ht Ht' Hv Hv' Heq. apply (f_equal String.string_of_list_byte) in Heq.
  rewrite !signable_string in Heq. apply str_app_inj in Heq.
  unfold u64_max in *. pose proof (blen_nonneg v). pose proof (blen_nonneg v').
  apply show_digits_inj in Heq as [-> Heq]; [|lia|lia|done|done].
  apply str_app_inj in Heq. apply show_digits_inj in Heq as [_ Heq]; [|lia|lia|done|done].
  injection Heq as Heq. split; [done|]. by apply string_of_bytes_inj.
Qed.

(** ** Lemmas: timestamps *)

Definition clock_inv (s : clock_state) : Prop :=
  0 <= last_timestamp s /\ StronglySorted Z.gt (returned s) /\ Forall (fun ts => ts <= last_timestamp s) (returned s).

Lemma clock_reachable_inv s : rtc now_step clock_init s -> clock_inv s.
Proof.
  apply rtc_invariant.
  - split; [done|]. split; constructor.
  - intros ? ? (H0 & Hs & Hle) Hstep. destruct Hstep as [|t micros last st Ht <- next|]; [done| |done].
    split; simpl; [lia|]. split.
    + constructor; [done|]. eapply Forall_impl; [exact Hle|]. simpl. lia.
    + constructor; [lia|]. eapply Forall_impl; [exact Hle|]. simpl. lia.
Qed.

Section PacketFacts.
Context {Ed : Ed25519} {De : DataEncoding} {Sd : SimpleDns} {Uc : UrlCrate}.
Context {EdL : Ed25519Laws Ed} {DeL : DataEncodingLaws De} {SdL : SimpleDnsLaws Sd}.

(** ** Lemmas: the layout of a packet *)

Definition layout (key sig : bytes) (ts : Z) (v : bytes) : bytes := key ++ sig ++ be_bytes 8 ts ++ v.

Lemma slice_app {E} (a b c : bytes) i j :
  length a = i -> length b = (j - i)%nat -> (i <= j)%nat -> slice (E := E) (a ++ b ++ c) i j = Ok b.
Proof.
  intros <- Hb Hij. unfold slice. rewrite !length_app.
  destruct (Nat.leb_spec j (length a + (length b + length c))); [|lia].
  rewrite drop_app_length, <- Hb. by rewrite take_app_length.
Qed.

Lemma layout_timestamp ts : 0 <= ts <= u64_max -> from_be_bytes (be_bytes 8 ts) = ts.
Proof. intros Hts. apply from_be_bytes_be_bytes. unfold u64_max in Hts. simpl. lia. Qed.

Section Layout.
Context (key sig : bytes) (ts : Z) (v : bytes).
Hypothesis Hkey : length key = 32%nat.
Hypothesis Hsig : length sig = 64%nat.

Lemma layout_key {E} : slice (E := E) (layout key sig ts v) 0 32 = Ok key.
Proof. apply (slice_app [] key (sig ++ be_bytes 8 ts ++ v)); [done|lia|lia]. Qed.

Lemma layout_sig {E} : slice (E := E) (layout key sig ts v) 32 96 = Ok sig.
Proof. apply slice_app; [done|lia|lia]. Qed.

Lemma layout_ts {E} : slice (E := E) (layout key sig ts v) 96 104 = Ok (be_bytes 8 ts).
Proof.
  unfold layout. rewrite app_assoc.
  apply slice_app; [rewrite length_app; lia|by rewrite length_be_bytes|lia].
Qed.

Lemma layout_packet : drop 104 (layout key sig ts v) = v.
Proof.
  unfold layout. rewrite !app_assoc. apply drop_app_length'.
  rewrite !length_app, length_be_bytes. lia.
Qed.

Lemma layout_len : blen (layout key sig ts v) = HEADER_SIZE + blen v.
Proof. unfold layout, HEADER_SIZE. autorewrite with blen. unfold blen. rewrite Hkey, Hsig. lia. Qed.

End Layout.

Lemma txt_answers_values n ttl values answers zone normalized name :
  txt_answers n ttl values = Ok answers -> name_to_string n = normalized ->
  omap (txt_record zone normalized name) answers = values.
Proof.
  intros Ha Hn. revert answers Ha. induction values as [|v values IH]; intros answers Ha.
  - by injection Ha as <-.
  - cbn [txt_answers] in Ha. destruct (txt_of_string v) as [t|] eqn:Et; [|done]. cbn [ok_or rbind] in Ha.
    destruct (txt_answers n ttl values) as [rest| |]; try done. injection Ha as <-. cbn.
    rewrite Hn, String.eqb_refl, (txt_roundtrip _ _ Et). f_equal. by apply IH.
Qed.

(** What [from_txt_strings] makes. *)
Lemma from_txt_strings_ok sk name values ttl ts p :
  from_txt_strings sk name values ttl ts = Ok p ->
  exists answers v, txt_answers (name_new_unchecked (normalize_name (to_z32 (public sk)) name)) ttl values = Ok answers /\
    packet_build answers = Some v /\ blen v <= MAX_DNS_PACKET_SIZE /\
    packet_bytes p = layout (as_bytes (public sk)) (sig_bytes (sign sk (signable ts v))) ts v.
Proof.
  unfold from_txt_strings. destruct (txt_answers _ ttl values) as [answers| |] eqn:Ea; try done. cbn [rbind].
  destruct (packet_build answers) as [v|] eqn:Eb; [|done]. cbn [ok_or rbind]. unfold ensure.
  destruct (Z.leb_spec (blen v) MAX_DNS_PACKET_SIZE); [|done]. cbn [rbind]. intros [= <-]. eauto 10.
Qed.

Lemma public_length sk : length (as_bytes (public sk)) = 32%nat.
Proof. apply valid_key_length, public_valid. Qed.

Lemma public_try_from sk : PublicKey_try_from (as_bytes (public sk)) = Ok (public sk).
Proof. rewrite try_from_from_bytes. apply from_bytes_as_bytes, public_valid. Qed.

Lemma own_packet sk name values ttl ts p :
  0 <= ts <= u64_max -> from_txt_strings sk name values ttl ts = Ok p ->
  packet_from_bytes (packet_bytes p) = Ok p /\ (forall E, packet_public_key (E := E) p = Ok (public sk)) /\
  (forall E, packet_timestamp (E := E) p = Ok ts) /\ from_relay_payload (public sk) (to_relay_payload p) = Ok p /\
  (forall E, txt_records (E := E) p name = Ok values).
Proof.
  intros Hts Hp. destruct (from_txt_strings_ok _ _ _ _ _ _ Hp) as (answers & v & Ha & Hb & Hlen & Hbytes).
  pose proof (public_length sk) as Hk. pose proof (sign_length (as_signing_key sk) (signable ts v)) as Hs.
  set (sig := sig_bytes (sign sk (signable ts v))) in *.
  assert (Hfrom : packet_from_bytes (packet_bytes p) = Ok p).
  { unfold packet_from_bytes. rewrite Hbytes, layout_len by done. pose proof (blen_nonneg v). unfold ensure.
    destruct (Z.leb_spec HEADER_SIZE (HEADER_SIZE + blen v)); [|lia].
    destruct (Z.leb_spec (HEADER_SIZE + blen v) MAX_SIGNED_PACKET_SIZE); [|unfold MAX_SIGNED_PACKET_SIZE in *; lia].
    cbn [rbind]. rewrite layout_key, layout_sig, layout_ts, layout_packet by done. cbn [rbind].
    rewrite public_try_from. cbn [map_err rbind]. rewrite layout_timestamp by done.
    change (mkSignature sig) with (sign sk (signable ts v)). rewrite verify_own. cbn [map_err rbind].
    rewrite (packet_roundtrip _ _ Hb). cbn [ok_or rbind]. rewrite <- Hbytes. by destruct p. }
  assert (Hkey : forall E, packet_public_key (E := E) p = Ok (public sk)).
  { intros E. unfold packet_public_key. rewrite Hbytes, layout_key by done. cbn [rbind]. by rewrite public_try_from. }
  split_and!; [done|done| | |].
  - intros E. unfold packet_timestamp. rewrite Hbytes, layout_ts by done. cbn [rmap rbind]. by rewrite layout_timestamp.
  - unfold from_relay_payload, to_relay_payload.
    assert (as_bytes (public sk) ++ drop 32 (packet_bytes p) = packet_bytes p) as ->; [|done].
    rewrite Hbytes. unfold layout. by rewrite drop_app_length'.
  - intros E. unfold txt_records. rewrite Hkey. cbn [rbind]. unfold encoded_packet.
    rewrite Hbytes, layout_packet, (packet_roundtrip _ _ Hb) by done.
    destruct (name_new_some (to_z32 (public sk))) as [zone ->]; [apply z32_symbols|].
    f_equal. eapply txt_answers_values; [exact Ha|]. apply name_roundtrip.
Qed.

(** ** Lemmas: the order of packets *)

Lemma bytes_compare_eq a b : bytes_compare a b = Eq <-> a = b.
Proof.
  revert b. induction a as [|x a IH]; intros [|y b]; try done. simpl.
  destruct (Z.compare_spec (byte.unsigned x) (byte.unsigned y)) as [H|H|H].
  - rewrite IH. apply byte.unsigned_inj in H. subst. naive_solver.
  - split; [done|]. intros [= -> ->]. lia.
  - split; [done|]. intros [= -> ->]. lia.
Qed.

Lemma bytes_compare_opp a b : bytes_compare b a = CompOpp (bytes_compare a b).
Proof.
  revert b. induction a as [|x a IH]; intros [|y b]; try done. simpl.
  rewrite (Z.compare_antisym (byte.unsigned x)). destruct (Z.compare (byte.unsigned x) (byte.unsigned y)); [apply IH|done|done].
Qed.

Lemma bytes_compare_gt_trans a b c :
  bytes_compare a b = Gt -> bytes_compare b c = Gt -> bytes_compare a c = Gt.
Proof.
  revert b c. induction a as [|x a IH]; intros [|y b] [|z c]; try done. simpl.
  destruct (Z.compare_spec (byte.unsigned x) (byte.unsigned y)), (Z.compare_spec (byte.unsigned y) (byte.unsigned z));
    try done; intros; destruct (Z.compare_spec (byte.unsigned x) (byte.unsigned z)); try done; try lia; eauto.
Qed.

(** The lengths every constructor of a packet checks. *)
Definition long_enough (p : SignedPacket) : Prop := (104 <= length (packet_bytes p))%nat.

(** The number and the bytes that decide which of two packets is the newer. *)
Definition newer (a b : Z * bytes) : Prop :=
  b.1 < a.1 \/ (a.1 = b.1 /\ bytes_compare a.2 b.2 = Gt).

Definition recency (p : SignedPacket) : Z * bytes :=
  (from_be_bytes (take 8 (drop 96 (packet_bytes p))), encoded_packet p).

Lemma more_recent_spec {E} p q :
  long_enough p -> long_enough q ->
  exists b, more_recent_than (E := E) p q = Ok b /\ (b = true <-> newer (recency p) (recency q)).
Proof.
  intros Hp Hq. unfold more_recent_than, packet_timestamp, slice, long_enough in *.
  destruct (Nat.leb_spec 104 (length (packet_bytes p))); [|lia].
  destruct (Nat.leb_spec 104 (length (packet_bytes q))); [|lia]. cbn [rmap rbind Nat.sub].
  unfold newer, recency. cbn [fst snd].
  destruct (Z.eqb_spec (from_be_bytes (take 8 (drop 96 (packet_bytes p)))) (from_be_bytes (take 8 (drop 96 (packet_bytes q))))) as [->|Hne].
  - eexists. split; [done|]. destruct (bytes_compare (encoded_packet p) (encoded_packet q)); naive_solver lia.
  - eexists. split; [done|]. rewrite Z.ltb_lt. naive_solver lia.
Qed.

Lemma newer_irrefl a : ~ newer a a.
Proof. intros [?|[_ H]]; [lia|]. rewrite (proj2 (bytes_compare_eq _ _)) in H by done. done. Qed.

Lemma newer_trans a b c : newer a b -> newer b c -> newer a c.
Proof.
  unfold newer. intros [H1|[H1 H1']] [H2|[H2 H2']]; [left; lia|left; lia|left; lia|].
  right. split; [lia|]. by eapply bytes_compare_gt_trans.
Qed.

Lemma newer_total a b : newer a b \/ a = b \/ newer b a.
Proof.
  unfold newer. destruct a as [t v], b as [t' v']. simpl. destruct (Z.lt_total t t') as [?|[->|?]]; [by right; right; left| |by left; left].
  destruct (bytes_compare v v') eqn:E.
  - apply bytes_compare_eq in E as ->. by right; left.
  - right; right; right. split; [done|]. by rewrite bytes_compare_opp, E.
  - left; right. by split.
Qed.

(** ** Properties *)

Lemma slice_ok {E} bs a b : (b <= length bs)%nat -> slice (E := E) bs a b = Ok (take (b - a) (drop a bs)).
Proof. intros H. unfold slice. by destruct (Nat.leb_spec b (length bs)); [|lia]. Qed.

(** The unchecked constructors do not look at the key; reading a bad one panics. *)
Lemma unchecked_key_panics {E} bs p :
  from_bytes_unchecked bs = Ok p -> vk_from_bytes (take 32 bs) = None -> packet_public_key (E := E) p = Panic.
Proof.
  unfold from_bytes_unchecked, ensure, HEADER_SIZE. intros Hp Hk.
  destruct (Z.leb_spec 104 (blen bs)) as [Hl|]; [|done]. destruct (blen bs <=? _); [|done]. cbn [rbind] in Hp.
  destruct (packet_parse (drop 104 bs)); [|done]. injection Hp as <-.
  unfold packet_public_key. cbn [packet_bytes]. rewrite slice_ok by (unfold blen in Hl; lia). cbn [rbind].
  change (take (32 - 0) (drop 0 bs)) with (take 32 bs). unfold PublicKey_try_from. by rewrite Hk.
Qed.

(** The timestamps of [Timestamp::now] strictly increase, in whatever way
    concurrent calls interleave and however the clock jumps. *)
Theorem timestamps_strictly_increase s :
  rtc now_step clock_init s -> StronglySorted Z.gt (returned s).
Proof. by intros (_ & Hs & _)%clock_reachable_inv. Qed.

(** A signed packet is authentic: one that [from_bytes] accepts carries a
    valid key and a signature of that key over exactly its timestamp and its DNS
    packet, and nothing about reading it can panic. No input makes [from_bytes]
    panic. *)
Theorem accepted_packet_authentic bs :
  match packet_from_bytes bs with
  | Ok p =>
      packet_bytes p = bs /\ 104 <= blen bs <= 1104 /\ is_Some (packet_parse (encoded_packet p)) /\
      exists vk ts sig,
        vk_from_bytes (take 32 bs) = Some vk /\
        packet_public_key (E := SignedPacketVerifyError) p = Ok (mkPublicKey (take 32 bs)) /\
        packet_timestamp (E := SignedPacketVerifyError) p = Ok ts /\
        packet_signature (E := SignedPacketVerifyError) p = Ok sig /\
        verify_strict vk (signable ts (encoded_packet p)) (sig_bytes sig) = true /\
        (forall ts' v', 0 <= ts' <= u64_max -> blen v' < 10 ^ 20 ->
           signable ts' v' = signable ts (encoded_packet p) -> ts' = ts /\ v' = encoded_packet p)
  | Err _ => True
  | Panic => False
  end.
Proof.
  unfold packet_from_bytes, ensure, HEADER_SIZE, MAX_SIGNED_PACKET_SIZE, HEADER_SIZE, MAX_DNS_PACKET_SIZE.
  destruct (Z.leb_spec 104 (blen bs)) as [Hlo|]; [|done]. cbn [rbind].
  destruct (Z.leb_spec (blen bs) (104 + 1000)) as [Hhi|]; [|done]. cbn [rbind].
  assert (Hlen : (104 <= length bs)%nat) by (unfold blen in Hlo; lia).
  rewrite !slice_ok by lia. cbn [rbind]. unfold PublicKey_try_from.
  change (take (32 - 0) (drop 0 bs)) with (take 32 bs).
  destruct (vk_from_bytes (take 32 bs)) as [vk|] eqn:Evk; [|done]. cbn [ok_or rbind map_err].
  unfold verify, as_verifying_key. cbn [as_bytes]. rewrite (vk_to_from _ _ Evk), Evk. cbn [rbind sig_bytes].
  set (ts := from_be_bytes (take (104 - 96) (drop 96 bs))). set (sig := take (96 - 32) (drop 32 bs)).
  destruct (verify_strict vk (signable ts (drop 104 bs)) sig) eqn:Ev; [|done]. cbn [map_err rbind].
  destruct (packet_parse (drop 104 bs)) as [answers|] eqn:Ep; [|done]. cbn [ok_or rbind].
  split; [done|]. split; [lia|]. split; [unfold encoded_packet; simpl; rewrite Ep; eauto|].
  exists vk, ts, (mkSignature sig). split; [done|]. split.
  { unfold packet_public_key. cbn [packet_bytes]. rewrite slice_ok by lia. cbn [rbind].
    change (take (32 - 0) (drop 0 bs)) with (take 32 bs). unfold PublicKey_try_from. rewrite Evk. cbn [ok_or rbind].
    by rewrite (vk_to_from _ _ Evk). }
  split; [unfold packet_timestamp; cbn [packet_bytes]; by rewrite slice_ok by lia|].
  split; [unfold packet_signature; cbn [packet_bytes]; by rewrite slice_ok by lia|]. split; [done|].
  intros ts' v' Hts' Hv' Heq. apply signable_inj in Heq; [done|done| |done|].
  - subst ts. pose proof (from_be_bytes_bound (take (104 - 96) (drop 96 bs))) as Hb.
    rewrite length_take, length_drop in Hb. replace (Nat.min _ _) with 8%nat in Hb by lia.
    change (8 * Z.of_nat 8) with 64 in Hb. unfold u64_max. lia.
  - unfold encoded_packet. cbn [packet_bytes]. unfold blen. rewrite length_drop. unfold blen in Hhi. lia.
Qed.

Lemma accepted_facts bs p :
  packet_from_bytes bs = Ok p ->
  packet_bytes p = bs /\ 104 <= blen bs <= 1104 /\ is_Some (packet_parse (encoded_packet p)) /\
  forall E, packet_public_key (E := E) p = Ok (mkPublicKey (take 32 bs)).
Proof.
  unfold packet_from_bytes, ensure, HEADER_SIZE, MAX_SIGNED_PACKET_SIZE, HEADER_SIZE, MAX_DNS_PACKET_SIZE.
  destruct (Z.leb_spec 104 (blen bs)) as [Hlo|]; [|done]. cbn [rbind].
  destruct (Z.leb_spec (blen bs) (104 + 1000)) as [Hhi|]; [|done]. cbn [rbind].
  assert (Hlen : (104 <= length bs)%nat) by (unfold blen in Hlo; lia).
  rewrite !slice_ok by lia. cbn [rbind]. change (take (32 - 0) (drop 0 bs)) with (take 32 bs).
  unfold packet_public_key, PublicKey_try_from.
  destruct (vk_from_bytes (take 32 bs)) as [vk|] eqn:Evk; [|done]. cbn [ok_or rbind map_err].
  destruct (verify _ _ _); [|done|done]. cbn [map_err rbind].
  destruct (packet_parse (drop 104 bs)) as [answers|] eqn:Ep; [|done]. cbn [ok_or rbind]. intros [= <-].
  split; [done|]. split; [lia|]. split; [unfold encoded_packet; simpl; rewrite Ep; eauto|].
  intros E. cbn [packet_bytes]. rewrite slice_ok by lia. cbn [rbind].
  change (take (32 - 0) (drop 0 bs)) with (take 32 bs). rewrite Evk. cbn [ok_or rbind]. by rewrite (vk_to_from _ _ Evk).
Qed.

(** What an endpoint signs and publishes, a resolver reads. The packet made
    from an endpoint's info verifies, also after its key is sent apart from the
    rest, names the endpoint that signed it and carries the timestamp; the info
    in it is the published one up to the order of the relays, cut at equals
    signs. *)
Theorem published_info_resolves info sk ttl ts p :
  info_wf info -> info_endpoint_id info = public sk -> 0 <= ts <= u64_max ->
  to_pkarr_signed_packet info sk ttl ts = Ok p ->
  let d := info_data info in
  let parsed := mkEndpointData (dedup (parsed_relays (data_addrs d) ++ direct (data_addrs d))).1
                               (cut_user_data <$> data_user_data d) in
  packet_from_bytes (packet_bytes p) = Ok p /\
  from_relay_payload (public sk) (to_relay_payload p) = Ok p /\
  packet_timestamp (E := ParseError) p = Ok ts /\
  from_pkarr_signed_packet p = Ok (mkEndpointInfo (public sk) parsed) /\
  (no_equals d -> parsed = mkEndpointData (List.filter is_relay (data_addrs d) ++ direct (data_addrs d)) (data_user_data d)).
Proof.
  intros [Hid Hl Hn Hu] Heq Hts Hp d parsed. destruct (info_strings_parse info Hl Hu) as (strings & Hs & Hparse).
  unfold to_pkarr_signed_packet in Hp. rewrite Hs in Hp. cbn [rbind] in Hp.
  destruct (own_packet _ _ _ _ _ _ Hts Hp) as (Hfrom & Hkey & Hts' & Hrelay & Htxt).
  split_and!; [done|done|done| |intros Hne; by apply parsed_exact].
  unfold from_pkarr_signed_packet. rewrite Hkey. cbn [rbind].
  rewrite from_bytes_as_bytes by apply public_valid. cbn [rbind]. rewrite Htxt. cbn [rbind].
  rewrite Heq in Hparse. exact Hparse.
Qed.

End PacketFacts.

Definition two_calls : clock_state :=
  mkClock 6 (<[0%nat := Returned 6]> (<[1%nat := Returned 5]> (<[0%nat := Trying 3 5]> (<[1%nat := Trying 5 0]>
    (<[0%nat := Trying 3 0]> ∅))))) [6; 5].

(** Two calls at once, of which the later one read an earlier clock. *)
Lemma timestamps_strictly_increase_witness : StronglySorted Z.gt (returned two_calls).
Proof.
  apply (timestamps_strictly_increase two_calls).
  eapply rtc_l; [apply (now_start 0 3); done|].
  eapply rtc_l; [apply (now_start 1 5); done|].
  eapply rtc_l; [apply (now_exchange 1 5 0); done|].
  eapply rtc_l; [apply (now_retry 0 3 0); done|].
  eapply rtc_l; [apply (now_exchange 0 3 5); done|].
  apply rtc_refl.
Defined.

Definition example_sk : @SecretKey checksum_keys := SecretKey_from_bytes (replicate 32 Byte.x07).

Definition relay_info : EndpointInfo :=
  mkEndpointInfo example_id (mkEndpointData [TransportRelay "https://r/"] None).

Lemma relay_info_no_equals : no_equals (info_data relay_info).
Proof. split; [by apply Forall_singleton|by intros u]. Qed.

Lemma relay_info_wf : @info_wf checksum_keys scheme_urls relay_info.
Proof.
  constructor; [vm_compute; eauto| |apply NoDup_singleton|done].
  apply Forall_singleton. reflexivity.
Qed.

Definition example_packet : SignedPacket :=
  match @to_pkarr_signed_packet checksum_keys data_encoding packed_dns relay_info example_sk 30 1700000000000000 with
  | Ok p => p
  | _ => mkSignedPacket []
  end.

Lemma accepted_packet_authentic_witness :
  match @packet_from_bytes checksum_keys packed_dns (packet_bytes example_packet) with
  | Ok p =>
      packet_bytes p = packet_bytes example_packet /\ 104 <= blen (packet_bytes example_packet) <= 1104 /\
      is_Some (@packet_parse packed_dns (encoded_packet p)) /\
      exists vk ts sig,
        @vk_from_bytes checksum_keys (take 32 (packet_bytes example_packet)) = Some vk /\
        @packet_public_key checksum_keys SignedPacketVerifyError p = Ok (mkPublicKey (take 32 (packet_bytes example_packet))) /\
        packet_timestamp (E := SignedPacketVerifyError) p = Ok ts /\
        packet_signature (E := SignedPacketVerifyError) p = Ok sig /\
        @verify_strict checksum_keys vk (signable ts (encoded_packet p)) (sig_bytes sig) = true /\
        (forall ts' v', 0 <= ts' <= u64_max -> blen v' < 10 ^ 20 ->
           signable ts' v' = signable ts (encoded_packet p) -> ts' = ts /\ v' = encoded_packet p)
  | Err _ => True
  | Panic => False
  end.
Proof. apply (@accepted_packet_authentic checksum_keys packed_dns checksum_keys_laws). Defined.

Lemma published_info_resolves_witness :
  let d := info_data relay_info in
  let parsed := mkEndpointData (dedup (@parsed_relays scheme_urls (data_addrs d) ++ direct (data_addrs d))).1
                               (cut_user_data <$> data_user_data d) in
  @packet_from_bytes checksum_keys packed_dns (packet_bytes example_packet) = Ok example_packet /\
  @from_relay_payload checksum_keys packed_dns (public example_sk) (to_relay_payload example_packet) = Ok example_packet /\
  packet_timestamp (E := ParseError) example_packet = Ok 1700000000000000 /\
  @from_pkarr_signed_packet checksum_keys data_encoding packed_dns scheme_urls example_packet =
    Ok (mkEndpointInfo (public example_sk) parsed) /\
  (no_equals d -> parsed = mkEndpointData (List.filter is_relay (data_addrs d) ++ direct (data_addrs d)) (data_user_data d)).
Proof.
  apply (@published_info_resolves checksum_keys data_encoding packed_dns scheme_urls checksum_keys_laws
           data_encoding_laws packed_dns_laws relay_info example_sk 30 1700000000000000 example_packet).
  - exact relay_info_wf.
  - vm_compute. reflexivity.
  - unfold u64_max. lia.
  - vm_compute. reflexivity.
Defined.

End Pkarr.
