(* ===== verification/DnsResolver.v ===== *)
(** * The DNS resolver

    [iroh-dns/src/dns.rs]: lookups that are restarted when the resolver is
    replaced, the joined and streamed address lookups, staggered calls, and the
    lookup of endpoint info. The resolver behind the trait object answers with
    what the environment says. *)

From Stdlib Require Import Sorted.
From S2P Require Import Prelude External Instances Utf8 Keys Addrs NetText EndpointInfo.
Import Addrs NetText Info.

Module Dns.

Inductive DnsError :=
| DnsTimeout
| NoResponse
| ResolveBoth (ipv4 ipv6 : DnsError)
| MissingHost
| Resolve
| InvalidResponse.

Inductive LookupError :=
| LookupParseError (source : ParseError)
| LookupFailed (source : DnsError).

Definition DNS_TIMEOUT : Z := from_secs 3.

(** ** Configuration *)

Inductive DnsProtocol := ProtoUdp | ProtoTcp | ProtoTls | ProtoHttps.

Record Builder := mkBuilder {
  use_system_defaults : bool;
  nameservers : list (SocketAddr * DnsProtocol)
}.

Definition Builder_default : Builder := mkBuilder false [].
Definition with_system_defaults (b : Builder) : Builder := mkBuilder true (nameservers b).
Definition with_nameserver (addr : SocketAddr) (protocol : DnsProtocol) (b : Builder) : Builder :=
  mkBuilder (use_system_defaults b) (nameservers b ++ [(addr, protocol)]).
Definition with_nameservers (l : list (SocketAddr * DnsProtocol)) (b : Builder) : Builder :=
  mkBuilder (use_system_defaults b) (nameservers b ++ l).

(** [hickory]'s configuration, as far as it is read and written here. *)
Record NameServerConfig := mkNameServer { ns_ip : IpAddr; ns_proto : DnsProtocol; ns_port : Z }.
Record ResolverConfig := mkResolverConfig {
  domain : option string;
  search : list string;
  name_servers : list NameServerConfig
}.

Definition site_local (n : Z) : bytes :=
  flat_map (be_bytes 2) [0xfec0; 0; 0; 0xffff; 0; 0; 0; n].
Definition WINDOWS_BAD_SITE_LOCAL_DNS_SERVERS : list IpAddr :=
  map (fun n => V6 (site_local n)) [1; 2; 3].

Definition system_config (sys : option ResolverConfig) : option ResolverConfig :=
  c ← sys;
  Some (mkResolverConfig (domain c) (search c)
    (filter (fun ns => ns_ip ns ∉ WINDOWS_BAD_SITE_LOCAL_DNS_SERVERS) (name_servers c))).

(** The configuration the resolver is built with: [sys] is what the system says
    and [google] the fallback. *)
Definition build_config (sys : option ResolverConfig) (google : ResolverConfig) (b : Builder) : ResolverConfig :=
  let config :=
    if use_system_defaults b then default google (system_config sys)
    else mkResolverConfig None [] [] in
  mkResolverConfig (domain config) (search config)
    (name_servers config ++
     map (fun '(addr, proto) => mkNameServer (socket_ip addr) proto (socket_port addr)) (nameservers b)).

(** The records of an answer; each lookup keeps those of its type. *)
Definition ipv4_answers (answers : list RData) : list bytes :=
  omap (fun r => match r with RA a => Some a | _ => None end) answers.
Definition ipv6_answers (answers : list RData) : list bytes :=
  omap (fun r => match r with RAAAA a => Some a | _ => None end) answers.
Definition txt_answers (answers : list RData) : list (list bytes) :=
  omap (fun r => match r with RTXT t => Some t | _ => None end) answers.

(** ** Lookups and resets

    The resolver is replaced by swapping it and then waking the lookups that
    wait. A lookup registers for the wake, then loads the resolver and runs; when
    woken it starts over. [version] counts the swaps and [gen] the wakes;
    [swapped] is the number of resets between the two. *)

Inductive op_phase :=
| Registered (g : nat)            (* enabled [notified] when [gen] was [g] *)
| Looking (g v : nat)             (* running on resolver [v] *)
| Finished_on (v : nat)
| Timed_out.

Inductive reset_phase :=
| ResetLoaded (v : nat)
| ResetSwapped
| ResetDone.

Record inner := mkInner {
  version : nat;
  gen : nat;
  swapped : nat;
  ops : gmap nat op_phase;
  resets : gmap nat reset_phase
}.

Definition set_op (t : nat) (p : op_phase) (s : inner) : inner :=
  mkInner (version s) (gen s) (swapped s) (<[t := p]> (ops s)) (resets s).

(** The two sides of [select!] after the lookup itself, in its [biased] order:
    the timeout counts only when no wake is pending. *)
Inductive op_step : inner -> inner -> Prop :=
| op_start t s : ops s !! t = None -> op_step s (set_op t (Registered (gen s)) s)
| op_load t g s : ops s !! t = Some (Registered g) -> op_step s (set_op t (Looking g (version s)) s)
| op_complete t g v s : ops s !! t = Some (Looking g v) -> op_step s (set_op t (Finished_on v) s)
| op_woken t g v s :
    ops s !! t = Some (Looking g v) -> (g < gen s)%nat -> op_step s (set_op t (Registered (gen s)) s)
| op_elapsed t g v s :
    ops s !! t = Some (Looking g v) -> g = gen s -> op_step s (set_op t Timed_out s)
| reset_load r s :
    resets s !! r = None ->
    op_step s (mkInner (version s) (gen s) (swapped s) (ops s) (<[r := ResetLoaded (version s)]> (resets s)))
| reset_swap r v s :
    resets s !! r = Some (ResetLoaded v) -> version s = v ->
    op_step s (mkInner (S (version s)) (gen s) (S (swapped s)) (ops s) (<[r := ResetSwapped]> (resets s)))
| reset_lost r v s :
    resets s !! r = Some (ResetLoaded v) -> version s <> v ->
    op_step s (mkInner (version s) (gen s) (swapped s) (ops s) (<[r := ResetDone]> (resets s)))
| reset_notify r n s :
    resets s !! r = Some ResetSwapped -> swapped s = S n ->
    op_step s (mkInner (version s) (S (gen s)) n (ops s) (<[r := ResetDone]> (resets s))).

Definition inner_init : inner := mkInner 0 0 0 ∅ ∅.

(** ** The loop of [op]

    What the select of one attempt finds ready. *)
Record attempt (R : Type) := mkAttempt {
  fut : option (result DnsError R);
  notified : bool
}.
Arguments mkAttempt {R}.
Arguments fut {R}.
Arguments notified {R}.

(** [None] when the attempts run out: every one was restarted. *)
Fixpoint op {R} (attempts : list (attempt R)) : option (result DnsError R) :=
  match attempts with
  | [] => None
  | a :: attempts =>
      match fut a with
      | Some res => Some res
      | None => if notified a then op attempts else Some (Err DnsTimeout)
      end
  end.

(** ** Address lookups *)

(** [lookup_ipv4], [lookup_ipv6] on what [op] returns. *)
Definition lookup_ipv4 (res : result DnsError (list bytes)) : result DnsError (list IpAddr) := rmap (map V4) res.
Definition lookup_ipv6 (res : result DnsError (list bytes)) : result DnsError (list IpAddr) := rmap (map V6) res.

Definition lookup_ipv4_ipv6 (v4 v6 : result DnsError (list bytes)) : result DnsError (list IpAddr) :=
  match lookup_ipv4 v4, lookup_ipv6 v6 with
  | Ok ipv4, Ok ipv6 => Ok (ipv4 ++ ipv6)
  | Ok ipv4, Err _ => Ok ipv4
  | Err _, Ok ipv6 => Ok ipv6
  | Err a, Err b => Err (ResolveBoth a b)
  | _, _ => Panic
  end.

(** [Url::host]. *)
Inductive Host := Domain (domain : string) | HostV4 (ip : bytes) | HostV6 (ip : bytes).

Definition resolve_host (host : option Host) (prefer_ipv6 : bool) (v4 v6 : result DnsError (list bytes))
    : result DnsError IpAddr :=
  match host with
  | None => Err MissingHost
  | Some (HostV4 ip) => Ok (V4 ip)
  | Some (HostV6 ip) => Ok (V6 ip)
  | Some (Domain _) =>
      let? (v4, v6) :=
        match lookup_ipv4 v4, lookup_ipv6 v6 with
        | Err a, Err b => Err (ResolveBoth a b)
        | Err _, Ok v6 => Ok (None, head v6)
        | Ok v4, Err _ => Ok (head v4, None)
        | Ok v4, Ok v6 => Ok (head v4, head v6)
        | _, _ => Panic
        end in
      let first := if prefer_ipv6 then (if v6 is Some _ then v6 else v4) else (if v4 is Some _ then v4 else v6) in
      ok_or first NoResponse
  end.

(** [resolve_host_all]: a pending future is the result it will have; [v4_first]
    says which one is ready first. *)
Record HostState := mkHostState {
  v4_fut : option (result DnsError (list bytes));
  v6_fut : option (result DnsError (list bytes));
  v4_err : option DnsError;
  v6_err : option DnsError;
  queue : list IpAddr;
  closed : bool;
  yielded : bool
}.

Definition host_state (v4 v6 : result DnsError (list bytes)) : HostState :=
  mkHostState (Some v4) (Some v6) None None [] false false.

(** The branches of the [select!]. *)
Definition v4_ready (s : HostState) (res : result DnsError (list bytes)) : HostState :=
  match res with
  | Ok items => mkHostState None (v6_fut s) (v4_err s) (v6_err s) (queue s ++ map V4 items) (closed s) (yielded s)
  | Err e => mkHostState None (v6_fut s) (Some e) (v6_err s) (queue s) (closed s) (yielded s)
  | Panic => s
  end.

Definition v6_ready (s : HostState) (res : result DnsError (list bytes)) : HostState :=
  match res with
  | Ok items => mkHostState (v4_fut s) None (v4_err s) (v6_err s) (queue s ++ map V6 items) (closed s) (yielded s)
  | Err e => mkHostState (v4_fut s) None (v4_err s) (Some e) (queue s) (closed s) (yielded s)
  | Panic => s
  end.

Inductive turn_result :=
| Ended
| Item (item : result DnsError IpAddr) (s : HostState)
| Loop (s : HostState).

(** One turn of the loop in [unfold]. *)
Definition host_turn (v4_first : bool) (s : HostState) : turn_result :=
  if closed s then Ended
  else
    match queue s with
    | item :: queue =>
        Item (Ok item) (mkHostState (v4_fut s) (v6_fut s) (v4_err s) (v6_err s) queue (closed s) true)
    | [] =>
        match v4_fut s, v6_fut s with
        | None, None =>
            let s' := mkHostState None None None None [] true (yielded s) in
            match v4_err s, v6_err s with
            | Some v4, Some v6 => Item (Err (ResolveBoth v4 v6)) s'
            | _, _ => if yielded s then Ended else Item (Err NoResponse) s'
            end
        | Some v4, None => Loop (v4_ready s v4)
        | None, Some v6 => Loop (v6_ready s v6)
        | Some v4, Some v6 => Loop (if v4_first then v4_ready s v4 else v6_ready s v6)
        end
    end.

(** The items of the stream; [None] when the fuel runs out. *)
Fixpoint host_items (fuel : nat) (v4_first : bool) (s : HostState) : option (list (result DnsError IpAddr)) :=
  match fuel with
  | O => None
  | S fuel =>
      match host_turn v4_first s with
      | Ended => Some []
      | Item item s => cons item <$> host_items fuel v4_first s
      | Loop s => host_items fuel v4_first s
      end
  end.

Definition resolve_host_all (fuel : nat) (host : option Host) (v4_first : bool) (v4 v6 : result DnsError (list bytes))
    : option (list (result DnsError IpAddr)) :=
  match host with
  | None => Some [Err MissingHost]
  | Some (HostV4 ip) => Some [Ok (V4 ip)]
  | Some (HostV6 ip) => Some [Ok (V6 ip)]
  | Some (Domain _) => host_items fuel v4_first (host_state v4 v6)
  end.

(** ** Staggered calls *)

Definition MAX_JITTER_PERCENT : Z := 20.

(** [u64::saturating_mul], [saturating_sub]. *)
Definition u64_saturating_mul (a b : Z) : Z := Z.min u64_max (a * b).
Definition u64_saturating_sub (a b : Z) : Z := Z.max 0 (a - b).

(** [random] is [rand::random::<u64>()]; the remainder by zero panics. *)
Definition add_jitter {E} (delay random : Z) : result E Z :=
  if delay =? 0 then Ok 0
  else
    let max_jitter := u64_saturating_mul delay (MAX_JITTER_PERCENT * 2) / 100 in
    if max_jitter =? 0 then Panic
    else
      let jitter := random mod max_jitter in
      Ok (from_millis (u64_saturating_add (u64_saturating_sub delay (max_jitter / 2)) jitter)).

(** The delays of the calls, the first one immediate. *)
Fixpoint jittered {E} (delays randoms : list Z) : result E (list Z) :=
  match delays, randoms with
  | d :: delays, r :: randoms =>
      let? d := add_jitter d r in
      let? ds := jittered delays randoms in
      Ok (d :: ds)
  | _, _ => Ok []
  end.

(** A call and when it finishes: after its delay and the time it takes. *)
Record call (E T : Type) := mkCall { finishes : Z; outcome : result E T }.
Arguments mkCall {E T}.
Arguments finishes {E T}.
Arguments outcome {E T}.

(** The calls in the order in which [calls.next()] yields them. *)
Fixpoint insert_call {E T} (c : call E T) (l : list (call E T)) : list (call E T) :=
  match l with
  | [] => [c]
  | c' :: l' => if finishes c <=? finishes c' then c :: l else c' :: insert_call c l'
  end.

Definition by_finish {E T} (l : list (call E T)) : list (call E T) := foldr insert_call [] l.

(** The loop over the finished calls: the errors so far. *)
Fixpoint first_ok {E T} (errors : list E) (l : list (call E T)) : result (list E) T :=
  match l with
  | [] => Err errors
  | c :: l =>
      match outcome c with
      | Ok t => Ok t
      | Err e => first_ok (errors ++ [e]) l
      | Panic => Panic
      end
  end.

(** [runs]: how long each call takes and what it returns. *)
Definition stagger_call {E T} (delays_ms randoms : list Z) (runs : list (Z * result E T)) : result (list E) T :=
  let? delays := jittered (0 :: delays_ms) randoms in
  first_ok [] (by_finish (zip_with (fun d r => mkCall (d + r.1) r.2) delays runs)).

(** ** Endpoint info *)

(** [Display for TxtRecordData]: the character strings, one after the other. *)
Definition TxtRecordData_to_string (data : list bytes) : string :=
  String.string_of_list_byte (flat_map from_utf8_lossy data).

Section Lookup.
Context {Ed : Ed25519} {De : DataEncoding} {Uc : UrlCrate}.

(** [lookup_txt] answers for a name. *)
Definition info_of_lookup (name : string) (lookup_txt : string -> result DnsError (list (list bytes)))
    : result LookupError EndpointInfo :=
  let? lookup := map_err LookupFailed (lookup_txt name) in
  map_err LookupParseError (info_from_txt_lookup name (map TxtRecordData_to_string lookup)).

Definition lookup_endpoint_by_id (id : EndpointId) (origin : string)
    (lookup_txt : string -> result DnsError (list (list bytes))) : result LookupError EndpointInfo :=
  info_of_lookup (IROH_TXT_NAME ++ String dot_char (to_z32 id ++ String dot_char origin))%string lookup_txt.

Definition lookup_endpoint_by_domain_name (name : string)
    (lookup_txt : string -> result DnsError (list (list bytes))) : result LookupError EndpointInfo :=
  let name := if String.prefix "_iroh." name then name else ("_iroh." ++ name)%string in
  info_of_lookup name lookup_txt.

End Lookup.

(** ** Lemmas: the stream of addresses *)

Definition addrs_of (wrap : bytes -> IpAddr) (r : result DnsError (list bytes)) : list IpAddr :=
  match r with Ok l => map wrap l | _ => [] end.

(** What the stream ends with after the addresses [l]. *)
Definition final_item (v4 v6 : result DnsError (list bytes)) (l : list IpAddr) : list (result DnsError IpAddr) :=
  match v4, v6 with
  | Err a, Err b => [Err (ResolveBoth a b)]
  | _, _ => if l is [] then [Err NoResponse] else []
  end.

Lemma host_items_drain q k v4_first f4 f6 e4 e6 y :
  host_items (length q + k) v4_first (mkHostState f4 f6 e4 e6 q false y) =
  app (map Ok q) <$> host_items k v4_first (mkHostState f4 f6 e4 e6 [] false (y || if q is [] then false else true)).
Proof.
  revert y. induction q as [|x q IH]; intros y.
  - rewrite orb_false_r. simpl. by destruct (host_items k _ _).
  - cbn [length Nat.add host_items host_turn closed queue]. cbn. rewrite IH. rewrite orb_true_r.
    cbn. by destruct (host_items k _ _).
Qed.

Lemma host_items_end k v4_first e4 e6 y :
  host_items (S (S k)) v4_first (mkHostState None None e4 e6 [] false y) =
  Some (match e4, e6 with
        | Some a, Some b => [Err (ResolveBoth a b)]
        | _, _ => if y then [] else [Err NoResponse]
        end).
Proof. destruct e4, e6, y; reflexivity. Qed.

Lemma host_items_fuel k k' v4_first s l :
  (k <= k')%nat -> host_items k v4_first s = Some l -> host_items k' v4_first s = Some l.
Proof.
  revert k' s l. induction k as [|k IH]; intros k' s l Hk H; [done|]. destruct k' as [|k']; [lia|].
  cbn [host_items] in *. destruct (host_turn v4_first s) as [|x s'|s']; [done| |by apply (IH k'); [lia|]].
  destruct (host_items k v4_first s') as [l'|] eqn:Hl; [|done]. rewrite (IH k' s' l') by (lia || done). done.
Qed.

(** The second lookup, once the first is done. *)
Lemma host_items_second k v4_first e y (is4 : bool) (r : result DnsError (list bytes)) :
  r <> Panic ->
  let wrap := if is4 then V4 else V6 in
  let s := if is4 then mkHostState (Some r) None None e [] false y else mkHostState None (Some r) e None [] false y in
  let l := addrs_of wrap r in
  host_items (S (length l + S (S k))) v4_first s =
  Some (map Ok l ++
        match r, e with
        | Err a, Some b => [Err (if is4 then ResolveBoth a b else ResolveBoth b a)]
        | _, _ => if (y || if l is [] then false else true) then [] else [Err NoResponse]
        end).
Proof.
  intros Hr wrap s l. destruct is4; cbn [host_items host_turn closed queue v4_fut v6_fut] in *; subst s l wrap;
    cbn [host_items host_turn closed queue v4_fut v6_fut]; destruct r as [its|er|]; try done; cbn [v4_ready v6_ready addrs_of queue closed yielded v4_err v6_err v4_fut v6_fut app length map Nat.add].
  - rewrite host_items_drain, host_items_end. by destruct e.
  - rewrite host_items_end. destruct e, y; done.
  - rewrite host_items_drain, host_items_end. by destruct e.
  - rewrite host_items_end. destruct e, y; done.
Qed.

Lemma host_items_all v4_first v4 v6 :
  v4 <> Panic -> v6 <> Panic ->
  let a4 := addrs_of V4 v4 in
  let a6 := addrs_of V6 v6 in
  let l := if v4_first : bool then a4 ++ a6 else a6 ++ a4 in
  host_items (length a4 + length a6 + 4) v4_first (host_state v4 v6) = Some (map Ok l ++ final_item v4 v6 l).
Proof.
  intros H4 H6 a4 a6 l. destruct v4_first.
  - replace (length a4 + length a6 + 4)%nat with (S (length a4 + S (length a6 + 2))) by lia.
    cbn [host_items host_turn host_state closed queue v4_fut v6_fut].
    destruct v4 as [l4|e4|]; [| |done]; cbn [v4_ready queue closed yielded v4_err v6_err v6_fut app].
    + fold (addrs_of V4 (Ok l4)). change (addrs_of V4 (Ok l4)) with a4. rewrite host_items_drain.
      rewrite (host_items_second 0 true None _ false v6 H6). cbn [fmap option_fmap option_map].
      cbn [host_state queue yielded app orb]. fold a6. f_equal. subst l. rewrite map_app, <- app_assoc. do 2 f_equal.
      unfold final_item. by destruct v6, a4, a6.
    + rewrite (host_items_second 0 true (Some e4) _ false v6 H6). subst l. cbn [addrs_of app length]. subst a4 a6. simpl.
      f_equal. f_equal. unfold final_item. by destruct v6 as [[]| |].
  - replace (length a4 + length a6 + 4)%nat with (S (length a6 + S (length a4 + 2))) by lia.
    cbn [host_items host_turn host_state closed queue v4_fut v6_fut].
    destruct v6 as [l6|e6|]; [| |done]; cbn [v6_ready queue closed yielded v4_err v6_err v4_fut app].
    + change (map V6 l6) with a6. rewrite host_items_drain.
      rewrite (host_items_second 0 false None _ true v4 H4). cbn [fmap option_fmap option_map].
      cbn [host_state queue yielded app orb]. fold a4. f_equal. subst l. rewrite map_app, <- app_assoc. do 2 f_equal.
      unfold final_item. by destruct v4, a4, a6.
    + rewrite (host_items_second 0 false (Some e6) _ true v4 H4). subst l a4 a6. simpl.
      f_equal. f_equal. unfold final_item. by destruct v4 as [[]| |].
Qed.

(** ** Lemmas: resets *)

Definition op_ok (s : inner) (p : op_phase) : Prop :=
  match p with
  | Registered g => (g <= gen s)%nat
  | Looking g v => (g <= gen s /\ g <= v <= version s)%nat
  | Finished_on v => (v <= version s)%nat
  | Timed_out => True
  end.

Definition inner_inv (s : inner) : Prop :=
  version s = (gen s + swapped s)%nat /\ map_Forall (fun _ p => op_ok s p) (ops s).

Lemma inner_inv_step s s' : inner_inv s -> op_step s s' -> inner_inv s'.
Proof.
  intros [Hv Ho] Hs. assert (Hset : forall t p, op_ok s p -> inner_inv (set_op t p s)).
  { intros t p Hp. split; [done|]. apply map_Forall_insert_2; done. }
  destruct Hs as [t s Hn|t g s Hg|t g v s Hg|t g v s Hg Hl|t g v s Hg Hl|r s Hr|r v s Hr Hl|r v s Hr Hl|r n s Hr Hl];
    try (pose proof (map_Forall_lookup_1 _ _ _ _ Ho Hg) as Hp; simpl in Hp);
    try (apply Hset; simpl; lia); try done; split; simpl; try done; try lia.
  all: eapply map_Forall_impl; [exact Ho|]; intros i [] Hi; simpl in *; lia.
Qed.

Lemma inner_inv_reach s : rtc op_step inner_init s -> inner_inv s.
Proof.
  apply (rtc_ind_r inner_inv); [|by intros ? ? _; eauto using inner_inv_step].
  split; [done|]. apply map_Forall_empty.
Qed.

(** ** Lemmas: staggered calls *)

Lemma elem_of_insert_call {E T} (c x : call E T) l : x ∈ insert_call c l <-> x = c \/ x ∈ l.
Proof.
  induction l as [|y l IH]; simpl; [set_solver|]. destruct (_ <=? _); set_solver.
Qed.

Lemma elem_of_by_finish {E T} (x : call E T) l : x ∈ by_finish l <-> x ∈ l.
Proof.
  induction l as [|y l IH]; simpl; [done|]. rewrite elem_of_insert_call, IH. set_solver.
Qed.

Lemma insert_call_sorted {E T} (c : call E T) l :
  StronglySorted (fun a b => finishes a <= finishes b) l ->
  StronglySorted (fun a b => finishes a <= finishes b) (insert_call c l).
Proof.
  induction 1 as [|y l Hs IH Hy]; simpl; [by repeat constructor|].
  destruct (Z.leb_spec (finishes c) (finishes y)) as [Hle|Hlt].
  - constructor; [by constructor|]. constructor; [done|]. eapply Forall_impl; [exact Hy|]. simpl; lia.
  - constructor; [done|]. apply Forall_forall. intros x [->|Hx]%elem_of_insert_call; [lia|].
    rewrite Forall_forall in Hy. by apply Hy.
Qed.

Lemma by_finish_sorted {E T} (l : list (call E T)) :
  StronglySorted (fun a b => finishes a <= finishes b) (by_finish l).
Proof. induction l; simpl; [constructor|by apply insert_call_sorted]. Qed.

Lemma by_finish_length {E T} (l : list (call E T)) : length (by_finish l) = length l.
Proof.
  assert (Hi : forall (c : call E T) l, length (insert_call c l) = S (length l)).
  { intros c l'. induction l' as [|y l' IH]; simpl; [done|]. destruct (_ <=? _); simpl; lia. }
  induction l as [|c l IH]; simpl; [done|]. by rewrite Hi, IH.
Qed.

(** The loop returns the first success, or the errors in order. *)
Lemma first_ok_spec {E T} (l : list (call E T)) errors :
  StronglySorted (fun a b => finishes a <= finishes b) l -> Forall (fun c => outcome c <> Panic) l ->
  match first_ok errors l with
  | Ok t => exists c, c ∈ l /\ outcome c = Ok t /\
      forall c' t', c' ∈ l -> outcome c' = Ok t' -> finishes c <= finishes c'
  | Err es => map Err es = map Err errors ++ map (fun c => outcome c) l
  | Panic => False
  end.
Proof.
  intros Hs. revert errors. induction Hs as [|c l Hs IH Hc]; intros errors Hp; simpl; [by rewrite app_nil_r|].
  inversion Hp as [|? ? Hpc Hpl]; subst. destruct (outcome c) as [t|e|] eqn:Ho; [| |done].
  - exists c. split; [set_solver|]. split; [done|]. intros c' t' [->|Hin]%elem_of_cons _; [lia|].
    rewrite Forall_forall in Hc. by apply Hc.
  - specialize (IH (errors ++ [e]) Hpl). destruct (first_ok (errors ++ [e]) l) as [t|es|]; [| |done].
    + destruct IH as (c' & Hin & Hc' & Hmin). exists c'. split; [set_solver|]. split; [done|].
      intros c'' t'' [->|Hin']%elem_of_cons Ho'; [congruence|by eapply Hmin].
    + rewrite IH, map_app, <- app_assoc. done.
Qed.

(** ** Properties *)

(** A lookup that runs on a resolver that was replaced, once no reset is
    between its swap and its wake, has a wake pending: it will start over, and
    the timeout cannot end it first. *)
Theorem stale_lookup_restarts s t g v :
  rtc op_step inner_init s -> ops s !! t = Some (Looking g v) -> (v < version s)%nat -> swapped s = 0%nat ->
  op_step s (set_op t (Registered (gen s)) s) /\ (forall s', op_step s s' -> ops s' !! t <> Some Timed_out).
Proof.
  intros Hr Ht Hv Hn. destruct (inner_inv_reach s Hr) as [Hver Ho].
  pose proof (map_Forall_lookup_1 _ _ _ _ Ho Ht) as Hp. simpl in Hp. split; [by eapply op_woken; [done|lia]|].
  intros s' Hs. destruct Hs as [t' s|t' g' s|t' g' v' s Hg|t' g' v' s Hg|t' g' v' s Hg|r s|r v' s|r v' s|r n s];
    simpl; try congruence; destruct (decide (t' = t)) as [->|]; simplify_map_eq; try congruence; lia.
Qed.

(** Whichever lookup is first, the stream yields the addresses of the first
    and then those of the second, and then one error only when both failed or no
    address was found; it ends. *)
Theorem resolve_host_all_items fuel d v4_first v4 v6 :
  v4 <> Panic -> v6 <> Panic ->
  let a4 := addrs_of V4 v4 in
  let a6 := addrs_of V6 v6 in
  (length a4 + length a6 + 4 <= fuel)%nat ->
  let l := if v4_first : bool then a4 ++ a6 else a6 ++ a4 in
  resolve_host_all fuel (Some (Domain d)) v4_first v4 v6 = Some (map Ok l ++ final_item v4 v6 l).
Proof. intros H4 H6 a4 a6 Hf l. eapply host_items_fuel; [exact Hf|]. by apply host_items_all. Qed.

(** A jittered delay of at least 3 ms is within a fifth of the delay; one of
    1 or 2 ms panics on a remainder by zero. *)
Theorem add_jitter_bounds {E} delay random :
  0 <= delay <= u64_max -> 0 <= random ->
  match add_jitter (E := E) delay random with
  | Ok d => delay <> 1 /\ delay <> 2 /\
      from_millis (delay - delay / 5) <= d <= from_millis (Z.min u64_max (delay + delay / 5))
  | Err _ => False
  | Panic => delay = 1 \/ delay = 2
  end.
Proof.
  intros Hd Hr. unfold add_jitter, u64_saturating_mul, u64_saturating_sub, u64_saturating_add, MAX_JITTER_PERCENT, from_millis.
  destruct (Z.eqb_spec delay 0) as [->|H0]; [by split_and!|].
  change u64_max with 18446744073709551615 in *. change (10 ^ 6) with 1000000.
  set (m := Z.min 18446744073709551615 (delay * (20 * 2)) / 100).
  assert (Hm : m <= 2 * delay / 5 /\ 5 * (m / 2) <= delay /\ 0 <= m)
    by (subst m; repeat split; Z.to_euclidean_division_equations; lia).
  destruct (Z.eqb_spec m 0) as [Hz|Hz]; [subst m; Z.to_euclidean_division_equations; lia|].
  pose proof (Z.mod_pos_bound random m). split_and!; [by intros ->|by intros ->| |].
  all: Z.to_euclidean_division_equations; lia.
Qed.

(** A staggered call returns a success that no other success precedes, or,
    when every call fails, the errors of all of them in the order they finished. *)
Theorem stagger_call_first {E T} delays_ms randoms (runs : list (Z * result E T)) delays :
  jittered (E := list E) (0 :: delays_ms) randoms = Ok delays ->
  Forall (fun r => r.2 <> Panic) runs ->
  let calls := zip_with (fun d r => mkCall (d + r.1) r.2) delays runs in
  match stagger_call delays_ms randoms runs with
  | Ok t => exists c, c ∈ calls /\ outcome c = Ok t /\
      forall c' t', c' ∈ calls -> outcome c' = Ok t' -> finishes c <= finishes c'
  | Err es => map Err es = map (fun c => outcome c) (by_finish calls)
  | Panic => False
  end.
Proof.
  intros Hj Hp calls. unfold stagger_call. rewrite Hj. cbn [rbind]. fold calls.
  assert (Hc : Forall (fun c => outcome c <> Panic) (by_finish calls)).
  { apply Forall_forall. intros c Hc. rewrite elem_of_by_finish in Hc. apply elem_of_lookup_zip_with_1 in Hc as (i & d & r & -> & _ & Hr).
    rewrite Forall_forall in Hp. eapply Hp, list_elem_of_lookup_2, Hr. }
  pose proof (first_ok_spec (by_finish calls) [] (by_finish_sorted calls) Hc) as H.
  destruct (first_ok [] (by_finish calls)) as [t|es|]; [|exact H|done].
  destruct H as (c & Hin & Ho & Hmin). exists c. split; [by apply elem_of_by_finish|]. split; [done|].
  intros c' t' Hin'. apply Hmin. by apply elem_of_by_finish.
Qed.

(** ** Instances of the properties *)

(** A lookup starts, a reset swaps the resolver and wakes. *)
Definition reset_run : inner :=
  mkInner 1 1 0 {[ 0%nat := Looking 0 0 ]} {[ 0%nat := ResetDone ]}.

Lemma reset_run_reachable : rtc op_step inner_init reset_run.
Proof.
  eapply rtc_l; [apply (op_start 0); reflexivity|].
  eapply rtc_l; [eapply (op_load 0); reflexivity|].
  eapply rtc_l; [apply (reset_load 0); reflexivity|].
  eapply rtc_l; [eapply (reset_swap 0); reflexivity|].
  eapply rtc_l; [eapply (reset_notify 0); reflexivity|].
  apply reflexive_eq. reflexivity.
Qed.

Lemma stale_lookup_restarts_witness :
  op_step reset_run (set_op 0 (Registered 1) reset_run) /\
  (forall s', op_step reset_run s' -> ops s' !! 0%nat <> Some Timed_out).
Proof. apply (stale_lookup_restarts reset_run 0 0 0); [apply reset_run_reachable|reflexivity|simpl; lia|reflexivity]. Defined.

Lemma resolve_host_all_items_witness :
  resolve_host_all 5 (Some (Domain "relay.example")) false (Ok [[Byte.x7f; Byte.x00; Byte.x00; Byte.x01]]) (Err DnsTimeout) =
  Some [Ok (V4 [Byte.x7f; Byte.x00; Byte.x00; Byte.x01])].
Proof.
  apply (resolve_host_all_items 5 "relay.example" false (Ok [[Byte.x7f; Byte.x00; Byte.x00; Byte.x01]]) (Err DnsTimeout));
    [done|done|simpl; lia].
Defined.

Lemma add_jitter_bounds_witness :
  (match add_jitter (E := unit) 200 79 with
   | Ok d => 200 <> 1 /\ 200 <> 2 /\ from_millis (200 - 200 / 5) <= d <= from_millis (Z.min u64_max (200 + 200 / 5))
   | Err _ => False
   | Panic => 200 = 1 \/ 200 = 2
   end) /\ add_jitter (E := unit) 2 79 = Panic.
Proof. split; [apply (add_jitter_bounds 200 79); unfold u64_max; lia|reflexivity]. Defined.

Lemma stagger_call_first_witness :
  stagger_call [200] [0; 5] [(900, Err 1%nat); (50, Ok 2%nat)] = Ok 2%nat /\
  exists c, c ∈ [mkCall 900 (Err 1%nat); mkCall 165000050 (Ok 2%nat)] /\ outcome c = Ok 2%nat /\
    forall c' t', c' ∈ [mkCall 900 (Err 1%nat); mkCall 165000050 (Ok 2%nat)] -> outcome c' = Ok t' -> finishes c <= finishes c'.
Proof.
  split; [reflexivity|].
  apply (stagger_call_first [200] [0; 5] [(900, Err 1%nat); (50, Ok 2%nat)] [0; 165000000]);
    [reflexivity|by repeat constructor].
Defined.

End Dns.
