(* ===== verification/PacketStore.v ===== *)
(** * The database of signed packets

    [iroh-dns-server/src/store/signed_packets.rs]: the actor that owns the
    database and batches its writes, and the task that evicts old packets. The
    database itself is the [redb] crate; that a read or a write of it fails is
    not modelled. *)

From S2P Require Import Prelude External Instances Keys Pkarr.
Import Pkarr.

Module Store.

Abbreviation PublicKeyBytes := bytes.

(** [max_batch_time] only decides when a batch may end. *)
Record Options := mkOptions { max_batch_size : nat; max_batch_time : Z; eviction : Z; eviction_interval : Z }.

Definition Options_default : Options :=
  mkOptions (1024 * 64) (from_secs 1) (from_secs (3600 * 24 * 7)) (from_secs 10).

Inductive StoreError := DecodeFailed (source : SignedPacketVerifyError).

Inductive Message :=
| Upsert (packet : SignedPacket)
| Get (key : PublicKeyBytes)
| Remove (key : PublicKeyBytes)
| SnapshotMsg
| CheckExpired (time : Z) (key : PublicKeyBytes).

(** [as_micros() as u64]. *)
Definition expiry_us (o : Options) : Z := as_u64 (eviction o / 1000).

(** [Timestamp::now] less the expiry, saturating. *)
Definition cutoff (o : Options) (now : Z) : Z := Z.max 0 (now - expiry_us o).

(** The order of the keys of a table. *)
Definition key_before (a b : bytes) : Prop := bytes_compare a b = Lt.
#[export] Instance key_before_dec : RelDecision key_before.
Proof. intros a b. unfold key_before. solve_decision. Defined.

Section Actor.
Context {Ed : Ed25519} {Sd : SimpleDns} {Rd : Redb}.

Record Tables := mkTables { signed_packets : rtable; update_time : rmulti }.

Definition no_tables : Tables := mkTables rt_empty rm_empty.

Inductive reply :=
| RBool (b : bool)
| RPacket (p : option SignedPacket)
| RSnapshot (t : Tables)
| RNone.

(** [now] is the time of day in the [last_seen] prefix. *)
Definition serialize (now : Z) (packet : SignedPacket) : bytes := be_bytes 8 now ++ packet_bytes packet.

Definition deserialize (data : bytes) : result StoreError SignedPacket :=
  let raw := map_err DecodeFailed (from_bytes_unchecked data) in
  if (8 <=? length data)%nat then
    match from_bytes_unchecked (drop 8 data) with
    | Ok packet => Ok packet
    | _ => raw
    end
  else raw.

Definition get_packet (table : rtable) (key : PublicKeyBytes) : result StoreError (option SignedPacket) :=
  match rt_get table key with
  | None => Ok None
  | Some row => rmap Some (deserialize row)
  end.

(** [PublicKeyBytes::from_signed_packet]: panics on a key that is not valid. *)
Definition key_of {E} (packet : SignedPacket) : result E PublicKeyBytes := rmap as_bytes (packet_public_key packet).

(** [db] is what was committed last, [tables] the open transaction. *)
Definition handle_message (o : Options) (now : Z) (db : Tables) (msg : Message) (tables : Tables)
    : result StoreError (Tables * reply) :=
  let '(mkTables sp ut) := tables in
  match msg with
  | Get key =>
      let? packet := get_packet sp key in
      Ok (tables, RPacket packet)
  | Upsert packet =>
      let? key := key_of packet in
      let? existing := get_packet sp key in
      let insert ut :=
        let? ts := packet_timestamp packet in
        Ok (mkTables (rt_insert sp key (serialize now packet)) (rm_insert ut (be_bytes 8 ts) key), RBool true) in
      match existing with
      | Some existing =>
          let? newer := more_recent_than existing packet in
          if newer : bool then Ok (tables, RBool false)
          else
            let? old := packet_timestamp existing in
            insert (rm_remove ut (be_bytes 8 old) key)
      | None => insert ut
      end
  | Remove key =>
      match rt_get sp key with
      | Some row =>
          let? packet := deserialize row in
          let? ts := packet_timestamp packet in
          Ok (mkTables (rt_remove sp key) (rm_remove ut (be_bytes 8 ts) key), RBool true)
      | None => Ok (mkTables (rt_remove sp key) ut, RBool false)
      end
  | SnapshotMsg => Ok (tables, RSnapshot db)
  | CheckExpired time key =>
      let? found := get_packet sp key in
      match found with
      | Some packet =>
          let? ts := packet_timestamp packet in
          if ts <? cutoff o now
          then Ok (mkTables (rt_remove sp key) (rm_remove ut (be_bytes 8 time) key), RNone)
          else Ok (mkTables sp (rm_remove ut (be_bytes 8 time) key), RNone)
      | None => Ok (mkTables sp (rm_remove ut (be_bytes 8 time) key), RNone)
      end
  end.

(** The messages of one pass of [evict_task_inner]. *)
Definition evict_messages (o : Options) (now : Z) (snapshot : Tables) : list Message :=
  flat_map (fun '(time, keys) => map (CheckExpired (from_be_bytes time)) keys)
    (rm_range_to (update_time snapshot) (be_bytes 8 (cutoff o now))).

(** ** The actor and its clients

    [txn] is the open write transaction with the number of messages it may still
    take, [pushed] the message pushed back, [log] what was handled, each message
    with its time, and [replies] what was answered. *)
Record system := mkSystem {
  db : Tables;
  txn : option (Tables * nat);
  pushed : option Message;
  inbox : list Message;
  snapshot : option Tables;
  clock : Z;
  log : list (Z * Message);
  replies : list reply;
  stopped : bool
}.

Definition view (s : system) : Tables := from_option fst (db s) (txn s).

(** [PeekableReceiver::recv]. *)
Definition recv (s : system) : option (Message * system) :=
  match pushed s, inbox s with
  | Some m, _ => Some (m, mkSystem (db s) (txn s) None (inbox s) (snapshot s) (clock s) (log s) (replies s) (stopped s))
  | None, m :: rest =>
      Some (m, mkSystem (db s) (txn s) None rest (snapshot s) (clock s) (log s) (replies s) (stopped s))
  | None, [] => None
  end.

Definition send (m : Message) (s : system) : system :=
  mkSystem (db s) (txn s) (pushed s) (inbox s ++ [m]) (snapshot s) (clock s) (log s) (replies s) (stopped s).

(** The end of a batch: [commit]. *)
Definition commit (s : system) (stop : bool) : system :=
  mkSystem (view s) None (pushed s) (inbox s) (snapshot s) (clock s) (log s) (replies s) stop.

(** A message is answered; the evict task keeps the snapshot it asked for. *)
Definition answered (now : Z) (m : Message) (t : option (Tables * nat)) (r : reply) (s : system) : system :=
  mkSystem (db s) t (pushed s) (inbox s) (match r with RSnapshot t => Some t | _ => snapshot s end) now
    (log s ++ [(now, m)]) (replies s ++ [r]) (stopped s).

(** What clients send: verified packets and keys. *)
Definition client_message (m : Message) : Prop :=
  match m with
  | Upsert p => exists bs, packet_from_bytes bs = Ok p
  | CheckExpired _ _ => False
  | _ => True
  end.

Inductive step (o : Options) : system -> system -> Prop :=
| client_send m s : client_message m -> step o s (send m s)
| evict_send now t m s :
    clock s < now <= u64_max -> snapshot s = Some t -> m ∈ evict_messages o now t ->
    step o s (send m (mkSystem (db s) (txn s) (pushed s) (inbox s) (snapshot s) now (log s) (replies s) (stopped s)))
| idle_snapshot now s s' :
    stopped s = false -> txn s = None -> recv s = Some (SnapshotMsg, s') -> clock s < now <= u64_max ->
    step o s (answered now SnapshotMsg None (RSnapshot (db s)) s')
| begin_batch m s s' :
    stopped s = false -> txn s = None -> recv s = Some (m, s') -> m <> SnapshotMsg ->
    step o s (mkSystem (db s) (Some (db s, max_batch_size o)) (Some m) (inbox s') (snapshot s) (clock s)
                (log s) (replies s) false)
| handle now m n t t' r s s' :
    stopped s = false -> txn s = Some (t, S n) -> recv s = Some (m, s') -> clock s < now <= u64_max ->
    handle_message o now (db s) m t = Ok (t', r) ->
    step o s (answered now m (Some (t', n)) r s')
| handle_fails now m n t s s' :
    stopped s = false -> txn s = Some (t, S n) -> recv s = Some (m, s') -> clock s < now <= u64_max ->
    (forall x, handle_message o now (db s) m t <> Ok x) ->
    step o s (mkSystem (db s) None None (inbox s') (snapshot s) now (log s) (replies s) true)
| batch_full t s :
    stopped s = false -> txn s = Some (t, O) -> step o s (commit s false)
| batch_timeout t n s :
    stopped s = false -> txn s = Some (t, S n) -> step o s (commit s false)
| cancelled t n s :
    stopped s = false -> txn s = Some (t, S n) -> step o s (commit s true).

Definition system_init (t : Tables) : system := mkSystem t None None [] None 0 [] [] false.

(** ** The specification: a map from keys to their newest packet *)

Definition packet_ts (p : SignedPacket) : Z := from_be_bytes (take 8 (drop 96 (packet_bytes p))).
Definition packet_key (p : SignedPacket) : PublicKeyBytes := take 32 (packet_bytes p).

(** What is seen of a reply apart from the contents of snapshots. *)
Definition observe (r : reply) : reply :=
  match r with
  | RSnapshot _ => RNone
  | r => r
  end.

Definition spec_message (o : Options) (now : Z) (m : Message) (s : gmap PublicKeyBytes SignedPacket)
    : gmap PublicKeyBytes SignedPacket * reply :=
  match m with
  | Upsert p =>
      match s !! packet_key p with
      | Some q =>
          if bool_decide (packet_ts p < packet_ts q \/
                          (packet_ts p = packet_ts q /\ bytes_compare (encoded_packet q) (encoded_packet p) = Gt))
          then (s, RBool false)
          else (<[packet_key p := p]> s, RBool true)
      | None => (<[packet_key p := p]> s, RBool true)
      end
  | Get k => (s, RPacket (s !! k))
  | Remove k => (delete k s, RBool (bool_decide (is_Some (s !! k))))
  | SnapshotMsg => (s, RNone)
  | CheckExpired _ k =>
      match s !! k with
      | Some p => (if packet_ts p <? cutoff o now then delete k s else s, RNone)
      | None => (s, RNone)
      end
  end.

Fixpoint spec_run (o : Options) (s : gmap PublicKeyBytes SignedPacket) (l : list (Z * Message))
    : gmap PublicKeyBytes SignedPacket * list reply :=
  match l with
  | [] => (s, [])
  | (now, m) :: l =>
      let '(s', r) := spec_message o now m s in
      let '(s'', rs) := spec_run o s' l in
      (s'', r :: rs)
  end.

(** ** Lemmas: time keys *)

Lemma be_bytes_compare_mod n a b :
  bytes_compare (be_bytes n a) (be_bytes n b) = Z.compare (a mod 2 ^ (8 * Z.of_nat n)) (b mod 2 ^ (8 * Z.of_nat n)).
Proof.
  induction n as [|n IH].
  - change (2 ^ (8 * Z.of_nat 0)) with 1. rewrite !Z.mod_1_r.
    by destruct (be_bytes 0 a) eqn:Ea, (be_bytes 0 b) eqn:Eb;
      [|apply (f_equal length) in Eb|apply (f_equal length) in Ea..]; rewrite ?length_be_bytes in *.
  - rewrite !be_bytes_S. cbn [bytes_compare]. rewrite IH, !byte.unsigned_of_Z. unfold byte.wrap.
    set (m := 2 ^ (8 * Z.of_nat n)). assert (Hm : 0 < m) by (apply Z.pow_pos_nonneg; lia).
    replace (2 ^ (8 * Z.of_nat (S n))) with (m * 2 ^ 8)
      by (unfold m; rewrite <- Z.pow_add_r by lia; f_equal; lia).
    rewrite !(Z.rem_mul_r _ m (2 ^ 8)) by lia.
    pose proof (Z.mod_pos_bound a m Hm). pose proof (Z.mod_pos_bound b m Hm).
    set (x := (a / m) mod 2 ^ 8) in *. set (y := (b / m) mod 2 ^ 8) in *.
    destruct (Z.compare_spec x y) as [->|Hlt|Hgt].
    + destruct (Z.compare_spec (a mod m) (b mod m)), (Z.compare_spec (a mod m + m * y) (b mod m + m * y)); lia || done.
    + destruct (Z.compare_spec (a mod m + m * x) (b mod m + m * y)); [nia|done|nia].
    + destruct (Z.compare_spec (a mod m + m * x) (b mod m + m * y)); [nia|nia|done].
Qed.

Definition in_u64 (z : Z) : Prop := 0 <= z <= u64_max.

Lemma be_bytes_lt a b : in_u64 a -> in_u64 b -> bytes_compare (be_bytes 8 a) (be_bytes 8 b) = Lt <-> a < b.
Proof.
  unfold in_u64, u64_max. intros Ha Hb. rewrite be_bytes_compare_mod. change (8 * Z.of_nat 8) with 64.
  rewrite !Z.mod_small by lia. apply Z.compare_lt_iff.
Qed.

Lemma be_bytes_inj a b : in_u64 a -> in_u64 b -> be_bytes 8 a = be_bytes 8 b -> a = b.
Proof. intros Ha Hb H. rewrite <- (layout_timestamp a Ha), <- (layout_timestamp b Hb). by rewrite H. Qed.

(** ** Lemmas: packets *)

Context {EdL : Ed25519Laws Ed}.

Definition packet_ok (p : SignedPacket) : Prop := exists bs, packet_from_bytes bs = Ok p.

Record packet_facts (p : SignedPacket) : Prop := mkFacts {
  facts_len : long_enough p;
  facts_unchecked : from_bytes_unchecked (packet_bytes p) = Ok p;
  facts_key : forall E, key_of (E := E) p = Ok (packet_key p);
  facts_ts : forall E, packet_timestamp (E := E) p = Ok (packet_ts p);
  facts_u64 : in_u64 (packet_ts p)
}.

Lemma packet_ok_facts p : packet_ok p -> packet_facts p.
Proof.
  intros [bs H]. pose proof (accepted_facts bs p H) as (Hb & Hlen & Hp & Hk). subst bs.
  assert (Hl : long_enough p) by (unfold long_enough, blen in *; lia). constructor.
  - done.
  - unfold from_bytes_unchecked, ensure, HEADER_SIZE, MAX_SIGNED_PACKET_SIZE, HEADER_SIZE, MAX_DNS_PACKET_SIZE.
    destruct (Z.leb_spec 104 (blen (packet_bytes p))); [|lia].
    destruct (Z.leb_spec (blen (packet_bytes p)) (104 + 1000)); [|lia]. cbn [rbind].
    unfold encoded_packet in Hp. destruct Hp as [x ->]. by destruct p.
  - intros E. unfold key_of. by rewrite Hk.
  - intros E. unfold packet_timestamp. rewrite slice_ok by (unfold long_enough in Hl; lia). done.
  - unfold packet_ts, in_u64, u64_max. pose proof (from_be_bytes_bound (take 8 (drop 96 (packet_bytes p)))) as Hb.
    rewrite length_take, length_drop in Hb. unfold long_enough in Hl.
    replace (Nat.min _ _) with 8%nat in Hb by lia. change (8 * Z.of_nat 8) with 64 in Hb. lia.
Qed.

(** What is written is read back. *)
Lemma deserialize_serialize now p : packet_ok p -> deserialize (serialize now p) = Ok p.
Proof.
  intros Hp. unfold deserialize, serialize. rewrite length_app, length_be_bytes.
  rewrite drop_app_length' by (by rewrite length_be_bytes). by rewrite (facts_unchecked p (packet_ok_facts p Hp)).
Qed.

(** ** Lemmas: the tables *)

Context {RdL : RedbLaws Rd key_before}.

(** Every row is a verified packet under its own key, listed at its time. *)
Definition tables_ok (t : Tables) : Prop :=
  (forall k row, rt_get (signed_packets t) k = Some row ->
     exists p, deserialize row = Ok p /\ packet_ok p /\ packet_key p = k /\
       rm_has (update_time t) (be_bytes 8 (packet_ts p)) k) /\
  (forall time k, rm_has (update_time t) time k -> length time = 8%nat).

Definition refines (t : Tables) (s : gmap PublicKeyBytes SignedPacket) : Prop :=
  tables_ok t /\ forall k, get_packet (signed_packets t) k = Ok (s !! k).

Lemma refines_lookup t s k p :
  refines t s -> s !! k = Some p ->
  packet_ok p /\ packet_key p = k /\ rm_has (update_time t) (be_bytes 8 (packet_ts p)) k.
Proof.
  intros [[Hok _] Hr] Hs. specialize (Hr k). rewrite Hs in Hr. unfold get_packet in Hr.
  destruct (rt_get _ k) as [row|] eqn:Hrow; [|done]. destruct (Hok k row Hrow) as (q & Hq & Hqok & Hk & Hi).
  rewrite Hq in Hr. by simplify_eq/=.
Qed.

Lemma refines_empty : refines no_tables ∅.
Proof.
  split; [split|].
  - intros k row H. simpl in H. by rewrite rt_get_empty in H.
  - intros time k H. by apply rm_has_empty in H.
  - intros k. unfold get_packet. simpl. rewrite rt_get_empty. by rewrite lookup_empty.
Qed.

(** A packet is written; its old entry in the index may go. *)
Lemma refines_insert t s now p ut :
  refines t s -> packet_ok p ->
  (forall time k, k <> packet_key p -> rm_has (update_time t) time k -> rm_has ut time k) ->
  (forall time k, rm_has ut time k -> rm_has (update_time t) time k) ->
  refines (mkTables (rt_insert (signed_packets t) (packet_key p) (serialize now p))
             (rm_insert ut (be_bytes 8 (packet_ts p)) (packet_key p)))
          (<[packet_key p := p]> s).
Proof.
  intros [[Hok Hi] Hr] Hp Hin Hout. split; [split|]; simpl.
  - intros k row. rewrite rt_get_insert. destruct (decide (k = packet_key p)) as [->|Hk].
    + intros [= <-]. exists p. rewrite deserialize_serialize by done. split_and!; [done..|].
      apply rm_has_insert. by left.
    + intros Hrow. destruct (Hok k row Hrow) as (q & Hq & Hqok & Hk' & Hh). exists q. split_and!; [done..|].
      apply rm_has_insert. right. by apply Hin.
  - intros time k [[-> ->]|H]%rm_has_insert; [apply length_be_bytes|]. by eapply Hi, Hout.
  - intros k. unfold get_packet. rewrite rt_get_insert. destruct (decide (k = packet_key p)) as [->|Hk].
    + rewrite lookup_insert_eq, deserialize_serialize by done. done.
    + rewrite lookup_insert_ne by done. apply Hr.
Qed.

(** A key is taken out together with some entries of its own. *)
Lemma refines_delete t s k ut :
  refines t s ->
  (forall time j, j <> k -> rm_has (update_time t) time j -> rm_has ut time j) ->
  (forall time j, rm_has ut time j -> rm_has (update_time t) time j) ->
  refines (mkTables (rt_remove (signed_packets t) k) ut) (delete k s).
Proof.
  intros [[Hok Hi] Hr] Hin Hout. split; [split|]; simpl.
  - intros j row. rewrite rt_get_remove. destruct (decide (j = k)) as [->|Hk]; [done|].
    intros Hrow. destruct (Hok j row Hrow) as (q & Hq & Hqok & Hk' & Hh). exists q. split_and!; try done. by apply Hin.
  - intros time j H. by eapply Hi, Hout.
  - intros j. unfold get_packet. rewrite rt_get_remove. destruct (decide (j = k)) as [->|Hk].
    + by rewrite lookup_delete_eq.
    + rewrite lookup_delete_ne by done. apply Hr.
Qed.

(** An entry of the index that is not the time of its packet is taken out. *)
Lemma refines_unindex t s time k :
  refines t s -> (forall p, s !! k = Some p -> be_bytes 8 (packet_ts p) <> time) ->
  refines (mkTables (signed_packets t) (rm_remove (update_time t) time k)) s.
Proof.
  intros Hrf Hne. pose proof Hrf as [[Hok Hi] Hr]. split; [split|]; simpl; [| |done].
  - intros j row Hrow. destruct (Hok j row Hrow) as (q & Hq & Hqok & Hk & Hh). exists q. split_and!; [done..|].
    apply rm_has_remove. split; [done|]. intros [Ht ->]. apply (Hne q); [|done].
    specialize (Hr k). unfold get_packet in Hr. rewrite Hrow, Hq in Hr. by simplify_eq/=.
  - intros time' j [H _]%rm_has_remove. by eapply Hi.
Qed.

(** The messages a database can get at [now]. *)
Definition message_ok (o : Options) (now : Z) (m : Message) : Prop :=
  match m with
  | Upsert p => packet_ok p
  | CheckExpired time _ => in_u64 time /\ time < cutoff o now
  | _ => True
  end.

Lemma handle_upsert o now dbt p t s :
  refines t s -> packet_ok p ->
  exists t' r, handle_message o now dbt (Upsert p) t = Ok (t', r) /\
    refines t' (spec_message o now (Upsert p) s).1 /\ observe r = (spec_message o now (Upsert p) s).2.
Proof.
  intros Hrf Hp. pose proof Hrf as [_ Hr]. pose proof (packet_ok_facts p Hp) as [Hlen _ Hkey Hts _].
  destruct t as [sp ut]. cbn [handle_message spec_message]. rewrite Hkey. cbn [rbind]. rewrite Hr. cbn [rbind].
  destruct (s !! packet_key p) as [q|] eqn:Hq.
  - destruct (refines_lookup _ _ _ _ Hrf Hq) as (Hqok & Hqk & Hqi).
    pose proof (packet_ok_facts q Hqok) as [Hqlen _ _ Hqts _].
    destruct (more_recent_spec (E := StoreError) q p Hqlen Hlen) as (b & -> & Hb). cbn [rbind].
    assert (Hnew : newer (recency q) (recency p) <-> packet_ts p < packet_ts q \/
      packet_ts p = packet_ts q /\ bytes_compare (encoded_packet q) (encoded_packet p) = Gt).
    { unfold newer, recency, packet_ts. cbn [fst snd]. naive_solver. }
    rewrite Hnew in Hb. destruct b; [rewrite bool_decide_eq_true_2 by tauto; eauto|].
    rewrite bool_decide_eq_false_2 by naive_solver. rewrite Hqts, Hts. cbn [rbind]. eexists _, _. split; [done|]. split; [|done].
    apply (refines_insert (mkTables sp ut)); [done|done| |].
    + intros time k Hk H. apply rm_has_remove. naive_solver.
    + by intros time k [H _]%rm_has_remove.
  - rewrite Hts. cbn [rbind]. eexists _, _. split; [done|]. split; [|done].
    by apply (refines_insert (mkTables sp ut)).
Qed.

Lemma handle_check_expired o now dbt time k t s :
  refines t s -> in_u64 time -> time < cutoff o now ->
  exists t', handle_message o now dbt (CheckExpired time k) t = Ok (t', RNone) /\
    refines t' (spec_message o now (CheckExpired time k) s).1.
Proof.
  intros Hrf Htime Hlt. pose proof Hrf as [_ Hr]. destruct t as [sp ut].
  cbn [handle_message spec_message]. rewrite Hr. cbn [rbind].
  destruct (s !! k) as [q|] eqn:Hq.
  - destruct (refines_lookup _ _ _ _ Hrf Hq) as (Hqok & Hqk & Hqi).
    pose proof (packet_ok_facts q Hqok) as [_ _ _ Hqts Hq64]. rewrite Hqts. cbn [rbind].
    destruct (Z.ltb_spec (packet_ts q) (cutoff o now)) as [Hx|Hx]; (eexists; split; [done|]).
    + apply (refines_delete (mkTables sp ut)); [done| |].
      * intros time' j Hj H. apply rm_has_remove. naive_solver.
      * by intros time' j [H _]%rm_has_remove.
    + apply (refines_unindex (mkTables sp ut)); [done|]. intros p Hp Heq. cbn [fst] in Hp. rewrite Hq in Hp. injection Hp as <-.
      apply be_bytes_inj in Heq; [lia|done|done].
  - eexists. split; [done|]. apply (refines_unindex (mkTables sp ut)); [done|]. intros p Hp. cbn [fst] in Hp. congruence.
Qed.

(** Every message is handled as the specification says, without an error. *)
Lemma handle_refines o now dbt m t s :
  refines t s -> message_ok o now m ->
  exists t' r, handle_message o now dbt m t = Ok (t', r) /\
    refines t' (spec_message o now m s).1 /\ observe r = (spec_message o now m s).2.
Proof.
  intros Hrf Hm. destruct m as [p|k|k| |time k].
  - by apply handle_upsert.
  - destruct t as [sp ut], Hrf as [Hok Hr]. cbn. rewrite Hr. cbn [rbind]. eexists _, _. done.
  - pose proof Hrf as [_ Hr]. specialize (Hr k). destruct t as [sp ut]. cbn [handle_message spec_message fst snd].
    unfold get_packet in Hr. cbn [signed_packets] in Hr. destruct (rt_get sp k) as [row|] eqn:Hrow.
    + destruct (deserialize row) as [q| |] eqn:Hd; try done. injection Hr as Hr. cbn [rbind].
      destruct (refines_lookup _ _ k q Hrf ltac:(done)) as (Hqok & Hqk & Hqi).
      rewrite (facts_ts q (packet_ok_facts q Hqok)). cbn [rbind]. eexists _, _. split; [done|].
      split; [|by rewrite <- Hr, bool_decide_eq_true_2 by eauto].
      apply (refines_delete (mkTables sp ut)); [done| |].
      * intros time' j Hj H. apply rm_has_remove. naive_solver.
      * by intros time' j [H _]%rm_has_remove.
    + injection Hr as Hr. eexists _, _. split; [done|]. split; [|rewrite <- Hr; by rewrite bool_decide_eq_false_2 by (by intros [])].
      by apply (refines_delete (mkTables sp ut)).
  - destruct t as [sp ut]. eexists _, _. done.
  - destruct (handle_check_expired o now dbt time k t s Hrf (proj1 Hm) (proj2 Hm)) as (t' & -> & Ht').
    eexists _, _. split; [done|]. split; [done|]. cbn. by destruct (s !! k).
Qed.

Lemma handle_snapshot o now dbt m t t' t2 :
  handle_message o now dbt m t = Ok (t', RSnapshot t2) -> t2 = dbt.
Proof.
  destruct t as [sp ut], m as [p|k|k| |time k]; cbn [handle_message]; unfold rbind, rmap; intros H;
    repeat case_match; try discriminate; congruence.
Qed.

Lemma spec_run_snoc o s l now m :
  spec_run o s (l ++ [(now, m)]) =
  (let '(s', rs) := spec_run o s l in let '(s'', r) := spec_message o now m s' in (s'', rs ++ [r])).
Proof.
  revert s. induction l as [|[now' m'] l IH]; intros s; cbn.
  - by destruct (spec_message o now m s).
  - destruct (spec_message o now' m' s) as [s1 r1]. rewrite IH. destruct (spec_run o s1 l) as [s2 rs].
    by destruct (spec_message o now m s2).
Qed.

(** ** Lemmas: the system *)

Lemma message_ok_later o now now' m : now <= now' -> message_ok o now m -> message_ok o now' m.
Proof. destruct m; simpl; try done. intros Hn [Ht Hc]. split; [done|]. unfold cutoff in *. lia. Qed.

Lemma evict_messages_ok o now t m :
  tables_ok t -> 0 <= now <= u64_max -> m ∈ evict_messages o now t -> message_ok o now m.
Proof.
  intros [_ Hi] Hnow Hm. unfold evict_messages in Hm. apply list_elem_of_In, in_flat_map in Hm as ([time keys] & Hin & Hm).
  apply in_map_iff in Hm as (k & <- & Hk).
  assert (rm_has (update_time t) time k /\ key_before time (be_bytes 8 (cutoff o now))) as [Hh Hlt].
  { apply rm_range_to_spec. exists keys. split; by apply list_elem_of_In. }
  specialize (Hi time k Hh). simpl.
  assert (Ht : in_u64 (from_be_bytes time)).
  { pose proof (from_be_bytes_bound time) as Hb. rewrite Hi in Hb. change (8 * Z.of_nat 8) with 64 in Hb.
    unfold in_u64, u64_max. lia. }
  split; [done|]. rewrite <- (be_bytes_from_be_bytes 8 time Hi) in Hlt. apply be_bytes_lt in Hlt; [done|done|].
  unfold in_u64, cutoff, expiry_us, as_u64. pose proof (Z.mod_pos_bound (eviction o / 1000) (2 ^ 64)). lia.
Qed.

Record sys_inv (o : Options) (s0 : gmap PublicKeyBytes SignedPacket) (s : system) : Prop := mkSysInv {
  inv_view : refines (view s) (spec_run o s0 (log s)).1;
  inv_replies : map observe (replies s) = (spec_run o s0 (log s)).2;
  inv_db : exists l, l `prefix_of` log s /\ refines (db s) (spec_run o s0 l).1;
  inv_inbox : Forall (message_ok o (clock s)) (inbox s);
  inv_pushed : Forall (message_ok o (clock s)) (option_list (pushed s));
  inv_snapshot : Forall tables_ok (option_list (snapshot s));
  inv_clock : 0 <= clock s <= u64_max
}.

Lemma recv_ok o s m s' :
  Forall (message_ok o (clock s)) (inbox s) -> Forall (message_ok o (clock s)) (option_list (pushed s)) ->
  recv s = Some (m, s') ->
  message_ok o (clock s) m /\ Forall (message_ok o (clock s)) (inbox s') /\ pushed s' = None /\
  db s' = db s /\ txn s' = txn s /\ snapshot s' = snapshot s /\ clock s' = clock s /\ log s' = log s /\
  replies s' = replies s /\ stopped s' = stopped s.
Proof.
  intros Hi Hp. unfold recv. destruct (pushed s) as [m'|].
  - intros [= <- <-]. apply Forall_cons in Hp as [Hm _]. by split_and!.
  - destruct (inbox s) as [|m' rest]; [done|]. intros [= <- <-]. apply Forall_cons in Hi as [Hm Hi]. by split_and!.
Qed.

Lemma messages_later o now now' l : now <= now' -> Forall (message_ok o now) l -> Forall (message_ok o now') l.
Proof. intros Hn H. eapply Forall_impl; [exact H|]. intros m. by apply message_ok_later. Qed.

Lemma sys_inv_init o t s0 : refines t s0 -> sys_inv o s0 (system_init t).
Proof.
  intros Hr. constructor; simpl; try done; try by constructor.
  exists []. by split; [apply prefix_nil|].
Qed.

Lemma sys_inv_answered o s0 s s' now m t r :
  sys_inv o s0 s -> recv s = Some (m, s') -> clock s < now <= u64_max ->
  refines (from_option fst (db s) t) (spec_message o now m (spec_run o s0 (log s)).1).1 ->
  observe r = (spec_message o now m (spec_run o s0 (log s)).1).2 ->
  (forall t', r = RSnapshot t' -> t' = db s) ->
  sys_inv o s0 (answered now m t r s').
Proof.
  intros [Hv Hrep (l & Hl & Hdb) Hin Hpu Hsn Hck] Hrec Hnow Href Hobs Hsnap.
  destruct (recv_ok o s m s' Hin Hpu Hrec) as (Hm & Hin' & Hpu' & Hd & Ht & Hs & Hc & Hlo & Hre & Hst).
  pose proof (spec_run_snoc o s0 (log s) now m) as Hsnoc.
  destruct (spec_run o s0 (log s)) as [s1 rs]. cbn [fst snd] in *.
  destruct (spec_message o now m s1) as [s2 r2]. cbn [fst snd] in *.
  constructor; unfold answered; cbn [view db txn pushed inbox snapshot clock log replies from_option fst];
    rewrite ?Hd, ?Hlo, ?Hre, ?Hsnoc; cbn [fst snd].
  - done.
  - rewrite map_app, Hrep. simpl. by rewrite Hobs.
  - exists l. split; [by apply prefix_app_r|done].
  - eapply messages_later; [|exact Hin']. lia.
  - rewrite Hpu'. constructor.
  - destruct r as [| |t'|]; rewrite ?Hs; try done. rewrite (Hsnap t' eq_refl). apply Forall_singleton, Hdb.
  - lia.
Qed.

Lemma sys_inv_commit o s0 s stop : sys_inv o s0 s -> sys_inv o s0 (commit s stop).
Proof.
  intros [Hv Hrep Hdb Hin Hpu Hsn Hck]. constructor; simpl; try done.
  exists (log s). done.
Qed.

Lemma sys_inv_step o s0 s s' : sys_inv o s0 s -> step o s s' -> sys_inv o s0 s'.
Proof.
  intros Hi Hs. pose proof Hi as [Hv Hrep Hdb Hin Hpu Hsn Hck].
  destruct Hs as [m s Hm|now t m s Hnow Ht Hm|now s s' Hst Htx Hrec Hnow|m s s' Hst Htx Hrec Hm
    |now m n t t' r s s' Hst Htx Hrec Hnow Hh|now m n t s s' Hst Htx Hrec Hnow Hf|t s Hst Htx|t n s Hst Htx|t n s Hst Htx];
    try (by apply sys_inv_commit).
  - constructor; simpl; try done. apply Forall_app_2; [done|]. apply Forall_singleton. by destruct m.
  - rewrite Ht in Hsn. apply Forall_cons in Hsn as [Hsn _]. constructor; simpl; rewrite ?Ht; try done; try lia.
    + apply Forall_app_2; [eapply messages_later; [|done]; lia|]. apply Forall_singleton.
      eapply evict_messages_ok; [done|lia|done].
    + eapply messages_later; [|done]. lia.
    + by apply Forall_singleton.
  - eapply sys_inv_answered; [done|done|done| |done|by intros t' [= <-]].
    unfold view in Hv. rewrite Htx in Hv. done.
  - destruct (recv_ok o s m s' Hin Hpu Hrec) as (Hmo & Hin' & Hpu' & Hd & Ht & Hs & Hc & Hlo & Hre & Hst').
    unfold view in Hv. rewrite Htx in Hv. constructor; simpl; try done. by apply Forall_singleton.
  - destruct (recv_ok o s m s' Hin Hpu Hrec) as (Hmo & _).
    unfold view in Hv. rewrite Htx in Hv. cbn [from_option fst] in Hv.
    destruct (handle_refines o now (db s) m t _ Hv (message_ok_later o (clock s) now m ltac:(lia) Hmo)) as (t1 & r1 & Hh1 & Hr1 & Ho1).
    rewrite Hh in Hh1. injection Hh1 as <- <-. eapply sys_inv_answered; [done|done|done|done|done|].
    intros t2 ->. by eapply handle_snapshot.
  - exfalso. destruct (recv_ok o s m s' Hin Hpu Hrec) as (Hmo & _).
    unfold view in Hv. rewrite Htx in Hv. cbn [from_option fst] in Hv.
    destruct (handle_refines o now (db s) m t _ Hv (message_ok_later o (clock s) now m ltac:(lia) Hmo)) as (t1 & r1 & Hh1 & _).
    by eapply Hf.
Qed.

(** ** Properties *)

(** C14: The packet store is a map to the newest packets. However clients, the
    evict task, batches and their commits interleave, every message is answered
    as by one map that keeps for each key the most recent packet and drops only
    expired ones; the committed database is that map after some of the messages,
    and the actor never fails. *)
Theorem store_keeps_newest o t s0 s :
  refines t s0 -> rtc (step o) (system_init t) s ->
  refines (view s) (spec_run o s0 (log s)).1 /\
  map observe (replies s) = (spec_run o s0 (log s)).2 /\
  (exists l, l `prefix_of` log s /\ refines (db s) (spec_run o s0 l).1) /\
  (forall s' now m n t', txn s = Some (t', S n) -> recv s = Some (m, s') -> clock s < now <= u64_max ->
     exists x, handle_message o now (db s) m t' = Ok x).
Proof.
  intros Hr Hs. assert (Hi : sys_inv o s0 s).
  { revert Hs. apply (rtc_invariant _ (sys_inv o s0)); [by apply sys_inv_init|]. intros x y. apply sys_inv_step. }
  pose proof Hi as [Hv Hrep Hdb Hin Hpu Hsn Hck]. split_and!; [done..|].
  intros s' now m n t' Htx Hrec Hnow. destruct (recv_ok o s m s' Hin Hpu Hrec) as (Hmo & _).
  unfold view in Hv. rewrite Htx in Hv. cbn [from_option fst] in Hv.
  destruct (handle_refines o now (db s) m t' _ Hv (message_ok_later o (clock s) now m ltac:(lia) Hmo)) as (t1 & r1 & Hh1 & _).
  eauto.
Qed.

(** A pass of the evict task, its messages handled at [now']. *)
Fixpoint handle_all (o : Options) (now : Z) (ms : list Message) (t : Tables) : result StoreError Tables :=
  match ms with
  | [] => Ok t
  | m :: ms =>
      let? (t, _) := handle_message o now t m t in
      handle_all o now ms t
  end.

Lemma handle_all_expired o now ms t s :
  refines t s -> Forall (fun m => message_ok o now m /\ if m is CheckExpired _ _ then True else False) ms ->
  exists t' s', handle_all o now ms t = Ok t' /\ refines t' s' /\
    (forall k p, s' !! k = Some p -> s !! k = Some p) /\
    (forall k p, s !! k = Some p -> cutoff o now <= packet_ts p -> s' !! k = Some p) /\
    (forall k p time, s !! k = Some p -> packet_ts p < cutoff o now -> CheckExpired time k ∈ ms -> s' !! k = None).
Proof.
  intros Hr Hms. revert t s Hr. induction Hms as [|m ms [Hm Hce] Hms IH]; intros t s Hr.
  - exists t, s. split_and!; try done. intros k p time _ _ []%elem_of_nil.
  - destruct m as [| | | |time k]; try done. destruct Hm as [Ht Hc].
    destruct (handle_check_expired o now t time k t s Hr Ht Hc) as (t1 & Hh & Hr1).
    set (s1 := (spec_message o now (CheckExpired time k) s).1) in *.
    assert (Hs1 : forall j, s1 !! j = match s !! j with
      | Some p => if decide (j = k) then if packet_ts p <? cutoff o now then None else Some p else Some p
      | None => None end).
    { intros j. subst s1. simpl. destruct (s !! k) as [q|] eqn:Hq.
      - destruct (packet_ts q <? cutoff o now) eqn:Ex; destruct (decide (j = k)) as [->|Hj]; simplify_map_eq;
          rewrite ?Ex; try done; by destruct (s !! j).
      - simpl. destruct (s !! j) as [p|] eqn:Hj; [|done]. by rewrite decide_False by congruence. }
    destruct (IH t1 s1 Hr1) as (t' & s' & Ha & Hr' & H1 & H2 & H3). exists t', s'. cbn [handle_all].
    rewrite Hh. cbn [rbind]. split_and!; [done|done|..].
    + intros j p Hp. apply H1 in Hp. rewrite Hs1 in Hp. destruct (s !! j) as [q|]; [|done].
      destruct (decide (j = k)); [destruct (_ <? _)|]; naive_solver.
    + intros j p Hp Hle. apply H2; [|done]. rewrite Hs1, Hp. destruct (decide (j = k)); [|done].
      by destruct (Z.ltb_spec (packet_ts p) (cutoff o now)); [lia|].
    + intros j p time' Hp Hlt [Heq|Hin]%elem_of_cons.
      * injection Heq as -> ->. destruct (s' !! k) as [q|] eqn:Hq; [|done]. apply H1 in Hq. rewrite Hs1, Hp in Hq.
        rewrite decide_True in Hq by done. by destruct (Z.ltb_spec (packet_ts p) (cutoff o now)); [|lia].
      * destruct (s1 !! j) as [q|] eqn:Hq.
        -- assert (q = p) as -> by (rewrite Hs1, Hp in Hq; destruct (decide (j = k)); [destruct (_ <? _)|]; naive_solver).
           by eapply H3.
        -- destruct (s' !! j) as [q|] eqn:Hq'; [|done]. apply H1 in Hq'. congruence.
Qed.

(** Eviction finds every old packet and only old ones. A pass over the
    committed database at [now], handled at any later time, removes every packet
    older than the expiry at [now] and none that is not expired. *)
Theorem eviction_exact o now now' t s :
  refines t s -> 0 <= now <= now' -> now' <= u64_max ->
  exists t' s', handle_all o now' (evict_messages o now t) t = Ok t' /\ refines t' s' /\
    (forall k p, s !! k = Some p -> packet_ts p < cutoff o now -> s' !! k = None) /\
    (forall k p, s !! k = Some p -> cutoff o now' <= packet_ts p -> s' !! k = Some p) /\
    (forall k p, s' !! k = Some p -> s !! k = Some p).
Proof.
  intros Hr Hn Hn'. destruct (handle_all_expired o now' (evict_messages o now t) t s Hr) as (t' & s' & Ha & Hr' & H1 & H2 & H3).
  { apply Forall_forall. intros m Hm. split.
    - eapply message_ok_later; [|eapply evict_messages_ok; [apply Hr| |done]]; lia.
    - unfold evict_messages in Hm. apply list_elem_of_In, in_flat_map in Hm as ([time keys] & _ & Hm).
      by apply in_map_iff in Hm as (k & <- & _). }
  exists t', s'. split_and!; try done. intros k p Hp Hlt.
  destruct (refines_lookup _ _ _ _ Hr Hp) as (Hok & _ & Hi). pose proof (facts_u64 p (packet_ok_facts p Hok)) as H64.
  eapply (H3 k p (packet_ts p)); [done|unfold cutoff in *; lia|].
  assert (key_before (be_bytes 8 (packet_ts p)) (be_bytes 8 (cutoff o now))) as Hb.
  { apply be_bytes_lt; [done| |done]. unfold in_u64, cutoff, expiry_us, as_u64 in *.
    pose proof (Z.mod_pos_bound (eviction o / 1000) (2 ^ 64)). lia. }
  destruct (proj2 (rm_range_to_spec _ _ _ _) (conj Hi Hb)) as (keys & Hin & Hk).
  unfold evict_messages. apply list_elem_of_In, in_flat_map. eexists. split; [by apply list_elem_of_In|].
  simpl. rewrite layout_timestamp by done. by apply in_map, list_elem_of_In.
Qed.

End Actor.

(** ** Instances of the properties *)

Definition example_store : Redb := map_redb key_before.

Lemma example_packet_ok : exists bs, @packet_from_bytes checksum_keys packed_dns bs = Ok example_packet.
Proof. exists (packet_bytes example_packet). vm_compute. reflexivity. Qed.

Definition one_packet_log : list (Z * Message) := [(5, Upsert example_packet)].

(** A packet is sent, a batch begins, handles it and is still open. *)
Lemma one_packet_run : exists s, rtc (@step checksum_keys packed_dns example_store Options_default)
  (@system_init example_store (@no_tables example_store)) s /\ log s = one_packet_log.
Proof.
  eexists. split.
  - eapply rtc_l; [apply (client_send _ (Upsert example_packet)), example_packet_ok|].
    eapply rtc_l; [eapply begin_batch; try reflexivity; done|].
    eapply rtc_l; [|apply rtc_refl].
    eapply (handle _ 5 (Upsert example_packet) (1024 * 64 - 1)); [reflexivity|reflexivity|reflexivity|unfold u64_max; simpl; lia|].
    cbn [handle_message]. reflexivity.
  - reflexivity.
Qed.

Lemma store_keeps_newest_witness :
  exists s, log s = one_packet_log /\
    @refines checksum_keys packed_dns example_store (map_redb_laws key_before) (view s)
      (@spec_run example_store Options_default ∅ (log s)).1 /\
    map observe (replies s) = (@spec_run example_store Options_default ∅ (log s)).2.
Proof.
  destruct one_packet_run as (s & Hs & Hl). exists s. split; [done|].
  destruct (@store_keeps_newest checksum_keys packed_dns example_store checksum_keys_laws (map_redb_laws key_before)
    Options_default (@no_tables example_store) ∅ s) as (H1 & H2 & _); [apply refines_empty|done|done].
Defined.

(** The packet is in the database and a week has passed. *)
Definition example_key : PublicKeyBytes := packet_key example_packet.
Definition after_week : Z := 1700000000000000 + 7 * 24 * 3600 * 10 ^ 6 + 1.

Lemma example_tables : exists t, @refines checksum_keys packed_dns example_store (map_redb_laws key_before) t
  {[ example_key := example_packet ]}.
Proof.
  destruct (@handle_upsert checksum_keys packed_dns example_store checksum_keys_laws (map_redb_laws key_before)
    Options_default 5 (@no_tables example_store) example_packet (@no_tables example_store) ∅) as (t & r & _ & Ht & _);
    [apply refines_empty|apply example_packet_ok|]. by exists t.
Qed.

Lemma eviction_exact_witness :
  exists t t' (s' : gmap PublicKeyBytes SignedPacket),
    @handle_all checksum_keys packed_dns example_store Options_default after_week
      (@evict_messages example_store Options_default after_week t) t = Ok t' /\
    @refines checksum_keys packed_dns example_store (map_redb_laws key_before) t' s' /\ s' !! example_key = None.
Proof.
  destruct example_tables as [t Ht]. exists t.
  destruct (@eviction_exact checksum_keys packed_dns example_store checksum_keys_laws (map_redb_laws key_before)
    Options_default after_week after_week t {[ example_key := example_packet ]} Ht) as (t' & s' & H1 & H2 & H3 & _);
    [unfold after_week; lia|unfold after_week, u64_max; lia|].
  exists t', s'. split_and!; [done|done|]. apply (H3 example_key example_packet); [apply lookup_singleton_eq|].
  vm_compute. reflexivity.
Defined.

End Store.
