(* ===== verification/ZoneStore.v ===== *)
(** * Zones of signed packets

    [iroh-dns-server/src/util.rs] and [store.rs]: the records of a signed packet,
    the caches of zones and the store that answers queries from them. DNS names
    and record sets are those of the [hickory] crates. *)

From S2P Require Import Prelude External Instances Keys Addrs NetText EndpointInfo Pkarr PacketStore.
Import Addrs NetText Info Pkarr Store.

Module Zones.

(** ** util.rs *)

Inductive InvalidPublicKeyBytes := InvalidEncoding.
Inductive ZoneError :=
| ProtoError
| StoreFailed.

Section Records.
Context {Ed : Ed25519} {De : DataEncoding} {Sd : SimpleDns} {HK : Hickory} {HR : HickoryRecords}.

Definition key_bytes_from_z32 (s : string) : result InvalidPublicKeyBytes PublicKeyBytes :=
  rmap as_bytes (map_err (fun _ => InvalidEncoding) (from_z32 s)).

(** Panics on bytes that are not a key. *)
Definition key_bytes_to_z32 {E} (k : PublicKeyBytes) : result E string :=
  match PublicKey_from_bytes k with
  | Ok key => Ok (to_z32 key)
  | _ => Panic
  end.

(** [RrKey], and the map from such keys to record sets. *)
Definition RrKey : Type := hname * RecordType.
Definition RrMap : Type := list (RrKey * recordset).

Definition RrKey_new (name : hname) (t : RecordType) : RrKey := (hname_lower name, t).

Definition rr_get (k : RrKey) (m : RrMap) : option recordset :=
  snd <$> List.find (fun e => bool_decide (e.1 = k)) m.

(** [entry]: insert, or change what is there. *)
Fixpoint rr_upsert (k : RrKey) (new : recordset) (change : recordset -> recordset) (m : RrMap) : RrMap :=
  match m with
  | [] => [(k, new)]
  | (k', s) :: m => if bool_decide (k' = k) then (k', change s) :: m else (k', s) :: rr_upsert k new change m
  end.

(** One answer of the packet, for the zone [common_zone]. *)
Definition add_answer (common_zone : bytes) (keep : hrecord -> bool) (record : hrecord) (output : RrMap)
    : result ZoneError RrMap :=
  match rdata_type (rr_data record) with
  | TypeSOA | TypeNS => Ok output
  | _ =>
      let name := rr_name record in
      if (hname_num_labels name <? 1)%nat then Ok output
      else
        let? l := match last (hname_labels name) with Some l => Ok l | None => Panic end in
        let? zone := ok_or (into_label l) ProtoError in
        if negb (label_eqb zone common_zone) then Ok output
        else if negb (keep record) then Ok output
        else
          let? name_without_zone := ok_or (hname_from_labels (take (hname_num_labels name - 1) (hname_labels name))) ProtoError in
          let record := mkRecord name_without_zone (rr_ttl record) (rr_data record) in
          let rrkey := RrKey_new name_without_zone (rdata_type (rr_data record)) in
          Ok (rr_upsert rrkey (rs_of_record record) (fun set => rs_insert set record (rs_serial set)) output)
  end.

Fixpoint add_answers (common_zone : bytes) (keep : hrecord -> bool) (answers : list hrecord) (output : RrMap)
    : result ZoneError RrMap :=
  match answers with
  | [] => Ok output
  | record :: answers =>
      let? output := add_answer common_zone keep record output in
      add_answers common_zone keep answers output
  end.

Definition signed_packet_to_hickory_message (p : SignedPacket) : result ZoneError (list hrecord) :=
  ok_or (message_answers (encoded_packet p)) ProtoError.

Definition signed_packet_to_hickory_records_without_origin (p : SignedPacket) (keep : hrecord -> bool)
    : result ZoneError (bytes * RrMap) :=
  let? key := packet_public_key p in
  let? common_zone := ok_or (label_from_utf8 (to_z32 key)) ProtoError in
  let? answers := signed_packet_to_hickory_message p in
  let? output := add_answers common_zone keep answers [] in
  Ok (common_zone, output).

Definition record_set_append_origin (input : recordset) (origin : hname) (serial : Z) : result ZoneError recordset :=
  let? new_name := ok_or (hname_append (rs_name input) origin) ProtoError in
  Ok (foldl (fun output record => rs_insert output (mkRecord new_name (rr_ttl record) (rr_data record)) serial)
        (rs_new new_name (rs_type input) serial) (rs_records input)).

(** ** store.rs *)

Definition DHT_CACHE_TTL : Z := from_secs 300.
Definition DEFAULT_CACHE_CAPACITY : nat := 1024 * 1024.

Record CachedZone := mkCachedZone { zone_timestamp : Z; zone_records : RrMap }.

Definition CachedZone_from_signed_packet (p : SignedPacket) : result ZoneError CachedZone :=
  let? (_, records) := signed_packet_to_hickory_records_without_origin p (fun _ => true) in
  let? ts := packet_timestamp p in
  Ok (mkCachedZone ts records).

Definition is_newer_than {E} (z : CachedZone) (p : SignedPacket) : result E bool :=
  let? ts := packet_timestamp p in
  Ok (ts <? zone_timestamp z).

Definition zone_resolve (z : CachedZone) (name : hname) (t : RecordType) : option recordset :=
  rr_get (RrKey_new name t) (zone_records z).

Context {Zc : ZoneCaches CachedZone} {Rd : Redb}.

Record ZoneCache := mkZoneCache { cache : zlru; dht_cache : zttl }.

Definition ZoneCache_new (cap : nat) : ZoneCache := mkZoneCache (zlru_new cap) (zttl_new cap).

(** [now] is the time at which the cache with time to live is asked. *)
Definition cache_resolve (now : Z) (c : ZoneCache) (pubkey : PublicKeyBytes) (name : hname) (t : RecordType)
    : ZoneCache * option recordset :=
  let '(l, found) := zlru_get (cache c) pubkey in
  let c := mkZoneCache l (dht_cache c) in
  match found with
  | Some zone => (c, zone_resolve zone name t)
  | None =>
      match zttl_get (dht_cache c) now pubkey with
      | Some zone => (c, zone_resolve zone name t)
      | None => (c, None)
      end
  end.

Definition cache_insert (c : ZoneCache) (p : SignedPacket) : result ZoneError ZoneCache :=
  let? pubkey := key_of p in
  let? keep :=
    match zlru_peek (cache c) pubkey with
    | Some old => is_newer_than old p
    | None => Ok false
    end in
  if keep : bool then Ok c
  else
    let? zone := CachedZone_from_signed_packet p in
    Ok (mkZoneCache (zlru_put (cache c) pubkey zone) (dht_cache c)).

Definition insert_and_resolve (now : Z) (c : ZoneCache) (p : SignedPacket) (name : hname) (t : RecordType)
    : result ZoneError (ZoneCache * option recordset) :=
  let? pubkey := key_of p in
  let? c := cache_insert c p in
  Ok (cache_resolve now c pubkey name t).

Definition insert_and_resolve_dht (now : Z) (c : ZoneCache) (p : SignedPacket) (name : hname) (t : RecordType)
    : result ZoneError (ZoneCache * option recordset) :=
  let? pubkey := key_of p in
  let? zone := CachedZone_from_signed_packet p in
  let res := zone_resolve zone name t in
  Ok (mkZoneCache (cache c) (zttl_insert (dht_cache c) now pubkey zone DHT_CACHE_TTL), res).

Definition cache_remove (c : ZoneCache) (pubkey : PublicKeyBytes) : ZoneCache :=
  mkZoneCache (zlru_pop (cache c) pubkey) (zttl_remove (dht_cache c) pubkey).

(** What the DHT client returns. *)
Record MutableItem := mkItem { item_key : bytes; item_signature : bytes; item_seq : Z; item_value : bytes }.

Definition mutable_item_to_signed_packet (item : MutableItem) : result SignedPacketVerifyError SignedPacket :=
  from_parts_unchecked (item_key item) (item_signature item) (as_u64 (item_seq item)) (item_value item).

(** ** The store and its callers

    The packet store answers as the map of its specification. A query looks into
    the cache, then asks the store, then inserts what it got into the cache, each
    of these in one step; so does an insert with its two. *)

Inductive task :=
| Resolving (pubkey : PublicKeyBytes) (name : hname) (t : RecordType)
| Missed (pubkey : PublicKeyBytes) (name : hname) (t : RecordType)
| Fetched (pubkey : PublicKeyBytes) (name : hname) (t : RecordType) (packet : option SignedPacket)
| Answered (pubkey : PublicKeyBytes) (name : hname) (t : RecordType) (answer : result ZoneError (option recordset))
| Inserting (packet : SignedPacket)
| Upserted (pubkey : PublicKeyBytes)
| Inserted (updated : bool).

Record zone_store := mkZoneStore {
  zs_cache : ZoneCache;
  zs_store : gmap PublicKeyBytes SignedPacket;
  zs_tasks : gmap nat task
}.

Definition set_task (i : nat) (t : task) (s : zone_store) : zone_store :=
  mkZoneStore (zs_cache s) (zs_store s) (<[i := t]> (zs_tasks s)).

(** [dht]: what the fallback finds for a key, when it is configured. *)
Definition resolve_fetched (now : Z) (dht : option (PublicKeyBytes -> option MutableItem)) (c : ZoneCache)
    (pubkey : PublicKeyBytes) (name : hname) (t : RecordType) (packet : option SignedPacket)
    : result ZoneError (ZoneCache * option recordset) :=
  match packet with
  | Some packet => insert_and_resolve now c packet name t
  | None =>
      match dht with
      | None => Ok (c, None)
      | Some dht =>
          match dht pubkey with
          | None => Ok (c, None)
          | Some item =>
              match mutable_item_to_signed_packet item with
              | Ok packet => insert_and_resolve_dht now c packet name t
              | _ => Ok (c, None)
              end
          end
      end
  end.

Inductive zone_step (o : Options) (dht : option (PublicKeyBytes -> option MutableItem)) : zone_store -> zone_store -> Prop :=
| start_task i t s :
    zs_tasks s !! i = None ->
    (match t with Resolving _ _ _ => True | Inserting p => exists bs, packet_from_bytes bs = Ok p | _ => False end) ->
    zone_step o dht s (set_task i t s)
| resolve_in_cache i now k n t s c found :
    zs_tasks s !! i = Some (Resolving k n t) -> cache_resolve now (zs_cache s) k n t = (c, found) ->
    zone_step o dht s
      (mkZoneStore c (zs_store s)
         (<[i := if found is Some set then Answered k n t (Ok (Some set)) else Missed k n t]> (zs_tasks s)))
| fetch i k n t s :
    zs_tasks s !! i = Some (Missed k n t) -> zone_step o dht s (set_task i (Fetched k n t (zs_store s !! k)) s)
| answer i now k n t p s c found :
    zs_tasks s !! i = Some (Fetched k n t p) -> resolve_fetched now dht (zs_cache s) k n t p = Ok (c, found) ->
    zone_step o dht s (mkZoneStore c (zs_store s) (<[i := Answered k n t (Ok found)]> (zs_tasks s)))
| answer_fails i now k n t p s e :
    zs_tasks s !! i = Some (Fetched k n t p) -> resolve_fetched now dht (zs_cache s) k n t p = Err e ->
    zone_step o dht s (set_task i (Answered k n t (Err e)) s)
| upsert i now p s m b :
    zs_tasks s !! i = Some (Inserting p) -> spec_message o now (Upsert p) (zs_store s) = (m, RBool b) ->
    zone_step o dht s
      (mkZoneStore (zs_cache s) m (<[i := if b then Upserted (packet_key p) else Inserted false]> (zs_tasks s)))
| invalidate i k s :
    zs_tasks s !! i = Some (Upserted k) ->
    zone_step o dht s (mkZoneStore (cache_remove (zs_cache s) k) (zs_store s) (<[i := Inserted true]> (zs_tasks s)))
| expire now time k s m :
    spec_message o now (CheckExpired time k) (zs_store s) = (m, RNone) ->
    zone_step o dht s (mkZoneStore (zs_cache s) m (zs_tasks s)).

Definition zone_store_init : zone_store := mkZoneStore (ZoneCache_new DEFAULT_CACHE_CAPACITY) ∅ ∅.

(** ** Lemmas: whose records are cached *)

Context {EdL : Ed25519Laws Ed} {ZcL : ZoneCachesLaws Zc}.

(** The packets of a key that were verified. *)
Definition signed_by (k : PublicKeyBytes) (p : SignedPacket) : Prop := packet_ok p /\ packet_key p = k.

Definition zone_of_key (k : PublicKeyBytes) (z : CachedZone) : Prop :=
  exists p, signed_by k p /\ CachedZone_from_signed_packet p = Ok z.

Definition cache_ok (c : ZoneCache) : Prop :=
  (forall k z, zlru_peek (cache c) k = Some z -> zone_of_key k z) /\
  (forall now k z, zttl_get (dht_cache c) now k = Some z -> zone_of_key k z).

Definition task_ok (t : task) : Prop :=
  match t with
  | Fetched k _ _ (Some p) => signed_by k p
  | Answered k n ty (Ok (Some set)) => exists z, zone_of_key k z /\ zone_resolve z n ty = Some set
  | Inserting p => packet_ok p
  | _ => True
  end.

Record zone_inv (s : zone_store) : Prop := mkZoneInv {
  zi_cache : cache_ok (zs_cache s);
  zi_store : map_Forall signed_by (zs_store s);
  zi_tasks : map_Forall (fun _ => task_ok) (zs_tasks s)
}.

Lemma signed_by_key k p {E} : signed_by k p -> key_of (E := E) p = Ok k.
Proof. intros [Hp <-]. apply (facts_key p (packet_ok_facts p Hp)). Qed.

Lemma cache_resolve_ok now c k n t c' found :
  cache_ok c -> cache_resolve now c k n t = (c', found) ->
  cache_ok c' /\ forall set, found = Some set -> exists z, zone_of_key k z /\ zone_resolve z n t = Some set.
Proof.
  intros [Hl Hd] H. unfold cache_resolve in H. destruct (zlru_get (cache c) k) as [l f] eqn:Hg.
  assert (Hf : f = zlru_peek (cache c) k) by (rewrite <- zlru_get_peek, Hg; done).
  assert (Hl' : forall j, zlru_peek l j = zlru_peek (cache c) j) by (intros j; rewrite <- (zlru_get_same (cache c) k), Hg; done).
  assert (Hc : cache_ok (mkZoneCache l (dht_cache c))).
  { split; simpl; [|done]. intros j z. rewrite Hl'. apply Hl. }
  destruct f as [z|]; [injection H as <- <-; split; [done|]; intros set Hs; exists z; split; [by apply Hl|done]|].
  cbn [dht_cache] in H. destruct (zttl_get (dht_cache c) now k) as [z|] eqn:Hz; injection H as <- <-; split; try done.
  intros set Hs. exists z. split; [by eapply Hd|done].
Qed.

Lemma cache_put_ok c k z : cache_ok c -> zone_of_key k z -> cache_ok (mkZoneCache (zlru_put (cache c) k z) (dht_cache c)).
Proof.
  intros [Hl Hd] Hz. split; simpl; [|done]. intros j z' Hj. destruct (decide (j = k)) as [->|Hne].
  - rewrite zlru_put_same in Hj. by simplify_eq.
  - destruct (zlru_put_other (cache c) k z j Hne) as [H|H]; rewrite H in Hj; [by apply Hl|done].
Qed.

Lemma cache_insert_ok c k p c' : cache_ok c -> signed_by k p -> cache_insert c p = Ok c' -> cache_ok c'.
Proof.
  intros Hc Hp. unfold cache_insert. rewrite (signed_by_key k p Hp). cbn [rbind].
  destruct (match zlru_peek (cache c) k with Some old => is_newer_than old p | None => Ok false end) as [[]| |];
    cbn [rbind]; [by intros [= <-]| |done|done].
  destruct (CachedZone_from_signed_packet p) as [z| |] eqn:Hz; cbn [rbind]; try done. intros [= <-].
  apply cache_put_ok; [done|]. by exists p.
Qed.

Lemma insert_and_resolve_ok now c k p n t c' found :
  cache_ok c -> signed_by k p -> insert_and_resolve now c p n t = Ok (c', found) ->
  cache_ok c' /\ forall set, found = Some set -> exists z, zone_of_key k z /\ zone_resolve z n t = Some set.
Proof.
  intros Hc Hp. unfold insert_and_resolve. rewrite (signed_by_key k p Hp). cbn [rbind].
  destruct (cache_insert c p) as [c1| |] eqn:Hi; cbn [rbind]; try done.
  intros [= H]. eapply cache_resolve_ok; [by eapply cache_insert_ok|done].
Qed.

Lemma insert_and_resolve_dht_ok now c k p n t c' found :
  cache_ok c -> signed_by k p -> insert_and_resolve_dht now c p n t = Ok (c', found) ->
  cache_ok c' /\ forall set, found = Some set -> exists z, zone_of_key k z /\ zone_resolve z n t = Some set.
Proof.
  intros [Hl Hd] Hp. unfold insert_and_resolve_dht. rewrite (signed_by_key k p Hp). cbn [rbind].
  destruct (CachedZone_from_signed_packet p) as [z| |] eqn:Hz; cbn [rbind]; try done. intros [= <- <-].
  assert (Hk : zone_of_key k z) by (by exists p). split; [|eauto]. split; simpl; [done|].
  intros now' j z' Hj. destruct (zttl_insert_get (dht_cache c) now k z DHT_CACHE_TTL now' j) as [H|H];
    rewrite H in Hj; [done|]. destruct (decide (j = k)) as [->|]; [by simplify_eq|by eapply Hd].
Qed.

Lemma cache_remove_ok c k : cache_ok c -> cache_ok (cache_remove c k).
Proof.
  intros [Hl Hd]. split; simpl.
  - intros j z. destruct (decide (j = k)) as [->|]; [by rewrite zlru_pop_same|]. rewrite zlru_pop_other by done. apply Hl.
  - intros now j z. destruct (decide (j = k)) as [->|]; [by rewrite zttl_remove_same|]. rewrite zttl_remove_other by done. apply Hd.
Qed.

(** The DHT client verifies what it returns. *)
Definition dht_verifies (dht : option (PublicKeyBytes -> option MutableItem)) : Prop :=
  forall f k item p, dht = Some f -> f k = Some item -> mutable_item_to_signed_packet item = Ok p -> signed_by k p.

Lemma resolve_fetched_ok now dht c k n t p c' found :
  dht_verifies dht -> cache_ok c -> (forall q, p = Some q -> signed_by k q) ->
  resolve_fetched now dht c k n t p = Ok (c', found) ->
  cache_ok c' /\ forall set, found = Some set -> exists z, zone_of_key k z /\ zone_resolve z n t = Some set.
Proof.
  intros Hd Hc Hp. unfold resolve_fetched. destruct p as [p|]; [by eapply insert_and_resolve_ok; eauto|].
  destruct dht as [f|]; [|by intros [= <- <-]]. destruct (f k) as [item|] eqn:Hf; [|by intros [= <- <-]].
  destruct (mutable_item_to_signed_packet item) as [q| |] eqn:Hq; [|by intros [= <- <-]..].
  by eapply insert_and_resolve_dht_ok; eauto.
Qed.

Lemma spec_upsert_signed o now p m m' b :
  packet_ok p -> map_Forall signed_by m -> spec_message o now (Upsert p) m = (m', RBool b) -> map_Forall signed_by m'.
Proof.
  intros Hp Hm H. cbn [spec_message] in H. assert (map_Forall signed_by (<[packet_key p := p]> m)).
  { by apply map_Forall_insert_2. }
  destruct (m !! packet_key p); [destruct (bool_decide _)|]; by simplify_eq/=.
Qed.

Lemma spec_expired_signed o now time k m m' :
  map_Forall signed_by m -> spec_message o now (CheckExpired time k) m = (m', RNone) -> map_Forall signed_by m'.
Proof.
  intros Hm H. cbn [spec_message] in H. destruct (m !! k) as [p|]; [|by simplify_eq].
  destruct (packet_ts p <? cutoff o now); simplify_eq/=; [by apply map_Forall_delete|done].
Qed.

Lemma zone_inv_step o dht s s' : dht_verifies dht -> zone_inv s -> zone_step o dht s s' -> zone_inv s'.
Proof.
  intros Hd [Hc Hst Ht] Hs.
  destruct Hs as [i t s Hi Hok|i now k n t s c found Hi Hr|i k n t s Hi|i now k n t p s c found Hi Hr
    |i now k n t p s e Hi Hr|i now p s m b Hi Hr|i k s Hi|now time k s m Hr];
    try (pose proof (map_Forall_lookup_1 _ _ _ _ Ht Hi) as Hti); constructor; simpl; try done;
    try (apply map_Forall_insert_2; [|done]); simpl; try done.
  - by destruct t.
  - by destruct (cache_resolve_ok _ _ _ _ _ _ _ Hc Hr).
  - destruct found; simpl; [|done]. destruct (cache_resolve_ok _ _ _ _ _ _ _ Hc Hr) as [_ H]. by apply H.
  - destruct (zs_store s !! k) as [p|] eqn:Hp; [|done]. exact (map_Forall_lookup_1 _ _ _ _ Hst Hp).
  - eapply (resolve_fetched_ok now dht); [done|exact Hc| |exact Hr]. by intros q ->.
  - destruct found as [set|]; [|done]. destruct (resolve_fetched_ok now dht (zs_cache s) k n t p c (Some set)) as [_ H]; [done|done| |done|by apply H].
    by intros q ->.
  - eapply spec_upsert_signed; [exact Hti|exact Hst|exact Hr].
  - by destruct b.
  - by apply cache_remove_ok.
  - eapply spec_expired_signed; [exact Hst|exact Hr].
Qed.

Lemma zone_inv_reach o dht s : dht_verifies dht -> rtc (zone_step o dht) zone_store_init s -> zone_inv s.
Proof.
  intros Hd. apply (rtc_invariant _ zone_inv); [|intros x y; by apply zone_inv_step].
  constructor; simpl; [|apply map_Forall_empty..]. split; simpl.
  - intros k z. by rewrite zlru_new_empty.
  - intros now k z. by rewrite zttl_new_empty.
Qed.

(** ** Properties *)

(** Whoever asks for a key gets only what the holder of that key signed:
    every answer of the zone store, from its caches, the database or the DHT,
    comes from a verified packet of the key in the query. *)
Theorem answers_are_signed o dht s i k n t set :
  dht_verifies dht -> rtc (zone_step o dht) zone_store_init s ->
  zs_tasks s !! i = Some (Answered k n t (Ok (Some set))) ->
  exists p z, (exists bs, packet_from_bytes bs = Ok p) /\ packet_key p = k /\
    CachedZone_from_signed_packet p = Ok z /\ zone_resolve z n t = Some set.
Proof.
  intros Hd Hs Hi. pose proof (zone_inv_reach o dht s Hd Hs) as [_ _ Ht].
  destruct (map_Forall_lookup_1 _ _ _ _ Ht Hi) as (z & (p & [Hp Hk] & Hz) & Hr). by exists p, z.
Qed.

(** A query on an empty cache is answered from the database. *)
Lemma resolve_uncached now dht c k n t p z :
  signed_by k p -> zlru_peek (cache c) k = None -> CachedZone_from_signed_packet p = Ok z ->
  exists c', resolve_fetched now dht c k n t (Some p) = Ok (c', zone_resolve z n t) /\ zlru_peek (cache c') k = Some z.
Proof.
  intros Hp Hn Hz. unfold resolve_fetched, insert_and_resolve, cache_insert. rewrite (signed_by_key k p Hp). cbn [rbind].
  rewrite Hn. cbn [rbind]. rewrite Hz. cbn [rbind]. unfold cache_resolve. cbn [cache dht_cache].
  pose proof (zlru_get_peek (zlru_put (cache c) k z) k) as Hg. pose proof (zlru_get_same (zlru_put (cache c) k z) k k) as Hs.
  rewrite zlru_put_same in Hg, Hs. destruct (zlru_get (zlru_put (cache c) k z) k) as [l f]. simpl in Hg, Hs. subst f.
  eexists. split; [done|]. done.
Qed.

Lemma cache_hit now c k n t z set :
  zlru_peek (cache c) k = Some z -> zone_resolve z n t = Some set -> exists c', cache_resolve now c k n t = (c', Some set).
Proof.
  intros Hz Hset. unfold cache_resolve. pose proof (zlru_get_peek (cache c) k) as Hg.
  destruct (zlru_get (cache c) k) as [l f]. simpl in Hg. rewrite Hg, Hz, Hset. eauto.
Qed.

Lemma cache_miss now c k n t :
  zlru_peek (cache c) k = None -> zttl_get (dht_cache c) now k = None ->
  exists c', cache_resolve now c k n t = (c', None) /\ zlru_peek (cache c') k = zlru_peek (cache c) k.
Proof.
  intros Hm1 Hm2. unfold cache_resolve. pose proof (zlru_get_peek (cache c) k) as Hg. pose proof (zlru_get_same (cache c) k k) as Hs.
  destruct (zlru_get (cache c) k) as [l f]. simpl in Hg, Hs. rewrite Hg, Hm1. cbn [dht_cache]. rewrite Hm2. eexists. split; [done|]. by rewrite <- Hm1.
Qed.

(** The two steps of an insert. *)
Lemma insert_steps o dht s i p m :
  zs_tasks s !! i = None -> packet_ok p -> spec_message o 0 (Upsert p) (zs_store s) = (m, RBool true) ->
  rtc (zone_step o dht) s (mkZoneStore (cache_remove (zs_cache s) (packet_key p)) m
    (<[i := Inserted true]> (<[i := Upserted (packet_key p)]> (<[i := Inserting p]> (zs_tasks s))))).
Proof.
  intros Hi Hp Hm. eapply rtc_l; [by apply (start_task o dht i (Inserting p))|].
  eapply rtc_l; [eapply (upsert o dht i 0); [apply lookup_insert_eq|exact Hm]|].
  eapply rtc_l; [eapply (invalidate o dht i); apply lookup_insert_eq|]. apply rtc_refl.
Qed.

(** A packet was inserted, and a query missed the cache and fetched it. *)
Definition fetched_state (c : ZoneCache) (k : PublicKeyBytes) (n : hname) (t : RecordType) (p : SignedPacket) : zone_store :=
  mkZoneStore c {[ k := p ]}
    (<[1%nat := Fetched k n t (Some p)]> (<[1%nat := Missed k n t]> (<[1%nat := Resolving k n t]>
      (<[0%nat := Inserted true]> (<[0%nat := Upserted k]> (<[0%nat := Inserting p]> ∅)))))).

Lemma fetched_reachable o dht k n t p :
  signed_by k p ->
  exists c, rtc (zone_step o dht) zone_store_init (fetched_state c k n t p) /\ zlru_peek (cache c) k = None.
Proof.
  intros [Hp Hk].
  pose proof (insert_steps o dht zone_store_init 0 p {[ k := p ]} (lookup_empty 0%nat) Hp) as S1.
  rewrite Hk in S1. specialize (S1 ltac:(cbn [spec_message zone_store_init zs_store]; by rewrite lookup_empty, Hk)).
  set (s1 := mkZoneStore _ _ _) in S1.
  destruct (cache_miss 0 (zs_cache s1) k n t (zlru_pop_same _ _) (zttl_remove_same _ _ _)) as (c1 & Hc & Hsame).
  exists c1. split; [|rewrite Hsame; apply zlru_pop_same]. etrans; [exact S1|].
  eapply rtc_l; [by apply (start_task o dht 1 (Resolving k n t))|].
  eapply rtc_l; [eapply (resolve_in_cache o dht 1 0 k n t); [apply lookup_insert_eq|exact Hc]|]. cbn iota.
  eapply rtc_l; [eapply (fetch o dht 1 k n t); apply lookup_insert_eq|]. apply reflexive_eq.
  unfold fetched_state, set_task. cbn [zs_store zs_tasks zs_cache fst]. unfold s1. cbn [zs_store]. by rewrite lookup_singleton_eq.
Qed.

(** The query is answered. *)
Lemma answered_reachable o dht k n t p z :
  signed_by k p -> CachedZone_from_signed_packet p = Ok z ->
  exists s, rtc (zone_step o dht) zone_store_init s /\ zs_tasks s !! 1%nat = Some (Answered k n t (Ok (zone_resolve z n t))).
Proof.
  intros Hp Hz. destruct (fetched_reachable o dht k n t p Hp) as (c & Hs & Hc).
  destruct (resolve_uncached 0 dht c k n t p z Hp Hc Hz) as (c' & Hf & _).
  eexists. split; [etrans; [exact Hs|]; apply rtc_once; eapply (answer o dht 1 0 k n t (Some p)); [apply lookup_insert_eq|exact Hf]|].
  apply lookup_insert_eq.
Qed.

(** A query that overlaps an insert can leave the replaced zone in the cache:
    it fetches the old packet, the insert removes the zone from the cache, and
    then the query puts the old zone back. With every call finished, the database
    has the new packet and all later queries are answered from the old one. *)
Theorem stale_zone_stays_cached o dht k n t p1 p2 z1 set :
  (exists bs, packet_from_bytes bs = Ok p1) -> (exists bs, packet_from_bytes bs = Ok p2) ->
  packet_key p1 = k -> packet_key p2 = k -> packet_ts p1 < packet_ts p2 ->
  CachedZone_from_signed_packet p1 = Ok z1 -> zone_resolve z1 n t = Some set ->
  exists s, rtc (zone_step o dht) zone_store_init s /\
    map_Forall (fun _ task => match task with Answered _ _ _ _ | Inserted _ => True | _ => False end) (zs_tasks s) /\
    zs_store s !! k = Some p2 /\
    forall now, exists c, cache_resolve now (zs_cache s) k n t = (c, Some set).
Proof.
  intros Hp1 Hp2 Hk1 Hk2 Hts Hz1 Hset. assert (Hs1 : signed_by k p1) by done.
  destruct (fetched_reachable o dht k n t p1 Hs1) as (c & S2 & _). set (s2 := fetched_state c k n t p1) in *.
  pose proof (insert_steps o dht s2 2 p2 (<[k := p2]> {[ k := p1 ]})) as S3. rewrite Hk2 in S3.
  specialize (S3 ltac:(reflexivity) Hp2).
  specialize (S3 ltac:(cbn [spec_message s2 fetched_state zs_store]; rewrite Hk2, lookup_singleton_eq,
    bool_decide_eq_false_2 by lia; done)). set (s3 := mkZoneStore _ _ _) in S3.
  destruct (resolve_uncached 0 dht (zs_cache s3) k n t p1 z1) as (c' & Hf & Hc'); [done|apply zlru_pop_same|done|].
  set (s4 := mkZoneStore c' (zs_store s3) (<[1%nat := Answered k n t (Ok (zone_resolve z1 n t))]> (zs_tasks s3))).
  exists s4. split_and!.
  - etrans; [exact S2|]. etrans; [exact S3|].
    apply rtc_once. eapply (answer o dht 1 0 k n t (Some p1)); [|exact Hf].
    unfold s3, s2, fetched_state. cbn [zs_tasks]. rewrite !(lookup_insert_ne _ 2%nat) by done. apply lookup_insert_eq.
  - unfold s4, s3, s2, fetched_state. cbn [zs_tasks]. intros j task Hj.
    repeat (apply lookup_insert_Some in Hj as [[<- <-]|[? Hj]]; [done || congruence|]). by rewrite lookup_empty in Hj.
  - unfold s4, s3. cbn [zs_store]. apply lookup_insert_eq.
  - intros now. by eapply cache_hit.
Qed.

End Records.

(** ** Instances of the properties *)

Definition example_zone_of (p : SignedPacket) : result ZoneError (@CachedZone list_names list_records) :=
  @CachedZone_from_signed_packet checksum_keys data_encoding list_names list_records p.

Definition zone_caches : ZoneCaches (@CachedZone list_names list_records) := map_caches _.
Definition iroh_name : @hname list_names := [String.list_byte_of_string IROH_TXT_NAME].

(** The packet of the same endpoint, a second later. *)
Definition later_packet : SignedPacket :=
  match @to_pkarr_signed_packet checksum_keys data_encoding packed_dns relay_info example_sk 30 1700000001000000 with
  | Ok p => p
  | _ => mkSignedPacket []
  end.

Lemma later_packet_ok : exists bs, @packet_from_bytes checksum_keys packed_dns bs = Ok later_packet.
Proof. exists (packet_bytes later_packet). vm_compute. reflexivity. Qed.

Definition example_zone : @CachedZone list_names list_records :=
  default (@mkCachedZone list_names list_records 0 []) (to_ok (example_zone_of example_packet)).

Definition example_set : @recordset list_names list_records :=
  default (@rs_new list_names list_records [] TypeTXT 0)
    (@zone_resolve list_names list_records example_zone iroh_name TypeTXT).

Lemma later_packet_key : packet_key later_packet = example_key.
Proof. vm_cast_no_check (eq_refl example_key). Qed.

Lemma later_packet_newer : packet_ts example_packet < packet_ts later_packet.
Proof. vm_compute. reflexivity. Qed.

Lemma example_zone_packet : example_zone_of example_packet = Ok example_zone.
Proof. vm_cast_no_check (eq_refl (example_zone_of example_packet)). Qed.

Lemma example_zone_set : @zone_resolve list_names list_records example_zone iroh_name TypeTXT = Some example_set.
Proof. vm_cast_no_check (eq_refl (Some example_set)). Qed.

#[local] Opaque example_packet later_packet example_zone example_set.

Lemma stale_zone_stays_cached_witness :
  exists s, rtc (@zone_step checksum_keys data_encoding packed_dns list_names list_records zone_caches example_store Options_default None)
      (@zone_store_init list_names list_records zone_caches) s /\
    zs_store s !! example_key = Some later_packet /\
    forall now, exists c, @cache_resolve list_names list_records zone_caches now (zs_cache s) example_key iroh_name TypeTXT =
      (c, Some example_set).
Proof.
  destruct (@stale_zone_stays_cached checksum_keys data_encoding packed_dns list_names list_records zone_caches example_store
    checksum_keys_laws (map_caches_laws _) Options_default None example_key iroh_name TypeTXT example_packet later_packet
    example_zone example_set example_packet_ok later_packet_ok eq_refl later_packet_key later_packet_newer example_zone_packet
    example_zone_set) as (s & H1 & _ & H2 & H3).
  exact (ex_intro _ s (conj H1 (conj H2 H3))).
Defined.

(** One packet is inserted and asked for. *)
Lemma answers_are_signed_witness :
  exists s p z,
    @zs_tasks list_names list_records zone_caches s !! 1%nat =
      Some (Answered example_key iroh_name TypeTXT (Ok (Some example_set))) /\
    (exists bs, @packet_from_bytes checksum_keys packed_dns bs = Ok p) /\ packet_key p = example_key /\
    example_zone_of p = Ok z /\ zone_resolve z iroh_name TypeTXT = Some example_set.
Proof.
  destruct (@answered_reachable checksum_keys data_encoding packed_dns list_names list_records zone_caches example_store
    checksum_keys_laws (map_caches_laws _) Options_default None example_key iroh_name TypeTXT example_packet example_zone
    (conj example_packet_ok eq_refl) example_zone_packet) as (s & Hs & Ht).
  rewrite example_zone_set in Ht. exists s.
  destruct (@answers_are_signed checksum_keys data_encoding packed_dns list_names list_records zone_caches example_store
    checksum_keys_laws (map_caches_laws _) Options_default None s 1 example_key iroh_name TypeTXT example_set)
    as (p & z & H1 & H2 & H3 & H4); [by intros f|exact Hs|exact Ht|].
  exists p, z. exact (conj Ht (conj H1 (conj H2 (conj H3 H4)))).
Defined.

End Zones.
