(* ===== verification/DnsServer.v ===== *)
(** * The DNS server

    [iroh-dns-server]: the zone handler ([dns/node_zone_handler.rs]) and the static
    zone ([dns.rs]), the HTTP routes that publish and fetch packets
    ([http/pkarr.rs]), DNS over HTTPS ([http/doh.rs], [http/doh/extract.rs],
    [http/doh/response.rs]), and the choices of the configuration. The HTTP framework,
    the DNS catalog and the in-memory zone behind it are parameters. *)

From S2P Require Import Prelude External Instances Utf8 Keys Addrs NetText EndpointInfo Pkarr DnsResolver PacketStore ZoneStore.
Import Addrs NetText Info Pkarr Store Zones.

Module Server.

(** ** Configuration: config.rs, dns.rs, http/rate_limiting.rs *)

Record StoreConfig := mkStoreConfig {
  sc_max_batch_size : nat;
  sc_max_batch_time : Z;
  sc_eviction : Z;
  sc_eviction_interval : Z
}.

Definition StoreConfig_from (o : Options) : StoreConfig :=
  mkStoreConfig (max_batch_size o) (max_batch_time o) (eviction o) (eviction_interval o).
Definition Options_from (c : StoreConfig) : Options :=
  mkOptions (sc_max_batch_size c) (sc_max_batch_time c) (sc_eviction c) (sc_eviction_interval c).
Definition StoreConfig_default : StoreConfig := StoreConfig_from Options_default.

Record MetricsConfig := mkMetricsConfig { metrics_disabled : bool; metrics_bind_addr : option SocketAddr }.

Definition DEFAULT_METRICS_ADDR : SocketAddr := SocketV4 [Byte.x7f; Byte.x00; Byte.x00; Byte.x01] 9117.

Definition metrics_addr (metrics : option MetricsConfig) : option SocketAddr :=
  match metrics with
  | None => Some DEFAULT_METRICS_ADDR
  | Some conf =>
      if metrics_disabled conf then None
      else Some (default DEFAULT_METRICS_ADDR (metrics_bind_addr conf))
  end.

Record MainlineConfig := mkMainlineConfig { mainline_on : bool; bootstrap : option (list string) }.

Inductive BootstrapOption := BootstrapDefault | BootstrapCustom (nodes : list string).

Definition mainline_enabled (mainline : option MainlineConfig) : option BootstrapOption :=
  match mainline with
  | None => None
  | Some (mkMainlineConfig false _) => None
  | Some (mkMainlineConfig true (Some nodes)) => Some (BootstrapCustom nodes)
  | Some (mkMainlineConfig true None) => Some BootstrapDefault
  end.

Record DnsConfig := mkDnsConfig {
  dns_port : Z;
  dns_bind_addr : option IpAddr;
  default_soa : string;
  default_ttl : Z;
  dns_origins : list string;
  rr_a : option bytes;
  rr_aaaa : option bytes;
  rr_ns : option string
}.

Definition DnsConfig_new (port : Z) (soa : string) (ttl : Z) (origins : list string) : DnsConfig :=
  mkDnsConfig port None soa ttl origins None None None.

(** The address [DnsServer::spawn] binds. *)
Definition dns_listen_addr (c : DnsConfig) : SocketAddr :=
  socket_addr_new (default (V4 [Byte.x00; Byte.x00; Byte.x00; Byte.x00]) (dns_bind_addr c)) (dns_port c).

(** ** HTTP errors and types *)

Inductive AppError := mkAppError (status : Z).

Definition BAD_REQUEST : Z := 400.
Definition NOT_FOUND : Z := 404.
Definition NOT_ACCEPTABLE : Z := 406.
Definition INTERNAL_SERVER_ERROR : Z := 500.
Definition NO_CONTENT : Z := 204.
Definition STATUS_OK : Z := 200.

Inductive DnsMimeType := MimeMessage | MimeJson.

Definition DnsMimeType_to_string (m : DnsMimeType) : string :=
  match m with
  | MimeMessage => "application/dns-message"
  | MimeJson => "application/dns-json"
  end.

(** Which query a request with this [Accept] header has. *)
Definition accepted_query (accept : option string) : result AppError DnsMimeType :=
  match accept with
  | Some content_type =>
      if (content_type =? "application/dns-message")%string then Ok MimeMessage
      else if (content_type =? "application/dns-json")%string then Ok MimeJson
      else if (content_type =? "application/x-javascript")%string then Ok MimeJson
      else Err (mkAppError NOT_ACCEPTABLE)
  | None => Ok MimeMessage
  end.

(** The header bits of a query made from parameters. *)
Record query_flags := mkFlags {
  checking_disabled : bool;
  recursion_desired : bool;
  recursion_available : bool;
  authentic_data : bool
}.

(** The parameters that are read. *)
Record DnsQuery := mkDnsQuery {
  q_name : string;
  q_type : option string;
  q_cd : option bool;
  q_do : option bool;
  q_rd : option bool
}.

(** [str::parse::<u16>]: an optional plus sign and decimal digits. *)
Fixpoint decimal (acc : Z) (s : string) : option Z :=
  match s with
  | EmptyString => Some acc
  | String c s =>
      if is_digit c then
        let acc := 10 * acc + (Z.of_N (Ascii.N_of_ascii c) - 48) in
        if acc <=? u16_max then decimal acc s else None
      else None
  end.

Definition parse_u16 (s : string) : option Z :=
  match s with
  | EmptyString => None
  | String c rest =>
      if (Ascii.eqb c (Ascii.ascii_of_nat 43)) then (if rest is EmptyString then None else decimal 0 rest)
      else decimal 0 s
  end.

(** [from_code] is [RecordType::from], [from_name] its [FromStr] on upper case. *)
Definition query_type (from_code : Z -> RecordType) (from_name : string -> option RecordType) (t : option string)
    : result AppError RecordType :=
  match t with
  | None => Ok TypeA
  | Some t =>
      match parse_u16 t with
      | Some code => Ok (from_code code)
      | None => ok_or (from_name t) (mkAppError BAD_REQUEST)
      end
  end.

Definition query_metadata (q : DnsQuery) : query_flags :=
  mkFlags (default false (q_cd q)) (default true (q_rd q)) true (default false (q_do q)).

(** ** Metrics of requests *)

Inductive Protocol := ProtocolUdp | ProtocolHttps | ProtocolOther.
Inductive ResponseCode := NoError | NXDomain | Refused | OtherCode.

Record Metrics := mkMetrics {
  dns_requests : Z;
  dns_requests_udp : Z;
  dns_requests_https : Z;
  dns_lookup_success : Z;
  dns_lookup_notfound : Z;
  dns_lookup_error : Z
}.

(** [handle_request]: what the catalog answered, by code and number of answers. *)
Definition count_request (p : Protocol) (code : ResponseCode) (answers : nat) (m : Metrics) : Metrics :=
  let '(mkMetrics r u h s n e) := m in
  let u := if p is ProtocolUdp then u + 1 else u in
  let h := if p is ProtocolHttps then h + 1 else h in
  match code with
  | NoError => if (answers =? 0)%nat then mkMetrics (r + 1) u h s (n + 1) e else mkMetrics (r + 1) u h (s + 1) n e
  | NXDomain => mkMetrics (r + 1) u h s (n + 1) e
  | _ => mkMetrics (r + 1) u h s n (e + 1)
  end.

Lemma String_bytes_inj a b : String.list_byte_of_string a = String.list_byte_of_string b -> a = b.
Proof.
  intros H. rewrite <- (String.string_of_list_byte_of_string a), <- (String.string_of_list_byte_of_string b). by rewrite H.
Qed.

Section Zone.
Context {Ed : Ed25519} {De : DataEncoding} {Sd : SimpleDns} {HK : Hickory} {HR : HickoryRecords}.
Context {Zc : ZoneCaches CachedZone} {Rd : Redb}.

(** ** The static zone: dns.rs *)

Definition DEFAULT_NS_TTL : Z := 60 * 60 * 12.
Definition DEFAULT_SOA_TTL : Z := 60 * 60 * 24 * 14.
Definition DEFAULT_A_TTL : Z := 60 * 60.

Inductive DnsError := InvalidOrigin | InvalidSoa | InvalidNs | NoOrigin.

Definition push_record (serial : Z) (record : hrecord) (records : RrMap) : RrMap :=
  let key := RrKey_new (rr_name record) (rdata_type (rr_data record)) in
  let set := rs_insert (rs_new (rr_name record) (rdata_type (rr_data record)) serial) record serial in
  rr_upsert key set (fun _ => set) records.

(** [soa] is the parsed record data with its serial; [ns_name] the record data of
    a name server. *)
Definition static_records (soa : RData) (serial : Z) (config : DnsConfig) (ns : option RData) (name : hname) (records : RrMap)
    : RrMap :=
  let push ttl data := push_record serial (mkRecord name ttl data) in
  let records := push DEFAULT_SOA_TTL soa records in
  let records := if rr_a config is Some addr then push DEFAULT_A_TTL (RA addr) records else records in
  let records := if rr_aaaa config is Some addr then push DEFAULT_A_TTL (RAAAA addr) records else records in
  if ns is Some ns then push DEFAULT_NS_TTL ns records else records.

Definition create_static_authority (parse_soa : string -> option (RData * Z)) (parse_ns : string -> option RData)
    (origins : list hname) (config : DnsConfig) : result DnsError (RrMap * Z) :=
  let? (soa, serial) := ok_or (parse_soa (default_soa config)) InvalidSoa in
  let? ns :=
    match rr_ns config with
    | Some ns => if origins is [] then Ok None else let? d := ok_or (parse_ns ns) InvalidNs in Ok (Some d)
    | None => Ok None
    end in
  Ok (foldl (fun records name => static_records soa serial config ns name records) [] origins, serial).

(** ** The zone handler: node_zone_handler.rs *)

Record NodeZoneHandler := mkHandler { serial : Z; origins : list hname; static : RrMap; first_origin : hname }.

Definition NodeZoneHandler_new (static : RrMap) (origins : list hname) (serial : Z) : result DnsError NodeZoneHandler :=
  match origins with
  | [] => Err NoOrigin
  | o :: _ => Ok (mkHandler serial origins static (hname_lower o))
  end.

Fixpoint parse_origins (l : list string) : result DnsError (list hname) :=
  match l with
  | [] => Ok []
  | s :: l =>
      let? n := ok_or (hname_from_utf8 s) InvalidOrigin in
      let? ns := parse_origins l in
      Ok (n :: ns)
  end.

Definition DnsHandler_new (parse_soa : string -> option (RData * Z)) (parse_ns : string -> option RData) (config : DnsConfig)
    : result DnsError NodeZoneHandler :=
  let? origins := parse_origins (dns_origins config) in
  let? (static, serial) := create_static_authority parse_soa parse_ns origins config in
  NodeZoneHandler_new static origins serial.

Inductive NameError := MissingPubkey | InvalidPubkey | NoOriginMatches | LabelNotUtf8 | NameTooLong.

Fixpoint parse_name_as_pkarr_with_origin (name : hname) (allowed_origins : list hname)
    : result NameError (hname * PublicKeyBytes * hname) :=
  match allowed_origins with
  | [] => Err NoOriginMatches
  | origin :: rest =>
      if negb (zone_of origin name) then parse_name_as_pkarr_with_origin name rest
      else
        let? _ := ensure (hname_num_labels origin + 1 <=? hname_num_labels name)%nat MissingPubkey in
        match drop (hname_num_labels origin) (rev (hname_labels name)) with
        | [] => Panic
        | pkey_label :: remaining =>
            let? pkey_str := ok_or (if utf8_valid pkey_label then Some (String.string_of_list_byte pkey_label) else None)
                                   LabelNotUtf8 in
            let? pkey := map_err (fun _ => InvalidPubkey) (key_bytes_from_z32 pkey_str) in
            let? remaining_name := ok_or (hname_from_labels (rev remaining)) NameTooLong in
            Ok (remaining_name, pkey, origin)
        end
  end.

(** An answer, or a response code. *)
Definition lookup_result : Type := result ResponseCode (list hrecord).

Definition err_refused {E A} (m : result E A) : result ResponseCode A := map_err (fun _ => Refused) m.

(** [resolve] is the zone store. *)
Definition resolve_pkarr (h : NodeZoneHandler) (resolve : PublicKeyBytes -> hname -> RecordType -> result ZoneError (option recordset))
    (name : hname) (pubkey : PublicKeyBytes) (origin : hname) (t : RecordType) : lookup_result :=
  let? found := err_refused (resolve pubkey name t) in
  match found with
  | Some pkarr_set =>
      let? z32 := key_bytes_to_z32 pubkey in
      let? new_origin := ok_or (hname_parse z32 origin) Refused in
      let? record_set := err_refused (record_set_append_origin pkarr_set new_origin (serial h)) in
      Ok (rs_records record_set)
  | None => Err NXDomain
  end.

(** [static_lookup]: the in-memory zone over the static records. *)
Definition handler_lookup (static_lookup : RrMap -> hname -> RecordType -> lookup_result) (h : NodeZoneHandler)
    (resolve : PublicKeyBytes -> hname -> RecordType -> result ZoneError (option recordset)) (name : hname) (t : RecordType)
    : lookup_result :=
  match t with
  | TypeSOA | TypeNS => static_lookup (static h) name t
  | _ =>
      match parse_name_as_pkarr_with_origin name (origins h) with
      | Ok (name, pubkey, origin) => resolve_pkarr h resolve name pubkey origin t
      | Err _ => static_lookup (static h) name t
      | Panic => Panic
      end
  end.

Definition handler_search (static_lookup : RrMap -> hname -> RecordType -> lookup_result) (h : NodeZoneHandler)
    (resolve : PublicKeyBytes -> hname -> RecordType -> result ZoneError (option recordset)) (name : hname) (t : RecordType)
    : lookup_result :=
  match t with
  | TypeSOA => static_lookup (static h) (first_origin h) t
  | TypeAXFR => Err Refused
  | _ => handler_lookup static_lookup h resolve name t
  end.

(** ** The zone store, one call at a time *)

Definition store_state : Type := ZoneCache * gmap PublicKeyBytes SignedPacket.

Definition store_insert (o : Options) (now : Z) (p : SignedPacket) (s : store_state) : store_state * bool :=
  match spec_message o now (Upsert p) s.2 with
  | (m, RBool true) => ((cache_remove s.1 (packet_key p), m), true)
  | (m, _) => ((s.1, m), false)
  end.

Definition store_resolve (now : Z) (dht : option (PublicKeyBytes -> option MutableItem)) (s : store_state)
    (pubkey : PublicKeyBytes) (name : hname) (t : RecordType) : result ZoneError (option recordset) :=
  match cache_resolve now s.1 pubkey name t with
  | (_, Some set) => Ok (Some set)
  | (c, None) => rmap snd (resolve_fetched now dht c pubkey name t (s.2 !! pubkey))
  end.

(** ** The pkarr routes: http/pkarr.rs *)

Definition http_put (o : Options) (now : Z) (key : string) (body : bytes) (s : store_state) : result AppError (store_state * Z) :=
  let? public_key := map_err (fun _ => mkAppError BAD_REQUEST) (from_z32 key) in
  let? packet := map_err (fun _ => mkAppError BAD_REQUEST) (from_relay_payload public_key body) in
  let '(s, _) := store_insert o now packet s in
  Ok (s, NO_CONTENT).

Definition http_get (key : string) (s : store_state) : result AppError bytes :=
  let? pubkey := map_err (fun _ => mkAppError BAD_REQUEST) (key_bytes_from_z32 key) in
  let? packet := ok_or (s.2 !! pubkey) (mkAppError NOT_FOUND) in
  Ok (to_relay_payload packet).

(** ** DNS over HTTPS: http/doh.rs, doh/response.rs *)

Fixpoint min_ttl (answers : list hrecord) : option Z :=
  match answers with
  | [] => None
  | r :: l =>
      Some match min_ttl l with
           | Some m => Z.min (rr_ttl r) m
           | None => rr_ttl r
           end
  end.

(** [proto::op::Message], as far as it is read. *)
Record message := mkMessage {
  is_response : bool;
  response_code : Z;
  flag_tc : bool;
  flag_rd : bool;
  flag_ra : bool;
  flag_ad : bool;
  flag_cd : bool;
  queries : list (hname * RecordType);
  msg_answers : list hrecord
}.

Record DohQuestionJson := mkQuestionJson { qj_name : string; qj_type : Z }.
Record DohRecordJson := mkRecordJson { rj_name : string; rj_type : Z; rj_ttl : Z; rj_data : string }.

Record DnsResponse := mkDnsResponse {
  resp_status : Z;
  resp_tc : bool;
  resp_rd : bool;
  resp_ra : bool;
  resp_ad : bool;
  resp_cd : bool;
  question : list DohQuestionJson;
  answer : list DohRecordJson;
  comment : option string;
  edns_client_subnet : option string
}.

(** The texts of names and data, and the numbers of types. *)
Section Json.
Context (name_text : hname -> string) (data_text : RData -> string) (type_code : RecordType -> Z).

Definition from_query (q : hname * RecordType) : DohQuestionJson := mkQuestionJson (name_text q.1) (type_code q.2).

Definition from_record (r : hrecord) : DohRecordJson :=
  mkRecordJson (name_text (rr_name r)) (type_code (rdata_type (rr_data r))) (rr_ttl r) (data_text (rr_data r)).

Definition from_message (m : message) : result AppError DnsResponse :=
  let? _ := ensure (is_response m) (mkAppError INTERNAL_SERVER_ERROR) in
  Ok (mkDnsResponse (response_code m) (flag_tc m) (flag_rd m) (flag_ra m) (flag_ad m) (flag_cd m)
        (map from_query (queries m)) (map from_record (msg_answers m)) None None).

Record doh_response := mkDohResponse {
  doh_status : Z;
  content_type : string;
  s_maxage : option Z;
  doh_body : bytes + DnsResponse
}.

(** [answer_request] gave [message_bytes]. *)
Definition doh_get (decode : bytes -> option message) (accept_type : DnsMimeType) (message_bytes : bytes)
    : result AppError doh_response :=
  let? message := ok_or (decode message_bytes) (mkAppError INTERNAL_SERVER_ERROR) in
  let? body :=
    match accept_type with
    | MimeMessage => Ok (inl message_bytes)
    | MimeJson => rmap inr (from_message message)
    end in
  Ok (mkDohResponse STATUS_OK (DnsMimeType_to_string accept_type) (min_ttl (msg_answers message)) body).

Definition doh_post (message_bytes : bytes) : doh_response :=
  mkDohResponse STATUS_OK (DnsMimeType_to_string MimeMessage) None (inl message_bytes).

Definition decode_request (decode : bytes -> option message) (bs : bytes) : result AppError message :=
  let? request := ok_or (decode bs) (mkAppError BAD_REQUEST) in
  let? _ := ensure (negb (is_response request)) (mkAppError BAD_REQUEST) in
  Ok request.

End Json.

(** ** Lemmas: the records of a zone *)

Context {EdL : Ed25519Laws Ed} {DeL : DataEncodingLaws De} {SdL : SimpleDnsLaws Sd}.
Context {HL : HickoryLaws HK HR} {DI : DnsInterop Sd HK HR} {ZcL : ZoneCachesLaws Zc}.

Definition str_bytes (s : string) : bytes := String.list_byte_of_string s.

(** Answers that a zone keeps under one name: texts whose pieces make up the
    strings. *)
Definition answers_text (zone : bytes) (label : bytes) (values : list string) (rs : list hrecord) : Prop :=
  Forall2 (fun v r => hname_labels (rr_name r) = [label; zone] /\
                      exists pieces, rr_data r = RTXT pieces /\ concat pieces = str_bytes v) values rs.

Lemma rr_get_upsert k new change m :
  rr_get k (rr_upsert k new change m) = Some (match rr_get k m with Some s => change s | None => new end).
Proof.
  unfold rr_get. induction m as [|[k' s] m IH]; simpl; [by rewrite bool_decide_eq_true_2|].
  destruct (bool_decide (k' = k)) eqn:E; simpl; rewrite E; [done|]. by rewrite IH.
Qed.

(** One text record goes to the end of the set of its name. *)
Lemma add_text_answer zone label r pieces out :
  hname_labels (rr_name r) = [label; zone] -> label <> [Byte.x2a] -> rr_data r = RTXT pieces ->
  exists n, hname_from_labels [label] = Some n /\
    let r' := mkRecord n (rr_ttl r) (RTXT pieces) in
    add_answer zone (fun _ => true) r out =
      Ok (rr_upsert (RrKey_new n TypeTXT) (rs_of_record r') (fun set => rs_insert set r' (rs_serial set)) out).
Proof.
  intros Hl Hstar Hd. destruct (labels_valid_app [label] [zone]) as [Hv _].
  { change ([label] ++ [zone]) with [label; zone]. rewrite <- Hl. apply hname_labels_valid. }
  destruct (hname_from_labels_some [label] Hv) as (n & Hn & _). exists n. split; [done|].
  unfold add_answer. rewrite Hd. cbn [rdata_type]. rewrite (hname_num_labels_count (rr_name r)), Hl by (rewrite Hl; simpl; congruence).
  cbn [length Nat.ltb Nat.leb last rbind]. rewrite (into_label_labels (rr_name r)) by (rewrite Hl; set_solver).
  cbn [ok_or rbind]. rewrite label_eqb_refl. cbn [negb Nat.sub take]. rewrite Hn. done.
Qed.

(** The set after all the records: its texts in order. *)
Lemma add_text_answers zone label values rs out (set : option recordset) n :
  answers_text zone label values rs -> label <> [Byte.x2a] -> NoDup values -> hname_from_labels [label] = Some n ->
  rr_get (RrKey_new n TypeTXT) out = set ->
  (forall s, set = Some s -> rs_type s = TypeTXT /\ rs_name s = n /\
     Forall (fun r => exists pieces, rr_data r = RTXT pieces /\ concat pieces ∉ map str_bytes values) (rs_records s)) ->
  exists out' , add_answers zone (fun _ => true) rs out = Ok out' /\
    (values <> [] -> exists set', rr_get (RrKey_new n TypeTXT) out' = Some set' /\ rs_name set' = n /\ rs_type set' = TypeTXT /\
       map rr_data (rs_records set') = from_option (fun s => map rr_data (rs_records s)) [] set ++ map rr_data rs) /\
    (values = [] -> out' = out).
Proof.
  intros Ht Hstar Hnd Hn. revert out set Hnd. induction Ht as [|v r values rs (Hl & pieces & Hd & Hp) Ht IH]; intros out set Hnd Hset Hs.
  { by exists out. }
  apply NoDup_cons in Hnd as [Hv Hnd]. destruct (add_text_answer zone label r pieces out Hl Hstar Hd) as (n' & Hn' & Ha).
  assert (n' = n) as -> by congruence. cbn [add_answers]. rewrite Ha. cbn [rbind].
  set (r' := mkRecord n (rr_ttl r) (RTXT pieces)) in *. set (out1 := rr_upsert _ _ _ out).
  pose proof (rr_get_upsert (RrKey_new n TypeTXT) (rs_of_record r') (fun set => rs_insert set r' (rs_serial set)) out) as Hg.
  fold out1 in Hg. rewrite Hset in Hg.
  set (set1 := match set with Some s => rs_insert s r' (rs_serial s) | None => rs_of_record r' end) in *.
  assert (Hset1 : rs_type set1 = TypeTXT /\ rs_name set1 = n /\
    map rr_data (rs_records set1) = from_option (fun s => map rr_data (rs_records s)) [] set ++ [RTXT pieces] /\
    Forall (fun r => exists pieces, rr_data r = RTXT pieces /\ concat pieces ∉ map str_bytes values) (rs_records set1)).
  { destruct set as [s|]; subst set1; cbn [from_option].
    - destruct (Hs s eq_refl) as (H1 & H2 & H3). rewrite rs_insert_type, rs_insert_name. split_and!; [done|done|..].
      all: rewrite rs_insert_new; [|done|done|].
      1,3: rewrite ?map_app; done || (apply Forall_app_2; [eapply Forall_impl; [exact H3|]; intros x (ps & ? & Hps); exists ps; set_solver|];
        apply Forall_singleton; exists pieces; split; [done|]; rewrite Hp; intros (v' & Heq & Hin)%list_elem_of_fmap; apply Hv;
        apply String_bytes_inj in Heq; by subst).
      all: intros (x & Hx & Hin)%list_elem_of_fmap; rewrite Forall_forall in H3; destruct (H3 x Hin) as (ps & Hps & Hnot);
        apply Hnot; simpl in Hx; rewrite Hps in Hx; injection Hx as <-; rewrite Hp; set_solver.
    - rewrite rs_of_record_type, rs_of_record_name, rs_of_record_records. split_and!; try done.
      apply Forall_singleton. exists pieces. split; [done|]. rewrite Hp. intros (v' & Heq & Hin)%list_elem_of_fmap. apply Hv.
      apply String_bytes_inj in Heq. by subst. }
  destruct Hset1 as (H1 & H2 & H3 & H4).
  destruct (IH out1 (Some set1) Hnd Hg) as (out' & Ho & Hne & Hnil); [by intros s [= <-]|].
  exists out'. split; [done|]. split; [|done]. intros _. destruct values as [|v2 values].
  - rewrite (Hnil eq_refl). exists set1. assert (rs = []) as -> by (by inversion Ht).
    rewrite H3. simpl. by rewrite Hd.
  - destruct (Hne ltac:(done)) as (set' & Hg' & Hn2 & Ht2 & Hr2). exists set'. split_and!; [done..|].
    rewrite Hr2. cbn [from_option]. rewrite H3, <- app_assoc. simpl. by rewrite Hd.
Qed.

(** ** Lemmas: an endpoint's own packet *)

(** The name of the records of an endpoint. *)
Lemma normalize_iroh k :
  normalize_name (to_z32 k) IROH_TXT_NAME = (IROH_TXT_NAME ++ String dot_char (to_z32 k))%string.
Proof.
  unfold normalize_name. change (strip_dot IROH_TXT_NAME) with IROH_TXT_NAME.
  change (default EmptyString (last (str_split dot_char IROH_TXT_NAME))) with IROH_TXT_NAME.
  destruct (String.eqb_spec IROH_TXT_NAME (to_z32 k)) as [Heq|]; [|done].
  pose proof (z32_symbols (as_bytes k)) as Hs. unfold to_z32 in Heq. by rewrite <- Heq in Hs.
Qed.

Lemma z32_lacks_dot k : lacks dot_char (to_z32 k) = true.
Proof.
  apply (str_forall_impl is_lower_alnum); [|apply z32_symbols]. intros c Hc. by destruct (Ascii.eqb_spec c dot_char) as [->|].
Qed.

Lemma split_iroh k : str_split dot_char (IROH_TXT_NAME ++ String dot_char (to_z32 k))%string = [IROH_TXT_NAME; to_z32 k].
Proof. rewrite str_split_sep by done. by rewrite str_split_lacks by apply z32_lacks_dot. Qed.

Lemma own_answers_text sk values ttl answers v :
  txt_answers (name_new_unchecked (normalize_name (to_z32 (public sk)) IROH_TXT_NAME)) ttl values = Ok answers ->
  packet_build answers = Some v ->
  exists rs, message_answers v = Some rs /\
    answers_text (str_bytes (to_z32 (public sk))) (str_bytes IROH_TXT_NAME) values rs.
Proof.
  intros Ha Hb. destruct (written_answers_read _ _ Hb) as (rs & Hrs & Hf). exists rs. split; [done|]. clear Hb Hrs.
  revert answers rs Ha Hf. induction values as [|w values IH]; intros answers rs Ha Hf.
  - injection Ha as <-. inversion Hf. constructor.
  - cbn [txt_answers] in Ha. destruct (txt_of_string w) as [t|] eqn:Et; [|done]. cbn [ok_or rbind] in Ha.
    destruct (txt_answers _ ttl values) as [rest| |] eqn:Er; try done. injection Ha as <-.
    apply Forall2_cons_inv_l in Hf as (r & rs' & (Hl & _ & pieces & Hd & Hp) & Hf & ->). constructor; [|by apply (IH rest)].
    cbn [fst snd] in Hl. rewrite name_roundtrip, normalize_iroh, split_iroh in Hl. split; [done|].
    exists pieces. split; [done|]. by apply Hp, txt_roundtrip.
Qed.

Lemma z32_label k : valid_key k -> label_from_utf8 (to_z32 k) = Some (str_bytes (to_z32 k)).
Proof.
  intros Hk. apply label_from_utf8_some; [apply z32_symbols|]. unfold to_z32. rewrite z32_length, (valid_key_length _ Hk).
  change ((8 * 32 + 4) / 5)%nat with 52%nat. lia.
Qed.

(** The zone made from an endpoint's own packet has the strings it published. *)
Lemma own_zone sk values ttl ts p :
  in_u64 ts -> values <> [] -> NoDup values -> from_txt_strings sk IROH_TXT_NAME values ttl ts = Ok p ->
  exists z n set, CachedZone_from_signed_packet p = Ok z /\ hname_from_labels [str_bytes IROH_TXT_NAME] = Some n /\
    zone_resolve z n TypeTXT = Some set /\ rs_name set = n /\ rs_type set = TypeTXT /\
    Forall2 (fun v d => exists pieces, d = RTXT pieces /\ concat pieces = str_bytes v) values (map rr_data (rs_records set)).
Proof.
  intros Hts Hne Hnd Hp. destruct (own_packet _ _ _ _ _ _ Hts Hp) as (_ & Hkey & Hts' & _).
  destruct (from_txt_strings_ok _ _ _ _ _ _ Hp) as (answers & v & Ha & Hb & _ & Hbytes).
  destruct (own_answers_text _ _ _ _ _ Ha Hb) as (rs & Hrs & Ht).
  assert (exists n, hname_from_labels [str_bytes IROH_TXT_NAME] = Some n) as [n Hn].
  { destruct Ht as [|? r ? ? (Hl & pieces & Hd & _)]; [done|].
    destruct (add_text_answer _ _ r pieces [] Hl ltac:(done) Hd) as (n & ? & _). eauto. }
  destruct (add_text_answers _ _ values rs [] None n Ht ltac:(done) Hnd Hn eq_refl ltac:(done)) as (out & Ho & Hset & _).
  destruct (Hset Hne) as (set & Hg & Hname & Htype & Hdata). exists (mkCachedZone ts out), n, set.
  split_and!; try done.
  - unfold CachedZone_from_signed_packet, signed_packet_to_hickory_records_without_origin. rewrite Hkey. cbn [rbind].
    rewrite z32_label by apply public_valid. cbn [ok_or rbind]. unfold signed_packet_to_hickory_message, encoded_packet.
    rewrite Hbytes, layout_packet by (apply public_length || apply sign_length). rewrite Hrs. cbn [ok_or rbind].
    rewrite Ho. cbn [rbind]. rewrite Hts'. done.
  - rewrite Hdata. cbn [from_option app]. apply Forall2_fmap_r. eapply Forall2_impl; [exact Ht|]. simpl. by intros w r [_ H].
Qed.

(** The texts of a record set survive the change of its name. *)
Lemma append_origin_data set origin serial values n :
  rs_type set = TypeTXT -> hname_append (rs_name set) origin = Some n -> NoDup values ->
  Forall2 (fun v d => exists pieces, d = RTXT pieces /\ concat pieces = str_bytes v) values (map rr_data (rs_records set)) ->
  exists out, record_set_append_origin set origin serial = Ok out /\ map rr_data (rs_records out) = map rr_data (rs_records set).
Proof.
  intros Htype Hn Hnd Hf. unfold record_set_append_origin. rewrite Hn. cbn [ok_or rbind]. eexists. split; [done|].
  rewrite Htype. assert (Hd : NoDup (map rr_data (rs_records set)) /\ Forall (fun r => rdata_type (rr_data r) = TypeTXT) (rs_records set)).
  { split.
    - apply (Forall2_NoDup (fun d => match d with RTXT ps => Some (String.string_of_list_byte (concat ps)) | _ => None end) _ values); [|done].
      apply Forall2_flip. eapply Forall2_impl; [exact Hf|]. intros v d (ps & -> & Hc). unfold flip. rewrite Hc. unfold str_bytes.
      by rewrite String.string_of_list_byte_of_string.
    - apply Forall2_Forall_r with (Q := fun d => rdata_type d = TypeTXT) in Hf; [by apply Forall_fmap in Hf|].
      apply Forall_forall. by intros v _ d (ps & -> & _). }
  destruct Hd as [Hd1 Hd2]. clear Hf Hnd values.
  assert (H : forall acc, rs_type acc = TypeTXT -> (forall d, d ∈ map rr_data (rs_records set) -> d ∉ map rr_data (rs_records acc)) ->
    map rr_data (rs_records (foldl (fun output record => rs_insert output (mkRecord n (rr_ttl record) (rr_data record)) serial)
      acc (rs_records set))) = map rr_data (rs_records acc) ++ map rr_data (rs_records set)).
  { revert Hd1 Hd2. generalize (rs_records set). intros l. induction l as [|r l IH]; intros Hd1 Hd2 acc Hacc Hdis; simpl; [by rewrite app_nil_r|].
    apply NoDup_cons in Hd1 as [Hr Hd1]. apply Forall_cons in Hd2 as [Hrt Hd2].
    assert (Hi : rs_records (rs_insert acc (mkRecord n (rr_ttl r) (rr_data r)) serial) = rs_records acc ++ [mkRecord n (rr_ttl r) (rr_data r)]).
    { apply rs_insert_new; [done|done|]. apply Hdis. simpl. set_solver. }
    rewrite IH; [|done|done|by rewrite rs_insert_type|].
    - rewrite Hi, map_app, <- app_assoc. done.
    - intros d Hin. rewrite Hi, map_app. simpl. intros [Hx|Hx]%elem_of_app; [by eapply Hdis; [by right|]|].
      apply list_elem_of_singleton in Hx as ->. done. }
  rewrite H; [by rewrite rs_new_records|apply rs_new_type|]. intros d _. rewrite rs_new_records. simpl. set_solver.
Qed.

(** ** Lemmas: queries *)

Lemma alnum_ascii c : is_lower_alnum c = true -> is_ascii_char c = true.
Proof. by destruct c as [[] [] [] [] [] [] [] []]. Qed.

Lemma z32_utf8 k : utf8_valid (str_bytes (to_z32 k)) = true.
Proof.
  apply ascii_utf8_valid, ascii_string_bytes, (str_forall_impl is_lower_alnum); [apply alnum_ascii|apply z32_symbols].
Qed.

Lemma parse_own_name qname org rest k n :
  valid_key k -> head (hname_labels org) <> Some [Byte.x2a] -> hname_from_labels [str_bytes IROH_TXT_NAME] = Some n ->
  hname_labels qname = str_bytes IROH_TXT_NAME :: str_bytes (to_z32 k) :: hname_labels org ->
  parse_name_as_pkarr_with_origin qname (org :: rest) = Ok (n, as_bytes k, org).
Proof.
  intros Hk Hstar Hn Hq. cbn [parse_name_as_pkarr_with_origin].
  rewrite (zone_of_suffix org qname [str_bytes IROH_TXT_NAME; str_bytes (to_z32 k)]) by done. cbn [negb].
  rewrite (hname_num_labels_count org), (hname_num_labels_count qname) by (done || by rewrite Hq).
  unfold ensure. rewrite Hq. cbn [length]. destruct (Nat.leb_spec (length (hname_labels org) + 1) (S (S (length (hname_labels org))))); [|lia].
  cbn [rbind rev]. rewrite <- app_assoc. rewrite drop_app_length' by (by rewrite length_rev). cbn [app].
  rewrite z32_utf8. cbn [ok_or rbind]. unfold key_bytes_from_z32.
  rewrite (String.string_of_list_byte_of_string (to_z32 k) : String.string_of_list_byte (str_bytes (to_z32 k)) = to_z32 k).
  rewrite from_z32_to_z32 by done. cbn [map_err rmap rbind rev app]. by rewrite Hn.
Qed.

Lemma insert_newest o now p (st : store_state) :
  (forall q, st.2 !! packet_key p = Some q -> packet_ts q < packet_ts p) ->
  store_insert o now p st = ((cache_remove st.1 (packet_key p), <[packet_key p := p]> st.2), true).
Proof.
  intros H. unfold store_insert. cbn [spec_message]. destruct (st.2 !! packet_key p) as [q|] eqn:Hq; [|done].
  specialize (H q eq_refl). by rewrite bool_decide_eq_false_2 by lia.
Qed.

(** After an insert a query is answered from the packet. *)
Lemma resolve_after_insert now dht (st : store_state) k p z n t :
  signed_by k p -> CachedZone_from_signed_packet p = Ok z ->
  store_resolve now dht (cache_remove st.1 k, <[k := p]> st.2) k n t = Ok (zone_resolve z n t).
Proof.
  intros Hp Hz. unfold store_resolve. cbn [fst snd].
  destruct (cache_miss now (cache_remove st.1 k) k n t (zlru_pop_same _ _) (zttl_remove_same _ _ _)) as (c & Hc & Hs).
  rewrite Hc, lookup_insert_eq. destruct (resolve_uncached now dht c k n t p z Hp) as (c' & -> & _); [|done|done].
  rewrite Hs. apply zlru_pop_same.
Qed.

Lemma pieces_strings values ds :
  Forall (fun v => str_forall is_ascii_char v = true) values ->
  Forall2 (fun v d => exists pieces, d = RTXT pieces /\ concat pieces = str_bytes v) values ds ->
  map Dns.TxtRecordData_to_string (Dns.txt_answers ds) = values.
Proof.
  intros Ha. induction 1 as [|v d values ds (pieces & -> & Hp) _ IH]; [done|]. apply Forall_cons in Ha as [Hv Ha].
  unfold Dns.txt_answers. cbn. f_equal; [|by apply IH]. unfold Dns.TxtRecordData_to_string.
  rewrite lossy_pieces by (rewrite Hp; by apply ascii_string_bytes). rewrite Hp.
  apply String.string_of_list_byte_of_string.
Qed.

(** ** Properties *)

(** A resolver that asks this server: the name it looks up, as the query the server
    receives, and the texts of the answer. *)
Definition ask_server (static_lookup : RrMap -> hname -> RecordType -> lookup_result) (h : NodeZoneHandler)
    (resolve : PublicKeyBytes -> hname -> RecordType -> result ZoneError (option recordset)) (name : string)
    : result Dns.DnsError (list (list bytes)) :=
  let? qname := ok_or (hname_from_utf8 name) Dns.Resolve in
  let? records := map_err (fun _ => Dns.Resolve) (handler_search static_lookup h resolve qname TypeTXT) in
  Ok (Dns.txt_answers (map rr_data records)).

(** C13: What an endpoint publishes over HTTP is found over DNS. The server
    accepts the packet an endpoint makes of its info, unless it has a newer one,
    and then a resolver that looks the endpoint up under the server's first origin,
    and sends the server the query this makes, gets the same info up to the order of
    its addresses. The info has something to publish, in ASCII and without equals
    signs in its relay URLs and user data (the parser cuts a value at one), and the
    origin does not begin with an asterisk. *)
Theorem published_info_found_over_dns {Uc : UrlCrate} o now now' dht static_lookup h org rest (st : store_state)
    info sk ttl ts p strings qname origin :
  info_wf info -> no_equals (info_data info) -> info_endpoint_id info = public sk -> in_u64 ts ->
  info_to_txt_strings (E := ParseError) info = Ok strings -> strings <> [] ->
  Forall (fun v => str_forall is_ascii_char v = true) strings ->
  to_pkarr_signed_packet info sk ttl ts = Ok p ->
  (forall q, st.2 !! as_bytes (public sk) = Some q -> packet_ts q < ts) ->
  origins h = org :: rest -> head (hname_labels org) <> Some [Byte.x2a] ->
  hname_from_utf8 (IROH_TXT_NAME ++ String dot_char (to_z32 (public sk) ++ String dot_char origin))%string = Some qname ->
  hname_labels qname = str_bytes IROH_TXT_NAME :: str_bytes (to_z32 (public sk)) :: hname_labels org ->
  exists st' d,
    http_put o now (to_z32 (public sk)) (to_relay_payload p) st = Ok (st', NO_CONTENT) /\
    Dns.lookup_endpoint_by_id (public sk) origin (ask_server static_lookup h (store_resolve now' dht st')) =
      Ok (mkEndpointInfo (public sk) d) /\
    same_data (info_data info) d.
Proof.
  intros Hwf Hneq Hid Hts Hstr Hne Hascii Hp Hold Horg Hstar Hquery Hq.
  pose proof (info_strings_NoDup info strings Hwf Hstr) as Hnd.
  destruct (info_strings_parse info (info_wf_addrs _ Hwf) (info_wf_user _ Hwf)) as (strings' & Hs' & Hparse).
  rewrite Hs' in Hstr. injection Hstr as ->.
  unfold to_pkarr_signed_packet in Hp. rewrite Hs' in Hp. cbn [rbind] in Hp.
  destruct (own_packet _ _ _ _ _ _ Hts Hp) as (Hfrom & Hkey & Hts' & Hrelay & _).
  destruct (own_zone sk strings ttl ts p Hts Hne Hnd Hp) as (z & n & set & Hz & Hn & Hset & Hname & Htype & Hdata).
  assert (Hpok : packet_ok p) by (by exists (packet_bytes p)).
  assert (Hpk : packet_key p = as_bytes (public sk)).
  { pose proof (facts_key p (packet_ok_facts p Hpok) ZoneError) as Hk. unfold key_of in Hk. rewrite Hkey in Hk. by injection Hk. }
  assert (Hpts : packet_ts p = ts).
  { pose proof (facts_ts p (packet_ok_facts p Hpok) ZoneError) as Hk. rewrite Hts' in Hk. by injection Hk. }
  eexists (cache_remove st.1 (as_bytes (public sk)), <[as_bytes (public sk) := p]> st.2), _.
  destruct (hname_parse_some (to_z32 (public sk)) org) as (norg & Hnorg & Hlorg); [apply z32_symbols| |].
  { change (labels_valid (str_bytes (to_z32 (public sk)) :: hname_labels org)).
    apply (labels_valid_app [str_bytes IROH_TXT_NAME]). simpl. rewrite <- Hq. apply hname_labels_valid. }
  destruct (hname_from_labels_some [str_bytes IROH_TXT_NAME]) as (n' & Hn' & Hln).
  { apply (labels_valid_app _ (str_bytes (to_z32 (public sk)) :: hname_labels org)). simpl. rewrite <- Hq. apply hname_labels_valid. }
  assert (n' = n) as -> by congruence.
  destruct (hname_append_some n norg) as (full & Hfull & _).
  { rewrite Hln, Hlorg. cbn [app]. change (String.list_byte_of_string (to_z32 (public sk))) with (str_bytes (to_z32 (public sk))).
    rewrite <- Hq. apply hname_labels_valid. }
  destruct (append_origin_data set norg (serial h) strings full) as (out & Hout & Hod); [done|by rewrite Hname|done|done|].
  split_and!.
  - unfold http_put. rewrite from_z32_to_z32 by apply public_valid. cbn [map_err rbind]. rewrite Hrelay. cbn [map_err rbind].
    rewrite insert_newest by (rewrite Hpk, Hpts; exact Hold). by rewrite Hpk.
  - unfold Dns.lookup_endpoint_by_id, Dns.info_of_lookup, ask_server. rewrite Hquery. cbn [ok_or rbind].
    unfold handler_search, handler_lookup. rewrite Horg, (parse_own_name qname org rest (public sk) n); [|apply public_valid|done|done|done].
    unfold resolve_pkarr. rewrite (resolve_after_insert now' dht st _ p z n TypeTXT) by done. cbn [err_refused map_err rbind].
    rewrite Hset. unfold key_bytes_to_z32. rewrite from_bytes_as_bytes by apply public_valid. cbn [rbind].
    rewrite Hnorg. cbn [ok_or rbind]. rewrite Hout. cbn [err_refused map_err rbind].
    rewrite Hod, (pieces_strings strings) by done.
    unfold info_from_txt_lookup, attrs_from_txt_lookup. rewrite txt_name_id by apply public_valid. cbn [rbind].
    rewrite Hid in Hparse. rewrite Hparse. done.
  - apply parsed_same; [exact (info_wf_addrs _ Hwf)|exact (info_wf_nodup _ Hwf)|done].
Qed.

End Zone.

(** ** Instances of the properties *)

Definition example_origin : @hname list_names := [str_bytes "example"].
Definition example_handler : @NodeZoneHandler list_names list_records :=
  @mkHandler list_names list_records 0 [example_origin] [] example_origin.
Definition example_state : @store_state list_names list_records zone_caches :=
  (@ZoneCache_new list_names list_records zone_caches 8, ∅).
Definition example_qname : @hname list_names :=
  str_bytes IROH_TXT_NAME :: str_bytes (@to_z32 data_encoding (public example_sk)) :: example_origin.

Definition relay_strings : list string :=
  match @info_to_txt_strings data_encoding ParseError relay_info with Ok l => l | _ => [] end.

Lemma relay_strings_info : @info_to_txt_strings data_encoding ParseError relay_info = Ok relay_strings.
Proof. vm_compute. reflexivity. Qed.

Lemma relay_strings_nonempty : relay_strings <> [].
Proof. vm_compute. discriminate. Qed.

Lemma relay_strings_ascii : Forall (fun v => str_forall is_ascii_char v = true) relay_strings.
Proof. apply Forall_forall. intros v Hv. assert (Hl : relay_strings = ["relay=https://r/"]) by (vm_compute; reflexivity).
  rewrite Hl in Hv. by apply list_elem_of_singleton in Hv as ->. Qed.

Lemma relay_info_packet :
  @to_pkarr_signed_packet checksum_keys data_encoding packed_dns relay_info example_sk 30 1700000000000000 = Ok example_packet.
Proof. vm_compute. reflexivity. Qed.

Lemma relay_info_id : info_endpoint_id relay_info = public example_sk.
Proof. vm_compute. reflexivity. Qed.

#[local] Opaque example_packet relay_strings.

Lemma published_info_found_over_dns_witness :
  exists st' d,
    @http_put checksum_keys data_encoding packed_dns list_names list_records zone_caches example_store Options_default 5
      (@to_z32 data_encoding (public example_sk)) (to_relay_payload example_packet) example_state = Ok (st', NO_CONTENT) /\
    @Dns.lookup_endpoint_by_id checksum_keys data_encoding scheme_urls (public example_sk) "example"
      (@ask_server checksum_keys data_encoding list_names list_records (fun _ _ _ => Err Refused) example_handler
        (@store_resolve checksum_keys data_encoding packed_dns list_names list_records zone_caches 9 None st'))
      = Ok (mkEndpointInfo (public example_sk) d) /\
    same_data (info_data relay_info) d.
Proof.
  apply (@published_info_found_over_dns checksum_keys data_encoding packed_dns list_names list_records zone_caches example_store
    checksum_keys_laws data_encoding_laws packed_dns_laws list_names_laws packed_interop (map_caches_laws _) scheme_urls
    Options_default 5 9 None (fun _ _ _ => Err Refused) example_handler example_origin [] example_state
    relay_info example_sk 30 1700000000000000 example_packet relay_strings example_qname "example");
    [exact relay_info_wf|exact relay_info_no_equals|exact relay_info_id|unfold in_u64, u64_max; lia|exact relay_strings_info
    |exact relay_strings_nonempty|exact relay_strings_ascii|exact relay_info_packet
    |intros q Hq; unfold example_state in Hq; cbn [snd] in Hq; by rewrite lookup_empty in Hq|reflexivity|discriminate
    |vm_compute; reflexivity|reflexivity].
Defined.

End Server.
