(* ===== verification/RelayMap.v ===== *)
(** * RelayMap: the relays an endpoint is configured with

    Models [iroh-relay/src/relay_map.rs]. A [RelayMap] is an [Arc] of a lock
    around a [BTreeMap], so clones share their entries: a map is a location, and
    the operations act on the store of the locked maps. Parsing a URL is the
    work of the [url] crate and an argument of [try_from_iter]. *)

From S2P Require Import Prelude Addrs.
Import Addrs.

Module Relays.

(** ** Relay configurations *)

Definition DEFAULT_RELAY_QUIC_PORT : Z := 7842.

Record RelayQuicConfig := mkRelayQuicConfig { port : Z }.

Definition RelayQuicConfig_default : RelayQuicConfig := mkRelayQuicConfig DEFAULT_RELAY_QUIC_PORT.

Record RelayConfig := mkRelayConfig {
  url : RelayUrl;
  quic : option RelayQuicConfig;
  auth_token : option string
}.

#[export] Instance RelayQuicConfig_eq_dec : EqDecision RelayQuicConfig.
Proof. solve_decision. Defined.
#[export] Instance RelayConfig_eq_dec : EqDecision RelayConfig.
Proof. solve_decision. Defined.

Definition RelayConfig_new (u : RelayUrl) (q : option RelayQuicConfig) : RelayConfig := mkRelayConfig u q None.

Definition RelayConfig_with_auth_token (c : RelayConfig) (token : string) : RelayConfig :=
  mkRelayConfig (url c) (quic c) (Some token).

Definition quic_config : option RelayQuicConfig := Some RelayQuicConfig_default.

Definition RelayConfig_from_url (value : RelayUrl) : RelayConfig := mkRelayConfig value quic_config None.

(** ** The store of locked maps *)

Abbreviation entries := (gmap RelayUrl RelayConfig).

(** The location of the lock; a clone of the map has the same one. *)
Abbreviation RelayMap := nat.

Abbreviation Store := (gmap RelayMap entries).

Definition alloc (s : Store) (m : entries) : RelayMap * Store :=
  let l := fresh (dom s) in (l, <[l := m]> s).

(** A [BTreeMap] collected from pairs keeps the last value of a key. *)
Definition collect (l : list (RelayUrl * RelayConfig)) : entries :=
  fold_left (fun m '(k, v) => <[k := v]> m) l ∅.

Definition RelayMap_empty (s : Store) : RelayMap * Store := alloc s ∅.

Definition from_configs (s : Store) (iter : list RelayConfig) : RelayMap * Store :=
  alloc s (collect (map (fun config => (url config, config)) iter)).

Definition from_urls (s : Store) (iter : list RelayUrl) : RelayMap * Store :=
  alloc s (collect (map (fun u => (u, RelayConfig_from_url u)) iter)).

Definition from_url (s : Store) (value : RelayUrl) : RelayMap * Store :=
  alloc s (collect [(value, RelayConfig_from_url value)]).

Definition from_config (s : Store) (value : RelayConfig) : RelayMap * Store :=
  alloc s (collect [(url value, value)]).

(** [collect::<Result<_, _>>] stops at the first URL that does not parse. *)
Fixpoint parse_all {E} (parse : string -> result E RelayUrl) (urls : list string)
    : result E (list (RelayUrl * RelayConfig)) :=
  match urls with
  | [] => Ok []
  | t :: urls =>
      let? u := parse t in
      let? rest := parse_all parse urls in
      Ok ((u, RelayConfig_from_url u) :: rest)
  end.

Definition try_from_iter {E} (parse : string -> result E RelayUrl) (s : Store) (urls : list string)
    : result E (RelayMap * Store) :=
  let? relays := parse_all parse urls in
  Ok (alloc s (collect relays)).

(** ** Operations *)

Definition contents (s : Store) (m : RelayMap) : entries := default ∅ (s !! m).

Definition relay_map_eq (s : Store) (this that : RelayMap) : bool :=
  bool_decide (contents s this = contents s that).

Definition urls (s : Store) (m : RelayMap) : gset RelayUrl := dom (contents s m).

Definition contains (s : Store) (m : RelayMap) (u : RelayUrl) : bool := bool_decide (is_Some (contents s m !! u)).

Definition get (s : Store) (m : RelayMap) (u : RelayUrl) : option RelayConfig := contents s m !! u.

Definition len (s : Store) (m : RelayMap) : nat := size (contents s m).

Definition relay_map_is_empty (s : Store) (m : RelayMap) : bool := (len s m =? 0)%nat.

Definition insert (s : Store) (m : RelayMap) (u : RelayUrl) (endpoint : RelayConfig) : option RelayConfig * Store :=
  (contents s m !! u, <[m := <[u := endpoint]> (contents s m)]> s).

Definition remove (s : Store) (m : RelayMap) (u : RelayUrl) : option RelayConfig * Store :=
  (contents s m !! u, <[m := delete u (contents s m)]> s).

(** [extend] takes the write lock of [m] and then, still holding it, the read
    lock of [other]. [None] when that is the same lock: the standard library's
    [RwLock] then deadlocks or panics. *)
Definition extend (s : Store) (m other : RelayMap) : option Store :=
  if decide (m = other) then None
  else Some (<[m := contents s other ∪ contents s m]> s).

Definition with_auth_token (s : Store) (m : RelayMap) (token : string) : RelayMap * Store :=
  (m, <[m := (fun config => RelayConfig_with_auth_token config token) <$> contents s m]> s).

(** ** Properties *)

Lemma contents_insert s m e : contents (<[m := e]> s) m = e.
Proof. unfold contents. by rewrite lookup_insert_eq. Qed.

Lemma contents_insert_ne s m m' e : m <> m' -> contents (<[m := e]> s) m' = contents s m'.
Proof. intros H. unfold contents. by rewrite lookup_insert_ne. Qed.

(** A new map shares its entries with no existing one. *)
Lemma alloc_fresh s e m : m ∈ dom s -> m <> (alloc s e).1 /\ contents (alloc s e).2 m = contents s m.
Proof.
  intros Hm. assert (m <> fresh (dom s)) by (intros ->; by apply (is_fresh (dom s))).
  split; [done|]. by apply contents_insert_ne.
Qed.

Lemma fold_insert_lookup l (acc : entries) u :
  fold_left (fun m '(k, v) => <[k := v]> m) l acc !! u =
  match last (filter (fun kv => kv.1 = u) l) with Some (_, v) => Some v | None => acc !! u end.
Proof.
  revert acc. induction l as [|[k v] l IH]; intros acc; simpl; [done|]. rewrite IH, filter_cons. cbn [fst].
  case_decide as Hk; [|by rewrite lookup_insert_ne].
  rewrite last_cons. destruct (last _) as [[]|]; [done|]. subst k. by rewrite lookup_insert_eq.
Qed.

(** A map made from configurations has, under each URL, the last one given for it. *)
Lemma from_configs_get s iter u :
  let '(m, s') := from_configs s iter in
  get s' m u = last (filter (fun c => url c = u) iter).
Proof.
  unfold from_configs, alloc, get. rewrite contents_insert. unfold collect. rewrite fold_insert_lookup, lookup_empty.
  assert (filter (fun kv : RelayUrl * RelayConfig => kv.1 = u) (map (fun c => (url c, c)) iter) =
          map (fun c => (url c, c)) (filter (fun c => url c = u) iter)) as ->.
  { induction iter as [|c iter IH]; simpl; [done|]. rewrite !filter_cons. cbn [fst].
    case_decide; [|done]. simpl. by rewrite IH. }
  change (map ?f) with (fmap (M := list) f). rewrite fmap_last. by destruct (last _).
Qed.

(** The entries of [other] replace those of [m], the other entries stay, and no
    other map changes. *)
Lemma extend_get s s' m other u :
  extend s m other = Some s' ->
  get s' m u = match get s other u with Some c => Some c | None => get s m u end /\
  (forall m', m' <> m -> get s' m' u = get s m' u).
Proof.
  unfold extend. case_decide; intros [= <-]. unfold get. split.
  - rewrite contents_insert, lookup_union. destruct (contents s other !! u), (contents s m !! u); done.
  - intros m' Hm. by rewrite contents_insert_ne.
Qed.

(** Extending a map by itself, or by a clone of itself, never returns. *)
Lemma extend_clone_blocks s m other : extend s m other = None <-> m = other.
Proof. unfold extend. case_decide; naive_solver. Qed.

(** Every entry has the token afterwards and keeps its URL and QUIC port, also
    when read through a clone; entries added later do not get it. *)
Lemma with_auth_token_get s m token u :
  let '(clone, s') := with_auth_token s m token in
  clone = m /\ get s' m u = (fun c => mkRelayConfig (url c) (quic c) (Some token)) <$> get s m u.
Proof. simpl. split; [done|]. unfold get. by rewrite contents_insert, lookup_fmap. Qed.

Lemma insert_remove_get s m u c :
  let '(old, s1) := insert s m u c in
  let '(removed, s2) := remove s1 m u in
  old = get s m u /\ get s1 m u = Some c /\ removed = Some c /\ get s2 m u = None /\
  (forall u', u' <> u -> get s2 m u' = get s m u').
Proof.
  unfold insert, remove, get. rewrite !contents_insert, lookup_insert_eq, lookup_delete_eq.
  split_and!; try done. intros u' Hu. by rewrite lookup_delete_ne, lookup_insert_ne.
Qed.

End Relays.
