(* ===== verification/NetReport.v ===== *)
(** * NetReport: the state of the network and the home relay

    Models [iroh/src/net_report.rs] and [iroh/src/net_report/]: the report and
    its latencies ([report.rs]), the probe plans ([probes.rs]), the protocols of
    the options ([options.rs]), the actor that runs one report's probes
    ([reportgen.rs]) and the client that keeps the history and picks the
    preferred relay. The build outside a browser is modelled.

    What the network does is an argument: the order in which tasks finish and
    what they return is a list of events, one for each turn of a [select!], and
    a function that still waits when the events run out returns [None]. QUIC
    connections are numbers. *)

From S2P Require Import Prelude BTree External Instances Keys Addrs NetText EndpointInfo DnsResolver RelayMap.
Import Addrs Dns Relays.

Module NetReport.

(** ** Probes and their reports *)

Inductive Probe := Https | QadIpv4 | QadIpv6.

#[export] Instance Probe_eq_dec : EqDecision Probe.
Proof. solve_decision. Defined.
#[export] Instance Probe_countable : Countable Probe.
Proof.
  refine (inj_countable' (fun p => match p with Https => 0%nat | QadIpv4 => 1%nat | QadIpv6 => 2%nat end)
    (fun n => match n with O => Https | S O => QadIpv4 | _ => QadIpv6 end) _).
  by intros [].
Defined.

Record QadProbeReport := mkQad { qad_relay : RelayUrl; qad_latency : Z; qad_addr : SocketAddr }.
Record HttpsProbeReport := mkHttps { https_relay : RelayUrl; https_latency : Z }.

Inductive ProbeReport :=
| ReportQadIpv4 (r : QadProbeReport)
| ReportQadIpv6 (r : QadProbeReport)
| ReportHttps (r : HttpsProbeReport).

Definition is_udp (r : ProbeReport) : bool :=
  match r with ReportQadIpv4 _ | ReportQadIpv6 _ => true | ReportHttps _ => false end.

(** ** Latencies *)

Abbreviation latency_map := (gmap RelayUrl Z).

Record RelayLatencies := mkLatencies { ipv4 : latency_map; ipv6 : latency_map; https : latency_map }.

Definition RelayLatencies_default : RelayLatencies := mkLatencies ∅ ∅ ∅.

Definition latencies (l : RelayLatencies) (probe : Probe) : latency_map :=
  match probe with Https => https l | QadIpv4 => ipv4 l | QadIpv6 => ipv6 l end.

(** [entry(url).or_insert(latency)], lowered when the new latency is lower. *)
Definition lower (list : latency_map) (url : RelayUrl) (latency : Z) : latency_map :=
  let old_latency := default latency (list !! url) in
  <[url := if latency <? old_latency then latency else old_latency]> list.

Definition update_relay (l : RelayLatencies) (url : RelayUrl) (latency : Z) (probe : Probe) : RelayLatencies :=
  match probe with
  | Https => mkLatencies (ipv4 l) (ipv6 l) (lower (https l) url latency)
  | QadIpv4 => mkLatencies (lower (ipv4 l) url latency) (ipv6 l) (https l)
  | QadIpv6 => mkLatencies (ipv4 l) (lower (ipv6 l) url latency) (https l)
  end.

Definition merge_from (probe : Probe) (l : RelayLatencies) (entries : list (RelayUrl * Z)) : RelayLatencies :=
  fold_left (fun l '(url, latency) => update_relay l url latency probe) entries l.

Definition merge (l other : RelayLatencies) : RelayLatencies :=
  let l := merge_from Https l (btree_iter (https other)) in
  let l := merge_from QadIpv4 l (btree_iter (ipv4 other)) in
  merge_from QadIpv6 l (btree_iter (ipv6 other)).

Definition iter (l : RelayLatencies) : list (Probe * RelayUrl * Z) :=
  map (fun '(url, d) => (Https, url, d)) (btree_iter (https l)) ++
  map (fun '(url, d) => (QadIpv4, url, d)) (btree_iter (ipv4 l)) ++
  map (fun '(url, d) => (QadIpv6, url, d)) (btree_iter (ipv6 l)).

Definition latencies_is_empty (l : RelayLatencies) : bool :=
  bool_decide (https l = ∅) && bool_decide (ipv4 l = ∅) && bool_decide (ipv6 l = ∅).

(** [Iterator::min]. *)
Definition min_of (l : list Z) : option Z :=
  match l with [] => None | x :: l => Some (fold_left Z.min l x) end.

Definition latency_of (l : RelayLatencies) (url : RelayUrl) : option Z :=
  min_of (omap (fun m : latency_map => m !! url) [https l; ipv4 l; ipv6 l]).

(** ** Reports *)

(** Address and port; a [SocketAddrV6] also has its flow label and scope. *)
Abbreviation SocketAddrV4 := (bytes * Z)%type.
Abbreviation SocketAddrV6 := (bytes * Z * Z * Z)%type.

Record Report := mkReport {
  udp_v4 : bool;
  udp_v6 : bool;
  mapping_varies_by_dest_ipv4 : option bool;
  mapping_varies_by_dest_ipv6 : option bool;
  preferred_relay : option RelayUrl;
  relay_latency : RelayLatencies;
  global_v4 : option SocketAddrV4;
  global_v6 : option SocketAddrV6;
  captive_portal : option bool
}.

Definition Report_default : Report :=
  mkReport false false None None None RelayLatencies_default None None None.

Definition has_udp (r : Report) : bool := udp_v4 r || udp_v6 r.

Definition mapping_varies_by_dest (r : Report) : option bool :=
  match mapping_varies_by_dest_ipv4 r, mapping_varies_by_dest_ipv6 r with
  | Some v4, Some v6 => Some (v4 || v6)
  | None, Some v6 => Some v6
  | Some v4, None => Some v4
  | None, None => None
  end.

Definition set_latency (r : Report) (l : RelayLatencies) : Report :=
  mkReport (udp_v4 r) (udp_v6 r) (mapping_varies_by_dest_ipv4 r) (mapping_varies_by_dest_ipv6 r)
    (preferred_relay r) l (global_v4 r) (global_v6 r) (captive_portal r).

Definition set_v4 (r : Report) (varies : option bool) (global : option SocketAddrV4) : Report :=
  mkReport true (udp_v6 r) varies (mapping_varies_by_dest_ipv6 r)
    (preferred_relay r) (relay_latency r) global (global_v6 r) (captive_portal r).

Definition set_v6 (r : Report) (varies : option bool) (global : option SocketAddrV6) : Report :=
  mkReport (udp_v4 r) true (mapping_varies_by_dest_ipv4 r) varies
    (preferred_relay r) (relay_latency r) (global_v4 r) global (captive_portal r).

Definition set_captive_portal (r : Report) (portal : option bool) : Report :=
  mkReport (udp_v4 r) (udp_v6 r) (mapping_varies_by_dest_ipv4 r) (mapping_varies_by_dest_ipv6 r)
    (preferred_relay r) (relay_latency r) (global_v4 r) (global_v6 r) portal.

Definition set_preferred (r : Report) (relay : option RelayUrl) : Report :=
  mkReport (udp_v4 r) (udp_v6 r) (mapping_varies_by_dest_ipv4 r) (mapping_varies_by_dest_ipv6 r)
    relay (relay_latency r) (global_v4 r) (global_v6 r) (captive_portal r).

(** Another observation [ipp] of the address [global] seen before. *)
Definition varies_after {A} `{EqDecision A} (global : option A) (varies : option bool) (ipp : A) : option bool :=
  match global with
  | None => varies
  | Some global =>
      if bool_decide (global = ipp) then (if varies is None then Some false else varies) else Some true
  end.

Definition global_after {A} (global : option A) (ipp : A) : option A :=
  match global with Some _ => global | None => Some ipp end.

(** [Report::update]. *)
Definition update (r : Report) (report : ProbeReport) : Report :=
  match report with
  | ReportHttps p => set_latency r (update_relay (relay_latency r) (https_relay p) (https_latency p) Https)
  | ReportQadIpv4 p =>
      let r := set_latency r (update_relay (relay_latency r) (qad_relay p) (qad_latency p) QadIpv4) in
      match qad_addr p with
      | SocketV4 ip port =>
          set_v4 r (varies_after (global_v4 r) (mapping_varies_by_dest_ipv4 r) (ip, port))
            (global_after (global_v4 r) (ip, port))
      | SocketV6 _ _ _ _ => r
      end
  | ReportQadIpv6 p =>
      let r := set_latency r (update_relay (relay_latency r) (qad_relay p) (qad_latency p) QadIpv6) in
      match qad_addr p with
      | SocketV6 ip port flow scope =>
          set_v6 r (varies_after (global_v6 r) (mapping_varies_by_dest_ipv6 r) (ip, port, flow, scope))
            (global_after (global_v6 r) (ip, port, flow, scope))
      | SocketV4 _ _ => r
      end
  end.

Definition updates (r : Report) (l : list ProbeReport) : Report := fold_left update l r.

(** ** Options *)

Record NetReportConfig := mkNetReportConfig { https_probes : bool; captive_portal_check : bool }.

Definition NetReportConfig_minimal : NetReportConfig := mkNetReportConfig false false.
Definition NetReportConfig_default : NetReportConfig := mkNetReportConfig true true.

(** Which families QUIC address discovery is enabled for. *)
Record QuicConfig := mkQuicConfig { quic_ipv4 : bool; quic_ipv6 : bool }.

Record Options := mkOptions { opt_quic_config : option QuicConfig; user_config : NetReportConfig }.

Definition Options_new : Options := mkOptions None NetReportConfig_default.
Definition opts_quic_config (o : Options) (q : option QuicConfig) : Options := mkOptions q (user_config o).
Definition opts_net_report_config (o : Options) (c : NetReportConfig) : Options := mkOptions (opt_quic_config o) c.

Definition as_protocols (o : Options) : gset Probe :=
  match opt_quic_config o with
  | Some quic => (if quic_ipv4 quic then {[QadIpv4]} else ∅) ∪ (if quic_ipv6 quic then {[QadIpv6]} else ∅)
  | None => ∅
  end ∪ (if https_probes (user_config o) then {[Https]} else ∅).

(** ** Probe plans *)

Definition DEFAULT_INITIAL_RETRANSMIT : Z := from_millis 100.
Definition HTTPS_OFFSET : Z := from_millis 200.

Record ProbeSet := mkProbeSet { proto : Probe; probes : list (Z * RelayConfig) }.

#[export] Instance ProbeSet_eq_dec : EqDecision ProbeSet.
Proof. solve_decision. Defined.

Definition ProbeSet_new (p : Probe) : ProbeSet := mkProbeSet p [].
Definition ProbeSet_push (s : ProbeSet) (delay : Z) (endpoint : RelayConfig) : ProbeSet :=
  mkProbeSet (proto s) (probes s ++ [(delay, endpoint)]).
Definition ProbeSet_is_empty (s : ProbeSet) : bool := (length (probes s) =? 0)%nat.

(** A [BTreeSet] without its order, which decides only the order in which the
    probes are spawned. *)
Definition ProbePlan := list ProbeSet.

Definition plan_insert (plan : ProbePlan) (set : ProbeSet) : ProbePlan :=
  if bool_decide (set ∈ plan) then plan else plan ++ [set].

Definition add_if_enabled (protocols : gset Probe) (plan : ProbePlan) (set : ProbeSet) : ProbePlan :=
  if negb (ProbeSet_is_empty set) && bool_decide (proto set ∈ protocols) then plan_insert plan set else plan.

(** [RelayMap::relays]: in the order of the URLs. *)
Definition relays (s : Store) (m : RelayMap) : list RelayConfig := (btree_iter (contents s m)).*2.

Definition https_set (relay : RelayConfig) : ProbeSet :=
  fold_left (fun set attempt => ProbeSet_push set (HTTPS_OFFSET + DEFAULT_INITIAL_RETRANSMIT * attempt) relay)
    [0; 1; 2] (ProbeSet_new Https).

Definition plan_initial (s : Store) (relay_map : RelayMap) (protocols : gset Probe) : ProbePlan :=
  fold_left (fun plan relay => add_if_enabled protocols plan (https_set relay)) (relays s relay_map) [].

Definition with_last_report (s : Store) (relay_map : RelayMap) (last_report : Report) (protocols : gset Probe)
    : ProbePlan :=
  if latencies_is_empty (relay_latency last_report) then plan_initial s relay_map protocols else [].

(** ** reportgen: the probes of one report *)

Inductive MeasureHttpsLatencyError :=
| HttpsInvalidUrl
| HttpsDnsLookup (e : list DnsError)
| HttpsCreateClient
| HttpsRequest
| HttpsInvalidResponse (status : Z).

Inductive ProbeError := ClientGone | NotUseful | ProbeHttps (e : MeasureHttpsLatencyError).
Inductive ProbesError := ProbeFailure (e : ProbeError) | AllProbesFailed | ProbesCancelled | ProbesTimeout.

Inductive ProbeFinished :=
| Regular (r : result ProbesError ProbeReport)
| CaptivePortal (portal : option bool).

Inductive CaptivePortalError := PortalDnsLookup (e : list DnsError) | PortalCreateClient | PortalHttpRequest.

(** A response of the HTTP client: a header is [Some None] when its value is not
    visible ASCII. *)
Record http_response := mkResponse {
  resp_status : Z;
  resp_header : string -> option (option string);
  resp_elapsed : Z
}.

Section Probing.

(** The [url] crate: the host of a URL, its text, and [Url::join]. *)
Context (url_host : string -> option Host) (host_str : string -> option string).
Context (url_join : string -> string -> option string).

(** The staggered lookups of [DnsResolver]. *)
Context (lookup_ipv4_staggered lookup_ipv6_staggered lookup_ipv4_ipv6_staggered :
           string -> result (list DnsError) (list IpAddr)).

(** [reqwest]: whether a client builds with the given resolved addresses, and
    what a GET request with the given headers returns. *)
Context (client_builds : option (string * list SocketAddr) -> bool).
Context (http_get : option (string * list SocketAddr) -> string -> list (string * string) -> option http_response).

Definition resolve_to_addrs {E} (dns_error : list DnsError -> E) (url : string)
    : result E (option (string * list SocketAddr)) :=
  match url_host url with
  | Some (Domain domain) =>
      let? addrs := map_err dns_error (lookup_ipv4_ipv6_staggered domain) in
      Ok (Some (domain, map (fun ip => socket_addr_new ip 0) addrs))
  | _ => Ok None
  end.

Definition RELAY_PROBE_PATH : string := "/ping".

Definition is_success (status : Z) : bool := (200 <=? status) && (status <? 300).

(** The body is drained and thrown away. *)
Definition run_https_probe (relay : RelayUrl) : result MeasureHttpsLatencyError HttpsProbeReport :=
  let? url := ok_or (url_join relay RELAY_PROBE_PATH) HttpsInvalidUrl in
  let? client := resolve_to_addrs HttpsDnsLookup url in
  let? _ := ensure (client_builds client) HttpsCreateClient in
  let? response := ok_or (http_get client url []) HttpsRequest in
  if is_success (resp_status response) then Ok (mkHttps relay (resp_elapsed response))
  else Err (HttpsInvalidResponse (resp_status response)).

(** [Probe::run] after its delay. *)
Definition Probe_run (p : Probe) (relay : RelayConfig) : result ProbeError ProbeReport :=
  match p with
  | Https => rmap ReportHttps (map_err ProbeHttps (run_https_probe (url relay)))
  | QadIpv4 | QadIpv6 => Panic
  end.

Definition portal_url (host_name : string) : string := ("http://" ++ host_name ++ "/generate_204")%string.
Definition portal_challenge (host_name : string) : string := ("ts_" ++ host_name)%string.
Definition portal_response (challenge : string) : string := ("response " ++ challenge)%string.

(** [choice] is the index drawn among the URLs. *)
Definition check_captive_portal (s : Store) (dm : RelayMap) (preferred : option RelayUrl) (choice : nat)
    : result CaptivePortalError bool :=
  let preferred := preferred ≫= fun u => (fun _ => u) <$> get s dm u in
  let urls := (btree_iter (contents s dm)).*1 in
  match (match preferred with Some u => Some u | None => urls !! (choice mod length urls)%nat end) with
  | None => Ok false
  | Some u =>
      let? client := resolve_to_addrs PortalDnsLookup u in
      let? _ := ensure (client_builds client) PortalCreateClient in
      let host_name := default EmptyString (host_str u) in
      let challenge := portal_challenge host_name in
      let? res := ok_or (http_get client (portal_url host_name) [("X-Iroh-Challenge"%string, challenge)])
                    PortalHttpRequest in
      let is_valid_response :=
        bool_decide (default EmptyString <$> resp_header res "X-Iroh-Response"%string = Some (portal_response challenge)) in
      Ok (negb (resp_status res =? 204) || negb is_valid_response)
  end.

(** *** The address of a relay for QUIC address discovery *)

Inductive GetRelayAddrError :=
| InvalidHostname
| NoAddrFound (u : RelayUrl) (addr_type : string)
| AddrDnsLookup (e : list DnsError)
| MissingPort.

Definition get_quic_port (relay : RelayConfig) : option Z :=
  match quic relay with
  | Some q => Some (if port q =? 0 then DEFAULT_RELAY_QUIC_PORT else port q)
  | None => None
  end.

(** [IpAddr::to_canonical]. *)
Definition ip_to_canonical (ip : IpAddr) : IpAddr :=
  match ip with V4 ip => V4 ip | V6 ip => to_canonical ip end.

Definition relay_lookup_ipv4_staggered (relay : RelayConfig) (port : Z) : result GetRelayAddrError SocketAddrV4 :=
  match url_host (url relay) with
  | Some (Domain hostname) =>
      let? addrs := map_err AddrDnsLookup (lookup_ipv4_staggered hostname) in
      match head addrs with
      | Some ip => match ip_to_canonical ip with V4 ip => Ok (ip, port) | V6 _ => Panic end
      | None => Err (NoAddrFound (url relay) "A")
      end
  | Some (HostV4 ip) => Ok (ip, port)
  | Some (HostV6 _) => Err (NoAddrFound (url relay) "A")
  | None => Err InvalidHostname
  end.

Definition relay_lookup_ipv6_staggered (relay : RelayConfig) (port : Z) : result GetRelayAddrError SocketAddrV6 :=
  match url_host (url relay) with
  | Some (Domain hostname) =>
      let? addrs := map_err AddrDnsLookup (lookup_ipv6_staggered hostname) in
      match head addrs with
      | Some (V6 ip) => Ok (ip, port, 0, 0)
      | Some (V4 _) => Panic
      | None => Err (NoAddrFound (url relay) "AAAA")
      end
  | Some (HostV4 _) => Err (NoAddrFound (url relay) "AAAA")
  | Some (HostV6 ip) => Ok (ip, port, 0, 0)
  | None => Err InvalidHostname
  end.

Definition get_relay_addr_ipv4 (relay : RelayConfig) : result GetRelayAddrError SocketAddrV4 :=
  let? port := ok_or (get_quic_port relay) MissingPort in
  relay_lookup_ipv4_staggered relay port.

Definition get_relay_addr_ipv6 (relay : RelayConfig) : result GetRelayAddrError SocketAddrV6 :=
  let? port := ok_or (get_quic_port relay) MissingPort in
  relay_lookup_ipv6_staggered relay port.

(** *** One QAD probe *)

Inductive QadProbeError :=
| QadGetRelayAddr (e : GetRelayAddrError)
| QadMissingHost
| QadQuic
| QadReceiverDropped.

(** [QuicClient::create_conn]; the first address a connection observes, and its
    round trip time. *)
Context (create_conn : SocketAddr -> string -> option nat).
Context (observed_external_addr : nat -> option SocketAddr) (conn_rtt : nat -> option Z).

Definition canonical_addr (addr : SocketAddr) : SocketAddr :=
  socket_addr_new (ip_to_canonical (socket_ip addr)) (socket_port addr).

Definition probe_addr (relay : RelayConfig) (relay_addr : SocketAddr) : result QadProbeError (QadProbeReport * nat) :=
  let? host := ok_or (host_str (url relay)) QadMissingHost in
  let? conn := ok_or (create_conn relay_addr host) QadQuic in
  let? addr := ok_or (observed_external_addr conn) QadReceiverDropped in
  Ok (mkQad (url relay) (default 0 (conn_rtt conn)) (canonical_addr addr), conn).

Definition run_probe_v4 (relay : RelayConfig) : result QadProbeError (QadProbeReport * nat) :=
  let? (ip, port) := map_err QadGetRelayAddr (get_relay_addr_ipv4 relay) in
  probe_addr relay (SocketV4 ip port).

Definition run_probe_v6 (relay : RelayConfig) : result QadProbeError (QadProbeReport * nat) :=
  let? (ip, port, flow, scope) := map_err QadGetRelayAddr (get_relay_addr_ipv6 relay) in
  probe_addr relay (SocketV6 ip port flow scope).

End Probing.

(** *** The actor *)

(** How a task under [run_until_cancelled(timeout(..))] ends. *)
Inductive run_outcome (E A : Type) :=
| Finished (r : result E A)
| Elapsed
| Cancelled.
Arguments Finished {E A}.
Arguments Elapsed {E A}.
Arguments Cancelled {E A}.

(** [JoinSet::join_next]: what the task returned, or that it panicked or was
    aborted. *)
Inductive join (A : Type) := Joined (a : A) | JoinError (is_panic : bool).
Arguments Joined {A}.
Arguments JoinError {A}.

Definition regular_result (o : run_outcome ProbeError ProbeReport) : join ProbeFinished :=
  match o with
  | Finished (Ok report) => Joined (Regular (Ok report))
  | Finished (Err err) => Joined (Regular (Err (ProbeFailure err)))
  | Finished Panic => JoinError true
  | Elapsed => Joined (Regular (Err ProbesTimeout))
  | Cancelled => Joined (Regular (Err ProbesCancelled))
  end.

Definition captive_result (o : run_outcome CaptivePortalError bool) : join ProbeFinished :=
  match o with
  | Finished (Ok found) => Joined (CaptivePortal (Some found))
  | Finished (Err _) | Elapsed | Cancelled => Joined (CaptivePortal None)
  | Finished Panic => JoinError true
  end.

Record Actor := mkActor {
  actor_last_report : option Report;
  actor_relay_map : RelayMap;
  actor_protocols : gset Probe;
  actor_captive_portal_check : bool
}.

(** The probes spawned: the protocol, the delay and the relay. *)
Definition spawn_probes_task (s : Store) (a : Actor) : list (Probe * Z * RelayConfig) :=
  let plan :=
    match actor_last_report a with
    | Some report => with_last_report s (actor_relay_map a) report (actor_protocols a)
    | None => plan_initial s (actor_relay_map a) (actor_protocols a)
    end in
  flat_map (fun set => map (fun '(delay, relay) => (proto set, delay, relay)) (probes set)) plan.

(** The relay to check first, when the check is spawned. *)
Definition prepare_captive_portal_task (a : Actor) : option (option RelayUrl) :=
  if actor_captive_portal_check a && (if actor_last_report a is None then true else false)
  then Some (actor_last_report a ≫= preferred_relay)
  else None.

(** What the actor did when it ends: the messages it sent, whether it cancelled
    the captive portal check, and whether it panicked. *)
Record actor_run := mkRun { messages : list ProbeFinished; captive_cancelled : bool; panicked : bool }.

Definition send (m : ProbeFinished) (r : actor_run) : actor_run :=
  mkRun (m :: messages r) (captive_cancelled r) (panicked r).

(** [reportgen_inner] with [len] tasks in the join set. It also ends when the tasks
    that finish run out, which is the overall timeout or a cancelled token. *)
Fixpoint reportgen_inner (len num_probes : nat) (have_udp cancelled : bool) (joins : list (join ProbeFinished))
    : actor_run :=
  match len, joins with
  | O, _ | _, [] => mkRun [] cancelled false
  | S len, Joined (Regular report) :: joins =>
      let have_udp := have_udp || (if report is Ok r then is_udp r else false) in
      match num_probes with
      | O => mkRun [] cancelled true
      | S num_probes =>
          if (num_probes =? 0)%nat then
            if (1 <? len)%nat then mkRun [] cancelled true
            else send (Regular report) (reportgen_inner len num_probes have_udp (cancelled || have_udp) joins)
          else send (Regular report) (reportgen_inner len num_probes have_udp cancelled joins)
      end
  | S len, Joined (CaptivePortal portal) :: joins =>
      send (CaptivePortal portal) (reportgen_inner len num_probes have_udp cancelled joins)
  | S len, JoinError is_panic :: joins =>
      if is_panic then mkRun [] cancelled false else reportgen_inner len num_probes have_udp cancelled joins
  end.

Definition Actor_run (s : Store) (a : Actor) (joins : list (join ProbeFinished)) : actor_run :=
  let num_probes := length (spawn_probes_task s a) in
  let len := (num_probes + if prepare_captive_portal_task a is Some _ then 1 else 0)%nat in
  reportgen_inner len num_probes false false joins.

(** ** The client *)

Definition FULL_REPORT_INTERVAL : Z := from_secs (5 * 60).
Definition ENOUGH_ENDPOINTS : nat := 3.
Definition MAX_RELAYS : nat := 5.
Definition MAX_AGE : Z := from_secs (5 * 60).

Record IfStateDetails := mkIfState { have_v4 : bool; have_v6 : bool }.

(** The connections kept for QUIC address discovery, with their relay. *)
Record QadConns := mkQadConns { conn_v4 : option (RelayUrl * nat); conn_v6 : option (RelayUrl * nat) }.

Record Reports := mkReports {
  next_full : bool;
  prev : gmap Z Report;
  last_report : option Report;
  last_full : Z
}.

Record Client := mkClient {
  quic_client : bool;                        (* is there a QUIC client? *)
  client_probes : gset Probe;
  relay_map : RelayMap;
  qad_conns : QadConns;
  client_captive_portal_check : bool;
  reports : Reports
}.

Definition report_client_new (relay_map : RelayMap) (opts : Options) (now : Z) : Client :=
  mkClient (if opt_quic_config opts is Some _ then true else false) (as_protocols opts) relay_map
    (mkQadConns None None) (captive_portal_check (user_config opts)) (mkReports true ∅ None now).

(** What the connections show when a report starts. *)
Record conn_view := mkView {
  observer : nat -> option QadProbeReport;
  view_rtt : nat -> option Z;
  close_reason : nat -> bool
}.

Definition current (view : conn_view) (conn : option (RelayUrl * nat)) : option QadProbeReport :=
  '(_, id) ← conn;
  r ← observer view id;
  Some (mkQad (qad_relay r) (default (qad_latency r) (view_rtt view id)) (qad_addr r)).

Definition current_v4 (view : conn_view) (c : QadConns) : option ProbeReport := ReportQadIpv4 <$> current view (conn_v4 c).
Definition current_v6 (view : conn_view) (c : QadConns) : option ProbeReport := ReportQadIpv6 <$> current view (conn_v6 c).

Definition conn_ids (c : QadConns) : list nat := omap (fmap snd) [conn_v4 c; conn_v6 c].

(** [QadConns::clear], with the connections it closes. *)
Definition clear (c : QadConns) : QadConns * list nat := (mkQadConns None None, conn_ids c).

(** A connection the peer or the network closed is forgotten. *)
Definition drop_closed (view : conn_view) (conn : option (RelayUrl * nat)) : option (RelayUrl * nat) :=
  match conn with
  | Some (u, id) => if close_reason view id then None else Some (u, id)
  | None => None
  end.

(** *** The QAD probes *)

Abbreviation qad_join := (join (run_outcome QadProbeError (QadProbeReport * nat))).

(** What a turn of the loop finds first. *)
Inductive qad_event :=
| QadShutdown
| QadV4 (val : qad_join)
| QadV6 (val : qad_join).

Record qad_state := mkQadState {
  v4_buf : nat;                              (* tasks outstanding *)
  v6_buf : nat;
  ipv4_pending : bool;
  ipv6_pending : bool;
  qad_reports : list ProbeReport;
  qs_conns : QadConns;
  closed : list nat
}.

Definition add_v4 (q : qad_state) (r : QadProbeReport) (conn : nat) : qad_state :=
  let '(conns, closed) :=
    match conn_v4 (qs_conns q) with
    | None => (mkQadConns (Some (qad_relay r, conn)) (conn_v6 (qs_conns q)), closed q)
    | Some _ => (qs_conns q, closed q ++ [conn])
    end in
  mkQadState (v4_buf q) (v6_buf q) (ipv4_pending q) (ipv6_pending q)
    (qad_reports q ++ [ReportQadIpv4 r]) conns closed.

Definition add_v6 (q : qad_state) (r : QadProbeReport) (conn : nat) : qad_state :=
  let '(conns, closed) :=
    match conn_v6 (qs_conns q) with
    | None => (mkQadConns (conn_v4 (qs_conns q)) (Some (qad_relay r, conn)), closed q)
    | Some _ => (qs_conns q, closed q ++ [conn])
    end in
  mkQadState (v4_buf q) (v6_buf q) (ipv4_pending q) (ipv6_pending q)
    (qad_reports q ++ [ReportQadIpv6 r]) conns closed.

Definition handle_join {E} (add : qad_state -> QadProbeReport -> nat -> qad_state) (q : qad_state) (val : qad_join)
    : result E qad_state :=
  match val with
  | Joined (Finished (Ok (r, conn))) => Ok (add q r conn)
  | Joined (Finished Panic) | JoinError true => Panic
  | Joined (Finished (Err _)) | Joined Elapsed | Joined Cancelled | JoinError false => Ok q
  end.

(** One task of a family less, and no longer pending. *)
Definition took_v4 (n : nat) (q : qad_state) : qad_state :=
  mkQadState n (v6_buf q) false (ipv6_pending q) (qad_reports q) (qs_conns q) (closed q).
Definition took_v6 (n : nat) (q : qad_state) : qad_state :=
  mkQadState (v4_buf q) n (ipv4_pending q) false (qad_reports q) (qs_conns q) (closed q).

Fixpoint qad_loop {E} (enough_relays : nat) (q : qad_state) (events : list qad_event) : option (result E qad_state) :=
  if (v4_buf q =? 0)%nat && (v6_buf q =? 0)%nat then Some (Ok q)
  else if (enough_relays <=? length (qad_reports q))%nat && negb (ipv4_pending q) && negb (ipv6_pending q)
  then Some (Ok q)
  else
    match events with
    | [] => None
    | QadShutdown :: _ => Some (Ok q)
    | QadV4 val :: events =>
        match v4_buf q with
        | O => None
        | S n =>
            match handle_join add_v4 (took_v4 n q) val with
            | Ok q => qad_loop enough_relays q events
            | Err e => Some (Err e)
            | Panic => Some Panic
            end
        end
    | QadV6 val :: events =>
        match v6_buf q with
        | O => None
        | S n =>
            match handle_join add_v6 (took_v6 n q) val with
            | Ok q => qad_loop enough_relays q events
            | Err e => Some (Err e)
            | Panic => Some Panic
            end
        end
    end.

Definition is_some {A} (o : option A) : bool := if o is Some _ then true else false.

(** The part before the loop: which families need a probe, and the state with
    the tasks spawned for them. *)
Definition qad_start (s : Store) (c : Client) (view : conn_view) (if_state : IfStateDetails) (do_full : bool)
    : bool * bool * qad_state :=
  let '(conns, cleared) := if do_full then clear (qad_conns c) else (qad_conns c, []) in
  let conns := mkQadConns (drop_closed view (conn_v4 conns)) (drop_closed view (conn_v6 conns)) in
  let v4_report := current_v4 view conns in
  let v6_report := current_v6 view conns in
  let needs_v4_probe := negb (is_some v4_report) in
  let needs_v6_probe := negb (Bool.eqb (is_some v6_report) (have_v6 if_state)) in
  let reports := option_list v4_report ++ option_list v6_report in
  let tasks := length (take MAX_RELAYS (relays s (relay_map c))) in
  let v4 := if have_v4 if_state && needs_v4_probe then tasks else O in
  let v6 := if have_v6 if_state && needs_v6_probe then tasks else O in
  (needs_v4_probe, needs_v6_probe,
   mkQadState v4 v6 (negb (v4 =? 0)%nat) (negb (v6 =? 0)%nat) reports conns cleared).

(** The reports, the connections kept and those closed. *)
Definition spawn_qad_probes {E} (s : Store) (c : Client) (view : conn_view) (if_state : IfStateDetails)
    (enough_relays : nat) (do_full : bool) (events : list qad_event)
    : option (result E (list ProbeReport * QadConns * list nat)) :=
  if negb (quic_client c) then Some (Ok ([], qad_conns c, []))
  else
    let '(needs_v4_probe, needs_v6_probe, q) := qad_start s c view if_state do_full in
    rmap (fun q => (qad_reports q, qs_conns q, closed q)) <$>
    (if negb needs_v4_probe && negb needs_v6_probe then Some (Ok q) else qad_loop enough_relays q events).

(** *** When to stop *)

Definition num_probes (l : RelayLatencies) (p : Probe) : Z :=
  Z.of_nat (length (filter (fun e => e.1.1 = p) (iter l))).

Definition have_enough_reports (state : IfStateDetails) (do_full : bool) (num_relays : Z) (report : Report) : bool :=
  let num_ipv4 := num_probes (relay_latency report) QadIpv4 in
  let num_ipv6 := num_probes (relay_latency report) QadIpv6 in
  let num_https := num_probes (relay_latency report) Https in
  let families :=
    if do_full then
      match have_v4 state, have_v6 state with
      | true, true => (2 <=? num_ipv4) && (1 <=? num_ipv6) || (2 <=? num_ipv6) && (1 <=? num_ipv4)
      | true, false => 2 <=? num_ipv4
      | false, true => 2 <=? num_ipv6
      | false, false => false
      end
    else
      match have_v4 state, have_v6 state with
      | true, true => (1 <=? num_ipv4) && (1 <=? num_ipv6)
      | true, false => 1 <=? num_ipv4
      | false, true => 1 <=? num_ipv6
      | false, false => false
      end in
  families || (num_relays <=? num_https).

(** What a turn of [get_report]'s loop finds first: an update of a kept QAD
    connection, or the next message of the actor. *)
Inductive report_event :=
| WatchV4 (r : QadProbeReport)
| WatchV6 (r : QadProbeReport)
| ProbeMsg.

(** The loop ends when the actor's channel closes or the report is good enough. *)
Fixpoint report_loop (enough : Report -> bool) (conns : QadConns) (report : Report)
    (msgs : list ProbeFinished) (events : list report_event) : option Report :=
  match events with
  | [] => None
  | WatchV4 r :: events =>
      if is_some (conn_v4 conns) then report_loop enough conns (update report (ReportQadIpv4 r)) msgs events else None
  | WatchV6 r :: events =>
      if is_some (conn_v6 conns) then report_loop enough conns (update report (ReportQadIpv6 r)) msgs events else None
  | ProbeMsg :: events =>
      match msgs with
      | [] => Some report
      | Regular (Ok probe) :: msgs =>
          let report := update report probe in
          if enough report then Some report else report_loop enough conns report msgs events
      | Regular _ :: msgs => report_loop enough conns report msgs events
      | CaptivePortal portal :: msgs => report_loop enough conns (set_captive_portal report portal) msgs events
      end
  end.

(** *** The history and the preferred relay *)

(** The state of the loop over the current report's latencies: the best latency
    so far, the preferred relay and the current latency of the previous one. *)
Definition consider (prev_relay : option RelayUrl) (best_recent : RelayLatencies)
    (acc : Z * option RelayUrl * Z) (e : Probe * RelayUrl * Z) : Z * option RelayUrl * Z :=
  let '(best_any, preferred, old_relay_cur_latency) := acc in
  let '(_, u, duration) := e in
  let old_relay_cur_latency := if bool_decide (Some u = prev_relay) then duration else old_relay_cur_latency in
  match latency_of best_recent u with
  | Some best =>
      if negb (is_some preferred) || (best <? best_any) then (best, Some u, old_relay_cur_latency)
      else (best_any, preferred, old_relay_cur_latency)
  | None => (best_any, preferred, old_relay_cur_latency)
  end.

Definition is_recent (now t : Z) : bool := saturating_duration_since now t <=? MAX_AGE.

Definition add_report_history_and_set_preferred_relay (h : Reports) (r : Report) (now : Z) : Report * Reports :=
  let prev_relay := last_report h ≫= preferred_relay in
  let r :=
    match last_report h with
    | Some l =>
        let or_last {A} (mine theirs : option A) := if mine is None then theirs else mine in
        mkReport (udp_v4 r) (udp_v6 r)
          (or_last (mapping_varies_by_dest_ipv4 r) (mapping_varies_by_dest_ipv4 l))
          (or_last (mapping_varies_by_dest_ipv6 r) (mapping_varies_by_dest_ipv6 l))
          (preferred_relay r) (relay_latency r) (global_v4 r) (global_v6 r) (captive_portal r)
    | None => r
    end in
  let recent := filter (fun '(t, _) => is_recent now t) (btree_iter (prev h)) in
  let best_recent :=
    merge (fold_left (fun best '(_, pr) => merge best (relay_latency pr)) recent RelayLatencies_default)
      (relay_latency r) in
  let kept := filter (fun '(t, _) => is_recent now t) (prev h) in
  let '(best_any, preferred, old_relay_cur_latency) :=
    fold_left (consider prev_relay best_recent) (iter (relay_latency r)) (0, preferred_relay r, 0) in
  let preferred :=
    if is_some prev_relay && negb (bool_decide (preferred = prev_relay)) &&
       negb (old_relay_cur_latency =? 0) && (old_relay_cur_latency / 3 * 2 <? best_any)
    then prev_relay else preferred in
  let r := set_preferred r preferred in
  (r, mkReports (next_full h) (<[now := r]> kept) (Some r) (last_full h)).

(** *** A report *)

Definition wants_full (h : Reports) (is_major : bool) (now : Z) : bool :=
  is_major || next_full h || (FULL_REPORT_INTERVAL <? saturating_duration_since now (last_full h)) ||
  match last_report h with
  | Some l => negb (has_udp l) && bool_decide (captive_portal l = Some true)
  | None => false
  end.

Definition set_reports (c : Client) (conns : QadConns) (h : Reports) : Client :=
  mkClient (quic_client c) (client_probes c) (relay_map c) conns (client_captive_portal_check c) h.

(** [joins]: how the actor's tasks end. [done_at]: when the report is complete.
    The report, the client after it, and the connections closed. *)
Definition get_report {E} (s : Store) (c : Client) (view : conn_view) (if_state : IfStateDetails) (is_major : bool)
    (now : Z) (qad_events : list qad_event) (joins : list (join ProbeFinished)) (events : list report_event) (done_at : Z)
    : option (result E (Report * Client * list nat)) :=
  let do_full := wants_full (reports c) is_major now in
  let h := if do_full then mkReports false (prev (reports c)) None now else reports c in
  let num_relays := len s (relay_map c) in
  let enough_relays := Nat.min num_relays ENOUGH_ENDPOINTS in
  let actor := mkActor (last_report h) (relay_map c) (client_probes c) (client_captive_portal_check c) in
  let enough := have_enough_reports if_state do_full (Z.of_nat num_relays) in
  match spawn_qad_probes s c view if_state enough_relays do_full qad_events with
  | None => None
  | Some (Err e) => Some (Err e)
  | Some Panic => Some Panic
  | Some (Ok (qad, conns, closed)) =>
      let report := updates Report_default qad in
      let complete :=
        if enough report then Some report
        else report_loop enough conns report (messages (Actor_run s actor joins)) events in
      match complete with
      | None => None
      | Some report =>
          let '(report, h) := add_report_history_and_set_preferred_relay h report done_at in
          Some (Ok (report, set_reports c conns h, closed))
      end
  end.

(** ** Lemmas: minima *)

Definition omin (a b : option Z) : option Z := union_with (fun x y => Some (Z.min x y)) a b.
Definition omins (l : list (option Z)) : option Z := foldr omin None l.

Lemma omin_assoc a b c : omin a (omin b c) = omin (omin a b) c.
Proof. destruct a, b, c; simpl; f_equal; lia. Qed.

Lemma omin_comm a b : omin a b = omin b a.
Proof. destruct a, b; simpl; f_equal; lia. Qed.

Lemma omin_None_r a : omin a None = a.
Proof. by destruct a. Qed.

Lemma omins_app l k : omins (l ++ k) = omin (omins l) (omins k).
Proof. induction l as [|a l IH]; simpl; [by destruct (omins k)|]. by rewrite IH, omin_assoc. Qed.

Lemma omins_spec l b : omins l = Some b <-> Some b ∈ l /\ forall d, Some d ∈ l -> b <= d.
Proof.
  revert b. induction l as [|a l IH]; intros b; simpl; [set_solver|].
  destruct (omins l) as [m|] eqn:E.
  - destruct (proj1 (IH m) eq_refl) as [Hm Hle].
    destruct a as [a|]; simpl; split.
    + intros [= <-]. split; [|set_unfold; intros d [?|?]; [simplify_eq; lia|specialize (Hle d); naive_solver lia]].
      destruct (Z.min_spec a m) as [[_ ->]|[_ ->]]; set_solver.
    + intros [Hb Hall]. f_equal. assert (b <= a /\ b <= m) as [] by (split; apply Hall; set_solver).
      set_unfold in Hb. destruct Hb as [?|Hb]; [simplify_eq; lia|]. pose proof (Hle _ Hb). lia.
    + intros [= <-]. split; [set_solver|]. set_unfold. intros d [?|?]; [done|]. auto.
    + intros [Hb Hall]. apply IH. split; [set_solver|]. intros d Hd. apply Hall. set_solver.
  - assert (Hnone : forall d, Some d ∉ l).
    { intros d Hd. clear IH. induction l as [|x l IHl]; [set_solver|]. simpl in E.
      destruct x, (omins l); try done. set_solver. }
    destruct a as [a|]; simpl; set_solver by lia.
Qed.

Lemma omins_None l : omins l = None <-> forall d, Some d ∉ l.
Proof.
  split; [|intros H; destruct (omins l) as [b|] eqn:E; [|done]; apply omins_spec in E as [E _]; by destruct (H b)].
  intros H d Hd. induction l as [|x l IHl]; [set_solver|]. simpl in H. destruct x, (omins l); set_solver.
Qed.

Lemma omins_concat ll : omins (map omins ll) = omins (concat ll).
Proof. induction ll as [|l ll IH]; [done|]. simpl. by rewrite omins_app, IH. Qed.

Lemma min_of_omins {A} (f : A -> option Z) l : min_of (omap f l) = omins (map f l).
Proof.
  assert (Hf : forall l x, Some (fold_left Z.min (omap f l) x) = omin (Some x) (omins (map f l))).
  { clear. induction l as [|a l IH]; intros x; [done|]. csimpl. destruct (f a) as [d|]; simpl; rewrite IH.
    - by rewrite <- (omin_assoc (Some x) (Some d)).
    - by destruct (omins (map f l)). }
  induction l as [|a l IH]; [done|]. csimpl. destruct (f a) as [d|]; simpl; [by rewrite Hf|].
  rewrite IH. by destruct (omins (map f l)).
Qed.

(** ** Lemmas: latencies *)

Lemma lower_lookup m u d u' : lower m u d !! u' = if decide (u = u') then omin (m !! u') (Some d) else m !! u'.
Proof.
  unfold lower. case_decide as Hu; [subst u'|by rewrite lookup_insert_ne].
  rewrite lookup_insert_eq. destruct (m !! u) as [o|]; simpl; f_equal; case_match eqn:E; lia.
Qed.

Lemma update_relay_lookup l u d p p' u' :
  latencies (update_relay l u d p) p' !! u' =
  if decide (p = p' /\ u = u') then omin (latencies l p' !! u') (Some d) else latencies l p' !! u'.
Proof.
  destruct p, p'; simpl; rewrite ?lower_lookup; repeat case_decide; naive_solver.
Qed.

Lemma merge_from_lookup p es l p' u :
  NoDup es.*1 ->
  latencies (merge_from p l es) p' !! u =
  if decide (p = p') then omin (latencies l p' !! u) ((list_to_map es : latency_map) !! u) else latencies l p' !! u.
Proof.
  unfold merge_from. revert l. induction es as [|[v d] es IH]; intros l Hnd.
  - case_decide; [|done]. simpl. by rewrite lookup_empty, omin_None_r.
  - simpl in *. apply NoDup_cons in Hnd as [Hv Hnd]. rewrite IH, update_relay_lookup by done.
    case_decide as Hp; [|repeat case_decide; naive_solver].
    destruct (decide (v = u)) as [->|Hu].
    + rewrite lookup_insert_eq, decide_True, not_elem_of_list_to_map_1, omin_None_r by done. done.
    + rewrite lookup_insert_ne, decide_False by naive_solver. done.
Qed.

Lemma list_to_map_btree_iter (m : latency_map) : list_to_map (btree_iter m) = m.
Proof.
  rewrite <- (list_to_map_to_list m) at 2. apply list_to_map_proper; [apply btree_iter_NoDup|apply btree_iter_perm].
Qed.

(** Merging takes the lower latency of each relay, for each kind of probe. *)
Lemma merge_lookup l other p u :
  latencies (merge l other) p !! u = omin (latencies l p !! u) (latencies other p !! u).
Proof.
  unfold merge. rewrite !merge_from_lookup, !list_to_map_btree_iter by apply btree_iter_NoDup.
  destruct p; simpl; done.
Qed.

Lemma latency_of_omins l u : latency_of l u = omins (map (fun p => latencies l p !! u) [Https; QadIpv4; QadIpv6]).
Proof.
  unfold latency_of. by rewrite min_of_omins.
Qed.

(** A latency recorded for a relay by some kind of probe. *)
Definition recorded (l : RelayLatencies) (u : RelayUrl) (d : Z) : Prop := exists p, latencies l p !! u = Some d.

Lemma elem_of_iter l p u d : (p, u, d) ∈ iter l <-> latencies l p !! u = Some d.
Proof.
  unfold iter. rewrite !elem_of_app, !list_elem_of_In, !in_map_iff.
  setoid_rewrite <- list_elem_of_In. split.
  - intros [([v e] & [= <- <- <-] & H)|[([v e] & [= <- <- <-] & H)|([v e] & [= <- <- <-] & H)]];
      by apply elem_of_btree_iter in H.
  - intros H. destruct p; [left|right; left|right; right]; exists (u, d); (split; [done|]); by apply elem_of_btree_iter.
Qed.

Lemma elem_of_iter_recorded l u d : recorded l u d <-> exists p, (p, u, d) ∈ iter l.
Proof. unfold recorded. by setoid_rewrite elem_of_iter. Qed.

(** The lowest latency a set of reports has for a relay. *)
Definition measured (rs : list RelayLatencies) (u : RelayUrl) (d : Z) : Prop := exists l, l ∈ rs /\ recorded l u d.

Definition best_in (rs : list RelayLatencies) (u : RelayUrl) (b : Z) : Prop :=
  measured rs u b /\ forall d, measured rs u d -> b <= d.

Definition merge_all (rs : list RelayLatencies) : RelayLatencies := fold_left merge rs RelayLatencies_default.

Lemma merge_fold_lookup rs acc p u :
  latencies (fold_left merge rs acc) p !! u =
  omin (latencies acc p !! u) (omins (map (fun l => latencies l p !! u) rs)).
Proof.
  revert acc. induction rs as [|l rs IH]; intros acc; simpl; [by rewrite omin_None_r|].
  by rewrite IH, merge_lookup, omin_assoc.
Qed.

Lemma merge_all_best rs u b : latency_of (merge_all rs) u = Some b <-> best_in rs u b.
Proof.
  rewrite latency_of_omins. unfold merge_all.
  assert (map (fun p => latencies (fold_left merge rs RelayLatencies_default) p !! u) [Https; QadIpv4; QadIpv6] =
          map omins (map (fun p => map (fun l => latencies l p !! u) rs) [Https; QadIpv4; QadIpv6])) as ->.
  { cbn [map]. rewrite !merge_fold_lookup. cbn [latencies RelayLatencies_default https ipv4 ipv6].
    rewrite !lookup_empty. by repeat destruct (omins (map _ rs)). }
  rewrite omins_concat, omins_spec. unfold best_in.
  assert (Hin : forall d, Some d ∈ concat (map (fun p => map (fun l => latencies l p !! u) rs) [Https; QadIpv4; QadIpv6])
                 <-> measured rs u d).
  { intros d. simpl. rewrite app_nil_r, !elem_of_app, !list_elem_of_In, !in_map_iff.
    setoid_rewrite <- list_elem_of_In. unfold measured, recorded. split.
    - intros [(l & ? & ?)|[(l & ? & ?)|(l & ? & ?)]]; exists l; (split; [done|]);
        [by exists Https|by exists QadIpv4|by exists QadIpv6].
    - intros (l & Hl & [] & Hp); eauto 6. }
  rewrite Hin. by setoid_rewrite Hin.
Qed.

(** ** Lemmas: the preferred relay *)

(** The latencies of the reports that count: those of the last [MAX_AGE] and the
    current one. *)
Definition recent_latencies (h : Reports) (r : Report) (now : Z) : list RelayLatencies :=
  map (fun '(_, pr) => relay_latency pr) (filter (fun '(t, _) => is_recent now t) (btree_iter (prev h))) ++
  [relay_latency r].

Lemma elem_of_recent h r now l :
  l ∈ recent_latencies h r now <->
  l = relay_latency r \/ exists t pr, prev h !! t = Some pr /\ is_recent now t /\ l = relay_latency pr.
Proof.
  unfold recent_latencies. rewrite elem_of_app, list_elem_of_singleton, list_elem_of_In, in_map_iff.
  setoid_rewrite <- list_elem_of_In. setoid_rewrite list_elem_of_filter. split.
  - intros [([t pr] & <- & ? & Hin)|?]; [right|by left]. apply elem_of_btree_iter in Hin. eauto.
  - intros [?|(t & pr & ? & ? & ->)]; [by right|left]. exists (t, pr). by rewrite elem_of_btree_iter.
Qed.

(** The latency of [u] that the loop reads last. *)
Definition current_latency (es : list (Probe * RelayUrl * Z)) (u : option RelayUrl) : Z :=
  default 0 (last (omap (fun e => if bool_decide (Some e.1.2 = u) then Some e.2 else None) es)).

Lemma consider_fold (prev_relay : option RelayUrl) best es :
  (forall p u d, (p, u, d) ∈ es -> is_Some (latency_of best u)) ->
  let '(best_any, preferred, old) := fold_left (consider prev_relay best) es (0, None, 0) in
  old = current_latency es prev_relay /\
  match preferred with
  | None => es = []
  | Some v =>
      latency_of best v = Some best_any /\ (exists p d, (p, v, d) ∈ es) /\
      forall p u d b, (p, u, d) ∈ es -> latency_of best u = Some b -> best_any <= b
  end.
Proof.
  induction es as [|[[p u] d] es IH] using rev_ind; intros Hall; [done|].
  rewrite fold_left_app. specialize (IH ltac:(intros p' u' d' ?; apply (Hall p' u' d'); set_solver)).
  destruct (fold_left _ es _) as [[ba pref] old]. destruct IH as [-> Hpref].
  destruct (Hall p u d) as [b Hb]; [set_solver|]. cbn [fold_left consider]. rewrite Hb.
  assert (Hold : (if bool_decide (Some u = prev_relay) then d else current_latency es prev_relay) =
                 current_latency (es ++ [(p, u, d)]) prev_relay).
  { unfold current_latency. rewrite omap_app. csimpl. case_bool_decide; [by rewrite last_snoc|by rewrite app_nil_r]. }
  rewrite Hold. destruct pref as [v|]; cbn [is_some negb orb].
  - destruct Hpref as (Hv & (pv & dv & Hin) & Hmin). destruct (b <? ba) eqn:Hlt; (split; [done|]); split_and!; try done.
    + exists p, d. set_solver.
    + intros p' u' d' b' H' Hb'. apply Z.ltb_lt in Hlt. apply elem_of_app in H' as [H'|H'].
      * specialize (Hmin _ _ _ _ H' Hb'). lia.
      * apply list_elem_of_singleton in H'. simplify_eq. lia.
    + exists pv, dv. set_solver.
    + intros p' u' d' b' H' Hb'. apply Z.ltb_ge in Hlt. apply elem_of_app in H' as [H'|H']; [by eauto|].
      apply list_elem_of_singleton in H'. simplify_eq. lia.
  - subst es. split; [done|]. split_and!; [done|exists p, d; set_solver|].
    intros p' u' d' b' H' Hb'. apply list_elem_of_singleton in H'. simplify_eq. lia.
Qed.

Lemma merge_recent h r now :
  merge (fold_left (fun best '(_, pr) => merge best (relay_latency pr))
           (filter (fun '(t, _) => is_recent now t) (btree_iter (prev h))) RelayLatencies_default)
    (relay_latency r) = merge_all (recent_latencies h r now).
Proof.
  unfold merge_all, recent_latencies. rewrite fold_left_app. cbn [fold_left]. f_equal.
  generalize RelayLatencies_default. induction (filter _ _) as [|[t pr] l IH]; intros acc; [done|]. apply IH.
Qed.

(** The current latency of [u] is one that the report records. *)
Lemma current_latency_recorded l u :
  current_latency (iter l) (Some u) <> 0 -> recorded l u (current_latency (iter l) (Some u)).
Proof.
  unfold current_latency. destruct (last _) as [d|] eqn:E; [|done]. intros _.
  apply last_Some_elem_of, list_elem_of_omap in E as ([[p v] d'] & Hin & Hv). simpl in Hv.
  case_bool_decide as Hu; [|done]. simplify_eq. apply elem_of_iter_recorded. eauto.
Qed.

Lemma recorded_current_latency l u d : recorded l u d -> recorded l u (current_latency (iter l) (Some u)).
Proof.
  intros [p Hp]. unfold current_latency. destruct (last _) as [e|] eqn:E; simpl.
  - apply last_Some_elem_of, list_elem_of_omap in E as ([[p' v] d'] & Hin & Hv). simpl in Hv.
    case_bool_decide as Hu; [|done]. simplify_eq. apply elem_of_iter_recorded. eauto.
  - apply last_None in E. apply elem_of_iter in Hp.
    assert (d ∈ omap (fun e : Probe * RelayUrl * Z => if bool_decide (Some e.1.2 = Some u) then Some e.2 else None) (iter l))
      as Hd; [|rewrite E in Hd; set_solver].
    apply list_elem_of_omap. exists (p, u, d). split; [done|]. simpl. by rewrite bool_decide_true.
Qed.

(** A relay of the current report that no other one beats over the last [MAX_AGE]. *)
Definition fastest (h : Reports) (r : Report) (now : Z) (u : RelayUrl) (b : Z) : Prop :=
  (exists d, recorded (relay_latency r) u d) /\ best_in (recent_latencies h r now) u b /\
  forall v d bv, recorded (relay_latency r) v d -> best_in (recent_latencies h r now) v bv -> b <= bv.

(** The loop's choice and the hysteresis after it. *)
Lemma choice_facts h r now :
  preferred_relay r = None ->
  let '(r', h') := add_report_history_and_set_preferred_relay h r now in
  let prev_relay := last_report h ≫= preferred_relay in
  let cur := current_latency (iter (relay_latency r)) prev_relay in
  relay_latency r' = relay_latency r /\
  ((iter (relay_latency r) = [] /\ preferred_relay r' = None) \/
   exists u b, fastest h r now u b /\
     preferred_relay r' =
       if is_some prev_relay && negb (bool_decide (Some u = prev_relay)) && negb (cur =? 0) && (cur / 3 * 2 <? b)
       then prev_relay else Some u).
Proof.
  intros Hr. unfold add_report_history_and_set_preferred_relay.
  set (r1 := match last_report h with Some _ => _ | None => r end).
  assert (Hr1 : relay_latency r1 = relay_latency r) by (unfold r1; by destruct (last_report h)).
  assert (Hp1 : preferred_relay r1 = None) by (unfold r1; by destruct (last_report h)).
  rewrite Hr1, Hp1, merge_recent.
  set (prev_relay := last_report h ≫= preferred_relay).
  assert (Hall : forall p u d, (p, u, d) ∈ iter (relay_latency r) ->
                   is_Some (latency_of (merge_all (recent_latencies h r now)) u)).
  { intros p u d Hin. destruct (latency_of _ u) as [b|] eqn:E; [done|]. exfalso.
    rewrite latency_of_omins, omins_None in E. unfold merge_all in E.
    assert (Hm : is_Some (latencies (fold_left merge (recent_latencies h r now) RelayLatencies_default) p !! u)).
    { rewrite merge_fold_lookup. apply elem_of_iter in Hin. unfold recent_latencies. rewrite map_app, omins_app. simpl.
      rewrite Hin. by repeat (destruct (_ !! _) || destruct (omins _)). }
    destruct Hm as [b Hb]. apply (E b). destruct p; set_solver. }
  pose proof (consider_fold prev_relay _ _ Hall) as Hfold.
  destruct (fold_left _ (iter _) _) as [[ba pref] old]. destruct Hfold as [-> Hpref].
  split; [done|]. cbn [preferred_relay set_preferred]. destruct pref as [u|].
  - right. exists u, ba. destruct Hpref as (Hu & (p & d & Hin) & Hmin).
    split; [|done]. split; [exists d; apply elem_of_iter_recorded; eauto|].
    split; [by apply merge_all_best|]. intros v dv bv Hv Hbv.
    apply elem_of_iter_recorded in Hv as [pv Hv]. eapply Hmin; [done|]. by apply merge_all_best.
  - left. split; [done|]. rewrite Hpref. unfold current_latency. simpl. by rewrite andb_false_r.
Qed.

(** C27: The preferred relay of a report is a relay that answered one of its probes:
    the one with the lowest latency over the last five minutes, or the relay
    preferred before, when the fastest one takes more than two thirds of its
    current latency. Without any answer there is none. *)
Theorem preferred_relay_choice h r now :
  preferred_relay r = None ->
  let '(r', _) := add_report_history_and_set_preferred_relay h r now in
  match preferred_relay r' with
  | None => forall u d, ~ recorded (relay_latency r) u d
  | Some u =>
      (exists d, recorded (relay_latency r) u d) /\
      exists v b, fastest h r now v b /\
        (u = v \/
         last_report h ≫= preferred_relay = Some u /\
         exists cur, recorded (relay_latency r) u cur /\ cur <> 0 /\ cur / 3 * 2 < b)
  end.
Proof.
  intros Hr. pose proof (choice_facts h r now Hr) as H.
  destruct (add_report_history_and_set_preferred_relay h r now) as [r' h']. destruct H as [_ [[Hnil ->]|(u & b & Hf & ->)]].
  - intros u d Hd. apply elem_of_iter_recorded in Hd as [p Hp]. rewrite Hnil in Hp. set_solver.
  - destruct (last_report h ≫= preferred_relay) as [q|]; cbn [is_some andb]; [|split; [apply Hf|by eauto]].
    destruct (_ && _) eqn:Hc; [|split; [apply Hf|by eauto]].
    apply andb_prop in Hc as [[_ Hz%negb_true_iff%Z.eqb_neq]%andb_prop Hlt%Z.ltb_lt].
    pose proof (current_latency_recorded _ _ Hz) as Hcur. split; [by eauto|]. exists u, b. split; [done|]. right. eauto.
Qed.

(** A preferred relay that still answers is left only for one that is faster by
    a third: the best latency of the new relay is at most two thirds of the
    latency the old one has in the report, of the last kind of probe that
    answered. *)
Theorem preferred_relay_hysteresis h r now old u :
  preferred_relay r = None ->
  last_report h ≫= preferred_relay = Some old ->
  (forall d, recorded (relay_latency r) old d -> 0 < d) ->
  (exists d, recorded (relay_latency r) old d) ->
  preferred_relay (add_report_history_and_set_preferred_relay h r now).1 = Some u ->
  u = old \/
  exists cur b, recorded (relay_latency r) old cur /\ best_in (recent_latencies h r now) u b /\ b <= cur / 3 * 2.
Proof.
  intros Hr Hold Hpos [d Hd]. pose proof (choice_facts h r now Hr) as H.
  destruct (add_report_history_and_set_preferred_relay h r now) as [r' h'].
  rewrite Hold in H. destruct H as [_ [[Hnil Hp]|(v & b & Hf & Hp)]]; simpl; rewrite Hp; [done|].
  pose proof (recorded_current_latency _ _ _ Hd) as Hcur. pose proof (Hpos _ Hcur) as Hgt.
  cbn [is_some andb]. case_bool_decide as Hv; [intros [= ->]; left; congruence|].
  rewrite (proj2 (Z.eqb_neq _ 0)) by lia. cbn [negb andb].
  destruct (_ <? b) eqn:Hlt; intros [= <-]; [by left|right].
  apply Z.ltb_ge in Hlt. eexists _, b. split; [exact Hcur|]. split; [apply Hf|done].
Qed.

(** ** Lemmas: the history *)

(** Reports older than [MAX_AGE] are forgotten, the others kept, and the new one
    is both the last and part of the history. *)
Lemma history_kept h r now t :
  let '(r', h') := add_report_history_and_set_preferred_relay h r now in
  last_report h' = Some r' /\ prev h' !! now = Some r' /\
  (t <> now -> prev h' !! t = if is_recent now t then prev h !! t else None).
Proof.
  unfold add_report_history_and_set_preferred_relay. destruct (fold_left _ _ _) as [[ba pref] old].
  split; [done|]. cbn [prev]. split; [by rewrite lookup_insert_eq|]. intros Ht. rewrite lookup_insert_ne by done.
  apply option_eq. intros x. rewrite map_lookup_filter_Some. destruct (is_recent now t); naive_solver.
Qed.

(** ** Lemmas: the address and its mapping *)

Definition seen_v4 (p : ProbeReport) : option SocketAddrV4 :=
  match p with
  | ReportQadIpv4 q => match qad_addr q with SocketV4 ip port => Some (ip, port) | _ => None end
  | _ => None
  end.

Definition seen_v6 (p : ProbeReport) : option SocketAddrV6 :=
  match p with
  | ReportQadIpv6 q => match qad_addr q with SocketV6 ip port flow scope => Some (ip, port, flow, scope) | _ => None end
  | _ => None
  end.

(** What the observed addresses say about the mapping: nothing before the second one. *)
Definition mapping_of {A} `{EqDecision A} (seen : list A) : option bool :=
  match seen with
  | [] | [_] => None
  | first :: rest => Some (existsb (fun a => negb (bool_decide (first = a))) rest)
  end.

Lemma varies_after_mapping {A} `{EqDecision A} (seen : list A) a :
  varies_after (head seen) (mapping_of seen) a = mapping_of (seen ++ [a]).
Proof.
  destruct seen as [|x [|y seen]]; simpl; [done| |].
  - case_bool_decide; done.
  - rewrite existsb_app. simpl. rewrite orb_false_r.
    case_bool_decide as H1; simpl; [by rewrite orb_false_r|by rewrite orb_true_r, orb_true_r].
Qed.

Lemma global_after_head {A} (seen : list A) a : global_after (head seen) a = head (seen ++ [a]).
Proof. by destruct seen. Qed.

(** The addresses and the mapping a report ends with are those of the addresses
    observed, in their order: the first one is the global address, and a later
    one that differs says that the mapping varies. Addresses of the wrong family
    change nothing but the latency. *)
Theorem updates_addresses l :
  let r := updates Report_default l in
  let v4 := omap seen_v4 l in
  let v6 := omap seen_v6 l in
  global_v4 r = head v4 /\ udp_v4 r = negb (bool_decide (v4 = [])) /\ mapping_varies_by_dest_ipv4 r = mapping_of v4 /\
  global_v6 r = head v6 /\ udp_v6 r = negb (bool_decide (v6 = [])) /\ mapping_varies_by_dest_ipv6 r = mapping_of v6.
Proof.
  unfold updates. induction l as [|p l IH] using rev_ind; [done|]. rewrite fold_left_app, !omap_app.
  set (r := fold_left update l Report_default) in *. cbn [fold_left].
  destruct IH as (H1 & H2 & H3 & H4 & H5 & H6).
  assert (Hnil : forall A (x : list A) y, (x ++ [y] = []) <-> False) by (intros ? [] ?; naive_solver).
  destruct p as [[u d []]|[u d []]|[]]; csimpl;
    rewrite ?app_nil_r, ?H1, ?H2, ?H3, ?H4, ?H5, ?H6, ?varies_after_mapping, ?global_after_head; try done;
    (split_and!; try done; rewrite bool_decide_false; [done|by intros ?%Hnil]).
Qed.

(** ** Lemmas: the actor *)

Definition is_regular (j : join ProbeFinished) : bool := if j is Joined (Regular _) then true else false.
Definition is_captive (j : join ProbeFinished) : bool := if j is Joined (CaptivePortal _) then true else false.

(** What reaches the client: the results until a task panics. *)
Fixpoint delivered (joins : list (join ProbeFinished)) : list ProbeFinished :=
  match joins with
  | [] | JoinError true :: _ => []
  | Joined m :: joins => m :: delivered joins
  | JoinError false :: joins => delivered joins
  end.

(** The tasks that can end: at most the [n] probes and the [k] checks. *)
Definition joins_fit (n k : nat) (joins : list (join ProbeFinished)) : Prop :=
  (length joins <= n + k)%nat /\ (length (filter is_regular joins) <= n)%nat /\
  (length (filter is_captive joins) <= k)%nat.

(** The probes of a plan are HTTPS probes. *)
Definition https_only (joins : list (join ProbeFinished)) : Prop :=
  Forall (fun j => match j with Joined (Regular (Ok r)) => is_udp r = false | _ => True end) joins.

Lemma reportgen_inner_delivers len n k joins :
  (k <= 1)%nat -> (len <= n + k)%nat -> (length joins <= len)%nat ->
  (length (filter is_regular joins) <= n)%nat -> https_only joins ->
  reportgen_inner len n false false joins = mkRun (delivered joins) false false.
Proof.
  intros Hk. revert len n. induction joins as [|j joins IH]; intros len n Hlen Hj Hr Hh.
  { by destruct len. }
  apply Forall_cons in Hh as [Hhj Hh]. simpl in Hj. destruct len as [|len]; [lia|].
  rewrite filter_cons in Hr. destruct j as [[rep|portal]|[]]; simpl in *.
  - destruct n as [|n]; [lia|].
    assert ((if rep is Ok r then is_udp r else false) = false) as -> by (by destruct rep).
    destruct (n =? 0)%nat eqn:En.
    + apply Nat.eqb_eq in En. subst n. destruct (1 <? len)%nat eqn:El; [apply Nat.ltb_lt in El; lia|].
      by rewrite IH by (done || lia).
    + by rewrite IH by (done || lia).
  - rewrite IH by (done || lia). done.
  - done.
  - apply IH; (done || lia).
Qed.

(** A plan is at most one set of three HTTPS probes for each relay of the map, and
    the sets are there when HTTPS probes are enabled. *)
Lemma elem_of_plan_initial s m protocols set :
  set ∈ plan_initial s m protocols <->
  Https ∈ protocols /\ exists u c, contents s m !! u = Some c /\ set = https_set c.
Proof.
  assert (Hfold : forall rs acc, set ∈ fold_left (fun plan relay => add_if_enabled protocols plan (https_set relay)) rs acc <->
            set ∈ acc \/ Https ∈ protocols /\ exists c, c ∈ rs /\ set = https_set c).
  { induction rs as [|c rs IH]; intros acc; simpl; [set_solver|]. rewrite IH. unfold add_if_enabled, plan_insert.
    cbn [ProbeSet_is_empty https_set fold_left ProbeSet_push ProbeSet_new probes length app Nat.eqb negb andb proto].
    repeat case_bool_decide; set_solver. }
  unfold plan_initial, relays. rewrite Hfold.
  assert (Hc : forall c, c ∈ (btree_iter (contents s m)).*2 <-> exists u, contents s m !! u = Some c).
  { intros c. rewrite list_elem_of_fmap. split.
    - intros ([u c'] & -> & H). exists u. by apply elem_of_btree_iter.
    - intros [u H]. exists (u, c). by rewrite elem_of_btree_iter. }
  setoid_rewrite Hc. set_solver.
Qed.

Lemma spawned_https s a p delay relay : (p, delay, relay) ∈ spawn_probes_task s a -> p = Https.
Proof.
  unfold spawn_probes_task. set (plan := match actor_last_report a with Some _ => _ | None => _ end).
  assert (Hplan : forall set, set ∈ plan -> proto set = Https).
  { intros set Hset. unfold plan, with_last_report in Hset. repeat case_match; try set_solver;
      apply elem_of_plan_initial in Hset as (_ & u & c & _ & ->); done. }
  rewrite list_elem_of_In, in_flat_map. intros (set & Hset%list_elem_of_In & Hin).
  apply in_map_iff in Hin as ([d r] & [= <- _ _] & _). by apply Hplan.
Qed.

Section Outcomes.
Context (url_host : string -> option Host) (url_join : string -> string -> option string).
Context (lookup : string -> result (list DnsError) (list IpAddr)).
Context (client_builds : option (string * list SocketAddr) -> bool).
Context (http_get : option (string * list SocketAddr) -> string -> list (string * string) -> option http_response).

(** The reports that tasks end with are what the spawned probes return. *)
Definition from_probes (s : Store) (a : Actor) (joins : list (join ProbeFinished)) : Prop :=
  Forall (fun j =>
    match j with
    | Joined (Regular (Ok r)) =>
        exists p delay relay, (p, delay, relay) ∈ spawn_probes_task s a /\
          Probe_run url_host url_join lookup client_builds http_get p relay = Ok r
    | _ => True
    end) joins.

Lemma from_probes_https s a joins : from_probes s a joins -> https_only joins.
Proof.
  intros H. eapply Forall_impl; [exact H|]. intros [[[r| |]|]|]; try done. intros (p & delay & relay & Hin & Hrun).
  apply spawned_https in Hin as ->. cbn in Hrun. by destruct (map_err _ _); simplify_eq/=.
Qed.

(** The actor hands on every result until a task panics, whatever the order in
    which the tasks end; its counter never underflows and the assertion on the
    outstanding tasks holds. As no probe of a plan reports UDP, the check for a
    captive portal is never cancelled. *)
Theorem actor_delivers s a joins :
  let n := length (spawn_probes_task s a) in
  let k := if prepare_captive_portal_task a is Some _ then 1%nat else 0%nat in
  joins_fit n k joins -> from_probes s a joins ->
  Actor_run s a joins = mkRun (delivered joins) false false.
Proof.
  intros n k (Hlen & Hr & Hc) Hh. unfold Actor_run. fold n.
  apply (reportgen_inner_delivers _ _ k); try done; [unfold k; destruct (prepare_captive_portal_task a); lia|].
  by eapply from_probes_https.
Qed.

End Outcomes.

(** ** Lemmas: the QAD probes *)

(** The connections that the events bring. *)
Definition made (e : qad_event) : option nat :=
  match e with
  | QadV4 (Joined (Finished (Ok (_, id)))) | QadV6 (Joined (Finished (Ok (_, id)))) => Some id
  | _ => None
  end.

Definition held (q : qad_state) : list nat := conn_ids (qs_conns q) ++ closed q.

Lemma held_add_v4 q r id : held (add_v4 q r id) ≡ₚ id :: held q.
Proof.
  unfold add_v4, held, conn_ids. destruct (qs_conns q) as [[c|] v6]; cbn.
  - rewrite app_comm_cons, app_assoc. symmetry. apply Permutation_cons_append.
  - destruct v6; done.
Qed.

Lemma held_add_v6 q r id : held (add_v6 q r id) ≡ₚ id :: held q.
Proof.
  unfold add_v6, held, conn_ids. destruct (qs_conns q) as [v4 [c|]]; cbn.
  - rewrite app_assoc. symmetry. apply Permutation_cons_append.
  - destruct v4; simpl; [apply perm_swap|done].
Qed.

(** Every connection is kept or closed, none is lost. *)
Lemma qad_loop_accounts {E} enough events q q' :
  qad_loop (E := E) enough q events = Some (Ok q') ->
  exists used rest, events = used ++ rest /\ held q' ≡ₚ held q ++ omap made used.
Proof.
  revert q. induction events as [|e events IH]; intros q H; cbn [qad_loop] in H.
  { exists [], []. split; [done|]. csimpl. rewrite app_nil_r. repeat case_match; by simplify_eq. }
  destruct ((v4_buf q =? 0)%nat && (v6_buf q =? 0)%nat).
  { simplify_eq. exists [], (e :: events). split; [done|]. csimpl. by rewrite app_nil_r. }
  destruct (_ && _).
  { simplify_eq. exists [], (e :: events). split; [done|]. csimpl. by rewrite app_nil_r. }
  destruct e as [|val|val].
  - simplify_eq. exists [], (QadShutdown :: events). split; [done|]. csimpl. by rewrite app_nil_r.
  - destruct (v4_buf q) as [|n]; [done|].
    destruct (handle_join add_v4 (took_v4 n q) val) as [q1| |] eqn:Hj; [|done|done].
    destruct (IH _ H) as (used & rest & -> & Hheld). exists (QadV4 val :: used), rest. split; [done|].
    rewrite Hheld. destruct val as [[[[r id]| |]| |]|[]]; simplify_eq/=; try done.
    rewrite held_add_v4. csimpl. apply Permutation_middle.
  - destruct (v6_buf q) as [|n]; [done|].
    destruct (handle_join add_v6 (took_v6 n q) val) as [q1| |] eqn:Hj; [|done|done].
    destruct (IH _ H) as (used & rest & -> & Hheld). exists (QadV6 val :: used), rest. split; [done|].
    rewrite Hheld. destruct val as [[[[r id]| |]| |]|[]]; simplify_eq/=; try done.
    rewrite held_add_v6. csimpl. apply Permutation_middle.
Qed.

(** The kept connections the peer or the network closed in the meantime. *)
Definition lost (view : conn_view) (do_full : bool) (c : QadConns) : list nat :=
  if do_full then [] else filter (close_reason view) (conn_ids c).

Lemma drop_closed_ids view c :
  conn_ids (mkQadConns (drop_closed view (conn_v4 c)) (drop_closed view (conn_v6 c))) ++ lost view false c ≡ₚ conn_ids c.
Proof.
  unfold lost, conn_ids. destruct c as [[[u4 c4]|] [[u6 c6]|]]; csimpl; rewrite ?filter_cons, ?filter_nil;
    try destruct (close_reason view c4); try destruct (close_reason view c6); csimpl; done || apply perm_swap.
Qed.

(** No QUIC connection of the address discovery is leaked: after the probes every
    connection held before and every one a probe made is kept, closed, or was
    lost before; a full report keeps none of the earlier ones. *)
Theorem qad_connections_accounted {E} s c view if_state enough do_full events reports conns closed :
  quic_client c = true ->
  spawn_qad_probes (E := E) s c view if_state enough do_full events = Some (Ok (reports, conns, closed)) ->
  exists used rest, events = used ++ rest /\
    conn_ids conns ++ closed ++ lost view do_full (qad_conns c) ≡ₚ conn_ids (qad_conns c) ++ omap made used.
Proof.
  intros Hq. unfold spawn_qad_probes. rewrite Hq. cbn [negb].
  destruct (qad_start s c view if_state do_full) as [[n4 n6] q] eqn:Hstart.
  assert (H0 : held q ++ lost view do_full (qad_conns c) ≡ₚ conn_ids (qad_conns c)).
  { unfold qad_start in Hstart. destruct do_full; injection Hstart as <- <- <-; unfold held;
      cbn [qs_conns NetReport.closed]; rewrite app_nil_r; [done|apply drop_closed_ids]. }
  destruct (_ && _).
  - intros [= <- <- <-]. exists [], events. split; [done|]. csimpl. by rewrite app_nil_r, app_assoc.
  - destruct (qad_loop _ _ _) as [[q'| |]|] eqn:Hloop; try done. intros [= <- <- <-].
    apply qad_loop_accounts in Hloop as (used & rest & -> & Hheld). exists used, rest. split; [done|].
    rewrite app_assoc. unfold held at 1 in Hheld. rewrite Hheld, <- H0, <- !app_assoc.
    f_equiv. apply Permutation_app_comm.
Qed.

Definition is_v4_event (e : qad_event) : bool := if e is QadV4 _ then true else false.
Definition is_v6_event (e : qad_event) : bool := if e is QadV6 _ then true else false.

(** No probe panicked. *)
Definition no_panic (e : qad_event) : bool :=
  match e with
  | QadV4 (Joined (Finished Panic)) | QadV4 (JoinError true)
  | QadV6 (Joined (Finished Panic)) | QadV6 (JoinError true) => false
  | _ => true
  end.

Lemma handle_join_ok {E} add q val :
  no_panic (QadV4 val) = true ->
  exists q', handle_join (E := E) add q val = Ok q' /\ (q' = q \/ exists r id, q' = add q r id).
Proof. destruct val as [[[[r id]| |]| |]|[]]; simpl; naive_solver. Qed.

(** The loop ends when every task has ended. *)
Lemma qad_loop_returns {E} enough events q :
  length (filter is_v4_event events) = v4_buf q -> length (filter is_v6_event events) = v6_buf q ->
  Forall no_panic events ->
  exists q', qad_loop (E := E) enough q events = Some (Ok q').
Proof.
  revert q. induction events as [|e events IH]; intros q H4 H6 Hp; cbn [qad_loop].
  { simpl in H4, H6. rewrite <- H4, <- H6. eauto. }
  destruct (_ && _); [by eauto|]. destruct (_ && _); [by eauto|].
  rewrite filter_cons in H4, H6. apply Forall_cons in Hp as [Hpe Hp].
  destruct e as [|val|val]; simpl in H4, H6; [by eauto| |].
  - rewrite <- H4. destruct (handle_join_ok (E := E) add_v4 (took_v4 (length (filter is_v4_event events)) q) val)
      as (q' & -> & Hq'); [by apply Is_true_true|].
    apply IH; [| |done]; destruct Hq' as [->|(r & id & ->)]; try done; unfold add_v4; by destruct (conn_v4 _).
  - rewrite <- H6. destruct (handle_join_ok (E := E) add_v6 (took_v6 (length (filter is_v6_event events)) q) val)
      as (q' & -> & Hq'); [by apply Is_true_true; destruct val as [[[[]| |]| |]|[]]|].
    apply IH; [| |done]; destruct Hq' as [->|(r & id & ->)]; try done; unfold add_v6; by destruct (conn_v6 _).
Qed.

(** ** Lemmas: a report ends *)

Definition is_probe_msg (e : report_event) : bool := if e is ProbeMsg then true else false.

(** Only a kept connection brings updates. *)
Definition possible (conns : QadConns) (e : report_event) : bool :=
  match e with
  | WatchV4 _ => is_some (conn_v4 conns)
  | WatchV6 _ => is_some (conn_v6 conns)
  | ProbeMsg => true
  end.

Lemma report_loop_returns enough conns msgs events r :
  Forall (possible conns) events -> (length msgs < length (filter is_probe_msg events))%nat ->
  is_Some (report_loop enough conns r msgs events).
Proof.
  revert msgs r. induction events as [|e events IH]; intros msgs r Hp Hlen; [simpl in Hlen; lia|].
  apply Forall_cons in Hp as [Hpe Hp]. rewrite filter_cons in Hlen. destruct e; simpl in *.
  - rewrite (Is_true_true_1 _ Hpe). by apply IH.
  - rewrite (Is_true_true_1 _ Hpe). by apply IH.
  - destruct msgs as [|[[]|] msgs]; [by eauto| | | |]; simpl in Hlen; try (apply IH; [done|lia]).
    case_match; [by eauto|apply IH; [done|lia]].
Qed.

(** When the report after this one is full. *)
Lemma wants_full_next h r is_major now full_at :
  last_report h = Some r -> next_full h = false -> last_full h = full_at ->
  wants_full h is_major now = true <->
  is_major = true \/ FULL_REPORT_INTERVAL < saturating_duration_since now full_at \/
  (has_udp r = false /\ captive_portal r = Some true).
Proof.
  intros Hl Hn <-. unfold wants_full. rewrite Hl, Hn, orb_false_r, !orb_true_iff, andb_true_iff, negb_true_iff, Z.ltb_lt.
  rewrite bool_decide_eq_true. tauto.
Qed.

(** C28: A report is made whenever its tasks end: the QAD tasks by result, error,
    timeout or cancellation in any order, and the actor by the end of its
    messages. The client keeps the report as its last one, and makes an incremental
    report next, unless the network has changed in a major way, the last full report
    is more than five minutes old, or this one found no UDP and a captive portal. *)
Theorem get_report_returns {E} s c view if_state is_major now qad_events joins events done_at :
  let do_full := wants_full (reports c) is_major now in
  let h := if do_full then mkReports false (prev (reports c)) None now else reports c in
  let actor := mkActor (last_report h) (relay_map c) (client_probes c) (client_captive_portal_check c) in
  let q := (qad_start s c view if_state do_full).2 in
  length (filter is_v4_event qad_events) = v4_buf q -> length (filter is_v6_event qad_events) = v6_buf q ->
  Forall no_panic qad_events ->
  (forall qad conns closed,
     spawn_qad_probes (E := E) s c view if_state (Nat.min (len s (relay_map c)) ENOUGH_ENDPOINTS) do_full qad_events
       = Some (Ok (qad, conns, closed)) -> Forall (possible conns) events) ->
  (length (messages (Actor_run s actor joins)) < length (filter is_probe_msg events))%nat ->
  exists r c' closed,
    get_report (E := E) s c view if_state is_major now qad_events joins events done_at = Some (Ok (r, c', closed)) /\
    last_report (reports c') = Some r /\ prev (reports c') !! done_at = Some r /\
    (forall is_major' now', wants_full (reports c') is_major' now' = true <->
       is_major' = true \/
       FULL_REPORT_INTERVAL < saturating_duration_since now' (if do_full then now else last_full (reports c)) \/
       (has_udp r = false /\ captive_portal r = Some true)).
Proof.
  intros do_full h actor q H4 H6 Hnp Hpos Hmsgs. unfold get_report. fold do_full h actor.
  assert (exists qad conns closed,
            spawn_qad_probes (E := E) s c view if_state (Nat.min (len s (relay_map c)) ENOUGH_ENDPOINTS) do_full qad_events
            = Some (Ok (qad, conns, closed))) as (qad & conns & closed & Hspawn).
  { unfold spawn_qad_probes. destruct (negb (quic_client c)); [by eauto|]. unfold q in H4, H6.
    destruct (qad_start s c view if_state do_full) as [[n4 n6] q0]. simpl in H4, H6. destruct (_ && _); [by eauto|].
    destruct (qad_loop_returns (E := E) (Nat.min (len s (relay_map c)) ENOUGH_ENDPOINTS) qad_events q0 H4 H6 Hnp) as [q' ->].
    simpl. eauto. }
  rewrite Hspawn. specialize (Hpos _ _ _ Hspawn). set (report := updates Report_default qad).
  set (enough := have_enough_reports if_state do_full (Z.of_nat (len s (relay_map c)))).
  assert (is_Some (if enough report then Some report
                   else report_loop enough conns report (messages (Actor_run s actor joins)) events)) as [r ->].
  { destruct (enough report); [by eauto|]. by apply report_loop_returns. }
  pose proof (history_kept h r done_at done_at) as Hkept.
  assert (Hnext : next_full (add_report_history_and_set_preferred_relay h r done_at).2 = false /\
    last_full (add_report_history_and_set_preferred_relay h r done_at).2 = if do_full then now else last_full (reports c)).
  { unfold add_report_history_and_set_preferred_relay. destruct (fold_left _ _ _) as [[? ?] ?]. simpl.
    unfold h. destruct do_full eqn:Hf; [done|]. unfold do_full, wants_full in Hf. by destruct (next_full (reports c)), is_major. }
  destruct (add_report_history_and_set_preferred_relay h r done_at) as [r' h'].
  destruct Hkept as (Hl & Hp & _), Hnext as [Hn Hf]. eexists _, _, _. split; [done|]. split; [done|]. split; [done|].
  intros is_major' now'. exact (wants_full_next h' r' is_major' now' _ Hl Hn Hf).
Qed.

(** An incremental report on a network without UDP: when the last report has
    latencies no HTTPS probe is planned, so the report has no latency and no
    preferred relay, and the report after it plans all the probes again. *)
Theorem report_without_udp_is_empty {E} s c view if_state now qad_events joins events done_at l r c' closed conns :
  get_report (E := E) s c view if_state false now qad_events joins events done_at = Some (Ok (r, c', closed)) ->
  wants_full (reports c) false now = false ->
  last_report (reports c) = Some l -> latencies_is_empty (relay_latency l) = false ->
  spawn_qad_probes (E := E) s c view if_state (Nat.min (len s (relay_map c)) ENOUGH_ENDPOINTS) false qad_events
    = Some (Ok ([], conns, closed)) ->
  Forall is_probe_msg events ->
  relay_latency r = RelayLatencies_default /\ preferred_relay r = None /\ last_report (reports c') = Some r /\
  spawn_probes_task s (mkActor (Some r) (relay_map c) (client_probes c) (client_captive_portal_check c)) =
  spawn_probes_task s (mkActor None (relay_map c) (client_probes c) (client_captive_portal_check c)).
Proof.
  intros Hget Hfull Hl Hne Hspawn Hev. unfold get_report in Hget. rewrite Hfull, Hspawn, Hl in Hget.
  assert (Hmsgs : messages (Actor_run s (mkActor (Some l) (relay_map c) (client_probes c) (client_captive_portal_check c)) joins) = []).
  { unfold Actor_run, spawn_probes_task, prepare_captive_portal_task, with_last_report. simpl. rewrite Hne.
    by destruct (client_captive_portal_check c). }
  rewrite Hmsgs in Hget. simpl (updates _ []) in Hget.
  assert (Hrep : forall rep, (if have_enough_reports if_state false (Z.of_nat (len s (relay_map c))) Report_default
            then Some Report_default
            else report_loop (have_enough_reports if_state false (Z.of_nat (len s (relay_map c)))) conns Report_default [] events)
            = Some rep -> rep = Report_default).
  { intros rep. destruct (have_enough_reports _ _ _ _); [naive_solver|].
    destruct events as [|[]]; simpl; try naive_solver; apply Forall_cons in Hev as [[] _]. }
  destruct (if have_enough_reports _ _ _ _ then _ else _) as [rep|] eqn:Erep; [|done].
  specialize (Hrep _ eq_refl). subst rep. clear Erep. pose proof (choice_facts (reports c) Report_default done_at eq_refl) as Hc.
  pose proof (history_kept (reports c) Report_default done_at done_at) as Hk.
  destruct (add_report_history_and_set_preferred_relay (reports c) Report_default done_at) as [r' h'].
  destruct Hk as (Hlast & _ & _). simplify_eq/=. destruct Hc as [Hlat Hc].
  split; [done|]. split; [|split; [done|]].
  - destruct Hc as [[_ Hc]|(u & b & ((d & [p Hd]) & _) & _)]; [done|]. exfalso. destruct p; set_solver.
  - unfold spawn_probes_task, with_last_report. simpl. by rewrite Hlat.
Qed.

(** The addresses of relays: lookups that return what [DnsResolver] returns never
    make the resolution of a relay's address panic. *)
Lemma relay_addr_no_panic url_host (v4 v6 : string -> result (list DnsError) (list bytes)) relay :
  (forall n, v4 n <> Panic) -> (forall n, v6 n <> Panic) ->
  get_relay_addr_ipv4 url_host (fun n => rmap (map V4) (v4 n)) relay <> Panic /\
  get_relay_addr_ipv6 url_host (fun n => rmap (map V6) (v6 n)) relay <> Panic.
Proof.
  intros H4 H6. unfold get_relay_addr_ipv4, get_relay_addr_ipv6, relay_lookup_ipv4_staggered, relay_lookup_ipv6_staggered.
  destruct (get_quic_port relay); [|done]. simpl. destruct (url_host (url relay)) as [[d| |]|]; try done.
  split; [specialize (H4 d); destruct (v4 d) as [[]| |]|specialize (H6 d); destruct (v6 d) as [[]| |]]; done.
Qed.

(** ** Instances of the properties

    Two relays, measured by QAD over IPv4. The first report prefers [d1]. *)

Definition d1 : RelayUrl := "https://1.example/".
Definition d2 : RelayUrl := "https://2.example/".

Definition two_relays (l1 l2 : Z) : Report :=
  set_latency Report_default (mkLatencies {[d1 := from_secs l1; d2 := from_secs l2]} ∅ ∅).

Definition first_history : Reports :=
  (add_report_history_and_set_preferred_relay (mkReports true ∅ None 0) (two_relays 4 5) 0).2.

(** [d2] gets faster, but not by a third: [d1] stays; then it does. *)
Lemma preferred_relay_choice_witness :
  preferred_relay (add_report_history_and_set_preferred_relay first_history (two_relays 4 3) (from_secs 1)).1 = Some d1 /\
  preferred_relay (two_relays 4 3) = None /\
  let '(r', _) := add_report_history_and_set_preferred_relay first_history (two_relays 4 3) (from_secs 1) in
  match preferred_relay r' with
  | None => forall u d, ~ recorded (relay_latency (two_relays 4 3)) u d
  | Some u =>
      (exists d, recorded (relay_latency (two_relays 4 3)) u d) /\
      exists v b, fastest first_history (two_relays 4 3) (from_secs 1) v b /\
        (u = v \/
         last_report first_history ≫= preferred_relay = Some u /\
         exists cur, recorded (relay_latency (two_relays 4 3)) u cur /\ cur <> 0 /\ cur / 3 * 2 < b)
  end.
Proof.
  split; [vm_compute; reflexivity|]. split; [reflexivity|].
  apply (preferred_relay_choice first_history (two_relays 4 3) (from_secs 1)). reflexivity.
Defined.

Lemma two_relays_d1 l1 l2 d : recorded (relay_latency (two_relays l1 l2)) d1 d -> d = from_secs l1.
Proof. intros [[] H]; [done| |done]. cbn in H. by rewrite lookup_insert_eq in H; simplify_eq. Qed.

Lemma preferred_relay_hysteresis_witness :
  preferred_relay (add_report_history_and_set_preferred_relay first_history (two_relays 4 1) (from_secs 1)).1 = Some d2 /\
  (d2 = d1 \/
   exists cur b, recorded (relay_latency (two_relays 4 1)) d1 cur /\
     best_in (recent_latencies first_history (two_relays 4 1) (from_secs 1)) d2 b /\ b <= cur / 3 * 2).
Proof.
  assert (Hp : preferred_relay (add_report_history_and_set_preferred_relay first_history (two_relays 4 1) (from_secs 1)).1
               = Some d2) by (vm_compute; reflexivity).
  split; [exact Hp|].
  apply (preferred_relay_hysteresis first_history (two_relays 4 1) (from_secs 1) d1 d2).
  - reflexivity.
  - vm_compute. reflexivity.
  - intros d Hd. apply two_relays_d1 in Hd. subst d. reflexivity.
  - exists (from_secs 4), QadIpv4. vm_compute. reflexivity.
  - exact Hp.
Defined.

(** A map of the two relays, and a client that has just been made. *)
Definition relay_store : Store := {[ 0%nat := collect [(d1, RelayConfig_from_url d1); (d2, RelayConfig_from_url d2)] ]}.

Definition new_client : Client := report_client_new 0%nat (opts_quic_config Options_new (Some (mkQuicConfig true true))) 0.

Definition new_actor : Actor := mkActor None 0%nat {[Https]} true.

(** A relay that answers each request after a millisecond. *)
Definition answering (client : option (string * list SocketAddr)) (u : string) (headers : list (string * string))
    : option http_response := Some (mkResponse 200 (fun _ => None) (from_millis 1)).

Definition one_joined : list (join ProbeFinished) :=
  [Joined (CaptivePortal None); JoinError false; Joined (Regular (Err ProbesTimeout));
   Joined (Regular (Ok (ReportHttps (mkHttps d1 (from_millis 1)))))].

Lemma actor_delivers_witness :
  (length (spawn_probes_task relay_store new_actor) = 6%nat) /\
  Actor_run relay_store new_actor one_joined = mkRun (delivered one_joined) false false.
Proof.
  split; [vm_compute; reflexivity|].
  apply (actor_delivers (fun _ => None) (fun u p => Some (u ++ p)%string) (fun _ => Ok []) (fun _ => true) answering
           relay_store new_actor one_joined).
  - split_and!; apply Nat.leb_le; vm_compute; reflexivity.
  - repeat constructor. exists Https, HTTPS_OFFSET, (RelayConfig_from_url d1). split; [|reflexivity].
    apply list_elem_of_In. vm_compute. left. reflexivity.
Defined.

(** Two IPv4 probes and one IPv6 probe answer; the second IPv4 connection is closed. *)
Definition no_view : conn_view := mkView (fun _ => None) (fun _ => None) (fun _ => false).

Definition qad_at (u : RelayUrl) (addr : SocketAddr) : QadProbeReport := mkQad u (from_millis 5) addr.
Definition public_v4 : SocketAddr := SocketV4 [Byte.x01; Byte.x02; Byte.x03; Byte.x04] 5000.
Definition public_v6 : SocketAddr := SocketV6 (replicate 16 Byte.x20) 5000 0 0.

Definition three_answers : list qad_event :=
  [QadV4 (Joined (Finished (Ok (qad_at d1 public_v4, 10%nat))));
   QadV4 (Joined (Finished (Ok (qad_at d2 public_v4, 11%nat))));
   QadV6 (Joined (Finished (Ok (qad_at d1 public_v6, 12%nat))));
   QadV6 (Joined Elapsed)].

Definition full_qad : list ProbeReport * QadConns * list nat :=
  ([ReportQadIpv4 (qad_at d1 public_v4); ReportQadIpv4 (qad_at d2 public_v4); ReportQadIpv6 (qad_at d1 public_v6)],
   mkQadConns (Some (d1, 10%nat)) (Some (d1, 12%nat)), [11%nat]).

Lemma qad_connections_accounted_witness :
  spawn_qad_probes (E := unit) relay_store new_client no_view (mkIfState true true) 2 true three_answers = Some (Ok full_qad) /\
  exists used rest, three_answers = used ++ rest /\
    conn_ids full_qad.1.2 ++ full_qad.2 ++ lost no_view true (qad_conns new_client) ≡ₚ
    conn_ids (qad_conns new_client) ++ omap made used.
Proof.
  assert (H : spawn_qad_probes (E := unit) relay_store new_client no_view (mkIfState true true) 2 true three_answers
              = Some (Ok full_qad)) by (vm_compute; reflexivity).
  split; [exact H|].
  apply (qad_connections_accounted (E := unit) relay_store new_client no_view (mkIfState true true) 2 true three_answers
           full_qad.1.1 full_qad.1.2 full_qad.2); [reflexivity|exact H].
Defined.

Lemma get_report_returns_witness :
  exists r c' closed,
    get_report (E := unit) relay_store new_client no_view (mkIfState true true) false 1 three_answers [] [ProbeMsg] 2
      = Some (Ok (r, c', closed)) /\
    last_report (reports c') = Some r /\ prev (reports c') !! 2 = Some r /\
    (forall is_major' now', wants_full (reports c') is_major' now' = true <->
       is_major' = true \/
       FULL_REPORT_INTERVAL <
         saturating_duration_since now' (if wants_full (reports new_client) false 1 then 1 else last_full (reports new_client)) \/
       (has_udp r = false /\ captive_portal r = Some true)).
Proof.
  apply (get_report_returns (E := unit) relay_store new_client no_view (mkIfState true true) false 1 three_answers [] [ProbeMsg] 2).
  - vm_compute. reflexivity.
  - vm_compute. reflexivity.
  - repeat constructor.
  - intros qad conns closed _. repeat constructor.
  - apply Nat.ltb_lt. vm_compute. reflexivity.
Defined.

(** A client without QUIC whose last report measured both relays over HTTPS. *)
Definition https_report : Report :=
  set_preferred (set_latency Report_default (mkLatencies ∅ ∅ {[d1 := from_secs 1; d2 := from_secs 2]})) (Some d1).

Definition https_client : Client :=
  mkClient false {[Https]} 0%nat (mkQadConns None None) true (mkReports false {[1 := https_report]} (Some https_report) 0).

Definition empty_round : option (result unit (Report * Client * list nat)) :=
  get_report relay_store https_client no_view (mkIfState true true) false 10 [] [] [ProbeMsg] 11.

Lemma report_without_udp_is_empty_witness :
  exists r c', empty_round = Some (Ok (r, c', [])) /\
  relay_latency r = RelayLatencies_default /\ preferred_relay r = None /\ last_report (reports c') = Some r /\
  spawn_probes_task relay_store (mkActor (Some r) 0%nat {[Https]} true) =
  spawn_probes_task relay_store (mkActor None 0%nat {[Https]} true).
Proof.
  eexists _, _. split; [vm_compute; reflexivity|].
  eapply (report_without_udp_is_empty (E := unit) relay_store https_client no_view (mkIfState true true) 10 [] [] [ProbeMsg] 11
           https_report _ _ [] (mkQadConns None None)).
  - vm_compute. reflexivity.
  - vm_compute. reflexivity.
  - reflexivity.
  - vm_compute. reflexivity.
  - vm_compute. reflexivity.
  - repeat constructor.
Defined.

End NetReport.
