(* ===== verification/MappedAddrs.v ===== *)
(** * Network paths and the addresses QUIC knows them by

    [iroh/src/socket/mapped_addrs.rs], the address types of
    [iroh/src/socket/transports.rs] and [to_transport_addr] of
    [iroh/src/socket/remote_map.rs]. The process-wide counters are an argument
    of the operations that draw from them. *)

From S2P Require Import Prelude External Instances Keys Addrs.
Import Addrs.

Module Mapped.

(** ** Mapped addresses *)

Definition ADDR_PREFIXL : byte := Byte.xfd.
Definition ADDR_GLOBAL_ID : bytes := [Byte.x15; Byte.x07; Byte.x0a; Byte.x51; Byte.x0b].
Definition RELAY_MAPPED_SUBNET : bytes := [Byte.x00; Byte.x01].
Definition CUSTOM_MAPPED_SUBNET : bytes := [Byte.x00; Byte.x03].
Definition ENDPOINT_ID_SUBNET : bytes := [Byte.x00; Byte.x00].
Definition MAPPED_PORT : Z := 12345.

Definition DEFAULT_FAKE_ADDR : SocketAddr :=
  SocketV6 ([ADDR_PREFIXL; Byte.x15; Byte.x07; Byte.x0a; Byte.x51; Byte.x0b; Byte.x00; Byte.x00]
            ++ replicate 8 Byte.xff) MAPPED_PORT 0 0.

(** The three [generate]s differ in the subnet and the counter. *)
Definition mapped_addr (subnet : bytes) (counter : Z) : bytes :=
  ADDR_PREFIXL :: ADDR_GLOBAL_ID ++ subnet ++ be_bytes 8 counter.

(** [fetch_add] wraps around at 64 bits. *)
Definition generate (subnet : bytes) (counter : Z) : bytes * Z :=
  (mapped_addr subnet counter, as_u64 (counter + 1)).

(** [TryFrom<Ipv6Addr>]. *)
Definition try_from (subnet : bytes) (octets : bytes) : option bytes :=
  if bool_decide (take 1 octets = [ADDR_PREFIXL]) && bool_decide (take 5 (drop 1 octets) = ADDR_GLOBAL_ID)
     && bool_decide (take 2 (drop 6 octets) = subnet)
  then Some octets else None.

(** [TryFrom<IpAddr> for CustomMappedAddr]. *)
Definition custom_try_from_ip (ip : IpAddr) : option bytes :=
  match ip with
  | V4 _ => None
  | V6 octets => try_from CUSTOM_MAPPED_SUBNET octets
  end.

Definition private_socket_addr (addr : bytes) : SocketAddr := socket_addr_new (V6 addr) MAPPED_PORT.

Inductive MultipathMappedAddr :=
| Mixed (addr : bytes)
| MappedRelay (addr : bytes)
| MappedIp (addr : SocketAddr)
| MappedCustom (addr : bytes).

Definition multipath_from (value : SocketAddr) : MultipathMappedAddr :=
  match socket_ip value with
  | V4 _ => MappedIp value
  | V6 addr =>
      match try_from ENDPOINT_ID_SUBNET addr with
      | Some addr => Mixed addr
      | None =>
      match try_from RELAY_MAPPED_SUBNET addr with
      | Some addr => MappedRelay addr
      | None =>
      match try_from CUSTOM_MAPPED_SUBNET addr with
      | Some addr => MappedCustom addr
      | None => MappedIp value
      end end end
  end.

(** ** AddrMap *)

Section AddrMap.
Context {K : Type} `{Countable K}.

Record AddrMap := mkAddrMap {
  map_addrs : gmap K bytes;
  map_lookup : gmap bytes K
}.

Definition AddrMap_default : AddrMap := mkAddrMap ∅ ∅.

Definition get (subnet : bytes) (m : AddrMap) (counter : Z) (key : K) : bytes * AddrMap * Z :=
  match map_addrs m !! key with
  | Some addr => (addr, m, counter)
  | None =>
      let '(addr, counter) := generate subnet counter in
      (addr, mkAddrMap (<[key := addr]> (map_addrs m)) (<[addr := key]> (map_lookup m)), counter)
  end.

Definition lookup (m : AddrMap) (addr : bytes) : option K := map_lookup m !! addr.

End AddrMap.
Arguments AddrMap K {_ _}.

(** ** Transport addresses *)

Inductive Addr :=
| AddrIp (addr : SocketAddr)
| AddrRelay (url : RelayUrl) (endpoint_id : EndpointId)
| AddrCustom (addr : CustomAddr).

#[export] Instance Addr_eq_dec : EqDecision Addr.
Proof. solve_decision. Defined.

#[export] Instance Addr_countable : Countable Addr.
Proof.
  refine (inj_countable'
    (fun a => match a with AddrIp a => inl a | AddrRelay u e => inr (inl (u, e)) | AddrCustom a => inr (inr a) end)
    (fun x => match x with inl a => AddrIp a | inr (inl (u, e)) => AddrRelay u e | inr (inr a) => AddrCustom a end) _).
  by intros [].
Defined.

Definition Addr_default : Addr := AddrIp (SocketV6 (replicate 16 Byte.x00) 0 0 0).

(** [From<SocketAddr>]: the canonical form. *)
Definition Addr_from (value : SocketAddr) : Addr :=
  match value with
  | SocketV4 _ _ => AddrIp value
  | SocketV6 ip port _ _ => AddrIp (socket_addr_new (to_canonical ip) port)
  end.

(** [From<Addr> for TransportAddr] and [PartialEq<TransportAddr> for Addr]. *)
Definition Addr_to_transport (a : Addr) : TransportAddr :=
  match a with
  | AddrIp a => TransportIp a
  | AddrRelay url _ => TransportRelay url
  | AddrCustom a => TransportCustom a
  end.

Definition Addr_eq_transport (a : Addr) (other : TransportAddr) : bool :=
  match a, other with
  | AddrIp a, TransportIp b => bool_decide (b = a)
  | AddrRelay url _, TransportRelay u => bool_decide (u = url)
  | AddrCustom a, TransportCustom b => bool_decide (b = a)
  | _, _ => false
  end.

Definition Addr_is_relay (a : Addr) : bool := if a is AddrRelay _ _ then true else false.

Definition into_socket_addr (a : Addr) : option SocketAddr := if a is AddrIp ip then Some ip else None.

Inductive LocalTransportAddr :=
| LocalIp (ip : option IpAddr)
| LocalRelay (url : RelayUrl)
| LocalCustom (addr : option CustomAddr).

Definition from_noq_local_ip (noq_local_ip : option IpAddr) (remote_addr : Addr)
    (custom_mapped_addrs : AddrMap CustomAddr) : LocalTransportAddr :=
  match remote_addr with
  | AddrRelay url _ => LocalRelay url
  | AddrIp _ => LocalIp noq_local_ip
  | AddrCustom _ =>
      LocalCustom ((noq_local_ip ≫= custom_try_from_ip) ≫= lookup custom_mapped_addrs)
  end.

Inductive AddrKind := IpV4 | IpV6 | KindRelay | KindCustom (id : Z).

#[export] Instance AddrKind_eq_dec : EqDecision AddrKind.
Proof. solve_decision. Defined.

Inductive FourTuple :=
| TupleIp (remote : SocketAddr) (local : option IpAddr)
| TupleRelay (url : RelayUrl) (endpoint_id : EndpointId)
| TupleCustom (remote : CustomAddr) (local : option CustomAddr).

#[export] Instance FourTuple_eq_dec : EqDecision FourTuple.
Proof. solve_decision. Defined.

Definition from_remote (remote : Addr) : FourTuple :=
  match remote with
  | AddrIp remote => TupleIp remote None
  | AddrRelay url endpoint_id => TupleRelay url endpoint_id
  | AddrCustom remote => TupleCustom remote None
  end.

Definition FourTuple_new (remote : Addr) (local : LocalTransportAddr) : FourTuple :=
  match remote with
  | AddrIp remote => TupleIp remote (if local is LocalIp l then l else None)
  | AddrRelay url endpoint_id => TupleRelay url endpoint_id
  | AddrCustom remote => TupleCustom remote (if local is LocalCustom l then l else None)
  end.

(** [to_transport_addr]: the address behind a QUIC-mapped one. *)
Definition to_transport_addr (addr : SocketAddr) (relay_addrs : AddrMap (RelayUrl * EndpointId))
    (custom_addrs : AddrMap CustomAddr) : option Addr :=
  match multipath_from addr with
  | Mixed _ => None
  | MappedRelay a =>
      match lookup relay_addrs a with
      | Some (url, endpoint_id) => Some (AddrRelay url endpoint_id)
      | None => None
      end
  | MappedCustom a => option_map AddrCustom (lookup custom_addrs a)
  | MappedIp addr => Some (Addr_from addr)
  end.

(** [noq::FourTuple]: a remote socket address and a local IP. *)
Definition from_noq (noq_four_tuple : SocketAddr * option IpAddr)
    (relay_mapped_addrs : AddrMap (RelayUrl * EndpointId)) (custom_mapped_addrs : AddrMap CustomAddr)
    : option FourTuple :=
  match to_transport_addr noq_four_tuple.1 relay_mapped_addrs custom_mapped_addrs with
  | None => None
  | Some remote =>
      let local := from_noq_local_ip noq_four_tuple.2 remote custom_mapped_addrs in
      Some (FourTuple_new remote local)
  end.

Definition remote (t : FourTuple) : Addr :=
  match t with
  | TupleIp remote _ => AddrIp remote
  | TupleRelay url endpoint_id => AddrRelay url endpoint_id
  | TupleCustom remote _ => AddrCustom remote
  end.

Definition local (t : FourTuple) : LocalTransportAddr :=
  match t with
  | TupleIp _ local => LocalIp local
  | TupleRelay url _ => LocalRelay url
  | TupleCustom _ local => LocalCustom local
  end.

Definition FourTuple_is_ip (t : FourTuple) : bool := if t is TupleIp _ _ then true else false.
Definition FourTuple_is_relay (t : FourTuple) : bool := if t is TupleRelay _ _ then true else false.

(** The two maps of a socket with the counters they draw from. *)
Record Maps := mkMaps {
  relay_addrs : AddrMap (RelayUrl * EndpointId);
  relay_counter : Z;
  custom_addrs : AddrMap CustomAddr;
  custom_counter : Z
}.

Definition get_relay (s : Maps) (key : RelayUrl * EndpointId) : bytes * Maps :=
  let '(a, m, c) := get RELAY_MAPPED_SUBNET (relay_addrs s) (relay_counter s) key in
  (a, mkMaps m c (custom_addrs s) (custom_counter s)).

Definition get_custom (s : Maps) (key : CustomAddr) : bytes * Maps :=
  let '(a, m, c) := get CUSTOM_MAPPED_SUBNET (custom_addrs s) (custom_counter s) key in
  (a, mkMaps (relay_addrs s) (relay_counter s) m c).

Definition to_noq_four_tuple (t : FourTuple) (s : Maps) : (SocketAddr * option IpAddr) * Maps :=
  match t with
  | TupleIp remote local => ((remote, local), s)
  | TupleRelay url endpoint_id =>
      let '(a, s) := get_relay s (url, endpoint_id) in
      ((private_socket_addr a, None), s)
  | TupleCustom remote local =>
      let '(a, s) := get_custom s remote in
      match local with
      | None => ((private_socket_addr a, None), s)
      | Some custom_addr =>
          let '(b, s) := get_custom s custom_addr in
          ((private_socket_addr a, Some (socket_ip (private_socket_addr b))), s)
      end
  end.

Definition addr_kind (t : FourTuple) : AddrKind :=
  match t with
  | TupleIp (SocketV4 _ _) _ => IpV4
  | TupleIp (SocketV6 _ _ _ _) _ => IpV6
  | TupleRelay _ _ => KindRelay
  | TupleCustom remote _ => KindCustom (id remote)
  end.

(** ** Lemmas *)

Lemma mapped_addr_subnet subnet c : length subnet = 2%nat -> take 2 (drop 6 (mapped_addr subnet c)) = subnet.
Proof. by destruct subnet as [|x [|y [|]]]. Qed.

Lemma try_from_own subnet c : length subnet = 2%nat -> try_from subnet (mapped_addr subnet c) = Some (mapped_addr subnet c).
Proof. intros Hl. unfold try_from. rewrite mapped_addr_subnet by done. by rewrite !bool_decide_true. Qed.

Lemma try_from_other subnet subnet' c :
  length subnet = 2%nat -> subnet' <> subnet -> try_from subnet' (mapped_addr subnet c) = None.
Proof.
  intros Hl Hne. unfold try_from. rewrite mapped_addr_subnet by done.
  rewrite (bool_decide_false (subnet = subnet')) by congruence. by rewrite !andb_false_r.
Qed.

Lemma mapped_addr_inj subnet c d :
  0 <= c < 2 ^ 64 -> 0 <= d < 2 ^ 64 -> mapped_addr subnet c = mapped_addr subnet d -> c = d.
Proof.
  intros Hc Hd Heq. unfold mapped_addr in Heq. injection Heq as Heq. apply app_inv_head in Heq.
  apply (f_equal from_be_bytes) in Heq. by rewrite !from_be_bytes_be_bytes in Heq.
Qed.

Lemma multipath_relay c :
  multipath_from (private_socket_addr (mapped_addr RELAY_MAPPED_SUBNET c)) = MappedRelay (mapped_addr RELAY_MAPPED_SUBNET c).
Proof.
  unfold multipath_from, private_socket_addr. cbn [socket_addr_new socket_ip].
  rewrite try_from_other by (done || discriminate). by rewrite try_from_own.
Qed.

Lemma multipath_custom c :
  multipath_from (private_socket_addr (mapped_addr CUSTOM_MAPPED_SUBNET c)) = MappedCustom (mapped_addr CUSTOM_MAPPED_SUBNET c).
Proof.
  unfold multipath_from, private_socket_addr. cbn [socket_addr_new socket_ip].
  rewrite !try_from_other by (done || discriminate). by rewrite try_from_own.
Qed.

Section AddrMapFacts.
Context {K : Type} `{Countable K}.

(** The map is a bijection onto addresses drawn from the counter so far. *)
Record AddrMap_wf (subnet : bytes) (m : AddrMap K) (counter : Z) : Prop := mkAddrMapWf {
  wf_inverse k v : map_addrs m !! k = Some v <-> map_lookup m !! v = Some k;
  wf_drawn v k : map_lookup m !! v = Some k -> exists c, 1 <= c < counter /\ v = mapped_addr subnet c;
  wf_counter : 1 <= counter
}.

Definition extends (m m' : AddrMap K) : Prop :=
  forall v k, map_lookup m !! v = Some k -> map_lookup m' !! v = Some k.

Lemma AddrMap_default_wf subnet : AddrMap_wf subnet AddrMap_default 1.
Proof. constructor; [intros k v; simpl; by rewrite !lookup_empty|intros v k; simpl; by rewrite lookup_empty|lia]. Qed.

Lemma get_spec subnet m counter key a m' counter' :
  AddrMap_wf subnet m counter -> counter < 2 ^ 64 - 1 ->
  get subnet m counter key = (a, m', counter') ->
  AddrMap_wf subnet m' counter' /\ counter <= counter' <= counter + 1 /\ extends m m' /\
  map_lookup m' !! a = Some key /\ exists c, 1 <= c < counter' /\ a = mapped_addr subnet c.
Proof.
  intros [Hinv Hdrawn Hpos] Hc. unfold get. destruct (map_addrs m !! key) as [v|] eqn:Hk.
  - intros [= <- <- <-]. split; [by constructor|]. split; [lia|]. split; [by intros ? ?|].
    apply Hinv in Hk. eauto.
  - simpl. unfold as_u64. rewrite Z.mod_small by lia. intros [= <- <- <-].
    set (v := mapped_addr subnet counter).
    assert (Hfresh : map_lookup m !! v = None).
    { destruct (map_lookup m !! v) as [k|] eqn:Hv; [|done].
      destruct (Hdrawn _ _ Hv) as (c & Hlt & Heq). apply mapped_addr_inj in Heq; lia. }
    split; [constructor|split; [lia|split; [|split]]]; simpl.
    + intros k w. rewrite !lookup_insert_Some. split.
      * intros [[-> ->]|[Hne Hw]]; [by left|]. right. apply Hinv in Hw. split; [|done].
        intros <-. congruence.
      * intros [[-> ->]|[Hne Hw]]; [by left|]. right. apply Hinv in Hw. split; [|done].
        intros <-. congruence.
    + intros w k. rewrite lookup_insert_Some. intros [[<- _]|[_ Hw]].
      * exists counter. split; [lia|done].
      * destruct (Hdrawn _ _ Hw) as (c & Hlt & ->). exists c. split; [lia|done].
    + lia.
    + intros w k Hw. simpl. rewrite lookup_insert_ne; [done|]. intros <-. congruence.
    + by rewrite lookup_insert_eq.
    + exists counter. split; [lia|done].
Qed.

End AddrMapFacts.

Record Maps_wf (s : Maps) : Prop := mkMapsWf {
  wf_relay : AddrMap_wf RELAY_MAPPED_SUBNET (relay_addrs s) (relay_counter s);
  wf_custom : AddrMap_wf CUSTOM_MAPPED_SUBNET (custom_addrs s) (custom_counter s)
}.

(** An IP path as the transports store it: canonical, without flow or scope, and
    outside the ranges of mapped addresses. *)
Definition plain_ip (a : SocketAddr) : Prop :=
  Addr_from a = AddrIp a /\ multipath_from a = MappedIp a.

Definition tuple_wf (t : FourTuple) : Prop :=
  match t with TupleIp remote _ => plain_ip remote | _ => True end.

(** What QUIC was told before still means the same. *)
Definition stable (s s' : Maps) : Prop :=
  extends (relay_addrs s) (relay_addrs s') /\ extends (custom_addrs s) (custom_addrs s').

Lemma get_relay_spec s key a s' :
  Maps_wf s -> relay_counter s < 2 ^ 64 - 1 -> get_relay s key = (a, s') ->
  Maps_wf s' /\ stable s s' /\ lookup (relay_addrs s') a = Some key /\
  exists c, a = mapped_addr RELAY_MAPPED_SUBNET c.
Proof.
  intros [Hr Hcu] Hc. unfold get_relay. destruct (get _ _ _ _) as [[b m] c] eqn:Hg. intros [= <- <-].
  destruct (get_spec _ _ _ _ _ _ _ Hr Hc Hg) as (Hwf & _ & Hext & Hl & (d & _ & Hd)).
  split; [by constructor|]. split; [by split; [|intros ? ?]|]. eauto.
Qed.

Lemma get_custom_spec s key a s' :
  Maps_wf s -> custom_counter s < 2 ^ 64 - 1 -> get_custom s key = (a, s') ->
  Maps_wf s' /\ stable s s' /\ lookup (custom_addrs s') a = Some key /\
  custom_counter s' <= custom_counter s + 1 /\ exists c, a = mapped_addr CUSTOM_MAPPED_SUBNET c.
Proof.
  intros [Hr Hcu] Hc. unfold get_custom. destruct (get _ _ _ _) as [[b m] c] eqn:Hg. intros [= <- <-].
  destruct (get_spec _ _ _ _ _ _ _ Hcu Hc Hg) as (Hwf & Hle & Hext & Hl & (d & _ & Hd)).
  split; [by constructor|]. split; [by split; [intros ? ?|]|]. simpl. split; [done|]. split; [lia|eauto].
Qed.

Lemma custom_try_from_own c :
  custom_try_from_ip (V6 (mapped_addr CUSTOM_MAPPED_SUBNET c)) = Some (mapped_addr CUSTOM_MAPPED_SUBNET c).
Proof. simpl. by apply try_from_own. Qed.

(** An address that has been given out is given again. *)
Lemma get_again {T} `{Countable T} subnet (m : AddrMap T) counter key :
  let '(a, m', counter') := get subnet m counter key in get subnet m' counter' key = (a, m', counter').
Proof.
  unfold get. destruct (map_addrs m !! key) as [v|] eqn:Hk; [by rewrite Hk|]. simpl. by rewrite lookup_insert_eq.
Qed.

Lemma get_keeps {T} `{Countable T} subnet (m : AddrMap T) counter key counter2 key2 :
  let '(a, m', _) := get subnet m counter key in
  let '(_, m2, c2) := get subnet m' counter2 key2 in get subnet m2 c2 key = (a, m2, c2).
Proof.
  pose proof (get_again subnet m counter key) as Ha. destruct (get subnet m counter key) as [[a m'] c'].
  assert (Hk : map_addrs m' !! key = Some a).
  { revert Ha. unfold get. destruct (map_addrs m' !! key) as [v|] eqn:E; [by intros [= ->]|]. simpl. intros Ha.
    apply (f_equal (fun x => map_addrs x.1.2 !! key)) in Ha. simpl in Ha. rewrite lookup_insert_eq in Ha. congruence. }
  unfold get at 1. destruct (map_addrs m' !! key2) as [v|] eqn:Hk2; unfold get; [by rewrite Hk|]. simpl.
  rewrite lookup_insert_ne by congruence. by rewrite Hk.
Qed.

Lemma to_noq_again t s : to_noq_four_tuple t (to_noq_four_tuple t s).2 = to_noq_four_tuple t s.
Proof.
  destruct t as [r l|url e|r l]; simpl; [done| |].
  - unfold get_relay. pose proof (get_again RELAY_MAPPED_SUBNET (relay_addrs s) (relay_counter s) (url, e)) as Ha.
    destruct (get _ _ _ _) as [[a m] c]. simpl. by rewrite Ha.
  - unfold get_custom. destruct l as [l|].
    + pose proof (fun c2 => get_keeps CUSTOM_MAPPED_SUBNET (custom_addrs s) (custom_counter s) r c2 l) as Hk.
      destruct (get _ (custom_addrs s) _ r) as [[a m] c]. simpl. specialize (Hk c).
      pose proof (get_again CUSTOM_MAPPED_SUBNET m c l) as Ha.
      destruct (get _ m c l) as [[b m2] c2]. simpl. rewrite Hk. simpl. by rewrite Ha.
    + pose proof (get_again CUSTOM_MAPPED_SUBNET (custom_addrs s) (custom_counter s) r) as Ha.
      destruct (get _ _ _ _) as [[a m] c]. simpl. by rewrite Ha.
Qed.

(** ** Property *)

(** Every network path has an address under which QUIC can name it, and the
    address leads back to the path: for IP, relay and custom paths, with their
    local addresses, converting to the QUIC-mapped addresses and back is the
    identity. The maps stay bijections and no address given out before changes
    its meaning, as long as fewer than 2^64 - 2 addresses have been drawn. *)
Theorem four_tuple_roundtrip t s :
  Maps_wf s -> tuple_wf t -> relay_counter s < 2 ^ 64 - 2 -> custom_counter s < 2 ^ 64 - 2 ->
  let '(noq, s') := to_noq_four_tuple t s in
  from_noq noq (relay_addrs s') (custom_addrs s') = Some t /\ Maps_wf s' /\ stable s s'.
Proof.
  intros Hwf Ht Hr Hcu. destruct t as [r l|url e|r l]; simpl in *.
  - destruct Ht as [Hcan Hm]. unfold from_noq, to_transport_addr. simpl. rewrite Hm, Hcan. simpl.
    split; [done|]. split; [done|]. split; by intros ? ?.
  - destruct (get_relay s (url, e)) as [a s1] eqn:Hg.
    destruct (get_relay_spec _ _ _ _ Hwf (ltac:(lia)) Hg) as (Hwf1 & Hst & Hl & (c & ->)).
    unfold from_noq, to_transport_addr. cbn [fst]. rewrite multipath_relay, Hl. done.
  - destruct (get_custom s r) as [a s1] eqn:Hg.
    destruct (get_custom_spec _ _ _ _ Hwf (ltac:(lia)) Hg) as (Hwf1 & [Hst1 Hst2] & Hl & Hle & (c & ->)).
    destruct l as [l|].
    + destruct (get_custom s1 l) as [b s2] eqn:Hg2.
      destruct (get_custom_spec _ _ _ _ Hwf1 (ltac:(lia)) Hg2) as (Hwf2 & [Hst3 Hst4] & Hl2 & _ & (d & ->)).
      unfold from_noq, to_transport_addr. cbn [fst snd]. rewrite multipath_custom.
      unfold lookup in *. rewrite (Hst4 _ _ Hl). cbn [option_map from_noq_local_ip FourTuple_new].
      unfold private_socket_addr. cbn [socket_addr_new socket_ip mbind option_bind].
      rewrite custom_try_from_own. cbn [mbind option_bind]. unfold lookup. rewrite Hl2.
      split; [done|]. split; [done|]. split; intros v k Hv; [by apply Hst3, Hst1|by apply Hst4, Hst2].
    + unfold from_noq, to_transport_addr. cbn [fst]. rewrite multipath_custom, Hl. done.
Qed.

Definition no_maps : Maps := mkMaps AddrMap_default 1 AddrMap_default 1.

Definition custom_path : FourTuple :=
  TupleCustom (from_parts 7 [Byte.x01]) (Some (from_parts 7 [Byte.x02])).

Lemma four_tuple_roundtrip_witness :
  let '(noq, s') := to_noq_four_tuple custom_path no_maps in
  from_noq noq (relay_addrs s') (custom_addrs s') = Some custom_path /\ Maps_wf s' /\ stable no_maps s'.
Proof.
  apply (four_tuple_roundtrip custom_path no_maps).
  - constructor; apply AddrMap_default_wf.
  - exact I.
  - reflexivity.
  - reflexivity.
Defined.

End Mapped.
