(* ===== verification/PathState.v ===== *)
(** * Paths to a remote endpoint

    [iroh/src/socket/remote_map/remote_state/path_state.rs]: the known paths, their
    pruning and the requests that wait for one. [iroh/src/socket/
    biased_rtt_path_selector.rs]: which open path carries the data. [now] stands for
    [Instant::now()]; a hash map's iteration order is a parameter. *)

From Stdlib Require Import Sorted.
From S2P Require Import Prelude External Instances Keys Addrs MappedAddrs.
Import Addrs Mapped.

Module Paths.

(** ** Data *)

Definition MAX_NON_RELAY_PATHS : nat := 30.
Definition MAX_INACTIVE_NON_RELAY_PATHS : nat := 10.

Inductive PathStatus :=
| Open
| Inactive (closed : Z)
| Unusable
| Unknown.

#[export] Instance PathStatus_eq_dec : EqDecision PathStatus.
Proof. solve_decision. Defined.

Inductive Source :=
| App
| AddressLookup (name : string)
| Connection.

#[export] Instance Source_eq_dec : EqDecision Source.
Proof. solve_decision. Defined.

#[export] Instance Source_countable : Countable Source.
Proof.
  refine (inj_countable'
    (fun s => match s with App => inl tt | AddressLookup n => inr (inl n) | Connection => inr (inr tt) end)
    (fun x => match x with inl _ => App | inr (inl n) => AddressLookup n | inr (inr _) => Connection end) _).
  by intros [].
Defined.

Record PathState := mkPathState {
  sources : gmap Source Z;
  status : PathStatus
}.

Definition PathState_default : PathState := mkPathState ∅ Unknown.

(** The error of an address lookup; [E] is the error of one lookup service. *)
Inductive AddressLookupFailed (E : Type) :=
| NoServiceConfigured
| NoResults (errors : list E).
Arguments NoServiceConfigured {E}.
Arguments NoResults {E} errors.

Inductive path_kind := KIp | KRelay | KCustom.

#[export] Instance path_kind_eq_dec : EqDecision path_kind.
Proof. solve_decision. Defined.

(** The [transport_*_paths_added] and [_removed] counters. *)
Record SocketMetrics := mkSocketMetrics {
  paths_added : path_kind -> Z;
  paths_removed : path_kind -> Z
}.

Definition kind_of (a : Addr) : path_kind :=
  match a with AddrIp _ => KIp | AddrRelay _ _ => KRelay | AddrCustom _ => KCustom end.

Definition inc_kind (k : path_kind) (f : path_kind -> Z) : path_kind -> Z :=
  fun k' => if decide (k' = k) then f k' + 1 else f k'.

(** ** Pruning *)

Definition inactive_of (order : list (Addr * PathState)) : list (Addr * Z) :=
  omap (fun '(addr, state) => if status state is Inactive t then Some (addr, t) else None) order.

Definition failed_of (order : list (Addr * PathState)) : list Addr :=
  omap (fun '(addr, state) => if status state is Unusable then Some addr else None) order.

(** [sort_by_key(|b| Reverse(b.1))]: stable, most recently closed first. *)
Fixpoint insert_recent (x : Addr * Z) (l : list (Addr * Z)) : list (Addr * Z) :=
  match l with
  | [] => [x]
  | y :: l => if y.2 <=? x.2 then x :: y :: l else y :: insert_recent x l
  end.

Definition sort_recent (l : list (Addr * Z)) : list (Addr * Z) := foldr insert_recent [] l.

Definition prune_non_relay_paths (order : list (Addr * PathState)) (paths : gmap Addr PathState)
    : gmap Addr PathState :=
  if (size paths <? MAX_NON_RELAY_PATHS)%nat then paths else
  let primary_paths := List.filter (fun '(addr, _) => negb (Addr_is_relay addr)) order in
  if (length primary_paths <? MAX_NON_RELAY_PATHS)%nat then paths else
  let inactive := inactive_of primary_paths in
  let failed := failed_of primary_paths in
  let failed :=
    if (length failed =? size paths)%nat
    then take (size paths - MAX_NON_RELAY_PATHS) failed else failed in
  let inactive := sort_recent inactive in
  let old_inactive := drop (length inactive - MAX_INACTIVE_NON_RELAY_PATHS) inactive in
  let must_prune : gset Addr := list_to_set (failed ++ map fst old_inactive) in
  filter (fun kv => kv.1 ∉ must_prune) paths.

(** ** The paths and the requests that wait for one *)

Section RemotePathState.
Context {E : Type}.
Variable iter_order : gmap Addr PathState -> list (Addr * PathState).

Abbreviation reply := (result (AddressLookupFailed E) unit).

(** A [oneshot::Sender] is a request number; what it was sent is in [replies]. *)
Record RemotePathState := mkRemotePathState {
  paths : gmap Addr PathState;
  pending_resolve_requests : list Z;
  replies : list (Z * reply);
  metrics : SocketMetrics
}.

Definition RemotePathState_new : RemotePathState :=
  mkRemotePathState ∅ [] [] (mkSocketMetrics (fun _ => 0) (fun _ => 0)).

Inductive TransportAddrUsage := UsageActive | UsageInactive.

Definition to_remote_addrs (s : RemotePathState) : list (TransportAddr * TransportAddrUsage) :=
  map (fun '(addr, state) =>
         (Addr_to_transport addr,
          match status state with Open => UsageActive | _ => UsageInactive end))
    (iter_order (paths s)).

Definition set_paths (s : RemotePathState) (p : gmap Addr PathState) : RemotePathState :=
  mkRemotePathState p (pending_resolve_requests s) (replies s) (metrics s).

Definition emit_pending_resolve_requests (s : RemotePathState)
    (address_lookup_error : option (AddressLookupFailed E)) : RemotePathState :=
  match pending_resolve_requests s with
  | [] => s
  | pending =>
      let res : reply :=
        match bool_decide (paths s = ∅), address_lookup_error with
        | false, _ => Ok tt
        | true, Some err => Err err
        | true, None => Err (NoResults [])
        end in
      mkRemotePathState (paths s) [] (replies s ++ map (fun tx => (tx, res)) pending) (metrics s)
  end.

Definition prune_paths (s : RemotePathState) : RemotePathState :=
  set_paths s (prune_non_relay_paths (iter_order (paths s)) (paths s)).

Definition insert_open_path (s : RemotePathState) (addr : Addr) (source : Source) (now : Z)
    : RemotePathState :=
  let m := metrics s in
  let state := default PathState_default (paths s !! addr) in
  let state := mkPathState (<[source := now]> (sources state)) Open in
  let s := mkRemotePathState (<[addr := state]> (paths s)) (pending_resolve_requests s) (replies s)
             (mkSocketMetrics (inc_kind (kind_of addr) (paths_added m)) (paths_removed m)) in
  prune_paths (emit_pending_resolve_requests s None).

Definition abandoned_path (s : RemotePathState) (addr : Addr) (now : Z) : RemotePathState :=
  match paths s !! addr with
  | None => s
  | Some state =>
      let m := metrics s in
      let m := if decide (status state = Open)
               then mkSocketMetrics (paths_added m) (inc_kind (kind_of addr) (paths_removed m)) else m in
      let st := match status state with
                | Open | Inactive _ => Inactive now
                | Unusable | Unknown => Unusable
                end in
      mkRemotePathState (<[addr := mkPathState (sources state) st]> (paths s))
        (pending_resolve_requests s) (replies s) m
  end.

Definition insert_source (source : Source) (now : Z) (p : gmap Addr PathState) (addr : Addr)
    : gmap Addr PathState :=
  let state := default PathState_default (p !! addr) in
  <[addr := mkPathState (<[source := now]> (sources state)) (status state)]> p.

Definition insert_multiple (s : RemotePathState) (addrs : list Addr) (source : Source) (now : Z)
    : RemotePathState :=
  let was_empty := bool_decide (paths s = ∅) in
  let s := set_paths s (fold_left (insert_source source now) addrs (paths s)) in
  let s := if was_empty && negb (bool_decide (paths s = ∅))
           then emit_pending_resolve_requests s None else s in
  prune_paths s.

Definition resolve_remote (s : RemotePathState) (tx : Z) : RemotePathState :=
  if negb (bool_decide (paths s = ∅))
  then mkRemotePathState (paths s) (pending_resolve_requests s) (replies s ++ [(tx, Ok tt)]) (metrics s)
  else mkRemotePathState (paths s) (pending_resolve_requests s ++ [tx]) (replies s) (metrics s).

Definition resolve_requests_is_empty (s : RemotePathState) : bool :=
  bool_decide (pending_resolve_requests s = []).

Definition address_lookup_finished (s : RemotePathState) (res : reply) : RemotePathState :=
  emit_pending_resolve_requests s (if res is Err e then Some e else None).

(** ** Sequences of operations *)

Inductive path_op :=
| OpOpen (addr : Addr) (source : Source) (now : Z)
| OpAbandoned (addr : Addr) (now : Z)
| OpInsert (addrs : list Addr) (source : Source) (now : Z)
| OpResolve (tx : Z)
| OpLookupFinished (res : reply).

Definition apply_op (s : RemotePathState) (o : path_op) : RemotePathState :=
  match o with
  | OpOpen addr source now => insert_open_path s addr source now
  | OpAbandoned addr now => abandoned_path s addr now
  | OpInsert addrs source now => insert_multiple s addrs source now
  | OpResolve tx => resolve_remote s tx
  | OpLookupFinished res => address_lookup_finished s res
  end.

Definition run_ops (ops : list path_op) : RemotePathState := fold_left apply_op ops RemotePathState_new.

Definition requests (ops : list path_op) : list Z :=
  omap (fun o => if o is OpResolve tx then Some tx else None) ops.

Definition is_lookup_finished (o : path_op) : bool := if o is OpLookupFinished _ then true else false.

Definition is_ok_reply (r : Z * reply) : bool := if r.2 is Ok _ then true else false.

End RemotePathState.

(** ** Path selection *)

Inductive TransportType := Primary | Backup.

#[export] Instance TransportType_eq_dec : EqDecision TransportType.
Proof. solve_decision. Defined.

(** The derived [Ord]: in the order of the declaration. *)
Definition transport_rank (t : TransportType) : Z := match t with Primary => 0 | Backup => 1 end.

Record TransportBias := mkTransportBias {
  transport_type : TransportType;
  rtt_bias : Z                               (* i128 nanoseconds *)
}.

Definition IPV6_RTT_ADVANTAGE : Z := from_millis 3.
Definition RTT_SWITCHING_MIN : Z := from_millis 5.

Definition bias_primary : TransportBias := mkTransportBias Primary 0.
Definition bias_backup : TransportBias := mkTransportBias Backup 0.
Definition with_rtt_advantage (b : TransportBias) (advantage : Z) : TransportBias :=
  mkTransportBias (transport_type b) (rtt_bias b - advantage).

(** The map of biases, as a lookup function. *)
Definition Biases : Type := AddrKind -> option TransportBias.

Definition default_biases : Biases := fun k =>
  match k with
  | IpV4 => Some bias_primary
  | IpV6 => Some (with_rtt_advantage bias_primary IPV6_RTT_ADVANTAGE)
  | KindRelay => Some bias_backup
  | KindCustom _ => None
  end.

Definition bias_for (self : Biases) (addr : FourTuple) : TransportBias :=
  default bias_primary (self (addr_kind addr)).

Definition i128_saturating_add (a b : Z) : Z := Z.max (- 2 ^ 127) (Z.min (2 ^ 127 - 1) (a + b)).

Definition sort_key (self : Biases) (addr : FourTuple) (rtt : Z) : TransportType * Z :=
  let bias := bias_for self addr in
  (transport_type bias, i128_saturating_add rtt (rtt_bias bias)).

(** [<] on pairs. *)
Definition key_lt (a b : TransportType * Z) : bool :=
  (transport_rank a.1 <? transport_rank b.1) ||
  ((transport_rank a.1 =? transport_rank b.1) && (a.2 <? b.2)).

(** A candidate: its path and the RTT of its statistics, if they can be read. *)
Definition candidate : Type := FourTuple * option Z.

(** The pass over the candidates: the best one, and the best key of the current path. *)
Definition select_pass (self : Biases) (current : option FourTuple)
    (acc : option (FourTuple * (TransportType * Z)) * option (TransportType * Z)) (c : candidate)
    : option (FourTuple * (TransportType * Z)) * option (TransportType * Z) :=
  let '(best, current_key) := acc in
  match c with
  | (_, None) => acc
  | (network_path, Some rtt) =>
      let key := sort_key self network_path rtt in
      let current_key :=
        if bool_decide (Some network_path = current) &&
           (if current_key is Some k then key_lt key k else true)
        then Some key else current_key in
      let best := if (if best is Some (_, b) then key_lt key b else true)
                  then Some (network_path, key) else best in
      (best, current_key)
  end.

Definition select (self : Biases) (current : option FourTuple) (paths : list candidate)
    : option FourTuple :=
  let '(best, current_key) := fold_left (select_pass self current) paths (None, None) in
  match best with
  | None => None
  | Some (best_psd, (best_tier, best_biased)) =>
      match current_key with
      | None => Some best_psd
      | Some (current_tier, current_biased) =>
          if negb (bool_decide (current_tier = best_tier)) then Some best_psd
          else if best_biased + RTT_SWITCHING_MIN <=? current_biased then Some best_psd
          else None
      end
  end.

(** ** Lemmas on pruning *)

Definition more_recent (x y : Addr * Z) : Prop := y.2 <= x.2.

Lemma insert_recent_perm x l : insert_recent x l ≡ₚ x :: l.
Proof.
  induction l as [|y l IH]; simpl; [done|]. destruct (y.2 <=? x.2); [done|].
  rewrite IH. apply perm_swap.
Qed.

Lemma sort_recent_perm l : sort_recent l ≡ₚ l.
Proof. induction l as [|x l IH]; simpl; [done|]. by rewrite insert_recent_perm, IH. Qed.

Lemma insert_recent_sorted x l :
  StronglySorted more_recent l -> StronglySorted more_recent (insert_recent x l).
Proof.
  intros Hs. induction Hs as [|y l Hs IH Hy]; simpl; [by repeat constructor|].
  destruct (Z.leb_spec (y.2) (x.2)) as [H|H].
  - constructor; [by constructor|]. constructor; [done|].
    eapply Forall_impl; [exact Hy|]. unfold more_recent. intros z Hz. lia.
  - constructor; [done|]. rewrite insert_recent_perm. constructor; [unfold more_recent; lia|done].
Qed.

Lemma sort_recent_sorted l : StronglySorted more_recent (sort_recent l).
Proof. induction l as [|x l IH]; simpl; [constructor|]. by apply insert_recent_sorted. Qed.

Lemma sorted_split (l : list (Addr * Z)) k x y :
  StronglySorted more_recent l -> x ∈ take k l -> y ∈ drop k l -> y.2 <= x.2.
Proof.
  intros Hs. revert k. induction Hs as [|z l Hs IH Hz]; intros k Hx Hy.
  - rewrite take_nil in Hx. by apply elem_of_nil in Hx.
  - destruct k as [|k]; simpl in *; [by apply elem_of_nil in Hx|].
    apply elem_of_cons in Hx as [->|Hx]; [|by apply (IH k)].
    rewrite Forall_forall in Hz. apply Hz. rewrite <- (take_drop k l). apply elem_of_app. by right.
Qed.

Lemma length_filter_le {A} (f : A -> bool) (l : list A) : (length (List.filter f l) <= length l)%nat.
Proof. induction l as [|x l IH]; simpl; [done|]. destruct (f x); simpl; lia. Qed.

(** ** Lemmas on resolve requests *)

Section Resolve.
Context {E : Type}.
Variable iter_order : gmap Addr PathState -> list (Addr * PathState).

(** No request waits while a path is known, and the requests are answered in the
    order they were made. *)
Record resolve_inv (s : @RemotePathState E) (asked : list Z) : Prop := mkResolveInv {
  inv_waiting : pending_resolve_requests s = [] \/ paths s = ∅;
  inv_answered : map fst (replies s) ++ pending_resolve_requests s = asked
}.

Lemma emit_inv s asked err :
  map fst (replies s) ++ pending_resolve_requests s = asked ->
  resolve_inv (emit_pending_resolve_requests (E := E) s err) asked.
Proof.
  intros Ha. unfold emit_pending_resolve_requests.
  destruct (pending_resolve_requests s) as [|tx rest] eqn:Hp.
  - constructor; [by left|by rewrite Hp].
  - constructor; simpl; [by left|]. rewrite app_nil_r, <- Ha, map_app. simpl. by rewrite map_map, map_id.
Qed.

Lemma emit_paths (s : @RemotePathState E) err : paths (emit_pending_resolve_requests s err) = paths s.
Proof. unfold emit_pending_resolve_requests. by destruct (pending_resolve_requests s). Qed.

Lemma emit_known_ok (s : @RemotePathState E) err :
  paths s <> ∅ -> forallb is_ok_reply (replies s) = true ->
  forallb is_ok_reply (replies (emit_pending_resolve_requests s err)) = true.
Proof.
  intros Hp Hr. unfold emit_pending_resolve_requests.
  destruct (pending_resolve_requests s) as [|tx rest]; [done|]. rewrite bool_decide_false by done.
  cbn [replies]. rewrite forallb_app, Hr. simpl. by induction rest.
Qed.

Lemma prune_empty order : prune_non_relay_paths order ∅ = ∅.
Proof. by unfold prune_non_relay_paths. Qed.

Lemma prune_inv s asked : resolve_inv s asked -> resolve_inv (prune_paths iter_order s) asked.
Proof.
  intros [Hw Ha]. constructor; simpl; [|done].
  destruct Hw as [Hw|Hw]; [by left|right]. rewrite Hw. apply prune_empty.
Qed.

Lemma insert_sources_nonempty source now addrs (p : gmap Addr PathState) :
  p <> ∅ -> fold_left (insert_source source now) addrs p <> ∅.
Proof.
  revert p. induction addrs as [|a addrs IH]; intros p Hp; simpl; [done|].
  apply IH. unfold insert_source. apply insert_non_empty.
Qed.

Lemma insert_multiple_inv s asked addrs source now :
  resolve_inv s asked -> resolve_inv (insert_multiple iter_order s addrs source now) asked.
Proof.
  intros [Hw Ha]. unfold insert_multiple. apply prune_inv. cbn [set_paths paths].
  case_bool_decide as He; simpl.
  - case_bool_decide as Hn; simpl.
    + constructor; [by right|done].
    + by apply emit_inv.
  - constructor; [|done]. simpl. destruct Hw as [Hw|Hw]; [by left|done].
Qed.

Lemma apply_op_inv s asked o :
  resolve_inv s asked -> resolve_inv (apply_op iter_order s o) (asked ++ requests [o]).
Proof.
  intros Hi. pose proof Hi as [Hw Ha]. destruct o as [addr source now|addr now|addrs source now|tx|res]; simpl;
    rewrite ?app_nil_r.
  - apply prune_inv. by apply emit_inv.
  - unfold abandoned_path. destruct (paths s !! addr) as [st|] eqn:Hs; [|done].
    constructor; simpl; [|done]. destruct Hw as [Hw|Hw]; [by left|]. by rewrite Hw, lookup_empty in Hs.
  - by apply insert_multiple_inv.
  - unfold resolve_remote. case_bool_decide as He; simpl.
    + constructor; simpl; [by right|]. rewrite <- Ha. by rewrite app_assoc.
    + constructor; simpl; [left|]; (destruct Hw as [Hw|Hw]; [|done]); [done|].
      rewrite <- Ha, Hw, !app_nil_r. by rewrite map_app.
  - by apply emit_inv.
Qed.

Lemma run_ops_inv ops : resolve_inv (run_ops iter_order ops) (requests ops).
Proof.
  unfold run_ops. induction ops as [|o ops IH] using rev_ind; [by constructor; [left|]|].
  rewrite fold_left_app. simpl. unfold requests in *. rewrite omap_app.
  by apply (apply_op_inv _ _ o).
Qed.

Lemma apply_op_ok s o :
  is_lookup_finished o = false -> forallb is_ok_reply (replies s) = true ->
  forallb is_ok_reply (replies (apply_op (E := E) iter_order s o)) = true.
Proof.
  intros Ho Hr. destruct o as [addr source now|addr now|addrs source now|tx|res]; simpl in *; try done.
  - apply emit_known_ok; [apply insert_non_empty|done].
  - unfold abandoned_path. by destruct (paths s !! addr).
  - unfold insert_multiple. case_bool_decide as He; simpl; [|done].
    case_bool_decide as Hn; simpl; [done|]. by apply emit_known_ok.
  - unfold resolve_remote. case_bool_decide; simpl; [done|]. by rewrite forallb_app, Hr.
Qed.

End Resolve.

(** ** Lemmas on path selection *)

Lemma key_lt_irrefl k : key_lt k k = false.
Proof. unfold key_lt. by rewrite !Z.ltb_irrefl, andb_false_r. Qed.

Lemma key_lt_spec a b :
  key_lt a b = true <->
  transport_rank a.1 < transport_rank b.1 \/ (transport_rank a.1 = transport_rank b.1 /\ a.2 < b.2).
Proof. unfold key_lt. rewrite orb_true_iff, andb_true_iff, !Z.ltb_lt, Z.eqb_eq. done. Qed.

Lemma key_ge_spec a b :
  key_lt a b = false <->
  transport_rank b.1 < transport_rank a.1 \/ (transport_rank b.1 = transport_rank a.1 /\ b.2 <= a.2).
Proof.
  rewrite <- not_true_iff_false, key_lt_spec. lia.
Qed.

Lemma transport_rank_inj s t : transport_rank s = transport_rank t -> s = t.
Proof. by destruct s, t. Qed.

Lemma key_antisym a b : key_lt a b = false -> key_lt b a = false -> a = b.
Proof.
  rewrite !key_ge_spec. intros H1 H2. destruct a as [s x], b as [t y]; simpl in *.
  f_equal; [apply transport_rank_inj|]; lia.
Qed.

(** What the pass has found in the candidates seen. *)
Record pass_inv (self : Biases) (current : option FourTuple) (seen : list candidate)
    (best : option (FourTuple * (TransportType * Z))) (current_key : option (TransportType * Z)) : Prop := mkPassInv {
  pass_best :
    match best with
    | None => forall p r, (p, Some r) ∉ seen
    | Some (p, k) => (exists r, (p, Some r) ∈ seen /\ k = sort_key self p r) /\
                     forall q r, (q, Some r) ∈ seen -> key_lt (sort_key self q r) k = false
    end;
  pass_current :
    match current_key with
    | None => forall c r, current = Some c -> (c, Some r) ∉ seen
    | Some k => (exists c r, current = Some c /\ (c, Some r) ∈ seen /\ k = sort_key self c r) /\
                forall c r, current = Some c -> (c, Some r) ∈ seen -> key_lt (sort_key self c r) k = false
    end
}.

Lemma seen_snoc (x y : candidate) seen : x ∈ seen ++ [y] <-> x ∈ seen \/ x = y.
Proof. by rewrite elem_of_app, list_elem_of_singleton. Qed.

Lemma pass_step_best self seen best p r :
  match best with
  | None => forall p r, (p, Some r) ∉ seen
  | Some (p, k) => (exists r, (p, Some r) ∈ seen /\ k = sort_key self p r) /\
                   forall q r, (q, Some r) ∈ seen -> key_lt (sort_key self q r) k = false
  end ->
  match (if (if best is Some (_, b) then key_lt (sort_key self p r) b else true)
         then Some (p, sort_key self p r) else best) with
  | None => forall p' r', (p', Some r') ∉ seen ++ [(p, Some r)]
  | Some (p', k) => (exists r', (p', Some r') ∈ seen ++ [(p, Some r)] /\ k = sort_key self p' r') /\
                    forall q r', (q, Some r') ∈ seen ++ [(p, Some r)] -> key_lt (sort_key self q r') k = false
  end.
Proof.
  intros Hb. destruct best as [[b k]|].
  - destruct Hb as [(rb & Hin & ->) Hmin]. destruct (key_lt (sort_key self p r) (sort_key self b rb)) eqn:Hlt.
    + split; [exists r; rewrite seen_snoc; auto|]. intros q r' [Hq|[= -> ->]]%seen_snoc; [|apply key_lt_irrefl].
      specialize (Hmin _ _ Hq). rewrite key_lt_spec in Hlt. rewrite key_ge_spec in *. lia.
    + split; [exists rb; rewrite seen_snoc; auto|]. intros q r' [Hq|[= -> ->]]%seen_snoc; auto.
  - split; [exists r; rewrite seen_snoc; auto|]. intros q r' [Hq|[= -> ->]]%seen_snoc; [|apply key_lt_irrefl].
    by apply Hb in Hq.
Qed.

Lemma pass_step_current self current seen (ck : option (TransportType * Z)) p r :
  match ck with
  | None => forall c r, current = Some c -> (c, Some r) ∉ seen
  | Some k => (exists c r, current = Some c /\ (c, Some r) ∈ seen /\ k = sort_key self c r) /\
              forall c r, current = Some c -> (c, Some r) ∈ seen -> key_lt (sort_key self c r) k = false
  end ->
  match (if bool_decide (Some p = current) && (if ck is Some k then key_lt (sort_key self p r) k else true)
         then Some (sort_key self p r) else ck) with
  | None => forall c r', current = Some c -> (c, Some r') ∉ seen ++ [(p, Some r)]
  | Some k => (exists c r', current = Some c /\ (c, Some r') ∈ seen ++ [(p, Some r)] /\ k = sort_key self c r') /\
              forall c r', current = Some c -> (c, Some r') ∈ seen ++ [(p, Some r)] ->
                key_lt (sort_key self c r') k = false
  end.
Proof.
  intros Hc. case_bool_decide as Hp; simpl.
  - subst current. destruct ck as [k|].
    + destruct Hc as [(c & rc & [= <-] & Hin & ->) Hmin].
      destruct (key_lt (sort_key self p r) (sort_key self p rc)) eqn:Hlt.
      * split; [exists p, r; rewrite seen_snoc; auto|].
        intros c r' [= <-] [Hq|[= ->]]%seen_snoc; [|apply key_lt_irrefl].
        specialize (Hmin _ _ eq_refl Hq). rewrite key_lt_spec in Hlt. rewrite key_ge_spec in *. lia.
      * split; [exists p, rc; rewrite seen_snoc; auto|]. intros c r' [= <-] [Hq|[= ->]]%seen_snoc; auto.
    + split; [exists p, r; rewrite seen_snoc; auto|].
      intros c r' [= <-] [Hq|[= ->]]%seen_snoc; [by apply Hc in Hq|apply key_lt_irrefl].
  - destruct ck as [k|].
    + destruct Hc as [(c & rc & Hcur & Hin & ->) Hmin].
      split; [exists c, rc; rewrite seen_snoc; auto|].
      intros c' r' Hc' [Hq|[= -> ->]]%seen_snoc; [auto|congruence].
    + intros c r' Hc' [Hq|[= -> ->]]%seen_snoc; [by apply Hc in Hq|congruence].
Qed.

Lemma pass_spec self current paths :
  let '(best, ck) := fold_left (select_pass self current) paths (None, None) in
  pass_inv self current paths best ck.
Proof.
  induction paths as [|[p [r|]] seen IH] using rev_ind.
  - constructor; intros ? ?; [apply not_elem_of_nil|intros _; apply not_elem_of_nil].
  - rewrite fold_left_app. simpl. destruct (fold_left _ _ _) as [best ck]. destruct IH as [Hb Hc].
    constructor; [by apply pass_step_best|by apply pass_step_current].
  - rewrite fold_left_app. simpl. destruct (fold_left _ _ _) as [best ck]. destruct IH as [Hb Hc].
    assert (Hs : forall q x, (q, Some x) ∈ seen ++ [(p, None)] <-> (q, Some x) ∈ seen).
    { intros q x. rewrite seen_snoc. split; [|auto]. by intros [?|[=]]. }
    constructor.
    + destruct best as [[b k]|]; [|intros q x; rewrite Hs; auto].
      destruct Hb as [(x & Hx & ->) Hm]. split; [exists x; by rewrite Hs|]. intros q y. rewrite Hs. auto.
    + destruct ck as [k|]; [|intros c x Hcur; rewrite Hs; auto].
      destruct Hc as [(c & x & Hcur & Hx & ->) Hm]. split; [exists c, x; by rewrite Hs|].
      intros q y Hq. rewrite Hs. auto.
Qed.

(** The best candidate does not depend on the current path. *)
Lemma pass_best_current self cur1 cur2 paths :
  (fold_left (select_pass self cur1) paths (None, None)).1 =
  (fold_left (select_pass self cur2) paths (None, None)).1.
Proof.
  induction paths as [|[p [r|]] seen IH] using rev_ind; [done| |];
    rewrite !fold_left_app; simpl;
    destruct (fold_left (select_pass self cur1) _ _) as [b1 c1],
             (fold_left (select_pass self cur2) _ _) as [b2 c2]; simpl in *; by subst.
Qed.

(** Once selected, a path is kept on the same measurements. *)
Lemma select_stays self current cands p k :
  (fold_left (select_pass self current) cands (None, None)).1 = Some (p, k) ->
  select self (Some p) cands = None.
Proof.
  intros Hb. rewrite (pass_best_current self current (Some p)) in Hb.
  pose proof (pass_spec self (Some p) cands) as Hp. unfold select.
  destruct (fold_left (select_pass self (Some p)) cands _) as [best ck]. simpl in Hb. subst best.
  destruct k as [pt pb], Hp as [[(r & Hin & Hk) Hmin] Hc]. destruct ck as [k'|].
  - destruct Hc as [(c & x & [= <-] & Hx & ->) Hm].
    assert (Heq : sort_key self p x = (pt, pb)).
    { apply key_antisym; [by apply Hmin|]. rewrite Hk. by apply Hm. }
    rewrite Heq. rewrite bool_decide_true by done. simpl.
    destruct (Z.leb_spec (pb + RTT_SWITCHING_MIN) pb); [|done].
    unfold RTT_SWITCHING_MIN, from_millis in *. lia.
  - by apply (Hc p r) in Hin.
Qed.

(** ** Properties *)

(** Pruning happens once thirty non-relay paths are known, and then removes
    exactly two groups of them. The paths that never worked all go, unless all
    known paths are such, in which case thirty stay. Of the paths that are closed
    the ten closed longest ago go, or all of them when there are no more than ten.
    Relay paths, open paths and untried paths are always kept. *)
Theorem prune_exact order (paths : gmap Addr PathState) :
  order ≡ₚ map_to_list paths ->
  let primary := List.filter (fun '(addr, _) => negb (Addr_is_relay addr)) order in
  let paths' := prune_non_relay_paths order paths in
  ((length primary < 30)%nat -> paths' = paths) /\
  ((30 <= length primary)%nat ->
   exists recent old gone,
     recent ++ old ≡ₚ inactive_of primary /\
     length old = Nat.min 10 (length (inactive_of primary)) /\
     (forall x y, x ∈ recent -> y ∈ old -> y.2 <= x.2) /\
     (if (length (failed_of primary) =? size paths)%nat
      then gone ⊆+ failed_of primary /\ (size paths - length gone = 30)%nat
      else gone = failed_of primary) /\
     forall a, paths' !! a = if decide (a ∈ gone ++ map fst old) then None else paths !! a).
Proof.
  intros Hord primary. unfold prune_non_relay_paths. fold primary.
  assert (Hsize : (length primary <= size paths)%nat).
  { rewrite <- length_map_to_list, <- Hord. apply length_filter_le. }
  unfold MAX_NON_RELAY_PATHS, MAX_INACTIVE_NON_RELAY_PATHS. split.
  - intros H. destruct (Nat.ltb_spec (size paths) 30); [done|].
    destruct (Nat.ltb_spec (length primary) 30); [done|lia].
  - intros H. destruct (Nat.ltb_spec (size paths) 30); [lia|].
    destruct (Nat.ltb_spec (length primary) 30); [lia|].
    set (l := sort_recent (inactive_of primary)). set (k := (length l - 10)%nat).
    assert (Hlen : length l = length (inactive_of primary)) by (apply Permutation_length, sort_recent_perm).
    exists (take k l), (drop k l).
    exists (if (length (failed_of primary) =? size paths)%nat
            then take (size paths - 30) (failed_of primary) else failed_of primary).
    split; [rewrite take_drop; apply sort_recent_perm|]. split; [rewrite length_drop; lia|].
    split; [intros x y; apply sorted_split, sort_recent_sorted|]. split.
    + destruct (Nat.eqb_spec (length (failed_of primary)) (size paths)) as [He|]; [|done].
      split; [apply sublist_submseteq, sublist_take|]. rewrite length_take. lia.
    + intros a. rewrite map_lookup_filter. case_decide as Ha.
      * destruct (paths !! a) as [st|]; simpl; [|done]. rewrite option_guard_False; [done|].
        simpl. rewrite elem_of_list_to_set. auto.
      * destruct (paths !! a) as [st|]; simpl; [|done]. rewrite option_guard_True; [done|].
        simpl. by rewrite elem_of_list_to_set.
Qed.

(** Every request to resolve the remote is answered exactly once and in the
    order of the requests, and none waits while a path is known, whatever paths
    are inserted, opened, abandoned or pruned in between. A request fails only
    when an address lookup finishes. *)
Theorem resolve_requests_answered {E} iter_order (ops : list (@path_op E)) :
  let s := run_ops iter_order ops in
  map fst (replies s) ++ pending_resolve_requests s = requests ops /\
  (pending_resolve_requests s = [] \/ paths s = ∅) /\
  (existsb is_lookup_finished ops = false -> forallb is_ok_reply (replies s) = true).
Proof.
  destruct (run_ops_inv iter_order ops) as [Hw Ha]. split; [done|]. split; [done|].
  clear Hw Ha. unfold run_ops. induction ops as [|o ops IH] using rev_ind; [done|].
  rewrite existsb_app, fold_left_app, orb_false_iff. intros [Hops Ho]. simpl in *.
  rewrite orb_false_r in Ho. apply apply_op_ok; auto.
Qed.

(** C32: The path selector picks a path with the best key, primary transports
    before backups and then the lowest biased round-trip time. It leaves the
    current path only if that has no statistics, is of the other tier, or is worse
    by at least 5 ms, and it never flaps: on the same measurements it stays with
    the path it has just picked. *)
Theorem selector_best_and_stable self current cands :
  match select self current cands with
  | Some p =>
      (exists r, (p, Some r) ∈ cands /\
        (forall q x, (q, Some x) ∈ cands -> key_lt (sort_key self q x) (sort_key self p r) = false) /\
        (forall c x, current = Some c -> (c, Some x) ∈ cands ->
           (sort_key self c x).1 <> (sort_key self p r).1 \/
           (sort_key self p r).2 + RTT_SWITCHING_MIN <= (sort_key self c x).2)) /\
      select self (Some p) cands = None
  | None =>
      (forall q x, (q, Some x) ∉ cands) \/
      exists c x, current = Some c /\ (c, Some x) ∈ cands /\
        forall q y, (q, Some y) ∈ cands -> (sort_key self q y).1 = (sort_key self c x).1 ->
          (sort_key self c x).2 < (sort_key self q y).2 + RTT_SWITCHING_MIN
  end.
Proof.
  unfold select at 1. pose proof (pass_spec self current cands) as Hp.
  destruct (fold_left (select_pass self current) cands (None, None)) as [best ck] eqn:Hf.
  destruct Hp as [Hb Hc]. destruct best as [[p [pt pb]]|]; [|by left].
  destruct Hb as [(r & Hin & Hk) Hmin].
  assert (Hstay : select self (Some p) cands = None) by (eapply select_stays; by rewrite Hf).
  destruct ck as [[ct cb]|].
  - destruct Hc as [(c & x & Hcur & Hx & Hck) Hcmin].
    case_bool_decide as Ht; cbn [negb].
    + destruct (Z.leb_spec (pb + RTT_SWITCHING_MIN) cb) as [Hle|Hgt].
      * split; [|exact Hstay]. exists r. rewrite <- Hk. split; [done|]. split; [done|].
        intros c' x' Hc' Hx'. right. rewrite Hcur in Hc'. injection Hc' as <-.
        specialize (Hcmin _ _ Hcur Hx'). apply key_ge_spec in Hcmin.
        assert (Htier : (sort_key self c x').1 = ct) by (apply (f_equal fst) in Hck; simpl in Hck; by rewrite Hck).
        rewrite Htier in Hcmin. rewrite <- ?Hk. cbn [fst snd] in *. lia.
      * right. exists c, x. split; [done|]. split; [done|]. intros q y Hq Htq.
        specialize (Hmin _ _ Hq). apply key_ge_spec in Hmin. rewrite Htq, <- Hck in Hmin. subst ct.
        rewrite <- Hck. cbn [fst snd] in *. lia.
    + split; [|exact Hstay]. exists r. rewrite <- Hk. split; [done|]. split; [done|].
      intros c' x' Hc' Hx'. left. rewrite Hcur in Hc'. injection Hc' as <-.
      apply (f_equal fst) in Hck. change ((sort_key self c x).1 <> pt). by rewrite <- Hck.
  - split; [|exact Hstay]. exists r. rewrite <- Hk. split; [done|]. split; [done|].
    intros c x Hcur Hx. by apply (Hc c x) in Hx.
Qed.

(** ** Examples *)

Definition nth_addr (n : nat) : Addr := AddrIp (SocketV4 [Byte.x7f; Byte.x00; Byte.x00; Byte.x01] (Z.of_nat n)).

(** Twenty paths that never worked and ten that were just closed. *)
Definition crowded : gmap Addr PathState :=
  list_to_map (map (fun n => (nth_addr n, mkPathState ∅ (if (n <? 20)%nat then Unusable else Inactive 100))) (seq 0 30)).

(** Pruning forgets all of them, also the ten that have worked. *)
Lemma prune_forgets_working_paths : prune_non_relay_paths (map_to_list crowded) crowded = ∅.
Proof. apply (bool_decide_unpack _). vm_compute. exact I. Qed.

Lemma prune_exact_witness :
  exists recent old gone,
    recent ++ old ≡ₚ inactive_of (map_to_list crowded) /\ length old = 10%nat /\
    (forall a, prune_non_relay_paths (map_to_list crowded) crowded !! a =
       if decide (a ∈ gone ++ map fst old) then None else crowded !! a).
Proof.
  assert (Hf : List.filter (fun '(addr, _) => negb (Addr_is_relay addr)) (map_to_list crowded) = map_to_list crowded)
    by (vm_compute; reflexivity).
  destruct (prune_exact (map_to_list crowded) crowded (Permutation_refl _)) as [_ H].
  rewrite Hf in H. destruct H as (recent & old & gone & Hp & Hl & _ & _ & Ha); [vm_compute; lia|].
  exists recent, old, gone. split; [exact Hp|]. split; [|exact Ha]. rewrite Hl. vm_compute. reflexivity.
Defined.

End Paths.
