(* ===== verification/SocketActor.v ===== *)
(** * SocketActor: direct addresses, network changes and shutdown

    Models the parts of [iroh/src/socket.rs] that decide something: the direct
    addresses of an endpoint and their publication, the scheduling of net reports
    by [DirectAddrUpdateState], the handling of network changes and of reports by
    the socket's [Actor], received datagrams, and closing. The state of the
    network interfaces, which [netwatch] reports, is a record of the fields the
    source reads. *)

From S2P Require Import Prelude BTree External Instances Keys Addrs NetText EndpointInfo DnsResolver RelayMap.
From S2P Require Import MappedAddrs NetReport.
Import Addrs Info Mapped NetReport.

Module Sock.

(** ** Direct addresses *)

Inductive DirectAddrType := Unknown | Local | Qad | Portmapped | Qad4LocalPort | Config.

#[export] Instance DirectAddrType_eq_dec : EqDecision DirectAddrType.
Proof. solve_decision. Defined.

Record DirectAddr := mkDirectAddr { addr : SocketAddr; typ : DirectAddrType }.

#[export] Instance DirectAddr_eq_dec : EqDecision DirectAddr.
Proof. solve_decision. Defined.

#[export] Instance DirectAddrType_countable : Countable DirectAddrType.
Proof.
  refine (inj_countable'
    (fun t => match t with Unknown => 0%nat | Local => 1%nat | Qad => 2%nat | Portmapped => 3%nat
                         | Qad4LocalPort => 4%nat | Config => 5%nat end)
    (fun n => match n with 0%nat => Unknown | 1%nat => Local | 2%nat => Qad | 3%nat => Portmapped
                         | 4%nat => Qad4LocalPort | _ => Config end) _).
  by intros [].
Defined.

#[export] Instance DirectAddr_countable : Countable DirectAddr.
Proof. refine (inj_countable' (fun d => (addr d, typ d)) (fun x => mkDirectAddr x.1 x.2) _). by intros []. Defined.

(** The network of an interface; of the IPv6 flags only [deprecated] is read. *)
Inductive IpNet := NetV4 (ip : bytes) | NetV6 (ip : bytes) (deprecated : bool).

(** The state of [netmon]. *)
Record netmon_state := mkNetmon {
  interfaces : list (list IpNet);
  regular : list IpAddr;
  loopback : list IpAddr;
  default_route_interface : bool;
  netmon_v4 : bool;
  netmon_v6 : bool
}.

(** [IpAddr::is_unspecified]. *)
Definition is_unspecified (ip : IpAddr) : bool :=
  match ip with V4 b | V6 b => forallb (Byte.eqb Byte.x00) b end.

Definition find_flags (state : netmon_state) (ip : IpAddr) : option bool :=
  match ip with
  | V4 _ => None
  | V6 ip =>
      head (omap (fun net => match net with
                             | NetV4 _ => None
                             | NetV6 a deprecated => if bool_decide (a = ip) then Some deprecated else None
                             end) (concat (interfaces state)))
  end.

(** The entries: how an address was found, and its flags. *)
Abbreviation found := (DirectAddrType * option bool)%type.
Abbreviation addr_entries := (gmap SocketAddr found).

(** [BTreeMap::entry(..).or_insert(..)]. *)
Definition or_insert (m : addr_entries) (a : SocketAddr) (v : found) : addr_entries :=
  match m !! a with Some _ => m | None => <[a := v]> m end.

Definition or_insert_all (m : addr_entries) (l : list (SocketAddr * found)) : addr_entries :=
  fold_left (fun m '(a, v) => or_insert m a v) l m.

Definition is_ipv4 (a : SocketAddr) : bool := if a is SocketV4 _ _ then true else false.

(** The port of a socket bound to the unspecified address of a family. *)
Definition unspecified_port (v4 : bool) (local_addrs : list (SocketAddr * SocketAddr)) : option Z :=
  head (omap (fun '(_, a) =>
    if Bool.eqb (is_ipv4 a) v4 && is_unspecified (socket_ip a) then Some (socket_port a) else None) local_addrs).

Definition collect_local_addresses (state : netmon_state) (local_addrs : list (SocketAddr * SocketAddr))
    (addrs : addr_entries) : addr_entries :=
  let has_ipv4_unspecified := unspecified_port true local_addrs in
  let has_ipv6_unspecified := unspecified_port false local_addrs in
  let addrs :=
    if existsb (fun '(_, local) => is_unspecified (socket_ip local)) local_addrs then
      let ips := if bool_decide (regular state = []) && bool_decide (addrs = ∅) then loopback state else regular state in
      or_insert_all addrs
        (omap (fun ip =>
           port ← (if ip is V4 _ then has_ipv4_unspecified else has_ipv6_unspecified);
           Some (socket_addr_new ip port, (Local, find_flags state ip))) ips)
    else addrs in
  or_insert_all addrs
    (omap (fun '(bound, local) =>
       if is_unspecified (socket_ip bound) then None
       else Some (local, (Local, find_flags state (socket_ip local)))) local_addrs).

Definition v4_socket (a : SocketAddrV4) : SocketAddr := SocketV4 a.1 a.2.
Definition v6_socket (a : SocketAddrV6) : SocketAddr := let '(ip, port, flow, scope) := a in SocketV6 ip port flow scope.

(** The addresses a report adds: the global ones, and for a varying mapping the
    global IPv4 address with the port the endpoint is configured with. *)
Definition report_addrs (ip_bind_addrs : list SocketAddr) (report : Report) : list (SocketAddr * found) :=
  match global_v4 report with
  | Some global =>
      let port := head (omap (fun a => if socket_port a =? 0 then None else Some (socket_port a)) ip_bind_addrs) in
      [(v4_socket global, (Qad, None))] ++
      match port with
      | Some port =>
          if default false (mapping_varies_by_dest report) then [(SocketV4 global.1 port, (Qad4LocalPort, None))] else []
      | None => []
      end
  | None => []
  end ++
  match global_v6 report with
  | Some global => [(v6_socket global, (Qad, None))]
  | None => []
  end.

Definition update_direct_addresses (portmapped : option SocketAddrV4) (report : option Report)
    (ip_bind_addrs ip_local_addrs : list SocketAddr) (state : netmon_state) (configured : gset SocketAddr)
    : gset DirectAddr :=
  let addrs := or_insert_all ∅ (if portmapped is Some a then [(v4_socket a, (Portmapped, None))] else []) in
  let addrs := or_insert_all addrs (if report is Some r then report_addrs ip_bind_addrs r else []) in
  let addrs := collect_local_addresses state (zip ip_bind_addrs ip_local_addrs) addrs in
  let addrs := or_insert_all addrs (map (fun a => (a, (Config, None))) (elements configured)) in
  list_to_set (omap (fun '(a, (t, flags)) => if default false flags then None else Some (mkDirectAddr a t))
    (map_to_list addrs)).

(** ** Publication *)

Record Socket := mkSocket {
  direct_addrs : gset DirectAddr;
  local_addrs : list Addr;
  user_data : option UserData;
  configured_addrs : gset SocketAddr;
  ipv6_reported : bool;
  published : list EndpointData              (* newest first *)
}.

Definition relay_of (a : Addr) : option RelayUrl := if a is AddrRelay url _ then Some url else None.

Definition my_relay (s : Socket) : option RelayUrl := head (omap relay_of (local_addrs s)).
Definition home_relay (s : Socket) : list RelayUrl := omap relay_of (local_addrs s).
Definition ip_local_addrs (s : Socket) : list SocketAddr := omap into_socket_addr (local_addrs s).

(** What the socket knows about itself; the order of the addresses is the set's. *)
Definition my_data (s : Socket) : EndpointData :=
  let addrs := map (fun d => TransportIp (addr d)) (elements (direct_addrs s)) in
  let addrs := addrs ++ (if my_relay s is Some url then [TransportRelay url] else []) in
  set_user_data (EndpointData_new addrs) (user_data s).

Definition nothing_known (s : Socket) : bool :=
  negb (is_some (my_relay s)) && bool_decide (direct_addrs s = ∅) && negb (is_some (user_data s)).

Definition publish_my_addr (s : Socket) : Socket :=
  if nothing_known s then s
  else mkSocket (direct_addrs s) (local_addrs s) (user_data s) (configured_addrs s) (ipv6_reported s)
         (my_data s :: published s).

Definition store_direct_addresses (s : Socket) (addrs : gset DirectAddr) : Socket :=
  let updated := negb (bool_decide (direct_addrs s = addrs)) in
  let s := mkSocket addrs (local_addrs s) (user_data s) (configured_addrs s) (ipv6_reported s) (published s) in
  if updated then publish_my_addr s else s.

Definition set_user_data_for_address_lookup (s : Socket) (data : option UserData) : Socket :=
  if bool_decide (user_data s = data) then s
  else publish_my_addr
         (mkSocket (direct_addrs s) (local_addrs s) data (configured_addrs s) (ipv6_reported s) (published s)).

(** The watcher of the local addresses fires. *)
Definition local_addrs_updated (s : Socket) (addrs : list Addr) : Socket :=
  let s := mkSocket (direct_addrs s) addrs (user_data s) (configured_addrs s) (ipv6_reported s) (published s) in
  if bool_decide (addrs = []) then s else publish_my_addr s.

Definition set_configured (s : Socket) (addrs : gset SocketAddr) : Socket :=
  mkSocket (direct_addrs s) (local_addrs s) (user_data s) addrs (ipv6_reported s) (published s).

(** [add_external_addr] and [remove_external_addr], with whether the actor is
    asked to refresh the direct addresses. *)
Definition add_external_addr (s : Socket) (a : SocketAddr) : Socket * bool :=
  (set_configured s ({[a]} ∪ configured_addrs s), true).

Definition remove_external_addr (s : Socket) (a : SocketAddr) : bool * (Socket * bool) :=
  let removed := bool_decide (a ∈ configured_addrs s) in
  (removed, (set_configured s (configured_addrs s ∖ {[a]}), removed)).

(** What [update_direct_addresses] reads besides the socket. *)
Record Surroundings := mkSurroundings {
  port_mapping : option SocketAddrV4;
  ip_bind_addrs : list SocketAddr;
  netmon : netmon_state
}.

Definition refresh_direct_addresses (env : Surroundings) (report : option Report) (s : Socket) : Socket :=
  store_direct_addresses s
    (update_direct_addresses (port_mapping env) report (ip_bind_addrs env) (ip_local_addrs s) (netmon env)
       (configured_addrs s)).

(** The socket and the report handed to the transports. *)
Definition handle_net_report_report (env : Surroundings) (s : Socket) (report : option Report)
    : Socket * option Report :=
  match report with
  | None => (refresh_direct_addresses env None s, None)
  | Some r =>
      let s := mkSocket (direct_addrs s) (local_addrs s) (user_data s) (configured_addrs s) (udp_v6 r) (published s) in
      let r := if preferred_relay r is None then (if my_relay s is Some u then set_preferred r (Some u) else r) else r in
      (refresh_direct_addresses env (Some r) s, Some r)
  end.

(** ** Scheduling of net reports *)

Inductive UpdateReason :=
| ReasonNone | Periodic | PortmapUpdated | LinkChangeMajor | LinkChangeMinor | RelayMapChange.

#[export] Instance UpdateReason_eq_dec : EqDecision UpdateReason.
Proof. solve_decision. Defined.

Definition reason_is_major (why : UpdateReason) : bool :=
  match why with LinkChangeMajor | RelayMapChange => true | _ => false end.

(** The task of a run holds the lock of the reporter until it ends: it makes the
    report, then reports that it is done, then drops the guard. *)
Inductive run_phase := Reporting | Reported | SentDone.

Record DirectAddrUpdateState := mkUpdateState {
  want_update : option UpdateReason;
  running : option (UpdateReason * run_phase);    (* who holds the lock *)
  done_msgs : nat;                                (* unread messages of [run_done] *)
  started : list UpdateReason;                    (* runs so far, newest first *)
  relay_map_empty : bool;
  shutting_down : bool
}.

(** [DirectAddrUpdateState::run], which is given the lock. *)
Definition run (u : DirectAddrUpdateState) (why : UpdateReason) : DirectAddrUpdateState :=
  if shutting_down u || relay_map_empty u then u
  else mkUpdateState (want_update u) (Some (why, Reporting)) (done_msgs u) (why :: started u)
         (relay_map_empty u) (shutting_down u).

Definition set_want (u : DirectAddrUpdateState) (w : option UpdateReason) : DirectAddrUpdateState :=
  mkUpdateState w (running u) (done_msgs u) (started u) (relay_map_empty u) (shutting_down u).

Definition schedule_run (u : DirectAddrUpdateState) (why : UpdateReason) : DirectAddrUpdateState :=
  match running u with
  | None => run u why
  | Some _ => set_want u (Some why)
  end.

Definition try_run (u : DirectAddrUpdateState) : DirectAddrUpdateState :=
  match running u, want_update u with
  | None, Some why => run (set_want u None) why
  | _, _ => u
  end.

Definition set_running (u : DirectAddrUpdateState) (r : option (UpdateReason * run_phase)) (msgs : nat)
    : DirectAddrUpdateState :=
  mkUpdateState (want_update u) r msgs (started u) (relay_map_empty u) (shutting_down u).

(** The channel of [run_done] holds eight messages. *)
Definition RUN_DONE_CAPACITY : nat := 8.

(** The steps of the actor and of the task of a run. The report itself ends by a
    result, by its timeout or by cancellation. *)
Inductive update_step : DirectAddrUpdateState -> DirectAddrUpdateState -> Prop :=
| step_schedule u why : update_step u (schedule_run u why)
| step_done n u : done_msgs u = S n -> update_step u (try_run (set_running u (running u) n))
| step_reported why u : running u = Some (why, Reporting) ->
    update_step u (set_running u (Some (why, Reported)) (done_msgs u))
| step_send why u : running u = Some (why, Reported) -> (done_msgs u < RUN_DONE_CAPACITY)%nat ->
    update_step u (set_running u (Some (why, SentDone)) (S (done_msgs u)))
| step_unlock why u : running u = Some (why, SentDone) -> update_step u (set_running u None (done_msgs u)).

Definition update_init (empty : bool) : DirectAddrUpdateState := mkUpdateState None None 0 [] empty false.

(** ** Network changes *)

Definition INITIAL_INTERVAL : Z := from_millis 100.
Definition MAX_INTERVAL : Z := from_secs 1.
Definition MAX_WAIT : Z := from_secs 5.

Record PendingNetworkChangeNotify := mkPending {
  next_check : Z;
  interval : Z;
  is_major : bool;
  pending_started : Z
}.

Definition pending_new (now : Z) (is_major : bool) : PendingNetworkChangeNotify :=
  mkPending (now + INITIAL_INTERVAL) INITIAL_INTERVAL is_major now.

Definition advance (now : Z) (p : PendingNetworkChangeNotify) : PendingNetworkChangeNotify :=
  let i := Z.min (interval p * 2) MAX_INTERVAL in
  mkPending (now + i) i (is_major p) (pending_started p).

Definition expired (now : Z) (p : PendingNetworkChangeNotify) : bool :=
  MAX_WAIT <=? saturating_duration_since now (pending_started p).

Definition has_usable_network (state : netmon_state) : bool :=
  default_route_interface state && (netmon_v4 state || netmon_v6 state).

Inductive effect :=
| Rebind
| CheckRelayConnection
| ResetDns
| ReStun (why : UpdateReason)
| NotifyQuic (major : bool).

Definition change_effects (major : bool) : list effect :=
  if major then [Rebind; CheckRelayConnection; ResetDns; ReStun LinkChangeMajor] else [ReStun LinkChangeMinor].

Definition handle_network_change (now : Z) (state : netmon_state) (major : bool)
    (pending : option PendingNetworkChangeNotify) : list effect * option PendingNetworkChangeNotify :=
  if has_usable_network state then (change_effects major ++ [NotifyQuic major], None)
  else
    (change_effects major,
     match pending with
     | Some p => Some (mkPending (next_check p) (interval p) (is_major p || major) (pending_started p))
     | None => Some (pending_new now major)
     end).

(** The timer of a pending notification fires. *)
Definition notify_tick (now : Z) (state : netmon_state) (pending : option PendingNetworkChangeNotify)
    : list effect * option PendingNetworkChangeNotify :=
  match pending with
  | None => ([], None)
  | Some p =>
      if has_usable_network state || expired now p then ([NotifyQuic (is_major p)], None)
      else ([], Some (advance now p))
  end.

(** The hint given to the QUIC stack: whether a path survives the change. *)
Definition is_path_recoverable (state : netmon_state) (remote : SocketAddr) (local_ip : option IpAddr) : bool :=
  match multipath_from remote with
  | Mixed _ => false
  | MappedRelay _ => true
  | MappedIp _ =>
      match local_ip with
      | Some ip => bool_decide (ip ∈ regular state ++ loopback state)
      | None => true
      end
  | MappedCustom _ => false
  end.

(** [new_re_stun_timer]: the drawn period is between 20 and 26 seconds; the first
    tick comes after it or at once. *)
Definition new_re_stun_timer (now drawn : Z) (initial_delay : bool) : Z * Z :=
  (if initial_delay then now + drawn else now, drawn).

(** ** The actor *)

Inductive ActorMessage := NetworkChange | RelayMapChanged | ResolveRemote | AddConnection | DirectAddrRefresh.

(** What a turn of the loop finds ready; [None] and [true] stand for a watcher or
    channel that has closed. *)
Inductive actor_event :=
| EvMsg (msg : option ActorMessage)
| EvReStunTimer
| EvLocalAddrs (addrs : option (list Addr))
| EvReport (report : option (option Report))
| EvRunDone (closed : bool)
| EvPortmap (closed : bool)
| EvLinkChange (major : option bool)
| EvNotifyTimer.

(** Effects outside of the actor's own state. *)
Inductive output :=
| OutChange (e : effect)
| OutTransports (r : Report)
| OutResetReStunTimer
| OutNetmon
| OutRemoteMap (msg : ActorMessage).

Record SocketActor := mkSocketActor {
  sock : Socket;
  net_report : option Report;                (* the value of [Socket::net_report] *)
  update_state : DirectAddrUpdateState;
  call_notify_quic_network_change : option PendingNetworkChangeNotify;
  receiver_closed : bool;
  portmap_watcher_closed : bool
}.

Definition set_sock (a : SocketActor) (s : Socket) : SocketActor :=
  mkSocketActor s (net_report a) (update_state a) (call_notify_quic_network_change a) (receiver_closed a)
    (portmap_watcher_closed a).
Definition set_update (a : SocketActor) (u : DirectAddrUpdateState) : SocketActor :=
  mkSocketActor (sock a) (net_report a) u (call_notify_quic_network_change a) (receiver_closed a)
    (portmap_watcher_closed a).
Definition set_pending (a : SocketActor) (p : option PendingNetworkChangeNotify) : SocketActor :=
  mkSocketActor (sock a) (net_report a) (update_state a) p (receiver_closed a) (portmap_watcher_closed a).

Definition re_stun (a : SocketActor) (why : UpdateReason) : SocketActor :=
  set_update a (schedule_run (update_state a) why).

(** The scheduling a network change asks for. *)
Definition apply_effects (a : SocketActor) (l : list effect) : SocketActor :=
  fold_left (fun a e => if e is ReStun why then re_stun a why else a) l a.

Definition handle_actor_message (env : Surroundings) (a : SocketActor) (msg : ActorMessage)
    : SocketActor * list output :=
  match msg with
  | NetworkChange => (a, [OutNetmon])
  | RelayMapChanged => (re_stun a RelayMapChange, [])
  | ResolveRemote | AddConnection => (a, [OutRemoteMap msg])
  | DirectAddrRefresh => (set_sock a (refresh_direct_addresses env (net_report a) (sock a)), [])
  end.

Definition actor_turn (now : Z) (env : Surroundings) (a : SocketActor) (e : actor_event) : SocketActor * list output :=
  match e with
  | EvMsg None =>
      (mkSocketActor (sock a) (net_report a) (update_state a) (call_notify_quic_network_change a) true
         (portmap_watcher_closed a), [])
  | EvMsg (Some msg) => handle_actor_message env a msg
  | EvReStunTimer => (re_stun a Periodic, [])
  | EvLocalAddrs (Some addrs) => (set_sock a (local_addrs_updated (sock a) addrs), [])
  | EvLocalAddrs None => (a, [])
  | EvReport (Some report) =>
      let '(s, r) := handle_net_report_report env (sock a) report in
      (mkSocketActor s report (update_state a) (call_notify_quic_network_change a) (receiver_closed a)
         (portmap_watcher_closed a),
       (if r is Some r then [OutTransports r] else []) ++ [OutResetReStunTimer])
  | EvReport None => (a, [])
  | EvRunDone false => (set_update a (try_run (update_state a)), [])
  | EvRunDone true => (a, [])
  | EvPortmap true =>
      (mkSocketActor (sock a) (net_report a) (update_state a) (call_notify_quic_network_change a) (receiver_closed a) true, [])
  | EvPortmap false => (re_stun a PortmapUpdated, [])
  | EvLinkChange None => (a, [])
  | EvLinkChange (Some major) =>
      let '(effects, pending) := handle_network_change now (netmon env) major (call_notify_quic_network_change a) in
      (set_pending (apply_effects a effects) pending, map OutChange effects)
  | EvNotifyTimer =>
      let '(effects, pending) := notify_tick now (netmon env) (call_notify_quic_network_change a) in
      (set_pending a pending, map OutChange effects)
  end.

(** ** Received datagrams *)

Record RecvMeta := mkRecvMeta { meta_addr : SocketAddr; meta_len : Z; meta_stride : Z; dst_ip : option IpAddr }.
Record RecvInfo := mkRecvInfo { info_remote : Addr; info_local : option CustomAddr }.

(** The number of datagrams in the buffer, and its length. *)
Definition datagrams_in (m : RecvMeta) : Z * Z :=
  if meta_stride m =? 0 then (1, 0)
  else ((meta_len m + meta_stride m - 1) / meta_stride m, meta_len m).

(** One buffer: the QUIC stack sees the mapped addresses. *)
Definition process_datagram (maps : Maps) (m : RecvMeta) (info : RecvInfo) : RecvMeta * Maps :=
  let len := (datagrams_in m).2 in
  match info_remote info with
  | AddrIp _ => (mkRecvMeta (meta_addr m) len (meta_stride m) (dst_ip m), maps)
  | AddrRelay src_url src_node =>
      let '(a, maps) := get_relay maps (src_url, src_node) in
      (mkRecvMeta (private_socket_addr a) len (meta_stride m) (dst_ip m), maps)
  | AddrCustom remote =>
      let '(a, maps) := get_custom maps remote in
      match info_local info with
      | Some l =>
          let '(b, maps) := get_custom maps l in
          (mkRecvMeta (private_socket_addr a) len (meta_stride m) (Some (socket_ip (private_socket_addr b))), maps)
      | None => (mkRecvMeta (private_socket_addr a) len (meta_stride m) (dst_ip m), maps)
      end
  end.

Fixpoint process_all (maps : Maps) (metas : list RecvMeta) (infos : list RecvInfo) : list RecvMeta * Maps :=
  match metas, infos with
  | m :: metas, i :: infos =>
      let '(m, maps) := process_datagram maps m i in
      let '(metas, maps) := process_all maps metas infos in
      (m :: metas, maps)
  | _, _ => ([], maps)
  end.

(** The lengths of the slices are asserted. *)
Definition process_datagrams {E} (maps : Maps) (bufs : nat) (metas : list RecvMeta) (infos : list RecvInfo)
    : result E (list RecvMeta * Maps) :=
  if (bufs =? length metas)%nat && (bufs =? length infos)%nat then Ok (process_all maps metas infos) else Panic.

(** ** Closing

    A call of [close] waits three times: for the connections to drain, for the
    actor's task and for the runtime. Its future can be dropped at each of them. *)

Inductive close_phase := Entered | Draining | JoiningActor | RuntimeShutdown.

Record Shutdown := mkShutdown {
  at_close_start : bool;
  at_endpoint_closed : bool;
  fully_closed : bool;
  lookup_cleared : bool;
  actor_task : bool;                         (* is there still a task to join? *)
  runtime_aborted : bool;
  closers : gmap nat close_phase
}.

Definition shutdown_init : Shutdown := mkShutdown false false false false true false ∅.

Definition set_closer (t : nat) (p : close_phase) (s : Shutdown) : Shutdown :=
  mkShutdown (at_close_start s) (at_endpoint_closed s) (fully_closed s) (lookup_cleared s) (actor_task s)
    (runtime_aborted s) (<[t := p]> (closers s)).
Definition end_closer (t : nat) (s : Shutdown) : Shutdown :=
  mkShutdown (at_close_start s) (at_endpoint_closed s) (fully_closed s) (lookup_cleared s) (actor_task s)
    (runtime_aborted s) (delete t (closers s)).

(** [is_closed() || is_closing()]: [close] and [abort] return at once. *)
Definition already_closing (s : Shutdown) : bool := fully_closed s || at_close_start s.

(** [abort], called when the endpoint is dropped. *)
Definition abort (s : Shutdown) : Shutdown :=
  if already_closing s then s else mkShutdown true true true true false true (closers s).

(** [Drop for EndpointInner]. *)
Definition drop_endpoint (s : Shutdown) : Shutdown := if fully_closed s then s else abort s.

Inductive shutdown_step : Shutdown -> Shutdown -> Prop :=
| close_call t s : closers s !! t = None -> already_closing s = false -> shutdown_step s (set_closer t Entered s)
| close_begin t s : closers s !! t = Some Entered ->
    shutdown_step s
      (mkShutdown true (at_endpoint_closed s) (fully_closed s) true (actor_task s) (runtime_aborted s)
         (<[t := Draining]> (closers s)))
| close_drained t s : closers s !! t = Some Draining ->
    shutdown_step s
      (mkShutdown (at_close_start s) true (fully_closed s) (lookup_cleared s) false (runtime_aborted s)
         (<[t := JoiningActor]> (closers s)))
| close_joined t s : closers s !! t = Some JoiningActor ->
    shutdown_step s
      (mkShutdown (at_close_start s) (at_endpoint_closed s) (fully_closed s) (lookup_cleared s) (actor_task s) true
         (<[t := RuntimeShutdown]> (closers s)))
| close_done t s : closers s !! t = Some RuntimeShutdown ->
    shutdown_step s
      (mkShutdown (at_close_start s) (at_endpoint_closed s) true (lookup_cleared s) (actor_task s) (runtime_aborted s)
         (delete t (closers s)))
| close_dropped t p s : closers s !! t = Some p -> p <> Entered -> shutdown_step s (end_closer t s)
| endpoint_dropped s : closers s = ∅ -> shutdown_step s (drop_endpoint s).

(** ** Lemmas: direct addresses *)

(** The first entry for an address. *)
Definition first_found (a : SocketAddr) (l : list (SocketAddr * found)) : option found :=
  head (omap (fun '(b, v) => if bool_decide (b = a) then Some v else None) l).

Lemma first_found_cons a b v l :
  first_found a ((b, v) :: l) = if bool_decide (b = a) then Some v else first_found a l.
Proof. unfold first_found. csimpl. by case_bool_decide. Qed.

Lemma first_found_app a l k :
  first_found a (l ++ k) = match first_found a l with Some v => Some v | None => first_found a k end.
Proof.
  induction l as [|[b v] l IH]; [done|]. cbn [app]. rewrite !first_found_cons, IH. by case_bool_decide.
Qed.

Lemma or_insert_all_lookup l m a :
  or_insert_all m l !! a = match m !! a with Some v => Some v | None => first_found a l end.
Proof.
  unfold or_insert_all. revert m. induction l as [|[b v] l IH]; intros m; cbn [fold_left]; [by destruct (m !! a)|].
  rewrite IH, first_found_cons. unfold or_insert. destruct (m !! b) as [w|] eqn:Hb.
  - destruct (m !! a) eqn:Ha; [done|]. case_bool_decide; [congruence|done].
  - destruct (decide (b = a)) as [->|Hne].
    + by rewrite Hb, lookup_insert_eq, bool_decide_true.
    + by rewrite lookup_insert_ne, bool_decide_false.
Qed.

Lemma or_insert_all_app l k m : or_insert_all m (l ++ k) = or_insert_all (or_insert_all m l) k.
Proof. unfold or_insert_all. apply fold_left_app. Qed.

Lemma or_insert_all_empty l : or_insert_all ∅ l = ∅ <-> l = [].
Proof.
  split; [|by intros ->]. destruct l as [|[b v] l]; [done|]. intros H.
  pose proof (or_insert_all_lookup ((b, v) :: l) ∅ b) as Hb.
  by rewrite H, !lookup_empty, first_found_cons, bool_decide_true in Hb.
Qed.

(** Everything that may be a direct address, in the order of preference of how it
    was found. *)
Definition public_candidates (portmapped : option SocketAddrV4) (report : option Report) (bind : list SocketAddr)
    : list (SocketAddr * found) :=
  (if portmapped is Some a then [(v4_socket a, (Portmapped, None))] else []) ++
  (if report is Some r then report_addrs bind r else []).

Definition local_candidates (state : netmon_state) (bind local : list SocketAddr) (alone : bool)
    : list (SocketAddr * found) :=
  let pairs := zip bind local in
  (if existsb (fun '(_, l) => is_unspecified (socket_ip l)) pairs then
     omap (fun ip =>
       port ← (if ip is V4 _ then unspecified_port true pairs else unspecified_port false pairs);
       Some (socket_addr_new ip port, (Local, find_flags state ip)))
       (if bool_decide (regular state = []) && alone then loopback state else regular state)
   else []) ++
  omap (fun '(b, l) =>
    if is_unspecified (socket_ip b) then None else Some (l, (Local, find_flags state (socket_ip l)))) pairs.

Definition candidates portmapped report bind local state (configured : gset SocketAddr) : list (SocketAddr * found) :=
  let public := public_candidates portmapped report bind in
  public ++ local_candidates state bind local (bool_decide (public = [])) ++
  map (fun a => (a, (Config, None))) (elements configured).

Lemma collect_local_addresses_spec state bind local public :
  collect_local_addresses state (zip bind local) (or_insert_all ∅ public) =
  or_insert_all ∅ (public ++ local_candidates state bind local (bool_decide (public = []))).
Proof.
  unfold collect_local_addresses, local_candidates. rewrite !or_insert_all_app.
  assert (bool_decide (or_insert_all ∅ public = ∅) = bool_decide (public = [])) as ->
    by (apply bool_decide_ext, or_insert_all_empty).
  by destruct (existsb _ _).
Qed.

(** The direct addresses are exactly the candidates that are not deprecated, each
    with the first way it was found: port mapping, address discovery, the local
    interfaces and sockets, and the configuration. Loopback addresses count only
    when there is no other interface and no public address. *)
Theorem direct_addresses_exact portmapped report bind local state configured a t :
  mkDirectAddr a t ∈ update_direct_addresses portmapped report bind local state configured <->
  exists flags, first_found a (candidates portmapped report bind local state configured) = Some (t, flags) /\
    flags <> Some true.
Proof.
  unfold update_direct_addresses. rewrite <- or_insert_all_app. fold (public_candidates portmapped report bind).
  rewrite collect_local_addresses_spec, <- or_insert_all_app, <- app_assoc.
  fold (candidates portmapped report bind local state configured).
  rewrite elem_of_list_to_set, list_elem_of_omap. split.
  - intros ([b [t' flags]] & Hin & Hf). apply elem_of_map_to_list in Hin. rewrite or_insert_all_lookup, lookup_empty in Hin.
    destruct flags as [[]|]; simplify_eq/=; eauto.
  - intros (flags & Hf & Hne). exists (a, (t, flags)). rewrite elem_of_map_to_list, or_insert_all_lookup, lookup_empty.
    split; [done|]. by destruct flags as [[]|].
Qed.

(** ** Lemmas: publication *)

Inductive socket_op :=
| OpDirect (env : Surroundings) (report : option Report)
| OpLocal (addrs : list Addr)
| OpUserData (data : option UserData)
| OpAddExternal (a : SocketAddr)
| OpRemoveExternal (a : SocketAddr)
| OpReport (env : Surroundings) (report : option Report).

Definition apply_op (s : Socket) (op : socket_op) : Socket :=
  match op with
  | OpDirect env report => refresh_direct_addresses env report s
  | OpLocal addrs => local_addrs_updated s addrs
  | OpUserData data => set_user_data_for_address_lookup s data
  | OpAddExternal a => (add_external_addr s a).1
  | OpRemoveExternal a => (remove_external_addr s a).2.1
  | OpReport env report => (handle_net_report_report env s report).1
  end.

(** What is published is what the socket knows, unless it knows nothing. *)
Definition up_to_date (s : Socket) : Prop := nothing_known s = true \/ head (published s) = Some (my_data s).

Lemma publish_up_to_date s : up_to_date (publish_my_addr s).
Proof.
  unfold publish_my_addr. destruct (nothing_known s) eqn:E; [by left|]. by right.
Qed.

Lemma store_up_to_date s addrs : up_to_date s -> up_to_date (store_direct_addresses s addrs).
Proof.
  intros H. unfold store_direct_addresses. case_bool_decide as Heq; simpl; [|apply publish_up_to_date].
  subst addrs. by destruct s.
Qed.

(** After every change of the direct addresses, of the home relay and of the user
    data, by whatever operation, the last published data is the current one; a
    socket that knows nothing publishes nothing. *)
Theorem published_data_current s ops :
  up_to_date s -> Forall (fun op => op <> OpLocal []) ops -> up_to_date (fold_left apply_op ops s).
Proof.
  revert s. induction ops as [|op ops IH]; intros s Hs Hops; [done|]. apply Forall_cons in Hops as [Hop Hops].
  apply IH; [|done]. destruct op as [env r|addrs|data|a|a|env [r|]]; simpl.
  - by apply store_up_to_date.
  - unfold local_addrs_updated. rewrite bool_decide_false by congruence. apply publish_up_to_date.
  - unfold set_user_data_for_address_lookup. case_bool_decide; [done|apply publish_up_to_date].
  - done.
  - done.
  - by apply store_up_to_date.
  - by apply store_up_to_date.
Qed.

(** ** Lemmas: scheduling *)

(** Nothing is left to do for the actor or a task: only a new request moves on. *)
Definition idle (u : DirectAddrUpdateState) : Prop := running u = None /\ done_msgs u = 0%nat.

Lemma idle_steps u u' : idle u -> update_step u u' -> exists why, u' = schedule_run u why.
Proof. intros [Hr Hd]. inversion 1; subst; try congruence; eauto. Qed.

(** The reporter's lock keeps the runs apart: a run starts only when none is
    active, and every message belongs to a run. *)
Definition finished_runs (u : DirectAddrUpdateState) : nat :=
  length (started u) - match running u with Some (_, SentDone) | None => 0 | Some _ => 1 end.

Definition update_inv (u : DirectAddrUpdateState) : Prop :=
  (done_msgs u <= finished_runs u)%nat /\ (running u <> None -> (1 <= length (started u))%nat) /\
  (relay_map_empty u = true -> running u = None /\ started u = []).

Lemma run_inv u why : update_inv u -> running u = None -> update_inv (run u why).
Proof.
  intros Hinv Hr. unfold run. destruct (shutting_down u); [exact Hinv|]. destruct (relay_map_empty u) eqn:He; [exact Hinv|].
  destruct Hinv as (H1 & H2 & H3). cbn [orb].
  unfold update_inv, finished_runs in *. rewrite Hr in H1. simpl in *. split; [lia|]. split; [lia|done].
Qed.

Lemma update_step_inv u u' : update_inv u -> update_step u u' -> update_inv u'.
Proof.
  intros Hinv Hstep. destruct Hstep as [u why|n u Hd|why u Hr|why u Hr Hcap|why u Hr].
  - unfold schedule_run. destruct (running u) eqn:Hr; [exact Hinv|by apply run_inv].
  - unfold try_run. cbn [set_running running want_update].
    assert (Hinv' : update_inv (set_running u (running u) n)).
    { destruct Hinv as (H1 & H2 & H3). unfold update_inv, finished_runs in *. simpl. split; [lia|done]. }
    destruct (running u) eqn:Hr; [done|]. destruct (want_update u); [|done]. apply run_inv; [|done].
    destruct Hinv' as (H1 & H2 & H3). done.
  - destruct Hinv as (H1 & H2 & H3). unfold update_inv, finished_runs in *. rewrite Hr in *. simpl.
    split; [lia|]. split; [naive_solver|]. intros He. by destruct (H3 He).
  - destruct Hinv as (H1 & H2 & H3). unfold update_inv, finished_runs in *. rewrite Hr in *. simpl.
    assert (1 <= length (started u))%nat by naive_solver.
    split; [lia|]. split; [naive_solver|]. intros He. by destruct (H3 He).
  - destruct Hinv as (H1 & H2 & H3). unfold update_inv, finished_runs in *. rewrite Hr in *. simpl.
    split; [lia|]. split; [done|]. intros He. by destruct (H3 He).
Qed.

(** In every interleaving there are never more unread messages than runs that
    have ended, and with an empty relay map no run ever starts. *)
Lemma update_reachable_inv empty u : rtc update_step (update_init empty) u -> update_inv u.
Proof.
  apply rtc_invariant; [|apply update_step_inv]. unfold update_inv, update_init, finished_runs. simpl. done.
Qed.

Ltac next_step := eapply rtc_l; [|].

(** The task of a run reports that it is done before it gives the reporter's lock
    back. When the actor is quicker, it finds the lock taken and leaves a wanted
    update alone: the update stays, with no run and no message left that would
    start it, until something else asks for another one. *)
Theorem wanted_update_stalls :
  exists u, rtc update_step (update_init false) u /\ idle u /\ want_update u = Some LinkChangeMajor /\
    shutting_down u = false /\ started u = [Periodic] /\
    forall u', update_step u u' -> exists why, u' = schedule_run u why.
Proof.
  exists (mkUpdateState (Some LinkChangeMajor) None 0 [Periodic] false false). split.
  - next_step; [apply (step_schedule _ Periodic)|]. next_step; [apply (step_schedule _ LinkChangeMajor)|].
    next_step; [by apply (step_reported Periodic)|]. next_step; [apply (step_send Periodic); [done|simpl; unfold RUN_DONE_CAPACITY; lia]|].
    next_step; [by apply (step_done 0)|]. next_step; [by apply (step_unlock Periodic)|]. constructor.
  - split_and!; try done. intros u'. by apply idle_steps.
Qed.

(** A request that arrives while a run is active replaces the one remembered: a
    major change followed by the periodic request ends with a run that is not a
    major one, and nothing is left to do. *)
Theorem major_update_downgraded :
  let u0 := schedule_run (schedule_run (schedule_run (update_init false) Periodic) LinkChangeMajor) Periodic in
  exists u, rtc update_step u0 u /\ idle u /\ want_update u = None /\ started u = [Periodic; Periodic] /\
    Forall (fun why => reason_is_major why = false) (started u).
Proof.
  intros u0. exists (mkUpdateState None None 0 [Periodic; Periodic] false false). split.
  - next_step; [by apply (step_reported Periodic)|].
    next_step; [apply (step_send Periodic); [done|simpl; unfold RUN_DONE_CAPACITY; lia]|].
    next_step; [by apply (step_unlock Periodic)|]. next_step; [by apply (step_done 0)|].
    next_step; [by apply (step_reported Periodic)|].
    next_step; [apply (step_send Periodic); [done|simpl; unfold RUN_DONE_CAPACITY; lia]|].
    next_step; [by apply (step_unlock Periodic)|]. next_step; [by apply (step_done 0)|]. constructor.
  - split_and!; try done. by repeat constructor.
Qed.

(** ** Lemmas: network changes *)

(** The ticks of a pending notification, each with the time it runs at and the
    state of the network; [Some] when the QUIC stack is notified. *)
Fixpoint poll_network (p : PendingNetworkChangeNotify) (ticks : list (Z * netmon_state)) : option (Z * bool) :=
  match ticks with
  | [] => None
  | (now, state) :: ticks =>
      match notify_tick now state (Some p) with
      | ([NotifyQuic major], None) => Some (now, major)
      | (_, Some p) => poll_network p ticks
      | _ => None
      end
  end.

(** A timer never fires early. *)
Fixpoint timely (p : PendingNetworkChangeNotify) (ticks : list (Z * netmon_state)) : Prop :=
  match ticks with
  | [] => True
  | (now, _) :: ticks => next_check p <= now /\ timely (advance now p) ticks
  end.

(** The polling after [k] ticks: the interval, and how long it has taken at least. *)
Definition poll_interval (k : nat) : Z := Z.min (100 * 2 ^ Z.of_nat k) 1000 * 10 ^ 6.

(** A notification is due at a tick. *)
Definition notify_due (now : Z) (state : netmon_state) (p : PendingNetworkChangeNotify) : Prop :=
  has_usable_network state = true \/ pending_started p + MAX_WAIT <= now.

Lemma notify_due_spec now state p : has_usable_network state || expired now p = true <-> notify_due now state p.
Proof.
  rewrite orb_true_iff. unfold notify_due, expired, saturating_duration_since, MAX_WAIT, from_secs. rewrite Z.leb_le.
  split; (intros [H|H]; [by left|right; lia]).
Qed.

Lemma poll_notifies k p ticks :
  timely p ticks -> interval p = poll_interval k ->
  next_check p - pending_started p >= (if decide (k < 4)%nat then 100 * (2 ^ (Z.of_nat k + 1) - 1) else 1000 * (Z.of_nat k - 4) + 2500) * 10 ^ 6 ->
  (8 <= k + length ticks)%nat -> (k < 8)%nat ->
  exists before now state after, ticks = before ++ (now, state) :: after /\ (k + length before < 8)%nat /\
    poll_network p ticks = Some (now, is_major p) /\ notify_due now state p /\
    Forall (fun tick => ~ notify_due tick.1 tick.2 p) before.
Proof.
  revert k p. induction ticks as [|[now state] ticks IH]; intros k p Ht Hi Hel Hlen Hk; [simpl in Hlen; lia|].
  cbn [timely] in Ht. destruct Ht as [Hnow Ht]. cbn [poll_network notify_tick].
  pose proof (notify_due_spec now state p) as Hd. destruct (has_usable_network state || expired now p) eqn:Hn.
  - exists [], now, state, ticks. split_and!; [done|simpl; lia|done|by apply Hd|constructor].
  - apply orb_false_elim in Hn as [_ Hex]. unfold expired, saturating_duration_since, MAX_WAIT, from_secs in Hex.
    apply Z.leb_gt in Hex.
    assert (Hk7 : (k < 7)%nat).
    { destruct (decide (k < 7)%nat); [done|]. assert (k = 7%nat) as -> by lia. simpl in Hel. lia. }
    destruct (IH (S k) (advance now p)) as (before & n & st & after & -> & Hb & Hpoll & Hor & Hbefore);
      [done| | |simpl in Hlen; lia|lia|].
    + unfold advance. cbn [interval]. rewrite Hi. unfold poll_interval, MAX_INTERVAL, from_secs.
      rewrite Nat2Z.inj_succ, Z.pow_succ_r by lia. lia.
    + unfold advance. cbn [next_check pending_started]. rewrite Hi. unfold poll_interval, MAX_INTERVAL, from_secs.
      do 7 (destruct k as [|k]; [simpl in Hel |- *; lia|]). lia.
    + exists ((now, state) :: before), n, st, after. split_and!; [done|simpl; lia|done|done|].
      constructor; [|done]. by intros H%Hd.
Qed.

(** C29: After a network change without a usable network the QUIC stack is notified
    after at most eight ticks of the timer, however late each of them runs: at the
    first tick that finds the network usable or is five seconds after the change,
    and at no tick before. *)
Theorem network_change_notified now major ticks :
  timely (pending_new now major) ticks -> (8 <= length ticks)%nat ->
  exists before at_ state after, ticks = before ++ (at_, state) :: after /\ (length before < 8)%nat /\
    poll_network (pending_new now major) ticks = Some (at_, major) /\
    (has_usable_network state = true \/ now + MAX_WAIT <= at_) /\
    Forall (fun tick => has_usable_network tick.2 = false /\ tick.1 < now + MAX_WAIT) before.
Proof.
  intros Ht Hlen. destruct (poll_notifies 0 (pending_new now major) ticks) as (before & at_ & state & after & Heq & Hb & Hp & Hd & Hall);
    [done|done| |done|lia|].
  - unfold pending_new, INITIAL_INTERVAL, from_millis. simpl. lia.
  - exists before, at_, state, after. split_and!; [done|lia|done|done|]. eapply Forall_impl; [exact Hall|].
    intros [n st] Hn. simpl. unfold notify_due in Hn. simpl in Hn. destruct (has_usable_network st); [tauto|]. lia.
Qed.

(** A pending major change is forgotten by a later minor change that finds the
    network usable: the QUIC stack is told of a minor change only. *)
Theorem pending_major_change_lost now now' env env' a :
  has_usable_network (netmon env) = false -> has_usable_network (netmon env') = true ->
  call_notify_quic_network_change a = None ->
  let '(a1, out1) := actor_turn now env a (EvLinkChange (Some true)) in
  let '(a2, out2) := actor_turn now' env' a1 (EvLinkChange (Some false)) in
  call_notify_quic_network_change a2 = None /\ (OutChange (NotifyQuic true) ∉ (out1 ++ out2)) /\
  OutChange (NotifyQuic false) ∈ out2.
Proof.
  intros Hn Hy Hp. unfold actor_turn, handle_network_change. rewrite Hn, Hp. cbn [set_pending call_notify_quic_network_change].
  rewrite Hy. simpl. split; [done|]. set_solver.
Qed.

(** ** Lemmas: received datagrams *)

(** The path of a datagram as the transports report it, which is without the flow
    label and the scope of an IPv6 address. *)
Definition path_of (m : RecvMeta) (info : RecvInfo) : FourTuple :=
  match info_remote info with
  | AddrIp a => TupleIp a (dst_ip m)
  | AddrRelay url id => TupleRelay url id
  | AddrCustom remote => TupleCustom remote (info_local info)
  end.

(** An address of the QUIC stack that stands for an IP address: itself, or the
    IPv6 form of an IPv4 address. *)
Definition stands_for (q a : SocketAddr) : Prop :=
  multipath_from q = MappedIp q /\ Addr_from q = AddrIp a.

(** What the transports report: IP datagrams with their address, and those of
    other transports without a local IP. *)
Definition recv_wf (m : RecvMeta) (info : RecvInfo) : Prop :=
  match info_remote info with
  | AddrIp a => stands_for (meta_addr m) a
  | AddrRelay _ _ => True
  | AddrCustom _ => dst_ip m = None
  end.

(** The addresses of a buffer name a path. *)
Definition names (maps : Maps) (m : RecvMeta) (t : FourTuple) : Prop :=
  match t with
  | TupleIp remote local => stands_for (meta_addr m) remote /\ dst_ip m = local
  | TupleRelay url id =>
      exists c, meta_addr m = private_socket_addr (mapped_addr RELAY_MAPPED_SUBNET c) /\
        lookup (relay_addrs maps) (mapped_addr RELAY_MAPPED_SUBNET c) = Some (url, id)
  | TupleCustom remote local =>
      exists c, meta_addr m = private_socket_addr (mapped_addr CUSTOM_MAPPED_SUBNET c) /\
        lookup (custom_addrs maps) (mapped_addr CUSTOM_MAPPED_SUBNET c) = Some remote /\
        match local with
        | None => dst_ip m = None
        | Some l =>
            exists d, dst_ip m = Some (V6 (mapped_addr CUSTOM_MAPPED_SUBNET d)) /\
              lookup (custom_addrs maps) (mapped_addr CUSTOM_MAPPED_SUBNET d) = Some l
        end
  end.

Lemma stable_refl s : stable s s.
Proof. split; by intros ? ?. Qed.

Lemma stable_trans s1 s2 s3 : stable s1 s2 -> stable s2 s3 -> stable s1 s3.
Proof. intros [H1 H2] [H3 H4]. split; intros v k Hv; [by apply H3, H1|by apply H4, H2]. Qed.

Lemma names_stable s s' m t : stable s s' -> names s m t -> names s' m t.
Proof.
  intros [Hr Hc]. destruct t as [r l|u e|r l]; simpl; [done| |].
  - intros (c & ? & Hl). exists c. split; [done|]. by apply Hr.
  - intros (c & ? & Hl & Hloc). exists c. split; [done|]. split; [by apply Hc|].
    destruct l; [|done]. destruct Hloc as (d & ? & Hd). exists d. split; [done|]. by apply Hc.
Qed.

Lemma names_from_noq s m t :
  names s m t -> from_noq (meta_addr m, dst_ip m) (relay_addrs s) (custom_addrs s) = Some t.
Proof.
  unfold from_noq, to_transport_addr. destruct t as [r l|u e|r l]; simpl.
  - intros ([Hm Hcan] & ->). rewrite Hm, Hcan. done.
  - intros (c & -> & Hl). rewrite multipath_relay, Hl. done.
  - intros (c & -> & Hl & Hloc). rewrite multipath_custom, Hl. simpl. destruct l as [l|]; [|by rewrite Hloc].
    destruct Hloc as (d & -> & Hd). cbn [mbind option_bind]. rewrite custom_try_from_own. cbn [mbind option_bind].
    by rewrite Hd.
Qed.

Lemma get_relay_counters s key a s' :
  Maps_wf s -> relay_counter s < 2 ^ 64 - 1 -> get_relay s key = (a, s') ->
  relay_counter s' <= relay_counter s + 1 /\ custom_counter s' = custom_counter s.
Proof.
  intros [Hr Hcu] Hc. unfold get_relay. destruct (get _ _ _ _) as [[b m] c] eqn:Hg. intros [= <- <-].
  destruct (get_spec _ _ _ _ _ _ _ Hr Hc Hg) as (_ & Hle & _). simpl. lia.
Qed.

Lemma get_custom_relay_counter s key a s' : get_custom s key = (a, s') -> relay_counter s' = relay_counter s.
Proof. unfold get_custom. destruct (get _ _ _ _) as [[b m] c]. by intros [= <- <-]. Qed.

Lemma process_datagram_names s m info m' s' :
  Maps_wf s -> recv_wf m info -> relay_counter s < 2 ^ 64 - 2 -> custom_counter s < 2 ^ 64 - 2 ->
  process_datagram s m info = (m', s') ->
  names s' m' (path_of m info) /\ Maps_wf s' /\ stable s s' /\
  relay_counter s' <= relay_counter s + 1 /\ custom_counter s' <= custom_counter s + 2.
Proof.
  intros Hwf Hm Hr Hcu. unfold process_datagram, recv_wf, path_of in *. destruct (info_remote info) as [a|url id|remote].
  - intros [= <- <-]. simpl. split; [done|]. split; [done|]. split; [apply stable_refl|lia].
  - destruct (get_relay s (url, id)) as [a s1] eqn:Hg. intros [= <- <-].
    destruct (get_relay_spec _ _ _ _ Hwf (ltac:(lia)) Hg) as (Hwf1 & Hst & Hl & (c & ->)).
    destruct (get_relay_counters _ _ _ _ Hwf (ltac:(lia)) Hg). simpl. split; [by eauto|]. split; [done|]. split; [done|lia].
  - destruct (get_custom s remote) as [a s1] eqn:Hg.
    destruct (get_custom_spec _ _ _ _ Hwf (ltac:(lia)) Hg) as (Hwf1 & Hst & Hl & Hle & (c & ->)).
    pose proof (get_custom_relay_counter _ _ _ _ Hg) as Hrc. destruct (info_local info) as [l|].
    + destruct (get_custom s1 l) as [b s2] eqn:Hg2. intros [= <- <-].
      destruct (get_custom_spec _ _ _ _ Hwf1 (ltac:(lia)) Hg2) as (Hwf2 & Hst2 & Hl2 & Hle2 & (d & ->)).
      pose proof (get_custom_relay_counter _ _ _ _ Hg2). simpl.
      split; [|split; [done|]; split; [by eapply stable_trans|lia]].
      exists c. split; [done|]. split; [by apply Hst2|]. by exists d.
    + intros [= <- <-]. simpl. split; [by eauto|]. split; [done|]. split; [done|lia].
Qed.

Lemma process_all_names metas infos s metas' s' :
  Maps_wf s -> Forall2 recv_wf metas infos ->
  relay_counter s + Z.of_nat (length metas) < 2 ^ 64 - 2 -> custom_counter s + 2 * Z.of_nat (length metas) < 2 ^ 64 - 2 ->
  process_all s metas infos = (metas', s') ->
  stable s s' /\ Maps_wf s' /\ Forall2 (names s') metas' (zip_with path_of metas infos).
Proof.
  intros Hwf Hall. revert s metas' Hwf. induction Hall as [|m info metas infos Hm Hall IH]; intros s metas' Hwf Hr Hcu; simpl.
  - intros [= <- <-]. split; [apply stable_refl|]. by split.
  - destruct (process_datagram s m info) as [m1 s1] eqn:Hp. destruct (process_all s1 metas infos) as [ms s2] eqn:Ha.
    intros [= <- <-]. simpl in Hr, Hcu.
    destruct (process_datagram_names _ _ _ _ _ Hwf Hm (ltac:(lia)) (ltac:(lia)) Hp) as (Hn & Hwf1 & Hst & Hr1 & Hc1).
    destruct (IH s1 ms Hwf1 ltac:(lia) ltac:(lia) Ha) as (Hst2 & Hwf2 & Hall2).
    split; [by eapply stable_trans|]. split; [done|]. constructor; [by eapply names_stable|done].
Qed.

(** The QUIC stack can tell from every received buffer which path it came by: the
    addresses it is given, of IP, relay and custom transports mixed in one batch,
    lead back to the remote and local address of the transport, and addresses
    given out before keep their meaning. *)
Theorem received_paths_named {E} s metas infos :
  Maps_wf s -> Forall2 recv_wf metas infos ->
  relay_counter s + Z.of_nat (length metas) < 2 ^ 64 - 2 -> custom_counter s + 2 * Z.of_nat (length metas) < 2 ^ 64 - 2 ->
  exists metas' s',
    process_datagrams (E := E) s (length metas) metas infos = Ok (metas', s') /\ stable s s' /\
    Forall2 (fun m' t => from_noq (meta_addr m', dst_ip m') (relay_addrs s') (custom_addrs s') = Some t)
      metas' (zip_with path_of metas infos).
Proof.
  intros Hwf Hall Hr Hc. destruct (process_all s metas infos) as [metas' s'] eqn:Hp. exists metas', s'.
  unfold process_datagrams. rewrite Nat.eqb_refl, (Forall2_length _ _ _ Hall), Nat.eqb_refl, Hp.
  destruct (process_all_names _ _ _ _ _ Hwf Hall Hr Hc Hp) as (Hst & _ & Hn).
  split; [done|]. split; [done|]. eapply Forall2_impl; [exact Hn|]. intros m t. apply names_from_noq.
Qed.

(** ** Lemmas: closing *)

Definition phase_inv (s : Shutdown) (p : close_phase) : Prop :=
  match p with
  | Entered => True
  | Draining => at_close_start s = true /\ lookup_cleared s = true
  | JoiningActor =>
      at_close_start s = true /\ lookup_cleared s = true /\ at_endpoint_closed s = true /\ actor_task s = false
  | RuntimeShutdown =>
      at_close_start s = true /\ lookup_cleared s = true /\ at_endpoint_closed s = true /\ actor_task s = false /\
      runtime_aborted s = true
  end.

Definition shutdown_inv (s : Shutdown) : Prop :=
  (forall t p, closers s !! t = Some p -> phase_inv s p) /\
  (fully_closed s = true ->
   at_close_start s = true /\ lookup_cleared s = true /\ at_endpoint_closed s = true /\ actor_task s = false /\
   runtime_aborted s = true).

Lemma shutdown_step_inv s s' : shutdown_inv s -> shutdown_step s s' -> shutdown_inv s'.
Proof.
  intros [Hph Hcl] Hstep. destruct Hstep as [t s Ht Hc|t s Ht|t s Ht|t s Ht|t s Ht|t p s Ht Hp|s Hnone].
  - split; [|done]. intros t' p. cbn [closers set_closer]. intros [[<- <-]|[_ H]]%lookup_insert_Some; [done|]. by apply (Hph _ _ H).
  - split; [|naive_solver]. intros t' p. cbn [closers].
    intros [[<- <-]|[_ H]]%lookup_insert_Some; [done|]. specialize (Hph _ _ H). destruct p; simpl in *; naive_solver.
  - pose proof (Hph _ _ Ht) as Hd. split; [|naive_solver]. intros t' p. cbn [closers].
    intros [[<- <-]|[_ H]]%lookup_insert_Some; [simpl in *; naive_solver|].
    specialize (Hph _ _ H). destruct p; simpl in *; naive_solver.
  - pose proof (Hph _ _ Ht) as Hd. split; [|naive_solver]. intros t' p. cbn [closers].
    intros [[<- <-]|[_ H]]%lookup_insert_Some; [simpl in *; naive_solver|].
    specialize (Hph _ _ H). destruct p; simpl in *; naive_solver.
  - pose proof (Hph _ _ Ht) as Hd. split; [|simpl in *; naive_solver]. intros t' p. cbn [closers].
    intros [_ H]%lookup_delete_Some. specialize (Hph _ _ H). destruct p; simpl in *; naive_solver.
  - split; [|done]. intros t' p'. cbn [closers end_closer]. intros [_ H]%lookup_delete_Some. by apply (Hph _ _ H).
  - unfold drop_endpoint, abort. destruct (fully_closed s) eqn:E; [by split; [|rewrite E]|].
    destruct (already_closing s); [by split; [|rewrite E]|].
    split; [|done]. intros t p. cbn [closers]. rewrite Hnone, lookup_empty. done.
Qed.

(** C30: However calls of [close] overlap, are dropped half way or meet the drop of the
    endpoint: an endpoint that says it is closed has cancelled both tokens, removed
    its lookup services, taken the actor's task and stopped its runtime. *)
Theorem closed_endpoint_stopped s :
  rtc shutdown_step shutdown_init s -> fully_closed s = true ->
  at_close_start s = true /\ at_endpoint_closed s = true /\ lookup_cleared s = true /\ actor_task s = false /\
  runtime_aborted s = true.
Proof.
  intros Hr. assert (shutdown_inv s) as [_ H].
  { eapply (rtc_invariant shutdown_step shutdown_inv); [|apply shutdown_step_inv|exact Hr].
    split; [|done]. intros t p. cbn [closers shutdown_init]. by rewrite lookup_empty. }
  naive_solver.
Qed.

(** A [close] that is dropped while it waits for the connections to drain leaves
    the endpoint closing for ever: no later [close] and not even the drop of the
    endpoint stops its actor and its runtime. *)
Theorem dropped_close_never_finishes :
  exists s, rtc shutdown_step shutdown_init s /\ closers s = ∅ /\ at_close_start s = true /\
    forall s', rtc shutdown_step s s' ->
      fully_closed s' = false /\ at_endpoint_closed s' = false /\ runtime_aborted s' = false /\ actor_task s' = true.
Proof.
  pose (s := mkShutdown true false false true true false ∅).
  assert (Hstuck : forall s', rtc shutdown_step s s' -> s' = s).
  { intros s' Hr. eapply (rtc_invariant shutdown_step (fun s' => s' = s)); [done| |exact Hr]. intros s1 s2 -> Hstep. inversion Hstep; subst; simpl in *;
      try (match goal with H : _ !! _ = Some _ |- _ => by rewrite lookup_empty in H end); done. }
  exists s. split; [|split; [done|split; [done|]]].
  - eapply rtc_l; [by apply (close_call 0%nat)|]. eapply rtc_l; [by apply (close_begin 0%nat)|].
    eapply rtc_l; [by apply (close_dropped 0%nat Draining)|]. reflexivity.
  - intros s' H. by rewrite (Hstuck s' H).
Qed.

(** ** Instances of the properties *)

Definition offline : netmon_state := mkNetmon [] [] [V4 [Byte.x7f; Byte.x00; Byte.x00; Byte.x01]] false false false.
Definition online : netmon_state :=
  mkNetmon [[NetV4 [Byte.x0a; Byte.x00; Byte.x00; Byte.x02]]] [V4 [Byte.x0a; Byte.x00; Byte.x00; Byte.x02]] []
    true true false.

Definition any_v4 : SocketAddr := SocketV4 (replicate 4 Byte.x00) 4433.

Definition env_of (state : netmon_state) : Surroundings := mkSurroundings None [any_v4] state.

Definition fresh_socket : Socket := mkSocket ∅ [AddrIp any_v4] None ∅ false [].

Definition some_ops : list socket_op :=
  [OpDirect (env_of online) None; OpUserData (Some (mkUserData "hello")); OpAddExternal any_v4; OpDirect (env_of online) None].

Lemma published_data_current_witness :
  length (published (fold_left apply_op some_ops fresh_socket)) = 3%nat /\
  up_to_date (fold_left apply_op some_ops fresh_socket).
Proof.
  split; [vm_compute; reflexivity|]. apply (published_data_current fresh_socket some_ops).
  - left. vm_compute. reflexivity.
  - repeat constructor; discriminate.
Defined.

(** Eight ticks on time: the network is back before the third one, which notifies. *)
Definition eight_ticks : list (Z * netmon_state) :=
  map (fun '(ms, state) => (from_millis ms, state))
    [(100, offline); (300, offline); (700, online); (1500, online); (2500, offline); (3500, online); (4500, online);
     (5500, online)].

Lemma network_change_notified_witness :
  poll_network (pending_new 0 true) eight_ticks = Some (from_millis 700, true) /\
  exists before at_ state after, eight_ticks = before ++ (at_, state) :: after /\ (length before < 8)%nat /\
    poll_network (pending_new 0 true) eight_ticks = Some (at_, true) /\
    (has_usable_network state = true \/ 0 + MAX_WAIT <= at_) /\
    Forall (fun tick => has_usable_network tick.2 = false /\ tick.1 < 0 + MAX_WAIT) before.
Proof.
  split; [vm_compute; reflexivity|]. apply (network_change_notified 0 true eight_ticks).
  - cbn. repeat split; vm_compute; discriminate.
  - apply Nat.leb_le. reflexivity.
Defined.

Definition idle_actor : SocketActor := mkSocketActor fresh_socket None (update_init false) None false false.

Lemma pending_major_change_lost_witness :
  let '(a1, out1) := actor_turn 0 (env_of offline) idle_actor (EvLinkChange (Some true)) in
  let '(a2, out2) := actor_turn (from_millis 50) (env_of online) a1 (EvLinkChange (Some false)) in
  call_notify_quic_network_change a2 = None /\ (OutChange (NotifyQuic true) ∉ (out1 ++ out2)) /\
  OutChange (NotifyQuic false) ∈ out2.
Proof.
  apply (pending_major_change_lost 0 (from_millis 50) (env_of offline) (env_of online) idle_actor); reflexivity.
Defined.

(** A batch of an IP, a relay and a custom datagram: the IPv4 address in its IPv6 form. *)
Definition peer_v4 : SocketAddr := SocketV4 [Byte.x01; Byte.x02; Byte.x03; Byte.x04] 5000.
Definition peer_v4_mapped : SocketAddr :=
  SocketV6 (v4_mapped_prefix ++ [Byte.x01; Byte.x02; Byte.x03; Byte.x04]) 5000 0 0.

Definition batch_metas : list RecvMeta :=
  [mkRecvMeta peer_v4_mapped 1200 1200 None; mkRecvMeta any_v4 2400 1200 None; mkRecvMeta any_v4 0 0 None].
Definition batch_infos (id : EndpointId) : list RecvInfo :=
  [mkRecvInfo (AddrIp peer_v4) None; mkRecvInfo (AddrRelay "https://1.example/" id) None;
   mkRecvInfo (AddrCustom (from_parts 7 [Byte.x01])) (Some (from_parts 7 [Byte.x02]))].

Definition some_id : EndpointId := mkPublicKey (replicate 32 Byte.x07).

Lemma received_paths_named_witness :
  exists metas' s',
    process_datagrams (E := unit) no_maps 3 batch_metas (batch_infos some_id) = Ok (metas', s') /\ stable no_maps s' /\
    Forall2 (fun m' t => from_noq (meta_addr m', dst_ip m') (relay_addrs s') (custom_addrs s') = Some t)
      metas' (zip_with path_of batch_metas (batch_infos some_id)).
Proof.
  apply (received_paths_named (E := unit) no_maps batch_metas (batch_infos some_id)).
  - constructor; apply AddrMap_default_wf.
  - repeat constructor.
  - reflexivity.
  - reflexivity.
Defined.

(** Two overlapping calls of [close]; the second returns before the first. *)
Definition closed_state : Shutdown := mkShutdown true true true true false true ∅.

Lemma closed_endpoint_stopped_witness :
  rtc shutdown_step shutdown_init closed_state /\
  (at_close_start closed_state = true /\ at_endpoint_closed closed_state = true /\ lookup_cleared closed_state = true /\
   actor_task closed_state = false /\ runtime_aborted closed_state = true).
Proof.
  assert (Hr : rtc shutdown_step shutdown_init closed_state).
  { eapply rtc_l; [apply (close_call 0%nat); reflexivity|]. eapply rtc_l; [apply (close_call 1%nat); reflexivity|].
    eapply rtc_l; [apply (close_begin 0%nat); reflexivity|]. eapply rtc_l; [apply (close_begin 1%nat); reflexivity|].
    eapply rtc_l; [apply (close_dropped 1%nat Draining); [reflexivity|discriminate]|].
    eapply rtc_l; [apply (close_drained 0%nat); reflexivity|]. eapply rtc_l; [apply (close_joined 0%nat); reflexivity|].
    eapply rtc_l; [apply (close_done 0%nat); reflexivity|]. reflexivity. }
  split; [exact Hr|]. apply (closed_endpoint_stopped closed_state Hr). reflexivity.
Defined.

End Sock.
