(* ===== verification/Router.v ===== *)
(** * Router: the accept loop and its protocol handlers

    Models [iroh/src/protocol.rs]: the builder, the map of handlers by ALPN, the
    accept loop with its filter, the tasks that handle connections, and shutdown;
    and the hooks of [iroh/src/endpoint/hooks.rs].

    The loop, the tasks and the callers of [Router::shutdown] run concurrently:
    the router is a step relation, with one step for each turn of the loop's
    [select!], for each await of [handle_connection] and for each await of
    [shutdown]. What the network, the handlers and the filter return is free. *)

From S2P Require Import Prelude BTree Keys Addrs.
Import Addrs.

Module Router.

(** ** Hooks *)

Inductive BeforeConnectOutcome := ConnectAccept | ConnectReject.

Inductive AfterHandshakeOutcome :=
| HandshakeAccept
| HandshakeReject (error_code : Z) (reason : bytes).

Section Hooks.
Context {Conn : Type}.

(** What a hook answers, [EndpointHooks]; both methods accept by default. *)
Record EndpointHooks := mkHooks {
  hook_before_connect : EndpointAddr -> bytes -> BeforeConnectOutcome;
  hook_after_handshake : Conn -> AfterHandshakeOutcome
}.

Definition default_hooks : EndpointHooks := mkHooks (fun _ _ => ConnectAccept) (fun _ => HandshakeAccept).

(** [EndpointHooksList]: hooks in the order of installation. *)
Definition hooks_push (l : list EndpointHooks) (h : EndpointHooks) : list EndpointHooks := l ++ [h].

(** The outcome and how many hooks were invoked. *)
Fixpoint before_connect (l : list EndpointHooks) (remote : EndpointAddr) (alpn : bytes)
    : BeforeConnectOutcome * nat :=
  match l with
  | [] => (ConnectAccept, 0%nat)
  | h :: l =>
      match hook_before_connect h remote alpn with
      | ConnectAccept => let '(o, n) := before_connect l remote alpn in (o, S n)
      | ConnectReject => (ConnectReject, 1%nat)
      end
  end.

Fixpoint after_handshake (l : list EndpointHooks) (conn : Conn) : AfterHandshakeOutcome * nat :=
  match l with
  | [] => (HandshakeAccept, 0%nat)
  | h :: l =>
      match hook_after_handshake h conn with
      | HandshakeAccept => let '(o, n) := after_handshake l conn in (o, S n)
      | HandshakeReject code reason => (HandshakeReject code reason, 1%nat)
      end
  end.

(** The first hook that rejects decides, and no hook after it is invoked. *)
Lemma after_handshake_first l conn :
  match after_handshake l conn with
  | (HandshakeAccept, n) => n = length l /\ Forall (fun h => hook_after_handshake h conn = HandshakeAccept) l
  | (HandshakeReject code reason, n) =>
      exists l1 h l2, l = l1 ++ h :: l2 /\ n = S (length l1) /\
        Forall (fun h => hook_after_handshake h conn = HandshakeAccept) l1 /\
        hook_after_handshake h conn = HandshakeReject code reason
  end.
Proof.
  induction l as [|h l IH]; simpl; [done|]. destruct (hook_after_handshake h conn) as [|code reason] eqn:Hh.
  - destruct (after_handshake l conn) as [[|code reason] n].
    + destruct IH as [-> IH]. by repeat constructor.
    + destruct IH as (l1 & h' & l2 & -> & -> & Hl1 & Hr). exists (h :: l1), h', l2. split_and!; try done. by constructor.
  - exists [], h, l. by split_and!.
Qed.

End Hooks.

(** ** Handlers by ALPN *)

(** [Vec<u8>] is ordered byte by byte. *)
Fixpoint bytes_leb (a b : bytes) : bool :=
  match a, b with
  | [], _ => true
  | _, [] => false
  | x :: a, y :: b =>
      (byte.unsigned x <? byte.unsigned y) || (byte.unsigned x =? byte.unsigned y) && bytes_leb a b
  end.

#[export] Instance bytes_key : BTreeKey bytes := bytes_leb.

Inductive IncomingFilterOutcome := FilterAccept | FilterRetry | FilterReject | FilterIgnore.

Section Loop.
Context {Handler : Type}.

Definition ProtocolMap := gmap bytes Handler.

Definition protocols_get (m : ProtocolMap) (alpn : bytes) : option Handler := m !! alpn.
Definition protocols_insert (m : ProtocolMap) (alpn : bytes) (h : Handler) : ProtocolMap := <[alpn := h]> m.
Definition alpns (m : ProtocolMap) : list bytes := (btree_iter m).*1.

(** An incoming connection: its number, and whether its address was validated by
    an earlier retry. *)
Record Incoming := mkIncoming { in_id : nat; remote_addr_validated : bool }.

Record RouterBuilder := mkBuilder {
  protocols : ProtocolMap;
  rb_filter : option (Incoming -> IncomingFilterOutcome)
}.

Definition builder_new : RouterBuilder := mkBuilder ∅ None.
Definition incoming_filter (b : RouterBuilder) (f : Incoming -> IncomingFilterOutcome) : RouterBuilder :=
  mkBuilder (protocols b) (Some f).
Definition builder_accept (b : RouterBuilder) (alpn : bytes) (h : Handler) : RouterBuilder :=
  mkBuilder (protocols_insert (protocols b) alpn h) (rb_filter b).

(** The ALPNs that [spawn] sets on the endpoint. *)
Definition spawn_alpns (b : RouterBuilder) : list bytes := alpns (protocols b).

(** ** Connections *)

(** Where [handle_connection] stands. *)
Inductive conn_phase :=
| Handshaking                              (* after [incoming.accept()], awaiting the ALPN *)
| OnAccepting (alpn : bytes) (h : Handler)
| InAccept (alpn : bytes) (h : Handler)
| Ended (panicked : bool).

(** What happened to an incoming connection. *)
Inductive router_event :=
| Retried (i : Incoming)
| Refused (i : Incoming)
| Ignored (i : Incoming)
| Dropped (i : Incoming)                   (* accepting failed, bad handshake or unknown ALPN *)
| OnAcceptingCalled (i : Incoming) (alpn : bytes) (h : Handler)
| AcceptCalled (i : Incoming) (alpn : bytes) (h : Handler)
| TaskPanicked (i : Incoming).             (* seen by the loop *)

(** The handler of a negotiated ALPN. *)
Definition dispatch (b : RouterBuilder) (i : Incoming) (alpn : option bytes) : conn_phase * router_event :=
  match alpn with
  | None => (Ended false, Dropped i)
  | Some alpn =>
      match protocols_get (protocols b) alpn with
      | None => (Ended false, Dropped i)
      | Some h => (OnAccepting alpn h, OnAcceptingCalled i alpn h)
      end
  end.

(** What the filter does with a connection: [Some] verdict to stop there. A retry
    fails for an address that is already validated. *)
Definition filtered (b : RouterBuilder) (i : Incoming) : option router_event :=
  match rb_filter b with
  | None => None
  | Some f =>
      match f i with
      | FilterAccept => None
      | FilterRetry => Some (if remote_addr_validated i then Refused i else Retried i)
      | FilterReject => Some (Refused i)
      | FilterIgnore => Some (Ignored i)
      end
  end.

(** ** The router *)

Inductive loop_phase :=
| Looping
| ShuttingHandlers        (* in [protocols.shutdown().await] *)
| ClosingEndpoint         (* in [endpoint.close().await] *)
| Draining                (* joining the aborted tasks *)
| Done
| Aborted                 (* the task was dropped *)
| LoopPanicked.           (* the filter or a handler's [shutdown] panicked *)

#[export] Instance loop_phase_eq_dec : EqDecision loop_phase.
Proof. solve_decision. Defined.

Inductive caller :=
| Checked                 (* has seen that the token is not cancelled *)
| HasCancelled            (* has cancelled it *)
| Waiting                 (* for the task it took *)
| ReturnedEarly           (* with [Ok], without having waited *)
| ReturnedOk
| ReturnedErr.

Record router := mkRouter {
  phase : loop_phase;
  cancel_token : bool;
  task_handle : bool;                        (* is the task still in the mutex? *)
  endpoint_closed : bool;
  handlers_shut : bool;
  tasks : gmap nat (Incoming * conn_phase);
  log : list router_event;                   (* newest first *)
  callers : gmap nat caller
}.

Definition set_phase (p : loop_phase) (r : router) : router :=
  mkRouter p (cancel_token r) (task_handle r) (endpoint_closed r) (handlers_shut r) (tasks r) (log r) (callers r).
Definition set_tasks (t : gmap nat (Incoming * conn_phase)) (r : router) : router :=
  mkRouter (phase r) (cancel_token r) (task_handle r) (endpoint_closed r) (handlers_shut r) t (log r) (callers r).
Definition add_log (e : router_event) (r : router) : router :=
  mkRouter (phase r) (cancel_token r) (task_handle r) (endpoint_closed r) (handlers_shut r) (tasks r) (e :: log r)
    (callers r).
Definition set_caller (c : nat) (x : caller) (r : router) : router :=
  mkRouter (phase r) (cancel_token r) (task_handle r) (endpoint_closed r) (handlers_shut r) (tasks r) (log r)
    (<[c := x]> (callers r)).

(** The run future is dropped or ends: the guard cancels the token, and the join
    set aborts its tasks. *)
Definition stop (p : loop_phase) (r : router) : router :=
  mkRouter p true (task_handle r) (endpoint_closed r) (handlers_shut r) ∅ (log r) (callers r).

Definition router_init : router := mkRouter Looping false true false false ∅ [] ∅.

(** [Router::shutdown] up to its await, in the three accesses to what calls share:
    it reads the token, cancels it, and takes the task. *)
Definition shutdown_call (c : nat) (r : router) : router :=
  set_caller c (if cancel_token r then ReturnedEarly else Checked) r.

Definition shutdown_cancel (c : nat) (r : router) : router :=
  mkRouter (phase r) true (task_handle r) (endpoint_closed r) (handlers_shut r) (tasks r) (log r)
    (<[c := HasCancelled]> (callers r)).

Definition shutdown_take (c : nat) (r : router) : router :=
  mkRouter (phase r) (cancel_token r) false (endpoint_closed r) (handlers_shut r) (tasks r) (log r)
    (<[c := if task_handle r then Waiting else ReturnedEarly]> (callers r)).

Definition is_ended (p : conn_phase) : bool := if p is Ended _ then true else false.

Inductive router_step (b : RouterBuilder) : router -> router -> Prop :=
(* the loop; [biased] asks for the token first and for finished tasks second *)
| loop_cancelled r : phase r = Looping -> cancel_token r = true -> router_step b r (set_phase ShuttingHandlers r)
| loop_joined n i panicked r :
    phase r = Looping -> cancel_token r = false -> tasks r !! n = Some (i, Ended panicked) ->
    router_step b r
      (let r := set_tasks (delete n (tasks r)) r in
       if panicked : bool then set_phase ShuttingHandlers (add_log (TaskPanicked i) r) else r)
| loop_endpoint_closed r :
    phase r = Looping -> cancel_token r = false -> map_Forall (fun _ t => is_ended t.2 = false) (tasks r) ->
    router_step b r (set_phase ShuttingHandlers r)
| loop_filtered i e r :
    phase r = Looping -> cancel_token r = false -> map_Forall (fun _ t => is_ended t.2 = false) (tasks r) ->
    filtered b i = Some e -> router_step b r (add_log e r)
| loop_spawned n i r :
    phase r = Looping -> cancel_token r = false -> map_Forall (fun _ t => is_ended t.2 = false) (tasks r) ->
    filtered b i = None -> tasks r !! n = None ->
    router_step b r (set_tasks (<[n := (i, Handshaking)]> (tasks r)) r)
| loop_filter_panics r : phase r = Looping -> cancel_token r = false -> router_step b r (stop LoopPanicked r)
(* a task *)
| conn_alpn n i alpn r :
    tasks r !! n = Some (i, Handshaking) ->
    router_step b r
      (add_log (dispatch b i alpn).2 (set_tasks (<[n := (i, (dispatch b i alpn).1)]> (tasks r)) r))
| conn_accepting_ok n i alpn h r :
    tasks r !! n = Some (i, OnAccepting alpn h) ->
    router_step b r (add_log (AcceptCalled i alpn h) (set_tasks (<[n := (i, InAccept alpn h)]> (tasks r)) r))
| conn_ends n i p panicked r :
    tasks r !! n = Some (i, p) -> is_ended p = false ->
    router_step b r (set_tasks (<[n := (i, Ended panicked)]> (tasks r)) r)
(* the end of the run *)
| handlers_are_shut r :
    phase r = ShuttingHandlers ->
    router_step b r
      (mkRouter ClosingEndpoint (cancel_token r) (task_handle r) (endpoint_closed r) true (tasks r) (log r) (callers r))
| handler_shutdown_panics r : phase r = ShuttingHandlers -> router_step b r (stop LoopPanicked r)
| endpoint_is_closed r :
    phase r = ClosingEndpoint ->
    router_step b r
      (mkRouter Draining (cancel_token r) (task_handle r) true (handlers_shut r) (tasks r) (log r) (callers r))
| task_drained n r : phase r = Draining -> router_step b r (set_tasks (delete n (tasks r)) r)
| run_done r : phase r = Draining -> tasks r = ∅ -> router_step b r (stop Done r)
(* callers of [shutdown], and the drop of the last router *)
| caller_calls c r : callers r !! c = None -> router_step b r (shutdown_call c r)
| caller_cancels c r : callers r !! c = Some Checked -> router_step b r (shutdown_cancel c r)
| caller_takes c r : callers r !! c = Some HasCancelled -> router_step b r (shutdown_take c r)
| caller_returns c r : callers r !! c = Some Waiting -> phase r = Done -> router_step b r (set_caller c ReturnedOk r)
| caller_fails c r :
    callers r !! c = Some Waiting -> phase r = LoopPanicked -> router_step b r (set_caller c ReturnedErr r)
| caller_dropped c r :
    callers r !! c = Some Waiting -> phase r ∉ [Done; LoopPanicked] ->
    router_step b r
      (let r := stop Aborted r in
       mkRouter (phase r) (cancel_token r) (task_handle r) (endpoint_closed r) (handlers_shut r) (tasks r) (log r)
         (delete c (callers r)))
| router_dropped r :
    task_handle r = true -> phase r ∉ [Done; LoopPanicked] ->
    router_step b r
      (let r := stop Aborted r in
       mkRouter (phase r) (cancel_token r) false (endpoint_closed r) (handlers_shut r) (tasks r) (log r) (callers r)).

(** ** Invariants *)

Context (b : RouterBuilder).

(** A connection that reached a handler: the filter let it pass, and the handler
    is the one registered for its ALPN. *)
Definition admitted_to (i : Incoming) (alpn : bytes) (h : Handler) : Prop :=
  filtered b i = None /\ protocols b !! alpn = Some h.

Definition event_ok (e : router_event) : Prop :=
  match e with
  | OnAcceptingCalled i alpn h | AcceptCalled i alpn h => admitted_to i alpn h
  | Dropped i | TaskPanicked i => filtered b i = None
  | Retried i => exists f, rb_filter b = Some f /\ f i = FilterRetry /\ remote_addr_validated i = false
  | Refused i =>
      exists f, rb_filter b = Some f /\ (f i = FilterReject \/ f i = FilterRetry /\ remote_addr_validated i = true)
  | Ignored i => exists f, rb_filter b = Some f /\ f i = FilterIgnore
  end.

Definition task_ok (t : Incoming * conn_phase) : Prop :=
  filtered b t.1 = None /\
  match t.2 with
  | OnAccepting alpn h | InAccept alpn h => protocols b !! alpn = Some h
  | Handshaking | Ended _ => True
  end.

Definition phase_ok (r : router) : Prop :=
  match phase r with
  | Looping | ShuttingHandlers | Aborted | LoopPanicked => True
  | ClosingEndpoint => handlers_shut r = true
  | Draining => handlers_shut r = true /\ endpoint_closed r = true
  | Done => handlers_shut r = true /\ endpoint_closed r = true /\ tasks r = ∅
  end.

Definition caller_ok (r : router) (c : caller) : Prop :=
  match c with
  | Checked => True
  | HasCancelled => cancel_token r = true
  | Waiting => cancel_token r = true /\ task_handle r = false
  | ReturnedEarly => cancel_token r = true
  | ReturnedOk => phase r = Done
  | ReturnedErr => phase r = LoopPanicked
  end.

Record router_inv (r : router) : Prop := mkRouterInv {
  inv_log : Forall event_ok (log r);
  inv_tasks : map_Forall (fun _ t => task_ok t) (tasks r);
  inv_phase : phase_ok r;
  inv_handle : task_handle r = false -> cancel_token r = true;
  inv_callers : map_Forall (fun _ c => caller_ok r c) (callers r)
}.

Lemma filtered_event i e : filtered b i = Some e -> event_ok e.
Proof.
  unfold filtered. destruct (rb_filter b) as [f|] eqn:Hf; [|done].
  destruct (f i) eqn:Hfi; [done| |intros [= <-]; simpl; eauto|intros [= <-]; simpl; eauto].
  destruct (remote_addr_validated i) eqn:Hv; intros [= <-]; simpl; eauto 6.
Qed.

Lemma dispatch_ok i alpn :
  filtered b i = None -> task_ok (i, (dispatch b i alpn).1) /\ event_ok (dispatch b i alpn).2.
Proof.
  intros Hi. unfold dispatch, protocols_get. destruct alpn as [alpn|]; [|by repeat split].
  destruct (protocols b !! alpn) eqn:E; by repeat split.
Qed.

Lemma caller_ok_phase r r' c :
  (cancel_token r = true -> cancel_token r' = true) -> (task_handle r = false -> task_handle r' = false) ->
  (phase r = Done -> phase r' = Done) -> (phase r = LoopPanicked -> phase r' = LoopPanicked) ->
  caller_ok r c -> caller_ok r' c.
Proof. destruct c; simpl; naive_solver. Qed.

(** A step that keeps the log, the callers and the token and changes the phase. *)
Lemma inv_stop p r :
  router_inv r -> phase r <> Done -> phase r <> LoopPanicked -> p = Aborted \/ p = LoopPanicked -> router_inv (stop p r).
Proof.
  intros [Hlog Ht Hp Hh Hc] Hnd Hnp Hp'. constructor; simpl; [done|apply map_Forall_empty| |done|].
  - unfold phase_ok. simpl. by destruct Hp' as [->| ->].
  - intros c x Hx. specialize (Hc c x Hx). eapply caller_ok_phase; [..|exact Hc]; simpl; congruence.
Qed.

Ltac keep_callers Hc := let c := fresh in let x := fresh in let Hx := fresh in
  intros c x Hx; specialize (Hc c x Hx); eapply caller_ok_phase; [..|exact Hc]; simpl; congruence.

Lemma loop_step_inv r r' : router_inv r -> phase r = Looping -> cancel_token r = false -> phase r' = Looping \/ phase r' = ShuttingHandlers ->
  cancel_token r' = cancel_token r -> task_handle r' = task_handle r -> callers r' = callers r ->
  Forall event_ok (log r') -> map_Forall (fun _ t => task_ok t) (tasks r') -> router_inv r'.
Proof.
  intros [Hlog Ht Hp Hh Hc] Hl Hct Hp' Hct' Hth Hcal Hlog' Ht'. constructor; try done.
  - unfold phase_ok. by destruct Hp' as [->| ->].
  - rewrite Hth, Hct'. done.
  - rewrite Hcal. intros c x Hx. specialize (Hc c x Hx). eapply caller_ok_phase; [..|exact Hc]; congruence.
Qed.

Lemma router_step_inv r r' : router_inv r -> router_step b r r' -> router_inv r'.
Proof.
  intros Hinv Hstep. pose proof Hinv as [Hlog Ht Hp Hh Hc]. destruct Hstep.
  - constructor; simpl; try done. keep_callers Hc.
  - assert (Hi : filtered b i = None) by (by apply (Ht _ _ H1)). apply (loop_step_inv r); destruct panicked; simpl; auto.
    all: by apply map_Forall_delete.
  - apply (loop_step_inv r); simpl; auto.
  - apply (loop_step_inv r); simpl; auto. constructor; [by eapply filtered_event|done].
  - apply (loop_step_inv r); simpl; auto. by apply map_Forall_insert_2.
  - apply inv_stop; [done|congruence|congruence|by right].
  - destruct (dispatch_ok i alpn) as [Htask Hev]; [by apply (Ht _ _ H)|].
    constructor; simpl; [by constructor|by apply map_Forall_insert_2| |done|keep_callers Hc].
    unfold phase_ok in *. simpl. destruct (phase r); try done. destruct Hp as (_ & _ & Hnil). by rewrite Hnil, lookup_empty in H.
  - destruct (Ht _ _ H) as [Hf Hh2]. simpl in Hh2.
    constructor; simpl; [by constructor|by apply map_Forall_insert_2| |done|keep_callers Hc].
    unfold phase_ok in *. simpl. destruct (phase r); try done. destruct Hp as (_ & _ & Hnil). by rewrite Hnil, lookup_empty in H.
  - destruct (Ht _ _ H) as [Hf _].
    constructor; simpl; [done|by apply map_Forall_insert_2| |done|keep_callers Hc].
    unfold phase_ok in *. simpl. destruct (phase r); try done. destruct Hp as (_ & _ & Hnil). by rewrite Hnil, lookup_empty in H.
  - constructor; simpl; try done. keep_callers Hc.
  - apply inv_stop; [done|congruence|congruence|by right].
  - unfold phase_ok in Hp. rewrite H in Hp. constructor; simpl; try done. keep_callers Hc.
  - constructor; simpl; [done|by apply map_Forall_delete| |done|keep_callers Hc].
    unfold phase_ok in *. simpl. rewrite H in *. done.
  - unfold phase_ok in Hp. rewrite H in Hp. constructor; simpl; [done|apply map_Forall_empty| |done|keep_callers Hc].
    unfold phase_ok. simpl. naive_solver.
  - constructor; simpl; try done. apply map_Forall_insert_2; [by destruct (cancel_token r) eqn:Hct|keep_callers Hc].
  - constructor; simpl; try done. apply map_Forall_insert_2; [done|keep_callers Hc].
  - pose proof (Hc _ _ H) as Hct. simpl in Hct. constructor; simpl; try done.
    apply map_Forall_insert_2; [by destruct (task_handle r)|keep_callers Hc].
  - constructor; simpl; try done. apply map_Forall_insert_2; [done|keep_callers Hc].
  - constructor; simpl; try done. apply map_Forall_insert_2; [done|keep_callers Hc].
  - destruct (inv_stop Aborted r) as [Hlog' Ht' Hp' Hh' Hc']; [done|set_solver|set_solver|by left|].
    constructor; simpl in *; try done. apply map_Forall_delete. exact Hc'.
  - destruct (inv_stop Aborted r) as [Hlog' Ht' Hp' Hh' Hc']; [done|set_solver|set_solver|by left|].
    constructor; simpl in *; try done. intros c x Hx. specialize (Hc' c x Hx).
    eapply caller_ok_phase; [..|exact Hc']; simpl; congruence.
Qed.

Lemma reachable_inv r : rtc (router_step b) router_init r -> router_inv r.
Proof.
  apply (rtc_invariant (router_step b) router_inv); [|apply router_step_inv].
  constructor; simpl; try done; apply map_Forall_empty.
Qed.

(** ** Properties *)

(** C23: Whatever the interleaving of incoming connections, tasks and shutdowns: a
    handler's [accept] runs only for a connection that the filter let pass, and it
    is the handler registered for the ALPN the connection negotiated. *)
Theorem router_dispatch_admitted r i alpn h :
  rtc (router_step b) router_init r -> AcceptCalled i alpn h ∈ log r ->
  filtered b i = None /\ protocols b !! alpn = Some h.
Proof.
  intros Hr Hin. destruct (reachable_inv r Hr) as [Hlog _ _ _ _].
  rewrite Forall_forall in Hlog. exact (Hlog _ Hin).
Qed.

(** C24: When a call of [shutdown] returns after it has waited, every handler has been
    shut down, then the endpoint was closed, and no task is left. It fails only
    when the loop itself panicked. *)
Theorem shutdown_waits r c :
  rtc (router_step b) router_init r ->
  (callers r !! c = Some ReturnedOk -> handlers_shut r = true /\ endpoint_closed r = true /\ tasks r = ∅) /\
  (callers r !! c = Some ReturnedErr -> phase r = LoopPanicked).
Proof.
  intros Hr. destruct (reachable_inv r Hr) as [_ _ Hp _ Hc].
  split; intros Hx; specialize (Hc _ _ Hx); simpl in Hc; [|done]. unfold phase_ok in Hp. by rewrite Hc in Hp.
Qed.

(** The first call of [shutdown] comes to its await. *)
Definition shutdown_waiting (c : nat) (r : router) : router := shutdown_take c (shutdown_cancel c (shutdown_call c r)).

Lemma shutdown_waiting_steps c r :
  callers r !! c = None -> cancel_token r = false -> rtc (router_step b) r (shutdown_waiting c r).
Proof.
  intros Hc Hct. eapply rtc_l; [by apply (caller_calls b c)|].
  eapply rtc_l; [apply (caller_cancels b c); unfold shutdown_call; simpl; by rewrite Hct, lookup_insert_eq|].
  apply rtc_once, (caller_takes b c). simpl. by rewrite lookup_insert_eq.
Qed.

(** The end of the run, from each of its phases, leads to the caller's return. *)
Lemma drain_tasks r :
  phase r = Draining -> exists r', rtc (router_step b) r r' /\ r' = set_tasks ∅ r.
Proof.
  remember (tasks r) as ts eqn:Hts. revert r Hts.
  induction ts as [|n t ts Hn IH] using map_ind; intros r Hts Hp.
  - exists r. split; [done|]. destruct r. simpl in *. by subst.
  - destruct (IH (set_tasks (delete n (tasks r)) r)) as (r' & Hr' & ->); [simpl; by rewrite <- Hts, delete_insert_id|done|].
    eexists. split; [|reflexivity]. eapply rtc_l; [by apply (task_drained b n)|]. exact Hr'.
Qed.

Lemma finish_run r c :
  callers r !! c = Some Waiting -> cancel_token r = true -> phase r ∉ [Aborted; LoopPanicked] -> phase_ok r ->
  exists r', rtc (router_step b) r r' /\ callers r' !! c = Some ReturnedOk.
Proof.
  assert (Hdone : forall r, callers r !! c = Some Waiting -> phase r = Done ->
            exists r', rtc (router_step b) r r' /\ callers r' !! c = Some ReturnedOk).
  { intros r1 Hc Hp. exists (set_caller c ReturnedOk r1). split; [apply rtc_once; by constructor|]. simpl. by rewrite lookup_insert_eq. }
  assert (Hdrain : forall r, callers r !! c = Some Waiting -> phase r = Draining ->
            exists r', rtc (router_step b) r r' /\ callers r' !! c = Some ReturnedOk).
  { intros r1 Hc Hp. destruct (drain_tasks r1 Hp) as (r2 & Hr2 & ->).
    destruct (Hdone (stop Done (set_tasks ∅ r1))) as (r3 & Hr3 & Hc3); [done|done|].
    exists r3. split; [|done]. etrans; [exact Hr2|]. eapply rtc_l; [by apply run_done|done]. }
  assert (Hclose : forall r, callers r !! c = Some Waiting -> phase r = ClosingEndpoint ->
            exists r', rtc (router_step b) r r' /\ callers r' !! c = Some ReturnedOk).
  { intros r1 Hc Hp. edestruct Hdrain as (r3 & Hr3 & Hc3); [| |exists r3; split; [|exact Hc3]; eapply rtc_l; [by apply endpoint_is_closed|exact Hr3]]; done. }
  assert (Hshut : forall r, callers r !! c = Some Waiting -> phase r = ShuttingHandlers ->
            exists r', rtc (router_step b) r r' /\ callers r' !! c = Some ReturnedOk).
  { intros r1 Hc Hp. edestruct Hclose as (r3 & Hr3 & Hc3); [| |exists r3; split; [|exact Hc3]; eapply rtc_l; [by apply handlers_are_shut|exact Hr3]]; done. }
  intros Hc Hct Hne Hok. destruct (phase r) eqn:Hp;
    [|by apply Hshut|by apply Hclose|by apply Hdrain|by apply Hdone|destruct Hne; constructor|destruct Hne; do 2 constructor].
  destruct (Hshut (set_phase ShuttingHandlers r)) as (r3 & Hr3 & Hc3); [done|done|].
  exists r3. split; [|done]. eapply rtc_l; [by apply loop_cancelled|done].
Qed.

(** A waiting call of [shutdown] can always come to its end, from whatever state
    the loop and the tasks are in, and then the shutdown is complete. *)
Theorem shutdown_can_finish r c :
  rtc (router_step b) router_init r -> callers r !! c = Some Waiting -> phase r ∉ [Aborted; LoopPanicked] ->
  exists r', rtc (router_step b) r r' /\ callers r' !! c = Some ReturnedOk /\
    handlers_shut r' = true /\ endpoint_closed r' = true /\ tasks r' = ∅.
Proof.
  intros Hr Hc Hne. destruct (reachable_inv r Hr) as [_ _ Hp _ Hcal].
  destruct (finish_run r c Hc (proj1 (Hcal _ _ Hc)) Hne Hp) as (r' & Hr' & Hc').
  destruct (reachable_inv r') as [_ _ Hp' _ Hcal']; [by etrans|]. specialize (Hcal' _ _ Hc'). simpl in Hcal'.
  unfold phase_ok in Hp'. rewrite Hcal' in Hp'. eauto.
Qed.

(** A second call of [shutdown] returns at once, while the handlers are still
    being shut down and the endpoint is open. *)
Theorem second_shutdown_returns_early :
  exists r, rtc (router_step b) router_init r /\ callers r !! 1%nat = Some ReturnedEarly /\
    callers r !! 0%nat = Some Waiting /\ phase r = ShuttingHandlers /\ handlers_shut r = false /\ endpoint_closed r = false.
Proof.
  eexists. split.
  - etrans; [by apply (shutdown_waiting_steps 0%nat)|]. eapply rtc_l; [by apply loop_cancelled|].
    eapply rtc_l; [by apply (caller_calls b 1%nat)|]. constructor.
  - by split_and!.
Qed.

(** The panic of a handler's task stops the router, but the call of [shutdown]
    that waits for it returns [Ok]. *)
Theorem handler_panic_not_propagated i alpn h :
  filtered b i = None -> protocols b !! alpn = Some h ->
  exists r, rtc (router_step b) router_init r /\ AcceptCalled i alpn h ∈ log r /\ TaskPanicked i ∈ log r /\
    callers r !! 0%nat = Some ReturnedOk.
Proof.
  intros Hf Hh.
  set (r1 := set_tasks {[0%nat := (i, Handshaking)]} router_init).
  set (r2 := add_log (OnAcceptingCalled i alpn h) (set_tasks {[0%nat := (i, OnAccepting alpn h)]} r1)).
  set (r3 := add_log (AcceptCalled i alpn h) (set_tasks {[0%nat := (i, InAccept alpn h)]} r2)).
  set (r4 := set_tasks {[0%nat := (i, Ended true)]} r3).
  set (r5 := set_phase ShuttingHandlers (add_log (TaskPanicked i) (set_tasks ∅ r4))).
  assert (Hpath : rtc (router_step b) router_init r5).
  { eapply rtc_l; [by apply (loop_spawned b 0%nat i)|]. eapply rtc_l.
    { apply (conn_alpn b 0%nat i (Some alpn)). simpl. by rewrite lookup_insert_eq. }
    unfold dispatch, protocols_get. rewrite Hh. simpl. rewrite insert_insert_eq.
    eapply rtc_l; [apply (conn_accepting_ok b 0%nat i alpn h); simpl; by rewrite lookup_insert_eq|]. simpl. rewrite insert_insert_eq.
    eapply rtc_l; [apply (conn_ends b 0%nat i (InAccept alpn h) true); [simpl; by rewrite lookup_insert_eq|done]|].
    simpl. rewrite insert_insert_eq.
    eapply rtc_l; [apply (loop_joined b 0%nat i true); [done|done|simpl; by rewrite lookup_insert_eq]|].
    simpl. rewrite delete_insert_eq, delete_empty. reflexivity. }
  destruct (finish_run (shutdown_waiting 0%nat r5) 0%nat) as (r' & Hr' & Hc'); [done|done|set_solver|done|].
  exists r'. split; [etrans; [exact Hpath|]; etrans; [by apply (shutdown_waiting_steps 0%nat)|exact Hr']|].
  assert (Hlog : forall e, e ∈ log (shutdown_waiting 0%nat r5) -> e ∈ log r').
  { intros e He. revert He. clear Hc'. induction Hr' as [|x y z Hxy _ IH]; [done|]. intros He. apply IH.
    destruct Hxy; unfold shutdown_call; simpl; repeat case_match; simpl; try done; by right. }
  split_and!; [apply Hlog; set_solver|apply Hlog; set_solver|done].
Qed.

End Loop.
(** ** Instances of the properties *)

Definition echo_alpn : bytes := [Byte.x65; Byte.x63; Byte.x68; Byte.x6f].

(** A router with one handler that rejects connections with an odd number. *)
Definition echo_router : RouterBuilder :=
  incoming_filter (builder_accept builder_new echo_alpn tt)
    (fun i => if Nat.even (in_id i) then FilterAccept else FilterReject).

Definition peer : Incoming := mkIncoming 0 false.

Definition accepted_run : router (Handler := unit) :=
  mkRouter Looping false true false false {[0%nat := (peer, InAccept echo_alpn tt)]}
    [AcceptCalled peer echo_alpn tt; OnAcceptingCalled peer echo_alpn tt] ∅.

Lemma accepted_run_reachable : rtc (router_step echo_router) router_init accepted_run.
Proof.
  eapply rtc_l; [apply (loop_spawned echo_router 0%nat peer); done|].
  eapply rtc_l; [apply (conn_alpn echo_router 0%nat peer (Some echo_alpn)); done|].
  eapply rtc_l; [apply (conn_accepting_ok echo_router 0%nat peer echo_alpn tt); done|]. reflexivity.
Qed.

Lemma router_dispatch_admitted_witness :
  AcceptCalled peer echo_alpn tt ∈ log accepted_run /\
  (filtered echo_router peer = None /\ protocols echo_router !! echo_alpn = Some tt).
Proof.
  split; [constructor|].
  apply (router_dispatch_admitted echo_router accepted_run peer echo_alpn tt accepted_run_reachable). constructor.
Defined.

(** A call of [shutdown] while the connection is being handled. *)
Definition stopping_run : router (Handler := unit) := shutdown_waiting 0%nat accepted_run.

Lemma stopping_run_reachable : rtc (router_step echo_router) router_init stopping_run.
Proof. etrans; [exact accepted_run_reachable|]. by apply (shutdown_waiting_steps echo_router 0%nat). Qed.

Definition stopped_run : router (Handler := unit) :=
  mkRouter Done true false true true ∅
    [AcceptCalled peer echo_alpn tt; OnAcceptingCalled peer echo_alpn tt] {[0%nat := ReturnedOk]}.

Lemma stopped_run_reachable : rtc (router_step echo_router) router_init stopped_run.
Proof.
  etrans; [exact stopping_run_reachable|]. eapply rtc_l; [apply loop_cancelled; done|].
  eapply rtc_l; [apply handlers_are_shut; done|]. eapply rtc_l; [apply endpoint_is_closed; done|].
  eapply rtc_l; [apply (task_drained echo_router 0%nat); done|]. eapply rtc_l; [apply run_done; done|].
  eapply rtc_l; [apply (caller_returns echo_router 0%nat); done|]. reflexivity.
Qed.

Lemma shutdown_waits_witness :
  callers stopped_run !! 0%nat = Some ReturnedOk /\
  (callers stopped_run !! 0%nat = Some ReturnedOk ->
   handlers_shut stopped_run = true /\ endpoint_closed stopped_run = true /\ tasks stopped_run = ∅) /\
  (callers stopped_run !! 0%nat = Some ReturnedErr -> phase stopped_run = LoopPanicked).
Proof. split; [reflexivity|]. apply (shutdown_waits echo_router stopped_run 0%nat stopped_run_reachable). Defined.

Lemma shutdown_can_finish_witness :
  exists r', rtc (router_step echo_router) stopping_run r' /\ callers r' !! 0%nat = Some ReturnedOk /\
    handlers_shut r' = true /\ endpoint_closed r' = true /\ tasks r' = ∅.
Proof.
  apply (shutdown_can_finish echo_router stopping_run 0%nat stopping_run_reachable); [reflexivity|].
  apply (bool_decide_unpack (stopping_run.(phase) ∉ [Aborted; LoopPanicked])). exact I.
Defined.

Lemma handler_panic_not_propagated_witness :
  exists r, rtc (router_step echo_router) router_init r /\ AcceptCalled peer echo_alpn tt ∈ log r /\
    TaskPanicked peer ∈ log r /\ callers r !! 0%nat = Some ReturnedOk.
Proof. apply (handler_panic_not_propagated echo_router peer echo_alpn tt); reflexivity. Defined.

End Router.
