(* ===== verification/RelayDial.v ===== *)
(** * RelayDial: how a client connects to its relay

    Models [iroh-relay/src/client.rs] ([ClientBuilder::connect]),
    [iroh-relay/src/client/tls.rs] (dialing, directly or through an HTTP proxy,
    with the race of RFC 8305 over the addresses of the relay) and
    [iroh-relay/src/client/util.rs] (the reader that gives back what the proxy
    already sent). The URL crate, rustls, hyper and the websocket client are
    parameters; a [select!] is a function of what it finds ready. *)

From S2P Require Import Prelude External Instances Keys RelayFrames RelayProto Handshake Addrs DnsResolver.
Import Handshake Addrs Dns.

Module Dial.

Definition DIAL_ENDPOINT_TIMEOUT : Z := from_millis 1500.
Definition CONNECTION_ATTEMPT_DELAY : Z := from_millis 250.
Definition RESOLUTION_DELAY : Z := from_millis 50.
Definition RELAY_PATH : string := "/relay".
Definition CLIENT_AUTH_HEADER : string := "x-iroh-relay-client-auth-v1".

Inductive DialError :=
| InvalidTargetPort
| DialDns (source : DnsError)
| DialTimeout
| DialIo
| InvalidUrl (url : string)
| ProxyConnectInvalidStatus (status : Z)
| ProxyInvalidUrl (proxy_url : string)
| ProxyConnect
| ProxyInvalidTlsServername (proxy_hostname : string)
| ProxyInvalidTargetPort.

(** ** The race over the addresses *)

Definition is_ipv6 (ip : IpAddr) : bool := if ip is V6 _ then true else false.

(** [VecDeque::iter().position(..)]. *)
Fixpoint position {A} (p : A -> bool) (l : list A) : option nat :=
  match l with
  | [] => None
  | x :: l => if p x then Some 0%nat else S <$> position p l
  end.

(** The address, what is left of the queue and the family that is next. *)
Definition pop_family (addrs : list IpAddr) (next_is_v6 : bool) : option (IpAddr * list IpAddr * bool) :=
  let idx := default 0%nat (position (fun ip => Bool.eqb (is_ipv6 ip) next_is_v6) addrs) in
  (fun addr => (addr, delete idx addrs, negb next_is_v6)) <$> addrs !! idx.

(** An attempt in progress has its address and when it started. *)
Record Race := mkRace {
  resolve_stream_finished : bool;
  waiting : list IpAddr;                       (* [queue] *)
  next_prefer_v6 : bool;
  dials : list (IpAddr * Z);
  started : bool;
  last_err : option DialError;
  next_dial_delayed_until : option Z
}.

Definition race_new (prefer_ipv6 : bool) : Race := mkRace false [] prefer_ipv6 [] false None None.

(** What happens in a race, in order. *)
Inductive race_event :=
| Resolved (ip : IpAddr)
| Dialed (ip : IpAddr) (at_time : Z)
| Failed (ip : IpAddr) (at_time : Z)          (* of the attempt *)
| Connected (ip : IpAddr).

(** The loop goes on, or the function has returned. *)
Inductive raced := Racing (r : Race) | Done (res : result DialError IpAddr).

(** The top of the loop. *)
Definition race_top (r : Race) (now : Z) : raced * list race_event :=
  if resolve_stream_finished r && bool_decide (waiting r = []) && bool_decide (dials r = [])
  then (Done (Err (default (DialDns NoResponse) (last_err r))), [])
  else
    match next_dial_delayed_until r, pop_family (waiting r) (next_prefer_v6 r) with
    | None, Some (ip, waiting, next_prefer_v6) =>
        (Racing (mkRace (resolve_stream_finished r) waiting next_prefer_v6 (dials r ++ [(ip, now)]) true
                   (last_err r) (Some (now + CONNECTION_ATTEMPT_DELAY))),
         [Dialed ip now])
    | _, _ => (Racing r, [])
    end.

(** One attempt: [TcpStream::connect] under its timeout, then [set_nodelay]. *)
Definition attempt (start now : Z) (connect : option bool) (nodelay : bool) : option (result DialError unit) :=
  match connect with
  | Some true => Some (if nodelay then Ok tt else Err DialIo)
  | Some false => Some (Err DialIo)
  | None => if start + DIAL_ENDPOINT_TIMEOUT <=? now then Some (Err DialTimeout) else None
  end.

(** What a turn of the [select!] finds: how the attempt at an index fares, and
    the next item of the resolver's stream. *)
Record race_turn := mkTurn {
  t_now : Z;
  t_attempt : nat;
  t_connect : option bool;
  t_nodelay : bool;
  t_resolved : option (option (result DnsError IpAddr))
}.

Definition completed (r : Race) (t : race_turn) : option (IpAddr * Z * result DialError unit) :=
  match dials r !! t_attempt t with
  | Some (ip, start) => pair (ip, start) <$> attempt start (t_now t) (t_connect t) (t_nodelay t)
  | None => None
  end.

(** The branches. *)
Definition on_attempt (r : Race) (i : nat) (ip : IpAddr) (start : Z) (res : result DialError unit)
    : raced * list race_event :=
  match res with
  | Ok _ => (Done (Ok ip), [Connected ip])
  | Err err =>
      let dials := delete i (dials r) in
      (Racing (mkRace (resolve_stream_finished r) (waiting r) (next_prefer_v6 r) dials (started r) (Some err)
                 (if bool_decide (dials = []) then None else next_dial_delayed_until r)),
       [Failed ip start])
  | Panic => (Done Panic, [])
  end.

Definition on_resolved (prefer_ipv6 : bool) (r : Race) (now : Z) (item : option (result DnsError IpAddr))
    : Race * list race_event :=
  match item with
  | Some (Ok ip) =>
      let delayed :=
        if started r then next_dial_delayed_until r
        else if Bool.eqb prefer_ipv6 (is_ipv6 ip) then None
        else if next_dial_delayed_until r is Some _ then next_dial_delayed_until r
        else Some (now + RESOLUTION_DELAY) in
      (mkRace (resolve_stream_finished r) (waiting r ++ [ip]) (next_prefer_v6 r) (dials r) (started r)
         (last_err r) delayed, [Resolved ip])
  | Some (Err err) =>
      (mkRace (resolve_stream_finished r) (waiting r) (next_prefer_v6 r) (dials r) (started r)
         (Some (DialDns err)) (next_dial_delayed_until r), [])
  | Some Panic => (r, [])
  | None =>
      (mkRace true (waiting r) (next_prefer_v6 r) (dials r) (started r) (last_err r)
         (if started r then next_dial_delayed_until r else None), [])
  end.

Definition on_timer (r : Race) : Race :=
  mkRace (resolve_stream_finished r) (waiting r) (next_prefer_v6 r) (dials r) (started r) (last_err r) None.

(** The [biased] select: the state after the branch that ran, if one did. *)
Definition race_select (prefer_ipv6 : bool) (r : Race) (t : race_turn) : option (raced * list race_event) :=
  match completed r t with
  | Some (ip, start, res) => Some (on_attempt r (t_attempt t) ip start res)
  | None =>
      match (if resolve_stream_finished r then None else t_resolved t) with
      | Some item => let '(r, evs) := on_resolved prefer_ipv6 r (t_now t) item in Some (Racing r, evs)
      | None =>
          match next_dial_delayed_until r with
          | Some deadline => if deadline <=? t_now t then Some (Racing (on_timer r), []) else None
          | None => None
          end
      end
  end.

(** A turn, and the top of the loop after it; the race stays as it is while
    nothing is ready. *)
Definition race_step (prefer_ipv6 : bool) (r : Race) (t : race_turn) : raced * list race_event :=
  match race_select prefer_ipv6 r t with
  | None => (Racing r, [])
  | Some (Racing r, evs) => let '(out, evs') := race_top r (t_now t) in (out, evs ++ evs')
  | Some done => done
  end.

Fixpoint race_run (prefer_ipv6 : bool) (r : Race) (ts : list race_turn) : raced * list race_event :=
  match ts with
  | [] => (Racing r, [])
  | t :: ts =>
      match race_step prefer_ipv6 r t with
      | (Racing r, evs) => let '(out, evs') := race_run prefer_ipv6 r ts in (out, evs ++ evs')
      | done => done
      end
  end.

Definition dial_happy_eyeballs (port : option Z) (prefer_ipv6 : bool) (start : Z) (ts : list race_turn)
    : raced * list race_event :=
  match port with
  | None => (Done (Err InvalidTargetPort), [])
  | Some _ =>
      match race_top (race_new prefer_ipv6) start with
      | (Racing r, evs) => let '(out, evs') := race_run prefer_ipv6 r ts in (out, evs ++ evs')
      | done => done
      end
  end.

(** ** Streams to the relay *)

(** A TCP connection: the address it was dialed at and its local address. *)
Record Tcp := mkTcp { tcp_peer : IpAddr * Z; tcp_local_addr : option SocketAddr }.

(** A TLS stream has the name its certificate was checked for. *)
Inductive MaybeTlsStream (IO : Type) := Raw (io : IO) | Tls (server_name : string) (io : IO).
Arguments Raw {IO} io.
Arguments Tls {IO} server_name io.

Definition as_ref {IO} (s : MaybeTlsStream IO) : IO := match s with Raw io | Tls _ io => io end.

(** [Proxied] holds what was read with the proxy's answer. *)
Inductive ProxyStream := RawTcp (s : Tcp) | Proxied (read_buf : bytes) (s : MaybeTlsStream Tcp).

Definition local_addr (s : ProxyStream) : option SocketAddr :=
  match s with
  | RawTcp s => tcp_local_addr s
  | Proxied _ s => tcp_local_addr (as_ref s)
  end.

(** [async fn]s that may still be waiting, and their [?]. *)
Definition wait_bind {E A B} (m : option (result E A)) (k : A -> option (result E B)) : option (result E B) :=
  match m with
  | None => None
  | Some (Ok a) => k a
  | Some (Err e) => Some (Err e)
  | Some Panic => Some Panic
  end.

Notation "'wait?' x := m 'in' k" := (wait_bind m (fun x => k))
  (at level 10, x pattern, m at level 100, k at level 200).

Section Connect.
Context {N : NoqProto} {Ed : Ed25519} {P : Postcard} {H : HandshakeCrypto}.

(** The accessors of the URL crate. *)
Context {Url : Type} (url_str : Url -> string) (scheme : Url -> string) (port : Url -> option Z).
Context (host_str : Url -> option string) (username : Url -> string) (password : Url -> option string).
Context (set_path : Url -> string -> Url) (set_scheme : Url -> string -> option Url).

(** The network: what the turns of a race find, the local address of a connection. *)
Context (race_turns : Url -> list race_turn) (bound_to : IpAddr * Z -> option SocketAddr).
(** rustls: valid server names, whether a handshake succeeds, and the exporter
    of a connection. *)
Context (server_name : string -> option string) (tls_connect : string -> bool) (tls_exporter : Exporter).

Inductive ConnectError :=
| InvalidWebsocketUrl (url : string)
| InvalidRelayUrl (url : string)
| ConnectWebsocket
| BadVersionHeader (server_version : option string)
| InvalidAuthToken
| ConnectHandshake (source : Error)
| ConnectDial (source : DialError)
| UnexpectedUpgradeStatus (code : Z)
| InvalidTlsServername
| NoLocalAddr
| ConnectTls
| MissingCryptoProvider.

Definition url_port (url : Url) : option Z :=
  match port url with
  | Some port => Some port
  | None =>
      if (scheme url =? "http")%string || (scheme url =? "ws")%string then Some 80
      else if (scheme url =? "https")%string || (scheme url =? "wss")%string then Some 443
      else None
  end.

(** [dial_happy_eyeballs], with the connection it returns. *)
Definition dial_tcp (url : Url) (prefer_ipv6 : bool) (now : Z) : option (result DialError Tcp) :=
  match (dial_happy_eyeballs (url_port url) prefer_ipv6 now (race_turns url)).1 with
  | Racing _ => None
  | Done res =>
      Some (let? ip := res in
            let? port := ok_or (url_port url) InvalidTargetPort in
            Ok (mkTcp (ip, port) (bound_to (ip, port))))
  end.

(** *** Through a proxy *)

(** The [CONNECT] request. *)
Record proxy_request := mkProxyRequest {
  req_uri : string;
  req_host : string;
  req_authorization : option string
}.

(** hyper: whether the HTTP connection is set up, the status of the answer, and
    what was read after it; and [BASE64URL]. *)
Context (http1_handshake : MaybeTlsStream Tcp -> bool) (send_request : proxy_request -> option Z).
Context (upgrade : proxy_request -> option bytes) (base64url_padded : string -> string).
Context (port_to_string : Z -> string).

Definition is_success (status : Z) : bool := (200 <=? status) && (status <? 300).

Definition proxy_credentials (proxy_url : Url) : option string :=
  if (username proxy_url =? "")%string then None
  else Some ("Basic " ++ base64url_padded
               (username proxy_url ++ ":" ++ default "" (password proxy_url)))%string.

Definition proxy_io (proxy_url : Url) (tcp_stream : Tcp) : result DialError (MaybeTlsStream Tcp) :=
  if (scheme proxy_url =? "http")%string then Ok (Raw tcp_stream)
  else
    let? hostname := ok_or (host_str proxy_url) (ProxyInvalidUrl (url_str proxy_url)) in
    let? name := ok_or (server_name hostname) (ProxyInvalidTlsServername hostname) in
    let? _ := ensure (tls_connect name) DialIo in
    Ok (Tls name tcp_stream).

Definition dial_url_proxy (url proxy_url : Url) (prefer_ipv6 : bool) (now : Z) : option (result DialError ProxyStream) :=
  wait? tcp_stream :=
    map_err (fun err => match err with InvalidTargetPort => ProxyInvalidTargetPort | err => err end) <$>
      dial_tcp proxy_url prefer_ipv6 now in
  Some (let? io := proxy_io proxy_url tcp_stream in
        let? target_host := ok_or (host_str url) (InvalidUrl (url_str url)) in
        let? port := ok_or (url_port url) InvalidTargetPort in
        let req := mkProxyRequest (target_host ++ ":" ++ port_to_string port)%string target_host
                     (proxy_credentials proxy_url) in
        let? _ := ensure (http1_handshake io) ProxyConnect in
        let? status := ok_or (send_request req) ProxyConnect in
        let? _ := ensure (is_success status) (ProxyConnectInvalidStatus status) in
        let? read_buf := ok_or (upgrade req) ProxyConnect in
        Ok (Proxied read_buf io)).

(** *** MaybeTlsStreamBuilder *)

Definition use_tls (url : Url) : bool :=
  negb ((scheme url =? "http")%string || (scheme url =? "ws")%string).

Definition tls_servername (url : Url) : option string := host_str url ≫= server_name.

Definition dial_url (url : Url) (proxy_url : option Url) (prefer_ipv6 : bool) (now : Z)
    : option (result DialError ProxyStream) :=
  match proxy_url with
  | Some proxy => dial_url_proxy url proxy prefer_ipv6 now
  | None => wait? stream := dial_tcp url prefer_ipv6 now in Some (Ok (RawTcp stream))
  end.

Definition stream_connect (url : Url) (proxy_url : option Url) (prefer_ipv6 : bool) (now : Z)
    : option (result ConnectError (MaybeTlsStream ProxyStream)) :=
  wait? tcp_stream := map_err ConnectDial <$> dial_url url proxy_url prefer_ipv6 now in
  Some (let? _ := ok_or (local_addr tcp_stream) NoLocalAddr in
        if use_tls url then
          let? hostname := ok_or (tls_servername url) InvalidTlsServername in
          let? _ := ensure (tls_connect hostname) ConnectTls in
          Ok (Tls hostname tcp_stream)
        else Ok (Raw tcp_stream)).

(** [ExportKeyingMaterial] of a stream: only TLS has it. *)
Definition stream_exporter {IO} (s : MaybeTlsStream IO) : Exporter :=
  match s with
  | Raw _ => fun _ _ => None
  | Tls _ _ => tls_exporter
  end.

(** *** ClientBuilder *)

Record ClientBuilder := mkClientBuilder {
  address_family_selector : option bool;       (* what the callback returns *)
  relay_url : Url;
  has_tls_config : bool;
  builder_proxy_url : option Url;
  secret_key : SecretKey;
  auth_token : option string
}.

Definition ClientBuilder_new (url : Url) (secret_key : SecretKey) : ClientBuilder :=
  mkClientBuilder None url false None secret_key None.

Definition prefer_ipv6 (self : ClientBuilder) : bool := default false (address_family_selector self).

(** The URL of the websocket. *)
Definition websocket_url (url : Url) : result ConnectError Url :=
  let dial_url := set_path url RELAY_PATH in
  let ws := if (scheme url =? "http")%string || (scheme url =? "ws")%string then "ws"%string else "wss"%string in
  ok_or (set_scheme dial_url ws) (InvalidWebsocketUrl (url_str dial_url)).

(** The headers of the upgrade request. *)
Definition upgrade_headers (self : ClientBuilder) (stream : MaybeTlsStream ProxyStream)
    : result ConnectError (list (string * HeaderValue)) :=
  let? versions := match header_from_str all_joined with Some v => Ok v | None => Panic end in
  let? token :=
    match auth_token self with
    | Some token =>
        let? value := ok_or (header_from_str ("Bearer " ++ token)%string) InvalidAuthToken in
        Ok [("authorization"%string, value)]
    | None => Ok []
    end in
  let? auth :=
    match KeyMaterialClientAuth_new (secret_key self) (stream_exporter stream) with
    | Some client_auth =>
        match into_header_value client_auth with
        | Ok value => Ok [(CLIENT_AUTH_HEADER, value)]
        | _ => Panic
        end
    | None => Ok []
    end in
  Ok (("sec-websocket-protocol"%string, versions) :: token ++ auth).

(** The websocket client: whether it accepts the URL, and the status and the
    [Sec-WebSocket-Protocol] of the answer; then the messages of the handshake. *)
Context (ws_uri : Url -> bool).
Context (connect_on : Url -> list (string * HeaderValue) -> option (Z * option string)).
Context (handshake_answers : list answer).

Record Client := mkClient {
  client_stream : MaybeTlsStream ProxyStream;
  client_protocol_version : ProtocolVersion;
  client_local_addr : option SocketAddr
}.

Definition connect (self : ClientBuilder) (now : Z) : option (result ConnectError Client) :=
  wait? dial_url := Some (websocket_url (relay_url self)) in
  wait? _ := Some (ensure (has_tls_config self) MissingCryptoProvider) in
  wait? stream := stream_connect dial_url (builder_proxy_url self) (prefer_ipv6 self) now in
  wait? local_addr := Some (ok_or (local_addr (as_ref stream)) NoLocalAddr) in
  wait? _ := Some (ensure (ws_uri dial_url) (InvalidRelayUrl (url_str dial_url))) in
  wait? headers := Some (upgrade_headers self stream) in
  wait? (status, version_str) := Some (ok_or (connect_on dial_url headers) ConnectWebsocket) in
  wait? _ := Some (ensure (status =? 101) (UnexpectedUpgradeStatus status)) in
  wait? version := Some (ok_or (version_str ≫= match_from_str) (BadVersionHeader version_str)) in
  wait? _ := map_err ConnectHandshake <$> (drive (clientside (secret_key self)) handshake_answers).1 in
  Some (Ok (mkClient stream version (Some local_addr))).

End Connect.

(** ** Chain: what the proxy sent, then the stream *)

Section Chain.
(** The second reader: [poll_read] into a buffer with room for [n] bytes. *)
Context {R : Type} (poll_second : R -> nat -> R * option (result unit bytes)).

Record Chain := mkChain { first : bytes; second : R; done_first : bool }.

(** [poll_read] of a [Cursor]. *)
Definition cursor_read (c : bytes) (n : nat) : bytes * bytes := (drop n c, take n c).

Definition chain_poll_read (me : Chain) (n : nat) : Chain * option (result unit bytes) :=
  let from_second '(me : Chain) :=
    let '(r, res) := poll_second (second me) n in (mkChain (first me) r (done_first me), res) in
  if done_first me then from_second me
  else
    let '(rest, read) := cursor_read (first me) n in
    if bool_decide (read = [])
    then from_second (mkChain rest (second me) true)
    else (mkChain rest (second me) false, Some (Ok read)).

(** The answers to reads with room for each of [ns] bytes. *)
Fixpoint chain_reads (me : Chain) (ns : list nat) : list (option (result unit bytes)) :=
  match ns with
  | [] => []
  | n :: ns => let '(me, res) := chain_poll_read me n in res :: chain_reads me ns
  end.

Fixpoint second_reads (r : R) (ns : list nat) : list (option (result unit bytes)) :=
  match ns with
  | [] => []
  | n :: ns => let '(r, res) := poll_second r n in res :: second_reads r ns
  end.

End Chain.

(** ** What the trace of a race says *)

Definition resolved_of (evs : list race_event) : list IpAddr :=
  omap (fun e => if e is Resolved ip then Some ip else None) evs.
Definition dialed_of (evs : list race_event) : list (IpAddr * Z) :=
  omap (fun e => if e is Dialed ip t then Some (ip, t) else None) evs.
Definition failures_of (evs : list race_event) : list (IpAddr * Z) :=
  omap (fun e => if e is Failed ip t then Some (ip, t) else None) evs.

(** The first attempt goes to the preferred family if one of its addresses is
    known by then; an attempt starts only when those still in progress have had
    their time. *)
Definition good_dials (prefer_ipv6 : bool) (evs : list race_event) : Prop :=
  forall evs1 ip t evs2, evs = evs1 ++ Dialed ip t :: evs2 ->
  (dialed_of evs1 = [] ->
   is_ipv6 ip = prefer_ipv6 \/ Forall (fun x => is_ipv6 x = negb prefer_ipv6) (resolved_of evs1)) /\
  (forall in_progress, failures_of evs1 ++ in_progress ≡ₚ dialed_of evs1 ->
   Forall (fun d => d.2 + CONNECTION_ATTEMPT_DELAY <= t) in_progress).

(** Every address that was resolved waits or was dialed, once; every one that
    was dialed is in progress or failed; until the first attempt the family
    that is next is the preferred one. *)
Record race_inv (prefer_ipv6 : bool) (now : Z) (r : Race) (evs : list race_event) : Prop := mkRaceInv {
  ri_resolved : map fst (dialed_of evs) ++ waiting r ≡ₚ resolved_of evs;
  ri_dialed : failures_of evs ++ dials r ≡ₚ dialed_of evs;
  ri_started : started r = false -> dialed_of evs = [];
  ri_first : dialed_of evs = [] -> next_prefer_v6 r = prefer_ipv6;
  ri_spaced : Forall (fun d => d.2 + CONNECTION_ATTEMPT_DELAY <= default now (next_dial_delayed_until r)) (dials r);
  ri_good : good_dials prefer_ipv6 evs
}.

Lemma position_spec {A} (p : A -> bool) l i :
  position p l = Some i -> exists x, l !! i = Some x /\ p x = true.
Proof.
  revert i. induction l as [|x l IH]; intros i; [done|]. simpl. destruct (p x) eqn:Ep.
  - intros [= <-]. eauto.
  - destruct (position p l) as [j|] eqn:Ej; [|done]. intros [= <-]. by apply (IH j).
Qed.

Lemma position_none {A} (p : A -> bool) l : position p l = None -> Forall (fun x => p x = false) l.
Proof.
  induction l as [|x l IH]; [done|]. simpl. destruct (p x) eqn:Ep; [done|].
  destruct (position p l); [done|]. intros _. constructor; auto.
Qed.

(** [pop_family] takes one address, of the family that is next if the queue has one. *)
Lemma pop_family_some l v6 ip l' v6' :
  pop_family l v6 = Some (ip, l', v6') ->
  l ≡ₚ ip :: l' /\ v6' = negb v6 /\ (is_ipv6 ip = v6 \/ Forall (fun x => is_ipv6 x = negb v6) l).
Proof.
  unfold pop_family. intros H.
  destruct (position (fun ip0 => Bool.eqb (is_ipv6 ip0) v6) l) as [i|] eqn:Ep; simpl in H.
  - destruct (position_spec _ _ _ Ep) as (x & Ex & Hx). rewrite Ex in H. injection H as <- <- <-.
    split; [by apply delete_Permutation|]. split; [done|]. left. by apply Bool.eqb_prop.
  - destruct (l !! 0%nat) as [x|] eqn:Ex; [|done]. injection H as <- <- <-.
    split; [by apply delete_Permutation|]. split; [done|]. right.
    eapply Forall_impl; [apply (position_none _ _ Ep)|]. intros y Hy. simpl in Hy.
    by destruct (is_ipv6 y), v6.
Qed.

Lemma pop_family_none l v6 : pop_family l v6 = None -> l = [].
Proof.
  unfold pop_family. destruct (position _ l) as [i|] eqn:Ep; simpl; intros H.
  - destruct (position_spec _ _ _ Ep) as (x & Ex & _). by rewrite Ex in H.
  - by destruct l.
Qed.

Lemma trace_app evs evs' :
  resolved_of (evs ++ evs') = resolved_of evs ++ resolved_of evs' /\
  dialed_of (evs ++ evs') = dialed_of evs ++ dialed_of evs' /\
  failures_of (evs ++ evs') = failures_of evs ++ failures_of evs'.
Proof. unfold resolved_of, dialed_of, failures_of. by rewrite !omap_app. Qed.

Lemma good_dials_snoc prefer evs e :
  good_dials prefer evs ->
  (forall ip t, e = Dialed ip t ->
     (dialed_of evs = [] ->
      is_ipv6 ip = prefer \/ Forall (fun x => is_ipv6 x = negb prefer) (resolved_of evs)) /\
     (forall in_progress, failures_of evs ++ in_progress ≡ₚ dialed_of evs ->
      Forall (fun d => d.2 + CONNECTION_ATTEMPT_DELAY <= t) in_progress)) ->
  good_dials prefer (evs ++ [e]).
Proof.
  intros Hg He evs1 ip t evs2 E. destruct evs2 as [|x evs2 _] using rev_ind.
  - apply app_inj_tail in E as [-> ->]. by apply He.
  - rewrite app_comm_cons, app_assoc in E. apply app_inj_tail in E as [-> _]. by eapply Hg.
Qed.

Lemma race_inv_not_started prefer now r evs :
  race_inv prefer now r evs -> started r = false -> dials r = [].
Proof.
  intros I Hs. pose proof (ri_dialed _ _ _ _ I) as P. rewrite (ri_started _ _ _ _ I Hs) in P.
  symmetry in P. apply Permutation_nil in P. by apply app_eq_nil in P as [_ ->].
Qed.

Lemma race_top_inv prefer now r evs r' evs' :
  race_inv prefer now r evs -> race_top r now = (Racing r', evs') -> race_inv prefer now r' (evs ++ evs').
Proof.
  intros I. unfold race_top. destruct (_ && _ && _); [done|].
  assert (Hid : race_inv prefer now r (evs ++ [])) by by rewrite app_nil_r.
  destruct (next_dial_delayed_until r) as [d|] eqn:Ed; [by intros [= <- <-]|].
  destruct (pop_family (waiting r) (next_prefer_v6 r)) as [[[ip l] v6]|] eqn:Ep; [|by intros [= <- <-]].
  intros [= <- <-]. destruct (pop_family_some _ _ _ _ _ Ep) as (Hl & -> & Hf).
  destruct I as [I1 I2 I3 I4 I5 I6]. rewrite Ed in I5. simpl in I5.
  destruct (trace_app evs [Dialed ip now]) as (R1 & R2 & R3). split; simpl.
  - rewrite R1, R2. simpl. rewrite map_app, app_nil_r, <- I1, Hl. simpl. by rewrite <- app_assoc.
  - rewrite R2, R3. simpl. by rewrite app_nil_r, <- I2, app_assoc.
  - done.
  - rewrite R2. intros E. by apply app_eq_nil in E as [_ E].
  - apply Forall_app. split; [|constructor; [simpl; lia|done]].
    eapply Forall_impl; [exact I5|]. simpl. unfold CONNECTION_ATTEMPT_DELAY, from_millis. lia.
  - apply good_dials_snoc; [done|]. intros ip' t' [= <- <-]. split.
    + intros Hd. rewrite (I4 Hd) in Hf. rewrite Hd in I1. simpl in I1.
      destruct Hf as [Hf|Hf]; [by left|right]. by rewrite <- I1.
    + intros fl Hfl. rewrite <- I2 in Hfl. apply Permutation_app_inv_l in Hfl. by rewrite Hfl.
Qed.

Lemma race_inv_later prefer now now' r evs : race_inv prefer now r evs -> now <= now' -> race_inv prefer now' r evs.
Proof.
  intros [I1 I2 I3 I4 I5 I6] Ht. split; try done. eapply Forall_impl; [exact I5|].
  intros d Hd. destruct (next_dial_delayed_until r); simpl in *; lia.
Qed.

Lemma completed_some r t ip start res :
  completed r t = Some (ip, start, res) ->
  dials r !! t_attempt t = Some (ip, start) /\ res <> Panic.
Proof.
  unfold completed, attempt. destruct (dials r !! t_attempt t) as [[ip' start']|]; [|done].
  destruct (t_connect t) as [[]|]; [destruct (t_nodelay t)| |destruct (_ <=? _)]; simpl; intros H;
    by simplify_eq.
Qed.

Lemma on_attempt_inv prefer now r evs i ip start err r' evs' :
  race_inv prefer now r evs -> dials r !! i = Some (ip, start) ->
  on_attempt r i ip start (Err err) = (Racing r', evs') -> race_inv prefer now r' (evs ++ evs').
Proof.
  intros [I1 I2 I3 I4 I5 I6] Ed [= <- <-].
  destruct (trace_app evs [Failed ip start]) as (R1 & R2 & R3).
  split; simpl; rewrite ?R1, ?R2, ?R3; simpl; rewrite ?app_nil_r; try done.
  - rewrite <- I2, <- app_assoc. apply Permutation_app_head. symmetry. by apply (delete_Permutation _ _ _ Ed).
  - case_bool_decide as Hn; [by rewrite Hn|]. by apply Forall_delete.
  - by apply good_dials_snoc.
Qed.

Lemma on_resolved_inv prefer now r evs item r' evs' :
  race_inv prefer now r evs -> on_resolved prefer r now item = (r', evs') ->
  race_inv prefer now r' (evs ++ evs').
Proof.
  intros I. pose proof (race_inv_not_started _ _ _ _ I) as Hns. destruct I as [I1 I2 I3 I4 I5 I6].
  destruct item as [[ip|err|]|]; simpl; intros [= <- <-]; rewrite ?app_nil_r; [|by split..|].
  - destruct (trace_app evs [Resolved ip]) as (R1 & R2 & R3).
    split; simpl; rewrite ?R1, ?R2, ?R3; simpl; rewrite ?app_nil_r; try done.
    + by rewrite app_assoc, I1.
    + destruct (started r) eqn:Hs; [done|]. by rewrite Hns.
    + by apply good_dials_snoc.
  - split; simpl; try done. destruct (started r) eqn:Hs; [done|]. by rewrite Hns.
Qed.

Lemma race_select_inv prefer now r evs t r' evs' :
  race_inv prefer now r evs -> now <= t_now t ->
  race_select prefer r t = Some (Racing r', evs') -> race_inv prefer (t_now t) r' (evs ++ evs').
Proof.
  intros I Ht. apply (race_inv_later _ _ (t_now t)) in I; [|done]. clear Ht. unfold race_select.
  destruct (completed r t) as [[[ip start] [[]|err|]]|] eqn:Ec; [done| |done|].
  - intros [= <- <-]. destruct (completed_some _ _ _ _ _ Ec) as [Ed _]. by eapply on_attempt_inv.
  - destruct (if resolve_stream_finished r then None else t_resolved t) as [item|].
    + destruct (on_resolved prefer r (t_now t) item) as [r1 evs1] eqn:Er. intros [= <- <-].
      by eapply on_resolved_inv.
    + destruct (next_dial_delayed_until r) as [deadline|] eqn:Ed; [|done].
      destruct (Z.leb_spec deadline (t_now t)); [|done]. intros [= <- <-]. rewrite app_nil_r.
      destruct I as [I1 I2 I3 I4 I5 I6]. split; simpl; try done.
      eapply Forall_impl; [exact I5|]. rewrite Ed. simpl. lia.
Qed.

(** How a race ends: with the connection of an attempt, or when every address
    that was resolved was dialed and failed. *)
Definition race_outcome (res : result DialError IpAddr) (evs : list race_event) : Prop :=
  match res with
  | Ok ip => ip ∈ map fst (dialed_of evs)
  | Err _ => map fst (failures_of evs) ≡ₚ resolved_of evs
  | Panic => False
  end.

Lemma race_top_done prefer now r evs res evs' :
  race_inv prefer now r evs -> race_top r now = (Done res, evs') -> race_outcome res (evs ++ evs') /\ evs' = [].
Proof.
  intros [I1 I2 _ _ _ _]. unfold race_top. destruct (_ && _ && _) eqn:E.
  - intros [= <- <-]. rewrite app_nil_r. split; [|done]. simpl.
    apply andb_prop in E as [E Ed]. apply andb_prop in E as [_ Ew].
    apply bool_decide_eq_true in Ed, Ew. rewrite Ew, app_nil_r in I1. rewrite Ed, app_nil_r in I2.
    by rewrite <- I1, <- I2.
  - destruct (next_dial_delayed_until r); [done|]. by destruct (pop_family _ _) as [[[??]?]|].
Qed.

Lemma race_select_done prefer now r evs t res evs' :
  race_inv prefer now r evs -> race_select prefer r t = Some (Done res, evs') ->
  race_outcome res (evs ++ evs') /\ dialed_of evs' = [].
Proof.
  intros [_ I2 _ _ _ _]. unfold race_select.
  destruct (completed r t) as [[[ip start] res']|] eqn:Ec.
  - destruct (completed_some _ _ _ _ _ Ec) as [Ed Hp]. destruct res' as [[]|err|]; simpl; [|done|done].
    intros [= <- <-]. split; [|done]. simpl. destruct (trace_app evs [Connected ip]) as (_ & -> & _).
    rewrite app_nil_r, <- I2. apply list_elem_of_fmap. exists (ip, start). split; [done|].
    apply elem_of_app. right. by eapply list_elem_of_lookup_2.
  - destruct (if resolve_stream_finished r then None else t_resolved t).
    + by destruct (on_resolved _ _ _ _).
    + destruct (next_dial_delayed_until r); [|done]. by destruct (_ <=? _).
Qed.

(** The clock does not go back between turns. *)
Fixpoint in_order (now : Z) (ts : list race_turn) : Prop :=
  match ts with
  | [] => True
  | t :: ts => now <= t_now t /\ in_order (t_now t) ts
  end.

Lemma good_dials_quiet prefer evs evs' :
  good_dials prefer evs -> dialed_of evs' = [] -> good_dials prefer (evs ++ evs').
Proof.
  intros Hg. induction evs' as [|e evs' IH] using rev_ind; [by rewrite app_nil_r|].
  destruct (trace_app evs' [e]) as (_ & -> & _). intros E. apply app_eq_nil in E as [E1 E2].
  rewrite app_assoc. apply good_dials_snoc; [by apply IH|]. by intros ip t ->.
Qed.

(** What every race keeps, whether it goes on or has ended. *)
Definition race_sound (prefer_ipv6 : bool) (out : raced) (evs : list race_event) : Prop :=
  good_dials prefer_ipv6 evs /\
  match out with
  | Racing r => map fst (dialed_of evs) ++ waiting r ≡ₚ resolved_of evs /\ failures_of evs ++ dials r ≡ₚ dialed_of evs
  | Done res => race_outcome res evs
  end.

Lemma race_step_sound prefer now r evs t out evs' :
  race_inv prefer now r evs -> now <= t_now t -> race_step prefer r t = (out, evs') ->
  race_sound prefer out (evs ++ evs') /\
  (forall r', out = Racing r' -> race_inv prefer (t_now t) r' (evs ++ evs')).
Proof.
  intros I Ht. unfold race_step.
  assert (Hinv : forall now r evs, race_inv prefer now r evs -> race_sound prefer (Racing r) evs)
    by (by intros ??? []).
  destruct (race_select prefer r t) as [[[r1|res] evs1]|] eqn:Es.
  - pose proof (race_select_inv _ _ _ _ _ _ _ I Ht Es) as I1.
    destruct (race_top r1 (t_now t)) as [[r2|res] evs2] eqn:Et; intros [= <- <-]; rewrite app_assoc.
    + pose proof (race_top_inv _ _ _ _ _ _ I1 Et) as I2. split; [by eapply Hinv|]. by intros r' [= <-].
    + destruct (race_top_done _ _ _ _ _ _ I1 Et) as [Ho ->]. rewrite app_nil_r in *.
      split; [|done]. split; [apply I1|done].
  - intros [= <- <-]. destruct (race_select_done _ _ _ _ _ _ _ I Es) as [Ho Hq].
    split; [|done]. split; [|done]. by apply good_dials_quiet; [apply I|].
  - intros [= <- <-]. rewrite app_nil_r. apply (race_inv_later _ _ _ _ _ I) in Ht.
    split; [by eapply Hinv|]. by intros r' [= <-].
Qed.

Lemma race_run_sound prefer ts now r evs out evs' :
  race_inv prefer now r evs -> in_order now ts -> race_run prefer r ts = (out, evs') ->
  race_sound prefer out (evs ++ evs').
Proof.
  revert now r evs evs'. induction ts as [|t ts IH]; intros now r evs evs' I Ho; simpl.
  - intros [= <- <-]. rewrite app_nil_r. by destruct I.
  - destruct Ho as [Ht Ho]. destruct (race_step prefer r t) as [o evs1] eqn:Es.
    destruct (race_step_sound _ _ _ _ _ _ _ I Ht Es) as [Hs Hn]. destruct o as [r1|res].
    + destruct (race_run prefer r1 ts) as [o2 evs2] eqn:Er. intros [= <- <-]. rewrite app_assoc.
      eapply IH; [by apply Hn|done|done].
    + intros [= <- <-]. done.
Qed.

Lemma race_new_inv prefer now : race_inv prefer now (race_new prefer) [].
Proof. split; try done. by intros [|??] ???. Qed.

(** The race over the addresses of a relay: the first attempt goes to the
    preferred family when one of its addresses is known by then, a later one
    starts only when those in progress have had their time; every address that
    was resolved waits, or was dialed once; the race ends with the connection of
    an attempt, or when every address was dialed and failed. *)
Theorem race_tries_all port prefer_ipv6 start ts out evs :
  in_order start ts -> dial_happy_eyeballs (Some port) prefer_ipv6 start ts = (out, evs) ->
  race_sound prefer_ipv6 out evs.
Proof.
  intros Ho. unfold dial_happy_eyeballs.
  assert (race_top (race_new prefer_ipv6) start = (Racing (race_new prefer_ipv6), [])) as -> by done.
  destruct (race_run prefer_ipv6 (race_new prefer_ipv6) ts) as [o evs'] eqn:Er. simpl. intros H. simplify_eq.
  by apply (race_run_sound _ _ _ _ [] _ _ (race_new_inv prefer_ipv6 start) Ho Er).
Qed.

(** *** The race ends *)

(** Turns in which a branch of the [select!] runs. *)
Definition ready (prefer_ipv6 : bool) (r : Race) (t : race_turn) : bool :=
  if race_select prefer_ipv6 r t is Some _ then true else false.

Fixpoint all_ready (prefer_ipv6 : bool) (r : Race) (ts : list race_turn) : bool :=
  match ts with
  | [] => true
  | t :: ts =>
      ready prefer_ipv6 r t &&
      match race_step prefer_ipv6 r t with
      | (Racing r, _) => all_ready prefer_ipv6 r ts
      | (Done _, _) => true
      end
  end.

(** The arms of the [select!] that are enabled: at least one must be. *)
Definition some_arm_enabled (r : Race) : Prop :=
  dials r <> [] \/ resolve_stream_finished r = false \/ next_dial_delayed_until r <> None.

(** What is left to do once the resolver has ended. *)
Definition work (r : Race) : nat :=
  (3 * length (waiting r) + length (dials r) + (if next_dial_delayed_until r is Some _ then 1 else 0))%nat.

Lemma race_top_enabled r now r' evs : race_top r now = (Racing r', evs) -> some_arm_enabled r'.
Proof.
  unfold race_top, some_arm_enabled. destruct (_ && _ && _) eqn:E; [done|].
  destruct (next_dial_delayed_until r) as [d|] eqn:Ed; [intros [= <- <-]; rewrite Ed; auto|].
  destruct (pop_family _ _) as [[[ip l] v6]|] eqn:Ep; intros [= <- <-]; simpl; [by right; right|].
  apply pop_family_none in Ep. rewrite Ep in E.
  destruct (resolve_stream_finished r); [|auto]. left. intros Hd. by rewrite Hd in E.
Qed.

Lemma race_top_work r now r' evs :
  race_top r now = (Racing r', evs) ->
  resolve_stream_finished r' = resolve_stream_finished r /\ (work r' <= work r)%nat.
Proof.
  unfold race_top. destruct (_ && _ && _); [done|].
  destruct (next_dial_delayed_until r) as [d|] eqn:Ed; [by intros [= <- <-]|].
  destruct (pop_family _ _) as [[[ip l] v6]|] eqn:Ep; intros [= <- <-]; [|done].
  destruct (pop_family_some _ _ _ _ _ Ep) as (Hl & _). split; [done|].
  unfold work. simpl. rewrite Ed, (Permutation_length Hl), length_app. simpl. lia.
Qed.

Lemma race_select_work prefer r t r' evs :
  resolve_stream_finished r = true -> race_select prefer r t = Some (Racing r', evs) ->
  resolve_stream_finished r' = true /\ (work r' < work r)%nat.
Proof.
  intros Hf. unfold race_select. rewrite Hf.
  destruct (completed r t) as [[[ip start] [[]|err|]]|] eqn:Ec; [done| |done|].
  - intros [= <- <-]. destruct (completed_some _ _ _ _ _ Ec) as [Ed _]. split; [done|].
    pose proof (delete_Permutation _ _ _ Ed) as Hp. apply Permutation_length in Hp. simpl in Hp.
    unfold work. simpl. case_bool_decide; destruct (next_dial_delayed_until r); lia.
  - destruct (next_dial_delayed_until r) as [d|] eqn:Ed; [|done].
    destruct (d <=? t_now t); [|done]. intros [= <- <-]. split; [done|]. unfold work. simpl. rewrite Ed. lia.
Qed.

(** Once the resolver has ended the race ends: every turn in which a branch runs
    takes away some of the work that is left. *)
Theorem race_ends prefer_ipv6 r ts :
  resolve_stream_finished r = true -> (work r < length ts)%nat -> all_ready prefer_ipv6 r ts = true ->
  exists res, (race_run prefer_ipv6 r ts).1 = Done res.
Proof.
  revert r. induction ts as [|t ts IH]; intros r Hf Hw Ha; simpl in *; [lia|].
  apply andb_prop in Ha as [Hr Ha]. unfold ready in Hr. unfold race_step in *.
  destruct (race_select prefer_ipv6 r t) as [[[r1|res] evs1]|] eqn:Es; [|by eexists|done].
  destruct (race_select_work _ _ _ _ _ Hf Es) as [Hf1 Hw1].
  destruct (race_top r1 (t_now t)) as [[r2|res] evs2] eqn:Et; [|by eexists].
  destruct (race_top_work _ _ _ _ Et) as [Hf2 Hw2].
  destruct (IH r2) as [res Hres]; [by rewrite Hf2|lia|done|].
  destruct (race_run prefer_ipv6 r2 ts) as [o evs']. by exists res.
Qed.

Lemma race_step_enabled prefer r t r' evs :
  some_arm_enabled r -> race_step prefer r t = (Racing r', evs) -> some_arm_enabled r'.
Proof.
  intros He. unfold race_step. destruct (race_select prefer r t) as [[[r1|res] evs1]|]; [|done|by intros [= <- <-]].
  destruct (race_top r1 (t_now t)) as [o evs2] eqn:Et. intros [= -> <-]. by eapply race_top_enabled.
Qed.

(** The [select!] of the race always has an enabled arm, without which it would panic. *)
Theorem race_never_stuck port prefer_ipv6 start ts r evs :
  dial_happy_eyeballs port prefer_ipv6 start ts = (Racing r, evs) -> some_arm_enabled r.
Proof.
  unfold dial_happy_eyeballs. destruct port as [port|]; [|done].
  assert (race_top (race_new prefer_ipv6) start = (Racing (race_new prefer_ipv6), [])) as -> by done.
  assert (He : some_arm_enabled (race_new prefer_ipv6)) by (right; by left).
  destruct (race_run prefer_ipv6 (race_new prefer_ipv6) ts) as [o evs'] eqn:Er. intros [= -> <-].
  revert Er He. generalize (race_new prefer_ipv6). revert evs'.
  induction ts as [|t ts IH]; intros evs' r0; simpl; [by intros [= <- <-]|].
  destruct (race_step prefer_ipv6 r0 t) as [[r1|res] evs1] eqn:Es; [|done].
  destruct (race_run prefer_ipv6 r1 ts) as [o evs2] eqn:Er. intros [= -> <-] He.
  eapply IH; [exact Er|]. by eapply race_step_enabled.
Qed.

(** ** Connecting *)

Section Connecting.
Context {N : NoqProto} {Ed : Ed25519} {P : Postcard} {H : HandshakeCrypto}.
Context {Url : Type} (url_str : Url -> string) (scheme : Url -> string) (port : Url -> option Z).
Context (host_str : Url -> option string) (username : Url -> string) (password : Url -> option string).
Context (set_path : Url -> string -> Url) (set_scheme : Url -> string -> option Url).
Context (race_turns : Url -> list race_turn) (bound_to : IpAddr * Z -> option SocketAddr).
Context (server_name : string -> option string) (tls_connect : string -> bool) (tls_exporter : Exporter).
Context (http1_handshake : MaybeTlsStream Tcp -> bool) (send_request : proxy_request -> option Z).
Context (upgrade : proxy_request -> option bytes) (base64url_padded : string -> string).
Context (port_to_string : Z -> string) (ws_uri : Url -> bool).
Context (connect_on : Url -> list (string * HeaderValue) -> option (Z * option string)).
Context (handshake_answers : list answer).

(** [Url::set_scheme] sets the scheme. *)
Context (scheme_set : forall u s u', set_scheme u s = Some u' -> scheme u' = s).

Abbreviation connect' :=
  (connect url_str scheme port host_str username password set_path set_scheme race_turns bound_to server_name
     tls_connect tls_exporter http1_handshake send_request upgrade base64url_padded port_to_string ws_uri
     connect_on handshake_answers).

Lemma wait_ok {E A B} (m : option (result E A)) (k : A -> option (result E B)) b :
  wait_bind m k = Some (Ok b) -> exists a, m = Some (Ok a) /\ k a = Some (Ok b).
Proof. destruct m as [[a|e|]|]; simpl; [|done..]. eauto. Qed.

Lemma ok_or_ok {E A} (o : option A) (e : E) a : ok_or o e = Ok a -> o = Some a.
Proof. by destruct o; simpl; intros [= ->]. Qed.

Lemma ensure_ok {E} (b : bool) (e : E) u : ensure b e = Ok u -> b = true.
Proof. by destruct b. Qed.

Lemma rbind_ok {E A B} (m : result E A) (k : A -> result E B) b :
  rbind m k = Ok b -> exists a, m = Ok a /\ k a = Ok b.
Proof. destruct m; simpl; [|done..]. eauto. Qed.

(** The stream to a relay is encrypted unless its URL says [http] or [ws]. *)
Lemma stream_connect_tls url proxy v6 now s :
  stream_connect url_str scheme port host_str username password race_turns bound_to server_name tls_connect
    http1_handshake send_request upgrade base64url_padded port_to_string url proxy v6 now = Some (Ok s) ->
  match s with
  | Raw _ => use_tls scheme url = false
  | Tls name _ => use_tls scheme url = true /\ host_str url ≫= server_name = Some name /\ tls_connect name = true
  end.
Proof.
  intros E. apply wait_ok in E as (tcp & _ & E). injection E as E.
  apply rbind_ok in E as (a & _ & E). destruct (use_tls scheme url); [|by injection E as <-].
  apply rbind_ok in E as (name & En & E). apply ok_or_ok in En.
  apply rbind_ok in E as (u & Et & E). apply ensure_ok in Et. by injection E as <-.
Qed.

(** A connection to the relay: the URL of the websocket and what was agreed on
    over it. *)
Theorem connect_ok b now c :
  connect' b now = Some (Ok c) ->
  exists dial_url headers version,
    websocket_url url_str scheme set_path set_scheme (relay_url b) = Ok dial_url /\
    match client_stream c with
    | Raw _ => scheme (relay_url b) = "http"%string \/ scheme (relay_url b) = "ws"%string
    | Tls name _ =>
        scheme (relay_url b) <> "http"%string /\ scheme (relay_url b) <> "ws"%string /\
        host_str dial_url ≫= server_name = Some name /\ tls_connect name = true
    end /\
    upgrade_headers tls_exporter b (client_stream c) = Ok headers /\
    connect_on dial_url headers = Some (101, Some version) /\
    match_from_str version = Some (client_protocol_version c) /\
    (drive (clientside (secret_key b)) handshake_answers).1 = Some (Ok tt) /\
    client_local_addr c = local_addr (as_ref (client_stream c)).
Proof.
  intros E. unfold connect in E.
  apply wait_ok in E as (dial_url & Eu & E). injection Eu as Eu.
  apply wait_ok in E as (? & _ & E). apply wait_ok in E as (stream & Es & E).
  apply wait_ok in E as (addr & Ea & E). injection Ea as Ea. apply ok_or_ok in Ea.
  apply wait_ok in E as (? & _ & E). apply wait_ok in E as (headers & Eh & E). injection Eh as Eh.
  apply wait_ok in E as ([status v] & Ec & E). injection Ec as Ec. apply ok_or_ok in Ec.
  apply wait_ok in E as (? & E1 & E). injection E1 as E1. apply ensure_ok, Z.eqb_eq in E1 as ->.
  apply wait_ok in E as (version & Ev & E). injection Ev as Ev. apply ok_or_ok in Ev.
  apply wait_ok in E as ([] & Eo & E). injection E as <-. cbn [client_stream client_protocol_version client_local_addr].
  destruct v as [v|]; [|done]. exists dial_url, headers, v. split; [done|].
  apply stream_connect_tls in Es. unfold websocket_url in Eu. apply ok_or_ok, scheme_set in Eu.
  unfold use_tls in Es. rewrite Eu in Es. split; [|split_and!; try done].
  - destruct stream as [io|name io];
      destruct (String.eqb_spec (scheme (relay_url b)) "http"), (String.eqb_spec (scheme (relay_url b)) "ws");
      simpl in Es; naive_solver.
  - destruct (drive _ _).1 as [[[]| |]|]; by simpl in Eo.
Qed.

End Connecting.

(** ** Reading through the proxy *)

Section Chained.
Context {R : Type} (poll_second : R -> nat -> R * option (result unit bytes)).

Lemma chain_reads_second c r ns :
  chain_reads poll_second (mkChain c r true) ns = second_reads poll_second r ns.
Proof.
  revert r. induction ns as [|n ns IH]; intros r; [done|]. simpl. unfold chain_poll_read. simpl.
  destruct (poll_second r n) as [r' res]. by rewrite IH.
Qed.

Definition read_bytes (res : option (result unit bytes)) : bytes :=
  match res with Some (Ok bs) => bs | _ => [] end.

(** Reads with room for something give what the proxy had sent, whole and first,
    and then what the stream gives. *)
Theorem chain_reads_all c r ns :
  Forall (fun n => 0 < n)%nat ns ->
  exists ns1 ns2, ns = ns1 ++ ns2 /\ (ns2 = [] \/ length c <= sum_list ns1)%nat /\
    flat_map read_bytes (chain_reads poll_second (mkChain c r false) ns) =
      take (sum_list ns1) c ++ flat_map read_bytes (second_reads poll_second r ns2).
Proof.
  intros Hns. revert c. induction Hns as [|n ns Hn Hns IH]; intros c.
  - exists [], []. split; [done|]. split; [by left|]. done.
  - destruct c as [|x c].
    + exists [], (n :: ns). split; [done|]. split; [by right|]. simpl.
      unfold chain_poll_read, cursor_read. simpl. rewrite take_nil, drop_nil. simpl.
      destruct (poll_second r n) as [r' res]. by rewrite chain_reads_second.
    + destruct (IH (drop n (x :: c))) as (ns1 & ns2 & -> & Hl & He).
      exists (n :: ns1), ns2. split; [done|]. rewrite length_drop in Hl. split.
      { destruct Hl as [Hl|Hl]; [by left|right]. simpl sum_list. lia. }
      simpl chain_reads. unfold chain_poll_read, cursor_read. simpl done_first. cbv iota.
      rewrite bool_decide_false by (by destruct n; [lia|]). simpl flat_map. cbv beta iota delta [first second].
      rewrite He, app_assoc. f_equal. simpl sum_list. by rewrite take_take_drop.
Qed.

(** A read with no room makes it forget what the proxy had sent. *)
Theorem empty_read_loses_prefix c r ns :
  flat_map read_bytes (chain_reads poll_second (mkChain c r false) (0%nat :: ns)) =
  flat_map read_bytes (second_reads poll_second r (0%nat :: ns)).
Proof.
  simpl. unfold chain_poll_read, cursor_read. simpl.
  destruct (poll_second r 0%nat) as [r' res]. by rewrite chain_reads_second.
Qed.

End Chained.

(** ** Witnesses *)

Definition an_ipv4 : IpAddr := V4 [Byte.x7f; Byte.x00; Byte.x00; Byte.x01].
Definition an_ipv6 : IpAddr := V6 (replicate 15 Byte.x00 ++ [Byte.x01]).

(** The IPv4 address comes first, the IPv6 one in time to be preferred; it
    fails and the other one connects. *)
Definition some_turns : list race_turn :=
  [mkTurn 0 0 None true (Some (Some (Ok an_ipv4)));
   mkTurn (from_millis 10) 0 None true (Some (Some (Ok an_ipv6)));
   mkTurn (from_millis 20) 0 None true (Some None);
   mkTurn (from_millis 100) 0 (Some false) true None;
   mkTurn (from_millis 150) 0 (Some true) true None].

Definition some_trace : list race_event :=
  [Resolved an_ipv4; Resolved an_ipv6; Dialed an_ipv6 (from_millis 10); Failed an_ipv6 (from_millis 10);
   Dialed an_ipv4 (from_millis 100); Connected an_ipv4].

Lemma race_tries_all_witness : race_sound true (Done (Ok an_ipv4)) some_trace.
Proof.
  apply (race_tries_all 443 true 0 some_turns).
  - repeat split; vm_compute; discriminate.
  - vm_compute. reflexivity.
Defined.

Lemma race_never_stuck_witness :
  some_arm_enabled (mkRace false [an_ipv4] true [] false None (Some (RESOLUTION_DELAY))).
Proof.
  apply (race_never_stuck (Some 443) true 0 (take 1 some_turns) _ [Resolved an_ipv4]). vm_compute. reflexivity.
Defined.

Lemma race_ends_witness :
  exists res, (race_run true (mkRace true [] true [(an_ipv4, 0)] true None None) (drop 3 some_turns)).1 = Done res.
Proof. apply race_ends; [reflexivity|unfold work; simpl; lia|vm_compute; reflexivity]. Defined.

Lemma chain_reads_all_witness :
  exists ns1 ns2, [2%nat; 3%nat] = ns1 ++ ns2 /\ (ns2 = [] \/ 2 <= sum_list ns1)%nat /\
    flat_map read_bytes (chain_reads (fun (r : unit) n => (r, Some (Ok (replicate n Byte.x01))))
        (mkChain [Byte.x02; Byte.x03] tt false) [2%nat; 3%nat]) =
      take (sum_list ns1) [Byte.x02; Byte.x03] ++
      flat_map read_bytes (second_reads (fun (r : unit) n => (r, Some (Ok (replicate n Byte.x01)))) tt ns2).
Proof.
  apply (chain_reads_all (fun (r : unit) n => (r, Some (Ok (replicate n Byte.x01)))) [Byte.x02; Byte.x03] tt).
  repeat constructor; lia.
Defined.

Section Witnesses.
#[local] Existing Instance noq_proto.
#[local] Existing Instance checksum_keys.
#[local] Existing Instance unary_postcard.
#[local] Existing Instance padded_crypto.

(** URLs as a scheme, a host and a path. *)
Abbreviation small_url := (string * string * string)%type.

Definition small_set_scheme (u : small_url) (s : string) : option small_url := Some (s, u.1.2, u.2).
Definition confirmed : list answer := [Got (Message (encode_frame FtServerConfirmsAuth []))].
Definition relay_example : small_url := ("https", "relay.example", "")%string.

Lemma small_scheme_set u s u' : small_set_scheme u s = Some u' -> u'.1.1 = s.
Proof. by intros [= <-]. Qed.

Definition example_client : Client :=
  mkClient (Tls "relay.example" (RawTcp (mkTcp (an_ipv4, 443)
              (Some (SocketV4 [Byte.x7f; Byte.x00; Byte.x00; Byte.x01] 5000))))) V2
    (Some (SocketV4 [Byte.x7f; Byte.x00; Byte.x00; Byte.x01] 5000)).

Lemma connect_ok_witness :
  exists dial_url headers version,
    websocket_url (fun u : small_url => u.1.2) (fun u => u.1.1) (fun u p => (u.1, p)) small_set_scheme relay_example =
      Ok dial_url /\
    upgrade_headers no_export (mkClientBuilder (Some true) relay_example true None secret (Some "token"%string))
      (client_stream example_client) = Ok headers /\
    match_from_str version = Some V2.
Proof.
  destruct (connect_ok (fun u : small_url => u.1.2) (fun u => u.1.1) (fun _ => None) (fun u => Some u.1.2)
    (fun _ => ""%string) (fun _ => None) (fun u p => (u.1, p)) small_set_scheme
    (fun _ => some_turns) (fun _ => Some (SocketV4 [Byte.x7f; Byte.x00; Byte.x00; Byte.x01] 5000))
    Some (fun _ => true) no_export (fun _ => true) (fun _ => None) (fun _ => None) (fun s => s) (fun _ => ""%string)
    (fun _ => true) (fun _ _ => Some (101, Some "iroh-relay-v2"%string)) confirmed
    small_scheme_set
    (mkClientBuilder (Some true) relay_example true None secret (Some "token"%string)) 0 example_client)
    as (dial_url & headers & version & H1 & _ & H2 & _ & H3 & _).
  - reflexivity.
  - exists dial_url, headers, version. split; [exact H1|split; [exact H2|exact H3]].
Defined.

End Witnesses.
End Dial.
