(* ===== verification/RelayTransport.v ===== *)
(** * RelayTransport: the endpoint's side of the relays

    Models [iroh/src/socket/transports/relay.rs] (how received datagrams reach
    the QUIC stack and how its transmits are queued) and
    [iroh/src/socket/transports/relay/actor.rs]: the [ActiveRelayActor], which
    keeps one relay connection, the [RelayActor], which has one of them for every
    relay in use, and the [HomeRelayWatch] they share. An actor is a state
    machine whose steps are the turns of its [biased] selects: a turn says what
    is ready, and when. *)

From S2P Require Import Prelude External Instances Keys RelayFrames RelayProto PingTracker RelayClients RelayActor.
From S2P Require Import Handshake Addrs DnsResolver RelayMap MappedAddrs NetReport SocketActor RelayDial.
Import Addrs.

Module Relayed.
Section Relayed.
Context {N : NoqProto} {H : HandshakeCrypto}.

Abbreviation RecvError := Actor.RecvError.
Abbreviation SendError := Actor.SendError.

(** ** Datagrams received and sent *)

Record RelayRecvDatagram := mkRecvDatagram {
  rd_url : RelayUrl;
  rd_src : EndpointId;
  rd_datagrams : Datagrams
}.

Record RelaySendItem := mkSendItem {
  remote_endpoint : EndpointId;
  item_url : RelayUrl;
  item_datagrams : Datagrams
}.

(** [RelayTransport]: the queue of received datagrams, whether its senders are
    gone, and the item that did not fit the buffers of the last poll. *)
Record RelayTransport := mkTransport {
  recv_queue : list RelayRecvDatagram;
  senders_gone : bool;
  pending_item : option RelayRecvDatagram
}.

(** [Poll]; [Pending] says whether a waker was registered. *)
Inductive poll (A : Type) := Ready (a : A) | Pending (waker_registered : bool).
Arguments Ready {A} a.
Arguments Pending {A} waker_registered.

Definition poll_recv_queue (self : RelayTransport) : poll (option RelayRecvDatagram) * RelayTransport :=
  match pending_item self with
  | Some item => (Ready (Some item), self)
  | None =>
      match recv_queue self with
      | item :: queue => (Ready (Some item), mkTransport queue (senders_gone self) (Some item))
      | [] => if senders_gone self then (Ready None, self) else (Pending true, self)
      end
  end.

(** A slot that [poll_recv] fills: what is in the buffer, its length and
    stride, and where it came from. *)
Record filled := mkFilled { f_contents : bytes; f_len : Z; f_stride : Z; f_info : Sock.RecvInfo }.

(** Why the loop over the slots ended. *)
Inductive recv_end := AllFilled | QueueEmpty | TooLarge | QueueClosed.

Fixpoint recv_loop (self : RelayTransport) (bufs : list Z) : RelayTransport * list filled * recv_end :=
  match bufs with
  | [] => (self, [], AllFilled)
  | buf_len :: bufs =>
      match poll_recv_queue self with
      | (Ready None, self) => (self, [], QueueClosed)
      | (Pending _, self) => (self, [], QueueEmpty)
      | (Ready (Some dm), self) =>
          let num_segments := match segment_size (rd_datagrams dm) with
                              | None => 1
                              | Some ss => buf_len / ss
                              end in
          let '(datagrams, rest) := take_segments (rd_datagrams dm) num_segments in
          let pending := if blen (contents rest) =? 0 then None
                         else Some (mkRecvDatagram (rd_url dm) (rd_src dm) rest) in
          let self := mkTransport (recv_queue self) (senders_gone self) pending in
          if buf_len <? blen (contents datagrams) then (self, [], TooLarge)
          else
            let slot := mkFilled (contents datagrams) (blen (contents datagrams))
                          (default (blen (contents datagrams)) (segment_size datagrams))
                          (Sock.mkRecvInfo (Mapped.AddrRelay (rd_url dm) (rd_src dm)) None) in
            let '(self, slots, e) := recv_loop self bufs in
            (self, slot :: slots, e)
      end
  end.

Inductive io_error := NotConnected | ConnectionReset.

(** [poll_recv]: [bufs] are the lengths of the buffers; the lengths of the
    slices are asserted to agree. *)
Definition poll_recv (self : RelayTransport) (bufs : list Z) (metas recv_infos : nat)
    : result False (poll (result io_error (list filled)) * RelayTransport) :=
  if negb ((length bufs =? metas)%nat && (length bufs =? recv_infos)%nat) then Panic
  else
    let '(self, slots, e) := recv_loop self bufs in
    Ok (match e with
        | QueueClosed => Ready (Err NotConnected)
        | _ => match slots with
               | [] => Pending (if e is QueueEmpty then true else false)
               | _ => Ready (Ok slots)
               end
        end, self).

(** [datagrams_from_transmit]: the code points of [noq_proto]. *)
Inductive UdpEcn := UdpEct0 | UdpEct1 | UdpCe.
Record Transmit := mkTransmit { tx_ecn : option UdpEcn; tx_contents : bytes; tx_segment_size : option Z }.

Definition datagrams_from_transmit (ect0 ect1 ce : EcnCodepoint) (t : Transmit) : Datagrams :=
  mkDatagrams ((fun e => match e with UdpEct0 => ect0 | UdpEct1 => ect1 | UdpCe => ce end) <$> tx_ecn t)
    (tx_segment_size t ≫= fun ss => non_zero_u16 (ss mod 2 ^ 16)) (tx_contents t).

(** A bounded channel: what is queued, its capacity and whether its receiver is gone. *)
Record channel (A : Type) := mkChannel { queued : list A; capacity : nat; receiver_gone : bool }.
Arguments mkChannel {A} queued capacity receiver_gone.
Arguments queued {A} c.
Arguments capacity {A} c.
Arguments receiver_gone {A} c.

(** [Sender::try_send]. *)
Inductive try_sent := SentNow | SendClosed | SendFull.
Definition try_send {A} (c : channel A) (a : A) : channel A * try_sent :=
  if receiver_gone c then (c, SendClosed)
  else if (capacity c <=? length (queued c))%nat then (c, SendFull)
  else (mkChannel (queued c ++ [a]) (capacity c) false, SentNow).

(** [RelaySender::poll_send]. *)
Definition poll_send (ect0 ect1 ce : EcnCodepoint) (sender : channel RelaySendItem) (dest_url : RelayUrl)
    (dest_endpoint : EndpointId) (t : Transmit) : channel RelaySendItem * poll (result io_error unit) :=
  let item := mkSendItem dest_endpoint dest_url (datagrams_from_transmit ect0 ect1 ce t) in
  match try_send sender item with
  | (sender, SentNow) => (sender, Ready (Ok tt))
  | (sender, SendClosed) => (sender, Ready (Err ConnectionReset))
  | (sender, SendFull) => (sender, Pending true)
  end.

(** ** HomeRelayWatch *)

Inductive DialError := Timeout | Connect (source : @Dial.ConnectError H).

Inductive RunError :=
| SendTimeout
| PingTimeout
| LocalIpInvalid
| LocalAddrMissing
| StreamClosedServer
| ClientStreamRead (source : RecvError)
| ClientStreamWrite (source : SendError).

Inductive RelayConnectionError :=
| RelayDial (source : DialError)
| RelayHandshake (source : RunError)
| RelayEstablished (source : RunError).

(** An [Arc] is where it was allocated and what it holds. *)
Record arc_error := mkArc { arc_ptr : nat; arc_error_value : RelayConnectionError }.

Inductive RelayConnectionState :=
| Connecting
| Connected
| Disconnected (last_error : option arc_error).

Definition is_connected (s : RelayConnectionState) : bool := if s is Connected then true else false.

Definition last_error (s : RelayConnectionState) : option arc_error :=
  match s with Disconnected e => e | _ => None end.

(** [PartialEq]: errors are compared by where they are. *)
Definition state_eqb (a b : RelayConnectionState) : bool :=
  match a, b with
  | Connecting, Connecting | Connected, Connected => true
  | Disconnected None, Disconnected None => true
  | Disconnected (Some a), Disconnected (Some b) => (arc_ptr a =? arc_ptr b)%nat
  | _, _ => false
  end.

Record RelayStatus := mkStatus { status_url : RelayUrl; status_state : RelayConnectionState }.

Definition HomeRelayWatch : Type := option RelayStatus.

Definition watch_set (url : RelayUrl) (state : RelayConnectionState) : HomeRelayWatch := Some (mkStatus url state).

(** [set_status] reads, compares and writes; the two halves are separate. *)
Definition set_status_allowed (w : HomeRelayWatch) (url : RelayUrl) : bool :=
  bool_decide (status_url <$> w = Some url).

Definition set_status (w : HomeRelayWatch) (url : RelayUrl) (state : RelayConnectionState) : HomeRelayWatch :=
  if set_status_allowed w url then watch_set url state else w.

(** ** ActiveRelayActor *)

Definition RELAY_INACTIVE_CLEANUP_TIME : Z := from_secs 60.
Definition PING_INTERVAL : Z := from_secs 15.
Definition SEND_DATAGRAM_BATCH_SIZE : nat := 20.
Definition CONNECT_TIMEOUT : Z := from_secs 10.
Definition UNDELIVERABLE_DATAGRAM_TIMEOUT : Z := from_secs 3.

Inductive ActiveRelayMessage :=
| CheckConnection (local_ips : list IpAddr)
| SetHomeRelay (is_home : bool).

(** [HasEndpointRoute] with the channel its answer goes to. *)
Inductive ActiveRelayPrioMessage := HasEndpointRoute (peer : EndpointId) (reply : nat).

Record ConnectedRelayState := mkConnected {
  ping_tracker : Ping.PingTracker;
  endpoints_present : gset EndpointId;
  last_packet_src : option EndpointId;
  pong_pending : option bytes;
  established : bool
}.

Definition connected_new : ConnectedRelayState := mkConnected Ping.PingTracker_default ∅ None None false.

Definition state_map_err (st : ConnectedRelayState) (error : RunError) : RelayConnectionError :=
  if established st then RelayEstablished error else RelayHandshake error.

(** Where the actor waits: for the dial, which has its deadline and the next
    flush of the datagrams; in [run_connected], with the next ping; in
    [run_sending], with its deadline as well; or before it dials again. *)
Inductive phase :=
| Dialing (dial_until flush_at : Z)
| Idle (local_addr : option SocketAddr) (st : ConnectedRelayState) (ping_at : Z)
| Sending (local_addr : option SocketAddr) (st : ConnectedRelayState) (ping_at timeout : Z)
| Backoff (until : Z)
| Exited
| Panicked.

Record ActiveRelayActor := mkActive {
  url : RelayUrl;
  is_home_relay : bool;
  inactive_timeout : Z;
  attempts : nat;                    (* of the [backoff] *)
  at_phase : phase
}.

(** What a turn finds ready: a channel yields [Some None] when it is closed,
    [datagrams] is empty then; [connect] and [sent] are the futures the actor
    polls; [room] says whether the queue of received datagrams has room; and the
    random data and the allocation the turn uses. *)
Record turn := mkTurn {
  now : Z;
  stop : bool;
  prio_inbox : option (option ActiveRelayPrioMessage);
  connect : option (result (@Dial.ConnectError H) (option SocketAddr));
  inbox : option (option ActiveRelayMessage);
  datagrams : option (list RelaySendItem);
  stream : option (option (result RecvError RelayToClientMsg));
  sent : option (result SendError unit);
  room : bool;
  random : bytes;
  alloc : nat
}.

(** What the actor does. *)
Inductive effect :=
| Status (state : RelayConnectionState)                 (* [my_relay.set_status] *)
| Opened                                                (* a new connection *)
| Answered (peer : EndpointId) (reply : nat) (has_peer : bool)
| Handled (msg : RelayToClientMsg)                      (* a message of the relay *)
| Queued (item : RelayRecvDatagram)                     (* for the QUIC stack *)
| Started (at_time : Z) (msgs : list ClientToRelayMsg)  (* given to the sink *)
| TookBatch (at_time : Z)                               (* datagrams to send *)
| FlushedAt (at_time : Z)                               (* while dialing *)
| SinkClosed.

(** [backoff.next()] after some attempts. *)
Context (backoff : nat -> option Z).

Definition at_ (a : ActiveRelayActor) (p : phase) : ActiveRelayActor :=
  mkActive (url a) (is_home_relay a) (inactive_timeout a) (attempts a) p.

Definition reset_inactive_timeout (a : ActiveRelayActor) (now : Z) : ActiveRelayActor :=
  mkActive (url a) (is_home_relay a) (now + RELAY_INACTIVE_CLEANUP_TIME) (attempts a) (at_phase a).

Definition set_home_relay (a : ActiveRelayActor) (is_home : bool) : ActiveRelayActor :=
  mkActive (url a) is_home (inactive_timeout a) (attempts a) (at_phase a).

(** The start of [run_once] and of [run_dialing]. *)
Definition start_dialing (a : ActiveRelayActor) (now : Z) : ActiveRelayActor * list effect :=
  (at_ a (Dialing (now + CONNECT_TIMEOUT) (now + UNDELIVERABLE_DATAGRAM_TIMEOUT)), [Status Connecting]).

(** A task that was spawned and not polled yet. *)
Definition active_new (u : RelayUrl) (now : Z) : ActiveRelayActor :=
  mkActive u false (now + RELAY_INACTIVE_CLEANUP_TIME) 0 (Backoff now).

(** The body of the loop of [run], for an error of [run_once]. *)
Definition run_failed (a : ActiveRelayActor) (t : turn) (err : RelayConnectionError)
    : ActiveRelayActor * list effect :=
  let disconnected := Status (Disconnected (Some (mkArc (alloc t) err))) in
  match err with
  | RelayEstablished _ =>
      let '(a, effs) :=
        start_dialing (mkActive (url a) (is_home_relay a) (inactive_timeout a) 0 (at_phase a)) (now t) in
      (a, disconnected :: effs)
  | _ =>
      match backoff (attempts a) with
      | None => (at_ a Exited, [disconnected])
      | Some delay =>
          (mkActive (url a) (is_home_relay a) (inactive_timeout a) (S (attempts a)) (Backoff (now t + delay)),
           [disconnected])
      end
  end.

(** [run_once] returned [Ok]. *)
Definition run_done (a : ActiveRelayActor) (effs : list effect) : ActiveRelayActor * list effect :=
  (at_ a Exited, effs).

(** [tokio::time::Interval]: the next tick, with [MissedTickBehavior::Delay]. *)
Definition next_tick (period deadline now : Z) : Z :=
  if deadline + from_millis 5 <? now then now + period else deadline + period.

Definition inactive (a : ActiveRelayActor) (t : turn) : bool :=
  negb (is_home_relay a) && (inactive_timeout a <=? now t).

(** The loop of [run_connected] begins with the pong that is pending. *)
Definition connected_top (a : ActiveRelayActor) (now : Z) (local_addr : option SocketAddr)
    (st : ConnectedRelayState) (ping_at : Z) : ActiveRelayActor * list effect :=
  match pong_pending st with
  | Some data =>
      let st := mkConnected (ping_tracker st) (endpoints_present st) (last_packet_src st) None (established st) in
      (at_ a (Sending local_addr st ping_at (now + PING_INTERVAL)), [Started now [C2RPong data]])
  | None => (at_ a (Idle local_addr st ping_at), [])
  end.

(** [run_dialing]. *)
Definition dialing_turn (a : ActiveRelayActor) (t : turn) (dial_until flush_at : Z)
    : ActiveRelayActor * list effect :=
  if stop t then run_done a [] else
  match prio_inbox t with
  | Some None => run_done a []
  | Some (Some (HasEndpointRoute peer reply)) => (a, [Answered peer reply false])
  | None =>
      let dialed :=
        match connect t with
        | Some res => Some (map_err Connect res)
        | None => if dial_until <=? now t then Some (Err Timeout) else None
        end in
      match dialed with
      | Some (Ok local_addr) =>
          let '(a, effs) := connected_top a (now t) local_addr connected_new (now t) in
          (a, Status Connected :: Opened :: effs)
      | Some (Err err) => run_failed a t (RelayDial err)
      | Some Panic => (at_ a Panicked, [])
      | None =>
          match inbox t with
          | Some None => run_done a []
          | Some (Some (SetHomeRelay is_home)) => (set_home_relay a is_home, [])
          | Some (Some (CheckConnection _)) => (a, [])
          | None =>
              if flush_at <=? now t then
                (at_ (reset_inactive_timeout a (now t))
                   (Dialing dial_until (next_tick UNDELIVERABLE_DATAGRAM_TIMEOUT flush_at (now t))),
                 [FlushedAt (now t)])
              else if inactive a t then run_done a []
              else (a, [])
          end
      end
  end.

Definition handle_relay_msg (a : ActiveRelayActor) (t : turn) (msg : RelayToClientMsg) (st : ConnectedRelayState)
    : ConnectedRelayState * list effect :=
  match msg with
  | R2CDatagrams remote_endpoint_id datagrams =>
      let st :=
        if bool_decide (last_packet_src st = Some remote_endpoint_id) then st
        else mkConnected (ping_tracker st) ({[remote_endpoint_id]} ∪ endpoints_present st)
               (Some remote_endpoint_id) (pong_pending st) (established st) in
      (st, Handled msg :: if room t then [Queued (mkRecvDatagram (url a) remote_endpoint_id datagrams)] else [])
  | R2CEndpointGone endpoint_id =>
      (mkConnected (ping_tracker st) (endpoints_present st ∖ {[endpoint_id]}) (last_packet_src st)
         (pong_pending st) (established st), [Handled msg])
  | R2CPing data =>
      (mkConnected (ping_tracker st) (endpoints_present st) (last_packet_src st) (Some data) (established st),
       [Handled msg])
  | R2CPong data =>
      (mkConnected (Ping.pong_received (ping_tracker st) data (now t)) (endpoints_present st) (last_packet_src st)
         (pong_pending st) true, [Handled msg])
  | R2CStatus _ | R2CRestarting _ _ | R2CHealth _ => (st, [Handled msg])
  end.

(** A ping is made and given to the sink. *)
Definition send_ping (a : ActiveRelayActor) (t : turn) (local_addr : option SocketAddr)
    (st : ConnectedRelayState) (ping_at : Z) : ActiveRelayActor * list effect :=
  match @Ping.new_ping False (ping_tracker st) (now t) (random t) with
  | Ok (tracker, data) =>
      let st := mkConnected tracker (endpoints_present st) (last_packet_src st) (pong_pending st) (established st) in
      (at_ a (Sending local_addr st ping_at (now t + PING_INTERVAL)), [Started (now t) [C2RPing data]])
  | _ => (at_ a Panicked, [])
  end.

(** An error of [run_connected] or of [run_sending]. *)
Definition lost (a : ActiveRelayActor) (t : turn) (st : ConnectedRelayState) (err : RunError)
    : ActiveRelayActor * list effect :=
  run_failed a t (state_map_err st err).

(** The branch of the inbox in [run_connected]. *)
Definition connected_message (a : ActiveRelayActor) (t : turn) (local_addr : option SocketAddr)
    (st : ConnectedRelayState) (ping_at : Z) (msg : ActiveRelayMessage) : ActiveRelayActor * list effect :=
  match msg with
  | SetHomeRelay is_home => (set_home_relay a is_home, if is_home then [Status Connected] else [])
  | CheckConnection local_ips =>
      match local_addr with
      | Some addr =>
          if bool_decide (socket_ip addr ∈ local_ips) then send_ping a t local_addr st ping_at
          else lost a t st LocalIpInvalid
      | None => lost a t st LocalAddrMissing
      end
  end.

(** The batch taken from the queue of datagrams. *)
Definition datagram_msgs (items : list RelaySendItem) : list ClientToRelayMsg :=
  map (fun item => C2RDatagrams (remote_endpoint item) (item_datagrams item)) items.

(** [run_connected]. *)
Definition connected_turn (a : ActiveRelayActor) (t : turn) (local_addr : option SocketAddr)
    (st : ConnectedRelayState) (ping_at : Z) : ActiveRelayActor * list effect :=
  if stop t then run_done a [SinkClosed] else
  match prio_inbox t with
  | Some None => run_done a [SinkClosed]
  | Some (Some (HasEndpointRoute peer reply)) =>
      (a, [Answered peer reply (bool_decide (peer ∈ endpoints_present st))])
  | None =>
      if Ping.timeout_poll (ping_tracker st) (now t) is Some _ then lost a t st PingTimeout
      else if ping_at <=? now t then
        send_ping a t local_addr st (next_tick PING_INTERVAL ping_at (now t))
      else
        match inbox t, datagrams t, stream t with
        | Some None, _, _ => run_done a [SinkClosed]
        | Some (Some msg), _, _ => connected_message a t local_addr st ping_at msg
        | None, Some [], _ => run_done a [SinkClosed]
        | None, Some items, _ =>
            (at_ (reset_inactive_timeout a (now t)) (Sending local_addr st ping_at (now t + PING_INTERVAL)),
             [TookBatch (now t); Started (now t) (datagram_msgs items)])
        | None, None, Some None => lost a t st StreamClosedServer
        | None, None, Some (Some (Ok msg)) =>
            let '(st, effs) := handle_relay_msg a t msg st in
            let '(a, effs') := connected_top a (now t) local_addr st (now t + PING_INTERVAL) in
            (a, effs ++ effs')
        | None, None, Some (Some (Err err)) => lost a t st (ClientStreamRead err)
        | None, None, Some (Some Panic) => (at_ a Panicked, [])
        | None, None, None => if inactive a t then run_done a [SinkClosed] else (a, [])
        end
  end.

(** [run_sending]; when it returns [Ok] the loop of [run_connected] goes on. *)
Definition sending_turn (a : ActiveRelayActor) (t : turn) (local_addr : option SocketAddr)
    (st : ConnectedRelayState) (ping_at timeout : Z) : ActiveRelayActor * list effect :=
  let continue_connected := connected_top a (now t) local_addr st ping_at in
  if stop t then continue_connected
  else if timeout <=? now t then lost a t st SendTimeout else
  match prio_inbox t with
  | Some None => continue_connected
  | Some (Some (HasEndpointRoute peer reply)) =>
      (a, [Answered peer reply (bool_decide (peer ∈ endpoints_present st))])
  | None =>
      match sent t with
      | Some (Ok _) => continue_connected
      | Some (Err err) => lost a t st (ClientStreamWrite err)
      | Some Panic => (at_ a Panicked, [])
      | None =>
          if Ping.timeout_poll (ping_tracker st) (now t) is Some _ then lost a t st PingTimeout
          else
            match stream t with
            | Some None => lost a t st StreamClosedServer
            | Some (Some (Ok msg)) =>
                let '(st, effs) := handle_relay_msg a t msg st in
                (at_ a (Sending local_addr st ping_at timeout), effs)
            | Some (Some (Err err)) => lost a t st (ClientStreamRead err)
            | Some (Some Panic) => (at_ a Panicked, [])
            | None => if inactive a t then continue_connected else (a, [])
            end
      end
  end.

(** [run]: one turn of the actor. *)
Definition active_turn (a : ActiveRelayActor) (t : turn) : ActiveRelayActor * list effect :=
  match at_phase a with
  | Dialing dial_until flush_at => dialing_turn a t dial_until flush_at
  | Idle local_addr st ping_at => connected_turn a t local_addr st ping_at
  | Sending local_addr st ping_at timeout => sending_turn a t local_addr st ping_at timeout
  | Backoff until => if until <=? now t then start_dialing a (now t) else (a, [])
  | Exited | Panicked => (a, [])
  end.

Fixpoint active_run (a : ActiveRelayActor) (ts : list turn) : ActiveRelayActor * list effect :=
  match ts with
  | [] => (a, [])
  | t :: ts =>
      let '(a, effs) := active_turn a t in
      let '(a, effs') := active_run a ts in
      (a, effs ++ effs')
  end.

(** ** RelayActor *)

Inductive RelayActorMessage :=
| MaybeCloseRelaysOnRebind
| NetworkChange (preferred_relay : option RelayUrl)
| CheckConnectionAfterNetworkChange.

(** [RelayNetworkChangeSender::send_relay_actor]: a message for which there is
    no room is dropped. *)
Definition send_relay_actor (sender : channel RelayActorMessage) (msg : RelayActorMessage) : channel RelayActorMessage :=
  (try_send sender msg).1.

(** [ActiveRelayHandle]: the channels to an actor; with them which of the
    actors it is, its [is_home_relay] and the token it was started with. *)
Record ActiveRelayHandle := mkHandle {
  actor_no : nat;
  inbox_addr : channel ActiveRelayMessage;
  datagrams_send_queue : channel RelaySendItem;
  actor_is_home : bool;
  actor_auth_token : option string
}.

Record RelayActor := mkRelayActor {
  my_relay : HomeRelayWatch;
  relay_map : gmap RelayUrl Relays.RelayConfig;
  active_relays : gmap RelayUrl ActiveRelayHandle;
  spawned : nat;
  datagram_send_fut : option (RelayUrl * nat * RelaySendItem)     (* blocked on a full queue *)
}.

Definition RelayActor_new (relay_map : gmap RelayUrl Relays.RelayConfig) : RelayActor :=
  mkRelayActor None relay_map ∅ 0 None.

Definition with_active (r : RelayActor) (m : gmap RelayUrl ActiveRelayHandle) : RelayActor :=
  mkRelayActor (my_relay r) (relay_map r) m (spawned r) (datagram_send_fut r).

Definition home_url (r : RelayActor) : option RelayUrl := status_url <$> my_relay r.

Definition start_active_relay (r : RelayActor) (url : RelayUrl) : ActiveRelayHandle :=
  mkHandle (spawned r) (mkChannel [] 64 false) (mkChannel [] 64 false) false (relay_map r !! url ≫= Relays.auth_token).

(** [Sender::send]: waits for room; [.ok()] when the receiver is gone. *)
Definition send_inbox (msg : ActiveRelayMessage) (h : ActiveRelayHandle) : ActiveRelayHandle :=
  if receiver_gone (inbox_addr h) then h
  else mkHandle (actor_no h) (mkChannel (queued (inbox_addr h) ++ [msg]) (capacity (inbox_addr h)) false)
         (datagrams_send_queue h) (actor_is_home h) (actor_auth_token h).

Definition active_relay_handle (r : RelayActor) (url : RelayUrl) : RelayActor :=
  match active_relays r !! url with
  | Some _ => r
  | None =>
      let handle := start_active_relay r url in
      let handle := if bool_decide (home_url r = Some url) then
                      let '(inbox, _) := try_send (inbox_addr handle) (SetHomeRelay true) in
                      mkHandle (actor_no handle) inbox (datagrams_send_queue handle) (actor_is_home handle) (actor_auth_token handle)
                    else handle in
      mkRelayActor (my_relay r) (relay_map r) (<[url := handle]> (active_relays r)) (S (spawned r))
        (datagram_send_fut r)
  end.

(** [has_route] is what an actor answers, [order] the order of the answers. *)
Definition relay_for_endpoint (r : RelayActor) (url : RelayUrl) (has_route : RelayUrl -> bool) (order : list RelayUrl)
    : RelayUrl :=
  match active_relays r !! url with
  | Some _ => url
  | None =>
      let found_relay :=
        head (filter (fun u => is_Some (active_relays r !! u) /\ has_route u = true) order) in
      default url found_relay
  end.

(** [active_relay_handle_for_endpoint]: the relay whose actor is used. *)
Definition active_relay_handle_for_endpoint (r : RelayActor) (url : RelayUrl) (has_route : RelayUrl -> bool)
    (order : list RelayUrl) : RelayUrl * RelayActor :=
  let u := relay_for_endpoint r url has_route order in (u, active_relay_handle r u).

Definition with_datagrams (h : ActiveRelayHandle) (c : channel RelaySendItem) : ActiveRelayHandle :=
  mkHandle (actor_no h) (inbox_addr h) c (actor_is_home h) (actor_auth_token h).

Definition try_send_datagram (r : RelayActor) (item : RelaySendItem) (has_route : RelayUrl -> bool)
    (order : list RelayUrl) : RelayActor :=
  let '(u, r) := active_relay_handle_for_endpoint r (item_url item) has_route order in
  match active_relays r !! u with
  | None => r
  | Some handle =>
      match try_send (datagrams_send_queue handle) item with
      | (c, SentNow) => with_active r (<[u := with_datagrams handle c]> (active_relays r))
      | (_, SendClosed) => r
      | (_, SendFull) => mkRelayActor (my_relay r) (relay_map r) (active_relays r) (spawned r)
                           (Some (u, actor_no handle, item))
      end
  end.

(** [RelayActor::set_home_relay]. *)
Definition set_home_relays (r : RelayActor) (home_url : RelayUrl) : RelayActor :=
  active_relay_handle
    (with_active r (map_imap (fun url h => Some (send_inbox (SetHomeRelay (bool_decide (url = home_url))) h))
                      (active_relays r)))
    home_url.

Definition on_network_change (r : RelayActor) (preferred_relay : option RelayUrl) : RelayActor :=
  if bool_decide (preferred_relay = home_url r) then r
  else
    match preferred_relay with
    | Some relay_url =>
        set_home_relays (mkRelayActor (watch_set relay_url Connecting) (relay_map r) (active_relays r)
                           (spawned r) (datagram_send_fut r)) relay_url
    | None => mkRelayActor None (relay_map r) (active_relays r) (spawned r) (datagram_send_fut r)
    end.

Definition send_check_connection (r : RelayActor) (local_ips : list IpAddr) : RelayActor :=
  with_active r (send_inbox (CheckConnection local_ips) <$> active_relays r).

Definition relay_handle_msg (r : RelayActor) (local_ips : list IpAddr) (msg : RelayActorMessage) : RelayActor :=
  match msg with
  | NetworkChange preferred_relay => on_network_change r preferred_relay
  | MaybeCloseRelaysOnRebind | CheckConnectionAfterNetworkChange => send_check_connection r local_ips
  end.

Definition reap_active_relays (r : RelayActor) : RelayActor :=
  let r := with_active r (filter (fun p => receiver_gone (inbox_addr p.2) = false) (active_relays r)) in
  match my_relay r with
  | Some status => active_relay_handle r (status_url status)
  | None => r
  end.

(** What a turn of [run] finds: that an actor has ended, a message, an item to
    send, or that the blocked item can go. *)
Record relay_turn := mkRelayTurn {
  rt_cancelled : bool;
  rt_joined : bool;
  rt_msg : option (option RelayActorMessage);
  rt_local_ips : list IpAddr;
  rt_item : option (option RelaySendItem);
  rt_has_route : RelayUrl -> bool;
  rt_order : list RelayUrl
}.

(** The future of a blocked item: it waits for room, and drops the item when the
    receiver is gone. [None] while it waits. *)
Definition poll_blocked (r : RelayActor) : option RelayActor :=
  match datagram_send_fut r with
  | None => None
  | Some (u, actor, item) =>
      let unblocked m := Some (mkRelayActor (my_relay r) (relay_map r) m (spawned r) None) in
      match active_relays r !! u with
      | None => unblocked (active_relays r)
      | Some handle =>
          if negb (actor_no handle =? actor)%nat then unblocked (active_relays r)
          else
            match try_send (datagrams_send_queue handle) item with
            | (c, SentNow) => unblocked (<[u := with_datagrams handle c]> (active_relays r))
            | (_, SendClosed) => unblocked (active_relays r)
            | (_, SendFull) => None
            end
      end
  end.

(** One turn of the [biased] select; [None] when the loop ends. *)
Definition relay_run_turn (r : RelayActor) (t : relay_turn) : option RelayActor :=
  if rt_cancelled t then None
  else if rt_joined t then Some (reap_active_relays r)
  else
    match rt_msg t with
    | Some None => None
    | Some (Some msg) => Some (relay_handle_msg r (rt_local_ips t) msg)
    | None =>
        match (if datagram_send_fut r is None then rt_item t else None) with
        | Some None => None
        | Some (Some item) => Some (try_send_datagram r item (rt_has_route t) (rt_order t))
        | None => Some (default r (poll_blocked r))
        end
    end.

Definition with_watch (r : RelayActor) (w : HomeRelayWatch) : RelayActor :=
  mkRelayActor w (relay_map r) (active_relays r) (spawned r) (datagram_send_fut r).

(** What happens around the actor: its own turns, and the actors it started, which
    take the messages and datagrams sent to them, publish their status and exit.
    [set_status] reads the watched value and then writes it, so that turns and other
    writes come between: [checked] has the writes whose check has passed. [overtaken]
    is no state of the code: it says that a status was written for a relay that was
    not the home relay any more, and that the [RelayActor] has not set or cleared the
    home relay since. *)
Record relay_world := mkRelayWorld {
  world_actor : RelayActor;
  checked : list (RelayUrl * RelayConnectionState);
  overtaken : bool
}.

Definition with_relays (w : relay_world) (m : gmap RelayUrl ActiveRelayHandle) : relay_world :=
  mkRelayWorld (with_active (world_actor w) m) (checked w) (overtaken w).

Definition relay_world_new (relay_map : gmap RelayUrl Relays.RelayConfig) : relay_world :=
  mkRelayWorld (RelayActor_new relay_map) [] false.

Inductive relay_step : relay_world -> relay_world -> Prop :=
| RsTurn w t r' :
    relay_run_turn (world_actor w) t = Some r' ->
    relay_step w (mkRelayWorld r' (checked w) (overtaken w && bool_decide (home_url r' = home_url (world_actor w))))
| RsMessage w u h msg rest :
    active_relays (world_actor w) !! u = Some h -> queued (inbox_addr h) = msg :: rest ->
    relay_step w (with_relays w (<[u :=
      mkHandle (actor_no h) (mkChannel rest (capacity (inbox_addr h)) (receiver_gone (inbox_addr h))) (datagrams_send_queue h)
        (match msg with SetHomeRelay b => b | CheckConnection _ => actor_is_home h end)
        (actor_auth_token h)]> (active_relays (world_actor w))))
| RsDatagrams w u h n :
    active_relays (world_actor w) !! u = Some h ->
    relay_step w (with_relays w (<[u := with_datagrams h
      (mkChannel (drop n (queued (datagrams_send_queue h))) (capacity (datagrams_send_queue h))
         (receiver_gone (datagrams_send_queue h)))]> (active_relays (world_actor w))))
| RsCheck w u state :
    set_status_allowed (my_relay (world_actor w)) u = true ->
    relay_step w (mkRelayWorld (world_actor w) (checked w ++ [(u, state)]) (overtaken w))
| RsWrite w before u state after :
    checked w = before ++ (u, state) :: after ->
    relay_step w (mkRelayWorld (with_watch (world_actor w) (watch_set u state)) (before ++ after)
                    (overtaken w || negb (bool_decide (home_url (world_actor w) = Some u))))
| RsExit w u h :
    active_relays (world_actor w) !! u = Some h ->
    relay_step w (with_relays w (<[u :=
      mkHandle (actor_no h) (mkChannel (queued (inbox_addr h)) (capacity (inbox_addr h)) true)
        (mkChannel (queued (datagrams_send_queue h)) (capacity (datagrams_send_queue h)) true)
        (actor_is_home h) (actor_auth_token h)]> (active_relays (world_actor w)))).

(** ** Receiving *)

Definition backlog (self : RelayTransport) : list RelayRecvDatagram :=
  match pending_item self with Some item => item :: recv_queue self | None => recv_queue self end.

(** The datagrams of an item and of a slot, with where they came from. *)
Definition pieces (dm : RelayRecvDatagram) : list (RelayUrl * EndpointId * bytes) :=
  map (pair (rd_url dm, rd_src dm)) (segments (rd_datagrams dm)).

Definition slot_pieces (f : filled) : list (RelayUrl * EndpointId * bytes) :=
  match Sock.info_remote (f_info f) with
  | Mapped.AddrRelay url id => map (pair (url, id)) (chunks (Z.to_nat (f_stride f)) (f_contents f))
  | _ => []
  end.

(** No datagram of the item is longer than a buffer. *)
Definition fits (dm : RelayRecvDatagram) (buf_len : Z) : Prop :=
  match segment_size (rd_datagrams dm) with
  | Some s => s <= buf_len
  | None => blen (contents (rd_datagrams dm)) <= buf_len
  end.

Definition recv_ok (bufs : list Z) (dm : RelayRecvDatagram) : Prop :=
  datagrams_wf (rd_datagrams dm) /\ Forall (fits dm) bufs.

Lemma segments_empty d : contents d = [] -> segments d = [].
Proof. unfold segments. intros ->. by destruct (segment_size d). Qed.

Lemma poll_recv_queue_spec self :
  match backlog self with
  | [] => poll_recv_queue self = (if senders_gone self then Ready None else Pending true, self) /\
          pending_item self = None /\ recv_queue self = []
  | dm :: rest =>
      exists self', poll_recv_queue self = (Ready (Some dm), self') /\ recv_queue self' = rest /\
        senders_gone self' = senders_gone self
  end.
Proof.
  destruct self as [q g [item|]]; unfold backlog, poll_recv_queue; simpl; [by eexists|].
  destruct q as [|item q]; [by destruct g|]. by eexists.
Qed.

(** One slot: the segments that fit it, and what is left of the item. *)
Lemma take_segments_slot dm b taken rest :
  0 <= b < 2 ^ 48 -> datagrams_wf (rd_datagrams dm) -> fits dm b ->
  take_segments (rd_datagrams dm)
    (match segment_size (rd_datagrams dm) with None => 1 | Some ss => b / ss end) = (taken, rest) ->
  segments taken ++ segments rest = segments (rd_datagrams dm) /\
  blen (contents taken) <= b /\ datagrams_wf rest /\
  (forall b', fits dm b' -> fits (mkRecvDatagram (rd_url dm) (rd_src dm) rest) b').
Proof.
  intros Hb Hwf Hf E. unfold fits, datagrams_wf in *.
  set (n := match segment_size (rd_datagrams dm) with None => 1 | Some ss => b / ss end) in *.
  assert (Hn : 1 <= n < 2 ^ 48).
  { subst n. destruct (segment_size (rd_datagrams dm)) as [s|]; [|lia]. split.
    - apply Z.div_le_lower_bound; lia.
    - apply Z.div_lt_upper_bound; nia. }
  pose proof (take_segments_splits (rd_datagrams dm) n Hwf Hn) as Hs. rewrite E in Hs.
  destruct Hs as (H1 & H2 & _). rewrite H1, H2, take_drop. split; [done|].
  unfold take_segments in E. destruct (segment_size (rd_datagrams dm)) as [s|] eqn:Es.
  - assert (Hns : 0 <= n * s <= b) by (subst n; pose proof (Z.mul_div_le b s); nia).
    unfold as_u64 in E. rewrite Z.mod_small in E by lia. injection E as <- <-. simpl. split; [|split].
    + unfold blen. rewrite length_take. lia.
    + by destruct (_ <=? s).
    + intros b' Hb'. destruct (_ <=? s) eqn:El; [apply Z.leb_le in El|]; simpl; lia.
  - injection E as <- <-. simpl. split_and!; [lia|done|]. intros b' Hb'.
    pose proof (blen_nonneg (contents (rd_datagrams dm))). unfold blen at 1. simpl. lia.
Qed.

Lemma slot_pieces_taken url src taken :
  datagrams_wf taken ->
  slot_pieces (mkFilled (contents taken) (blen (contents taken))
                 (default (blen (contents taken)) (segment_size taken))
                 (Sock.mkRecvInfo (Mapped.AddrRelay url src) None)) =
  map (pair (url, src)) (segments taken).
Proof.
  intros Hwf. unfold slot_pieces, segments. simpl. f_equal.
  destruct (segment_size taken) as [s|]; simpl; [done|].
  unfold blen. rewrite Nat2Z.id. destruct (contents taken) as [|x c] eqn:E; [done|].
  rewrite chunks_small; simpl; [done|lia|lia].
Qed.

Lemma take_segments_wf d n taken rest :
  datagrams_wf d -> take_segments d n = (taken, rest) -> datagrams_wf taken.
Proof.
  unfold take_segments, datagrams_wf. destruct (segment_size d) as [s|]; intros Hwf [= <- <-]; simpl; [|done].
  by destruct (_ && _).
Qed.

(** The loop over the buffers: nothing is lost, reordered or dropped as too
    large, and the loop stops early only at the end of the queue. *)
Lemma recv_loop_spec bufs self self' slots e :
  Forall (fun b => 0 <= b < 2 ^ 48) bufs -> Forall (recv_ok bufs) (backlog self) ->
  recv_loop self bufs = (self', slots, e) ->
  flat_map slot_pieces slots ++ flat_map pieces (backlog self') = flat_map pieces (backlog self) /\
  Forall2 (fun f b => f_len f = blen (f_contents f) /\ f_len f <= b) slots (take (length slots) bufs) /\
  (slots = [] -> bufs = [] \/ backlog self = []) /\
  match e with
  | TooLarge => False
  | AllFilled => length slots = length bufs
  | QueueEmpty => backlog self' = [] /\ senders_gone self = false
  | QueueClosed => backlog self' = [] /\ senders_gone self = true
  end.
Proof.
  revert self slots. induction bufs as [|b bufs IH]; intros self slots Hb Hok.
  { simpl. intros [= <- <- <-]. split_and!; [done|constructor|by left|done]. }
  inversion_clear Hb as [|?? Hb1 Hb2]. pose proof (poll_recv_queue_spec self) as Hq. simpl.
  destruct (backlog self) as [|dm rest] eqn:Ebl.
  { destruct Hq as (-> & Hp & Hr). destruct (senders_gone self) eqn:Eg; intros [= <- <- <-];
      (split_and!; [by rewrite Ebl|constructor|by right|done..]). }
  destruct Hq as (self1 & -> & Hq & Hg). inversion_clear Hok as [|?? [Hwf Hfit] Hok'].
  inversion_clear Hfit as [|?? Hf1 Hf2].
  destruct (take_segments _ _) as [taken left'] eqn:Et.
  destruct (take_segments_slot _ _ _ _ Hb1 Hwf Hf1 Et) as (Hseg & Hlen & Hwf' & Hfit').
  destruct (Z.ltb_spec b (blen (contents taken))); [lia|].
  set (self2 := mkTransport _ _ _). destruct (recv_loop self2 bufs) as [[self3 slots'] e'] eqn:El.
  intros [= <- <- <-].
  assert (Hbl : flat_map pieces (backlog self2) =
                map (pair (rd_url dm, rd_src dm)) (segments left') ++ flat_map pieces rest).
  { unfold self2, backlog. simpl. rewrite Hq. destruct (Z.eqb_spec (blen (contents left')) 0) as [E|]; [|done].
    rewrite segments_empty; [done|]. unfold blen in E. destruct (contents left'); [done|simpl in E; lia]. }
  destruct (IH self2 slots' Hb2) as (H1 & H2 & _ & H4); [|done|].
  { assert (Hrest : Forall (recv_ok bufs) rest).
    { eapply Forall_impl; [exact Hok'|]. intros y [Hx1 Hx2]. inversion_clear Hx2. by split. }
    unfold self2, backlog. simpl. rewrite Hq. destruct (_ =? 0); [done|]. constructor; [|done].
    split; [done|]. eapply Forall_impl; [exact Hf2|]. auto. }
  split_and!.
  - simpl. rewrite <- app_assoc, H1, Hbl, slot_pieces_taken by (exact (take_segments_wf _ _ _ _ Hwf Et)).
    unfold pieces at 2. by rewrite <- Hseg, map_app, <- app_assoc.
  - simpl. constructor; [|done]. simpl. split; [done|lia].
  - done.
  - destruct e'; simpl; [lia|by rewrite <- Hg|done|by rewrite <- Hg].
Qed.

Lemma poll_recv_lengths self bufs :
  poll_recv self bufs (length bufs) (length bufs) =
  let '(self', slots, e) := recv_loop self bufs in
  Ok (match e with
      | QueueClosed => Ready (Err NotConnected)
      | _ => match slots with
             | [] => Pending (if e is QueueEmpty then true else false)
             | _ => Ready (Ok slots)
             end
      end, self').
Proof. unfold poll_recv. by rewrite Nat.eqb_refl. Qed.

(** C25: Datagrams that fit the buffers reach the QUIC stack: in the order they were
    queued, none lost, each slot within its buffer, and a poll that is pending
    found nothing and has registered its waker. *)
Theorem relay_recv_lossless self bufs p self' :
  Forall (fun b => 0 <= b < 2 ^ 48) bufs -> Forall (recv_ok bufs) (backlog self) ->
  poll_recv self bufs (length bufs) (length bufs) = Ok (p, self') ->
  match p with
  | Ready (Ok slots) =>
      slots <> [] /\
      flat_map slot_pieces slots ++ flat_map pieces (backlog self') = flat_map pieces (backlog self) /\
      Forall2 (fun f b => f_len f = blen (f_contents f) /\ f_len f <= b) slots (take (length slots) bufs)
  | Ready _ => senders_gone self = true /\ backlog self' = []
  | Pending waker_registered => bufs = [] \/ backlog self = [] /\ waker_registered = true
  end.
Proof.
  intros Hb Hok. rewrite poll_recv_lengths.
  destruct (recv_loop self bufs) as [[self1 slots] e] eqn:El. intros [= <- <-].
  destruct (recv_loop_spec _ _ _ _ _ Hb Hok El) as (H1 & H2 & H3 & H4).
  destruct e; [| |done|by destruct H4].
  - destruct slots as [|f slots]; [left; by destruct bufs|done].
  - destruct slots as [|f slots]; [|done]. destruct (H3 eq_refl) as [->|]; auto.
Qed.

(** A batch whose segments are longer than the buffers stays where it is: every
    poll gives the QUIC stack empty datagrams, and nothing behind it is received. *)
Theorem oversized_segments_block self bufs dm s :
  pending_item self = Some dm -> segment_size (rd_datagrams dm) = Some s ->
  s < blen (contents (rd_datagrams dm)) -> bufs <> [] -> Forall (fun b => 0 <= b < s) bufs ->
  exists slots, poll_recv self bufs (length bufs) (length bufs) = Ok (Ready (Ok slots), self) /\
    Forall (fun f => f_contents f = []) slots.
Proof.
  intros Hp Hs Hc Hne Hb. rewrite poll_recv_lengths.
  assert (Hl : exists slots, recv_loop self bufs = (self, slots, AllFilled) /\ length slots = length bufs /\
                 Forall (fun f => f_contents f = []) slots).
  { clear Hne. induction Hb as [|b bufs Hb1 Hb2 IH]; [by exists []|].
    destruct IH as (slots & E & Hl & Hf). simpl. unfold poll_recv_queue. rewrite Hp, Hs.
    rewrite (Z.div_small b s) by lia. unfold take_segments. rewrite Hs.
    change (as_u64 (0 * s)) with 0. rewrite Z.min_l by (unfold blen; lia).
    change (Z.to_nat 0) with 0%nat. rewrite take_0, drop_0. simpl.
    destruct (Z.leb_spec (blen (contents (rd_datagrams dm))) s); [lia|].
    destruct (Z.eqb_spec (blen (contents (rd_datagrams dm))) 0); [lia|].
    destruct (Z.ltb_spec b (blen [])); [unfold blen in *; simpl in *; lia|].
    assert (mkTransport (recv_queue self) (senders_gone self)
       (Some (mkRecvDatagram (rd_url dm) (rd_src dm)
          (mkDatagrams (ecn (rd_datagrams dm)) (Some s) (contents (rd_datagrams dm))))) = self) as ->.
    { destruct self as [q g pend], dm as [u i [e ss c]]. simpl in *. by subst. }
    rewrite E. eexists. split; [done|]. simpl. split; [lia|]. by constructor. }
  destruct Hl as (slots & -> & Hl & Hf). exists slots. split; [|done].
  destruct slots as [|f slots]; [by destruct bufs|done].
Qed.

(** A datagram that is too large for its buffer is dropped, and the poll is
    pending with no waker registered although more datagrams may be queued. *)
Theorem dropped_datagram_without_waker b bufs dm rest gone :
  segment_size (rd_datagrams dm) = None -> b < blen (contents (rd_datagrams dm)) ->
  poll_recv (mkTransport (dm :: rest) gone None) (b :: bufs) (S (length bufs)) (S (length bufs)) =
  Ok (Pending false, mkTransport rest gone None).
Proof.
  intros Hs Hb. rewrite (poll_recv_lengths _ (b :: bufs)). simpl. unfold take_segments. rewrite Hs. simpl.
  by destruct (Z.ltb_spec b (blen (contents (rd_datagrams dm)))); [|lia].
Qed.

(** ** What an actor does on a connection *)

(** The effects since the connection was opened. *)
Definition conn_log (log effs : list effect) : list effect :=
  fold_left (fun log e => match e with Opened => [] | _ => log ++ [e] end) effs log.

Definition pongs_of (msgs : list ClientToRelayMsg) : list bytes :=
  omap (fun m => if m is C2RPong data then Some data else None) msgs.

Definition pings_in (log : list effect) : list bytes :=
  omap (fun e => if e is Handled (R2CPing data) then Some data else None) log.
Definition pongs_out (log : list effect) : list bytes :=
  flat_map (fun e => if e is Started _ msgs then pongs_of msgs else []) log.
Definition pong_seen (log : list effect) : bool :=
  existsb (fun e => if e is Handled (R2CPong _) then true else false) log.

(** Whether the relay's last word on an endpoint was a datagram from it. *)
Definition heard_from (peer : EndpointId) (log : list effect) : bool :=
  fold_left (fun b e => match e with
                        | Handled (R2CDatagrams id _) => if bool_decide (id = peer) then true else b
                        | Handled (R2CEndpointGone id) => if bool_decide (id = peer) then false else b
                        | _ => b
                        end) log false.

(** The state of the connection against what happened on it. *)
Record conn_inv (st : ConnectedRelayState) (log : list effect) : Prop := mkConnInv {
  ci_pongs : pongs_out log ++ option_list (pong_pending st) `sublist_of` pings_in log;
  ci_last : last (pongs_out log ++ option_list (pong_pending st)) = last (pings_in log);
  ci_established : established st = pong_seen log;
  ci_routes peer : peer ∈ endpoints_present st -> heard_from peer log = true
}.

(** Effects that say nothing of these. *)
Definition neutral (e : effect) : Prop :=
  match e with
  | Handled _ | Opened => False
  | Started _ msgs => pongs_of msgs = []
  | _ => True
  end.

Lemma heard_from_snoc peer log e :
  heard_from peer (log ++ [e]) =
  match e with
  | Handled (R2CDatagrams id _) => if bool_decide (id = peer) then true else heard_from peer log
  | Handled (R2CEndpointGone id) => if bool_decide (id = peer) then false else heard_from peer log
  | _ => heard_from peer log
  end.
Proof. unfold heard_from. by rewrite fold_left_app. Qed.

Lemma log_snoc log e :
  pings_in (log ++ [e]) = pings_in log ++ (if e is Handled (R2CPing data) then [data] else []) /\
  pongs_out (log ++ [e]) = pongs_out log ++ (if e is Started _ msgs then pongs_of msgs else []) /\
  pong_seen (log ++ [e]) = pong_seen log || (if e is Handled (R2CPong _) then true else false).
Proof.
  unfold pings_in, pongs_out, pong_seen. rewrite omap_app, flat_map_app, existsb_app. simpl.
  rewrite app_nil_r, orb_false_r. by destruct e as [| | |[]| | | | |].
Qed.

Lemma conn_inv_neutral st log effs : conn_inv st log -> Forall neutral effs -> conn_inv st (log ++ effs).
Proof.
  intros I. induction effs as [|e effs IH] using rev_ind; [by rewrite app_nil_r|].
  rewrite Forall_app, app_assoc. intros [He Hn]. destruct (IH He) as [I1 I2 I3 I4].
  apply Forall_cons in Hn as [Hn _]. destruct (log_snoc (log ++ effs) e) as (E1 & E2 & E3).
  split; rewrite ?E1, ?E2, ?E3.
  - destruct e; simpl in Hn |- *; try done; rewrite ?Hn, ?app_nil_r; done.
  - destruct e; simpl in Hn |- *; try done; rewrite ?Hn, ?app_nil_r; done.
  - destruct e; simpl in Hn |- *; try done; rewrite ?orb_false_r; done.
  - intros peer Hp. rewrite heard_from_snoc. destruct e; simpl in Hn |- *; try done; by apply I4.
Qed.

Lemma conn_log_app log effs : Forall (fun e => e <> Opened) effs -> conn_log log effs = log ++ effs.
Proof.
  revert log. induction effs as [|e effs IH]; intros log Hn; [by rewrite app_nil_r|].
  inversion_clear Hn as [|?? He Hn']. unfold conn_log in *. simpl.
  rewrite IH by done. destruct e; by rewrite <- ?app_assoc.
Qed.

Definition log_inv (a : ActiveRelayActor) (log : list effect) : Prop :=
  match at_phase a with
  | Idle _ st _ => conn_inv st log /\ pong_pending st = None
  | Sending _ st _ _ => conn_inv st log
  | _ => True
  end.

Lemma connected_top_inv a now la st ping_at log a' effs :
  conn_inv st log -> connected_top a now la st ping_at = (a', effs) ->
  log_inv a' (conn_log log effs).
Proof.
  intros [I1 I2 I3 I4]. unfold connected_top. destruct (pong_pending st) as [data|] eqn:Ep; intros [= <- <-].
  - rewrite conn_log_app by (by repeat constructor). destruct (log_snoc log (Started now [C2RPong data])) as (E1 & E2 & E3).
    unfold log_inv. simpl. split; simpl; rewrite ?E1, ?E2, ?E3; simpl; rewrite ?app_nil_r, ?orb_false_r; try done.
    intros peer Hp. rewrite heard_from_snoc. by apply I4.
  - unfold log_inv. simpl. split; [|done]. split; rewrite ?Ep; done.
Qed.

Lemma handle_relay_msg_inv a t msg st log st' effs :
  conn_inv st log -> handle_relay_msg a t msg st = (st', effs) ->
  conn_inv st' (log ++ effs) /\ Forall (fun e => e <> Opened) effs.
Proof.
  intros [I1 I2 I3 I4] Hh.
  assert (Hm : conn_inv st' (log ++ [Handled msg])).
  { destruct (log_snoc log (Handled msg)) as (E1 & E2 & E3).
    split; rewrite ?E1, ?E2, ?E3.
    - destruct msg; injection Hh as <- _; simpl; rewrite ?app_nil_r; try done; [by destruct (bool_decide _)|].
      apply sublist_app; [|done]. etrans; [|exact I1]. by apply sublist_inserts_r.
    - destruct msg; injection Hh as <- _; simpl; rewrite ?app_nil_r; try done; [by destruct (bool_decide _)|].
      by rewrite !last_snoc.
    - destruct msg; injection Hh as <- _; simpl; rewrite ?orb_false_r, ?orb_true_r; try done.
      by destruct (bool_decide _).
    - intros peer. rewrite heard_from_snoc. destruct msg; injection Hh as <- _; simpl; auto.
      + case_bool_decide as E.
        * intros Hp. case_bool_decide; [done|]. by apply I4.
        * simpl. rewrite elem_of_union, elem_of_singleton. intros [->|Hp]; case_bool_decide; auto.
      + rewrite elem_of_difference, not_elem_of_singleton. intros [Hp Hne].
        case_bool_decide; [by subst|]. by apply I4. }
  destruct msg; injection Hh as _ <-; try (split; [done|by repeat constructor]).
  destruct (room t); [|split; [done|by repeat constructor]].
  change (log ++ [Handled (R2CDatagrams remote_endpoint_id datagrams0);
    Queued (mkRecvDatagram (url a) remote_endpoint_id datagrams0)]) with
    (log ++ [Handled (R2CDatagrams remote_endpoint_id datagrams0)] ++
     [Queued (mkRecvDatagram (url a) remote_endpoint_id datagrams0)]).
  rewrite app_assoc. split; [|by repeat constructor]. by apply conn_inv_neutral; [|constructor].
Qed.

Lemma run_failed_phase a t err :
  exists p, at_phase (run_failed a t err).1 = p /\
    match p with Dialing _ _ | Backoff _ | Exited => True | _ => False end.
Proof. eexists. split; [done|]. unfold run_failed. destruct err; simpl; try done; by destruct (backoff _). Qed.

Lemma run_failed_log a t err log : log_inv (run_failed a t err).1 log.
Proof. destruct (run_failed_phase a t err) as (p & E & Hp). unfold log_inv. rewrite E. by destruct p. Qed.

Lemma idle_neutral a la st ping_at log effs :
  conn_inv st log -> pong_pending st = None -> Forall neutral effs ->
  at_phase a = Idle la st ping_at -> log_inv a (conn_log log effs).
Proof.
  intros I Hp Hn E. rewrite conn_log_app; [|eapply Forall_impl; [exact Hn|]; by intros [] ?].
  unfold log_inv. rewrite E. split; [by apply conn_inv_neutral|done].
Qed.

Lemma sending_neutral a la st ping_at timeout log effs :
  conn_inv st log -> Forall neutral effs ->
  at_phase a = Sending la st ping_at timeout -> log_inv a (conn_log log effs).
Proof.
  intros I Hn E. rewrite conn_log_app; [|eapply Forall_impl; [exact Hn|]; by intros [] ?].
  unfold log_inv. rewrite E. by apply conn_inv_neutral.
Qed.

Lemma send_ping_log a t la st ping_at log :
  conn_inv st log -> log_inv (send_ping a t la st ping_at).1 (conn_log log (send_ping a t la st ping_at).2).
Proof.
  intros [I1 I2 I3 I4]. unfold send_ping. destruct (Ping.new_ping _ _ _) as [[tracker data]| |]; [|done..].
  eapply sending_neutral; [|by repeat constructor|done]. by split.
Qed.

Lemma pongs_of_datagrams items : pongs_of (datagram_msgs items) = [].
Proof. by induction items. Qed.

Lemma dialing_turn_log a t du fa log :
  at_phase a = Dialing du fa ->
  log_inv (dialing_turn a t du fa).1 (conn_log log (dialing_turn a t du fa).2).
Proof.
  intros Ep. unfold dialing_turn, run_done.
  assert (Ha : forall l, log_inv a l) by (intros l; unfold log_inv; by rewrite Ep).
  destruct (stop t); [done|]. destruct (prio_inbox t) as [[[peer reply]|]|]; [done|done|].
  destruct (match connect t with Some res => _ | None => _ end) as [[la|err|]|].
  - eapply (idle_neutral _ la connected_new (now t) [] []); [|done|done|done].
    split; simpl; [done..|]. by intros peer ?%elem_of_empty.
  - apply run_failed_log.
  - done.
  - destruct (inbox t) as [[[ips|b]|]|]; simpl; [done| |done|].
    + unfold log_inv, set_home_relay. simpl. by rewrite Ep.
    + destruct (fa <=? now t); [done|]. by destruct (inactive a t).
Qed.

Lemma connected_message_log a t la st ping_at msg log :
  at_phase a = Idle la st ping_at -> conn_inv st log -> pong_pending st = None ->
  log_inv (connected_message a t la st ping_at msg).1
    (conn_log log (connected_message a t la st ping_at msg).2).
Proof.
  intros Ep I Hp. destruct msg as [ips|b]; simpl.
  - destruct la as [addr|]; [|apply run_failed_log].
    destruct (bool_decide _); [by apply send_ping_log|apply run_failed_log].
  - eapply idle_neutral; [done..| |exact Ep]. destruct b; by repeat constructor.
Qed.

Lemma connected_turn_log a t la st ping_at log :
  at_phase a = Idle la st ping_at -> conn_inv st log -> pong_pending st = None ->
  log_inv (connected_turn a t la st ping_at).1 (conn_log log (connected_turn a t la st ping_at).2).
Proof.
  intros Ep I Hp. unfold connected_turn, run_done, lost. destruct (stop t); [done|].
  destruct (prio_inbox t) as [[[peer reply]|]|]; [|done|].
  { eapply idle_neutral; [done..|by repeat constructor|exact Ep]. }
  destruct (Ping.timeout_poll _ _); [apply run_failed_log|].
  destruct (ping_at <=? now t); [by apply send_ping_log|].
  destruct (inbox t) as [[msg|]|]; [by apply connected_message_log|done|].
  destruct (datagrams t) as [[|item items]|]; [done| |].
  { eapply sending_neutral; [exact I| |done]. repeat constructor. apply (pongs_of_datagrams (item :: items)). }
  destruct (stream t) as [[[msg|err|]|]|]; [|apply run_failed_log|done|apply run_failed_log|].
  - destruct (handle_relay_msg a t msg st) as [st' effs] eqn:Eh.
    destruct (handle_relay_msg_inv _ _ _ _ _ _ _ I Eh) as [I' Hno].
    destruct (connected_top a (now t) la st' (now t + PING_INTERVAL)) as [a' effs'] eqn:Et. simpl.
    unfold conn_log. rewrite fold_left_app. fold (conn_log log effs). rewrite (conn_log_app log effs) by done.
    apply (connected_top_inv _ _ _ _ _ _ _ _ I' Et).
  - destruct (inactive a t); [done|]. by eapply idle_neutral.
Qed.

Lemma sending_turn_log a t la st ping_at timeout log :
  at_phase a = Sending la st ping_at timeout -> conn_inv st log ->
  log_inv (sending_turn a t la st ping_at timeout).1 (conn_log log (sending_turn a t la st ping_at timeout).2).
Proof.
  intros Ep I. unfold sending_turn, lost.
  assert (Htop : log_inv (connected_top a (now t) la st ping_at).1
                   (conn_log log (connected_top a (now t) la st ping_at).2)).
  { destruct (connected_top a (now t) la st ping_at) as [a' effs] eqn:Et. by eapply connected_top_inv. }
  destruct (stop t); [done|]. destruct (timeout <=? now t); [apply run_failed_log|].
  destruct (prio_inbox t) as [[[peer reply]|]|]; [|done|].
  { eapply sending_neutral; [exact I|by repeat constructor|exact Ep]. }
  destruct (sent t) as [[u|err|]|]; [done|apply run_failed_log|done|].
  destruct (Ping.timeout_poll _ _); [apply run_failed_log|].
  destruct (stream t) as [[[msg|err|]|]|]; [|apply run_failed_log|done|apply run_failed_log|].
  - destruct (handle_relay_msg a t msg st) as [st' effs] eqn:Eh.
    destruct (handle_relay_msg_inv _ _ _ _ _ _ _ I Eh) as [I' Hno]. simpl.
    rewrite conn_log_app by done. done.
  - destruct (inactive a t); [done|]. eapply sending_neutral; [exact I|done|exact Ep].
Qed.

Lemma active_turn_log a t log : log_inv a log -> log_inv (active_turn a t).1 (conn_log log (active_turn a t).2).
Proof.
  intros I. unfold active_turn. unfold log_inv in I. destruct (at_phase a) eqn:Ep.
  - by apply dialing_turn_log.
  - destruct I. by apply connected_turn_log.
  - by apply sending_turn_log.
  - destruct (_ <=? _); [done|]. unfold log_inv. simpl. by rewrite Ep.
  - unfold log_inv. simpl. by rewrite Ep.
  - unfold log_inv. simpl. by rewrite Ep.
Qed.

Lemma active_run_log ts a log : log_inv a log -> log_inv (active_run a ts).1 (conn_log log (active_run a ts).2).
Proof.
  revert a log. induction ts as [|t ts IH]; intros a log I; [done|]. simpl.
  pose proof (active_turn_log a t log I) as I1. destruct (active_turn a t) as [a1 effs1].
  pose proof (IH a1 _ I1) as I2. destruct (active_run a1 ts) as [a2 effs2]. simpl in *.
  unfold conn_log in *. by rewrite fold_left_app.
Qed.

(** ** The outcomes of a turn *)

Definition conn_state (p : phase) : option ConnectedRelayState :=
  match p with Idle _ st _ | Sending _ st _ _ => Some st | _ => None end.

(** When the datagrams were last taken from the queue, to send or to drop. *)
Definition batch_times (effs : list effect) : list Z :=
  omap (fun e => match e with TookBatch s | FlushedAt s => Some s | _ => None end) effs.

Definition exit_reason (a : ActiveRelayActor) (t : turn) : Prop :=
  stop t = true \/ prio_inbox t = Some None \/ inbox t = Some None \/ datagrams t = Some [] \/ inactive a t = true.

Definition goes_on (a : ActiveRelayActor) (p : phase) : Prop :=
  match p with
  | Idle _ _ _ | Sending _ _ _ _ => True
  | Dialing _ _ => conn_state (at_phase a) = None
  | _ => False
  end.

Inductive outcome (a : ActiveRelayActor) (t : turn) : ActiveRelayActor * list effect -> Prop :=
| OcSame effs : batch_times effs = [] -> outcome a t (a, effs)
| OcHome b effs : batch_times effs = [] -> outcome a t (set_home_relay a b, effs)
| OcPhase p effs : goes_on a p -> batch_times effs = [] -> outcome a t (at_ a p, effs)
| OcReset p effs :
    goes_on a p -> batch_times effs = [now t] -> outcome a t (at_ (reset_inactive_timeout a (now t)) p, effs)
| OcFailed err :
    match conn_state (at_phase a) with
    | Some st => exists e, err = state_map_err st e
    | None => exists e, err = RelayDial e
    end -> outcome a t (run_failed a t err)
| OcExit effs : exit_reason a t -> batch_times effs = [] -> outcome a t (at_ a Exited, effs)
| OcPanic : outcome a t (at_ a Panicked, []).

Create HintDb outcomes.
#[local] Hint Constructors outcome : outcomes.
#[local] Hint Unfold exit_reason : outcomes.

Lemma connected_top_outcome a t la st ping_at effs :
  batch_times effs = [] ->
  outcome a t ((connected_top a (now t) la st ping_at).1, effs ++ (connected_top a (now t) la st ping_at).2).
Proof.
  intros Hb. unfold connected_top. destruct (pong_pending st); simpl; apply OcPhase; try done;
    unfold batch_times in *; by rewrite omap_app, Hb.
Qed.

Lemma handle_relay_msg_times a t msg st : batch_times (handle_relay_msg a t msg st).2 = [].
Proof. destruct msg; simpl; try done. by destruct (room t). Qed.

Lemma send_ping_outcome a t la st ping_at : outcome a t (send_ping a t la st ping_at).
Proof. unfold send_ping. destruct (Ping.new_ping _ _ _) as [[tr d]| |]; [by apply OcPhase|apply OcPanic..]. Qed.

Lemma lost_outcome a t st e : conn_state (at_phase a) = Some st -> outcome a t (lost a t st e).
Proof. intros E. apply OcFailed. rewrite E. eauto. Qed.

Lemma dialing_turn_outcome a t du fa : at_phase a = Dialing du fa -> outcome a t (dialing_turn a t du fa).
Proof.
  intros Ep. unfold dialing_turn, run_done.
  destruct (stop t) eqn:Es; [auto 10 with outcomes|].
  destruct (prio_inbox t) as [[[peer reply]|]|] eqn:Ei; [auto 10 with outcomes..|].
  destruct (match connect t with Some res => _ | None => _ end) as [[la|err|]|].
  - simpl. by apply OcPhase.
  - apply OcFailed. rewrite Ep. simpl. eauto.
  - apply OcPanic.
  - destruct (inbox t) as [[[ips|b]|]|] eqn:En; [auto 10 with outcomes..|].
    destruct (fa <=? now t); [apply OcReset; [|done]; simpl; by rewrite Ep|].
    destruct (inactive a t) eqn:Ea; auto 10 with outcomes.
Qed.

Lemma connected_turn_outcome a t la st ping_at :
  at_phase a = Idle la st ping_at -> outcome a t (connected_turn a t la st ping_at).
Proof.
  intros Ep. unfold connected_turn, run_done.
  assert (Hl : forall e, outcome a t (lost a t st e)) by (intros e; apply lost_outcome; by rewrite Ep).
  destruct (stop t) eqn:Es; [auto 10 with outcomes|].
  destruct (prio_inbox t) as [[[peer reply]|]|] eqn:Ei; [auto 10 with outcomes..|].
  destruct (Ping.timeout_poll _ _); [done|]. destruct (ping_at <=? now t); [apply send_ping_outcome|].
  destruct (inbox t) as [[[ips|b]|]|] eqn:En; simpl.
  - destruct la as [addr|]; [|done]. destruct (bool_decide _); [apply send_ping_outcome|done].
  - apply OcHome. by destruct b.
  - auto 10 with outcomes.
  - destruct (datagrams t) as [[|item items]|] eqn:Ed; [auto 10 with outcomes|by apply OcReset|].
    destruct (stream t) as [[[msg|err|]|]|]; [|done|apply OcPanic|done|].
    + pose proof (handle_relay_msg_times a t msg st) as Ht. destruct (handle_relay_msg a t msg st) as [st' effs].
      pose proof (connected_top_outcome a t la st' (now t + PING_INTERVAL) effs Ht) as Ho.
      by destruct (connected_top a (now t) la st' (now t + PING_INTERVAL)).
    + destruct (inactive a t) eqn:Ea; auto 10 with outcomes.
Qed.

Lemma sending_turn_outcome a t la st ping_at timeout :
  at_phase a = Sending la st ping_at timeout -> outcome a t (sending_turn a t la st ping_at timeout).
Proof.
  intros Ep. unfold sending_turn.
  assert (Hl : forall e, outcome a t (lost a t st e)) by (intros e; apply lost_outcome; by rewrite Ep).
  assert (Hc : outcome a t (connected_top a (now t) la st ping_at)).
  { pose proof (connected_top_outcome a t la st ping_at [] eq_refl) as Ho.
    by destruct (connected_top a (now t) la st ping_at). }
  destruct (stop t); [done|]. destruct (timeout <=? now t); [done|].
  destruct (prio_inbox t) as [[[peer reply]|]|]; [auto 10 with outcomes|done|].
  destruct (sent t) as [[u|err|]|]; [done|done|apply OcPanic|]. destruct (Ping.timeout_poll _ _); [done|].
  destruct (stream t) as [[[msg|err|]|]|]; [|done|apply OcPanic|done|].
  - pose proof (handle_relay_msg_times a t msg st) as Ht. destruct (handle_relay_msg a t msg st) as [st' effs].
    by apply OcPhase.
  - destruct (inactive a t); auto 10 with outcomes.
Qed.

Lemma active_turn_outcome a t : outcome a t (active_turn a t).
Proof.
  unfold active_turn. destruct (at_phase a) eqn:Ep.
  - by apply dialing_turn_outcome.
  - by apply connected_turn_outcome.
  - by apply sending_turn_outcome.
  - destruct (_ <=? _); [|auto 10 with outcomes]. apply OcPhase; [|done]. simpl. by rewrite Ep.
  - auto 10 with outcomes.
  - auto 10 with outcomes.
Qed.

(** ** Properties of the actor of a relay *)

Lemma active_new_log u t0 : log_inv (active_new u t0) [].
Proof. done. Qed.

(** An actor that waits for something to do on its connection has answered the
    pings of the relay: every pong it sent answers a ping, in order, and the
    latest ping is answered; it counts the connection as established exactly when
    a pong came back, and knows a route only to endpoints it has heard from and
    that have not gone since. *)
Theorem relay_connection_state u t0 ts la st ping_at :
  at_phase (active_run (active_new u t0) ts).1 = Idle la st ping_at ->
  let log := conn_log [] (active_run (active_new u t0) ts).2 in
  (pongs_out log `sublist_of` pings_in log) /\ last (pongs_out log) = last (pings_in log) /\
  established st = pong_seen log /\
  forall peer, peer ∈ endpoints_present st -> heard_from peer log = true.
Proof.
  intros Ep. pose proof (active_run_log ts _ _ (active_new_log u t0)) as I. unfold log_inv in I.
  rewrite Ep in I. destruct I as [[I1 I2 I3 I4] Hp]. rewrite Hp, app_nil_r in I1, I2. by split_and!.
Qed.

(** An endpoint that went away and is heard from again has no route: it is not
    registered again while its datagrams are the last ones that were received. *)
Theorem returned_endpoint_has_no_route a t e d d' :
  let st1 := (handle_relay_msg a t (R2CDatagrams e d) connected_new).1 in
  let st2 := (handle_relay_msg a t (R2CEndpointGone e) st1).1 in
  let st3 := (handle_relay_msg a t (R2CDatagrams e d') st2).1 in
  (e ∉ endpoints_present st3) /\
  heard_from e [Handled (R2CDatagrams e d); Handled (R2CEndpointGone e); Handled (R2CDatagrams e d')] = true.
Proof.
  unfold heard_from. simpl. rewrite !bool_decide_true by done. simpl. split; [set_solver|done].
Qed.

Lemma log_inv_established a log st :
  log_inv a log -> conn_state (at_phase a) = Some st -> established st = pong_seen log.
Proof. unfold log_inv. destruct (at_phase a); simpl; intros I [= <-]; [by destruct I as [[]]|by destruct I]. Qed.

(** A lost connection is dialed again at once, with a fresh backoff, when the
    relay had answered a ping on it; otherwise after the next delay. *)
Theorem lost_connection_redialed u t0 ts t a effs st :
  active_run (active_new u t0) ts = (a, effs) -> conn_state (at_phase a) = Some st ->
  conn_state (at_phase (active_turn a t).1) = None ->
  at_phase (active_turn a t).1 <> Exited -> at_phase (active_turn a t).1 <> Panicked ->
  if pong_seen (conn_log [] effs)
  then at_phase (active_turn a t).1 = Dialing (now t + CONNECT_TIMEOUT) (now t + UNDELIVERABLE_DATAGRAM_TIMEOUT) /\
       attempts (active_turn a t).1 = 0%nat
  else exists delay, backoff (attempts a) = Some delay /\
         at_phase (active_turn a t).1 = Backoff (now t + delay) /\
         attempts (active_turn a t).1 = S (attempts a).
Proof.
  intros Er Hst Hn He Hp. pose proof (active_run_log ts _ _ (active_new_log u t0)) as I. rewrite Er in I.
  apply (log_inv_established _ _ _ I) in Hst as Hes. simpl in Hes.
  destruct (active_turn_outcome a t) as [effs' _|b effs' _|p effs' Hg _|p effs' Hg _|err Herr|effs' _ _|].
  - simpl in Hn. congruence.
  - simpl in Hn. congruence.
  - exfalso. simpl in *. destruct p; simpl in *; congruence.
  - exfalso. simpl in *. destruct p; simpl in *; congruence.
  - rewrite Hst in Herr. destruct Herr as [e ->]. unfold state_map_err in *. rewrite Hes in *.
    destruct (pong_seen _); [done|]. unfold run_failed in *.
    destruct (backoff (attempts a)) as [delay|] eqn:Eb; simpl in *; [by exists delay|done].
  - done.
  - done.
Qed.

(** *** Inactivity *)

(** Turns whose clock does not go back. *)
Fixpoint ordered (n : Z) (ts : list turn) : Prop :=
  match ts with
  | [] => True
  | t :: ts => n <= now t /\ ordered (now t) ts
  end.

Definition time_inv (a : ActiveRelayActor) (n : Z) (times : list Z) : Prop :=
  Forall (fun s => s + RELAY_INACTIVE_CLEANUP_TIME <= inactive_timeout a) times /\
  inactive_timeout a <= n + RELAY_INACTIVE_CLEANUP_TIME.

Lemma run_failed_times a t err :
  inactive_timeout (run_failed a t err).1 = inactive_timeout a /\ batch_times (run_failed a t err).2 = [].
Proof. unfold run_failed. destruct err; simpl; try done; by destruct (backoff _). Qed.

Lemma active_turn_times a t n times :
  n <= now t -> time_inv a n times ->
  time_inv (active_turn a t).1 (now t) (times ++ batch_times (active_turn a t).2).
Proof.
  intros Ht [H1 H2]. assert (Hsame : forall effs, batch_times effs = [] ->
    time_inv a (now t) (times ++ batch_times effs)) by (intros effs ->; rewrite app_nil_r; split; [done|lia]).
  destruct (active_turn_outcome a t) as [effs E|b effs E|p effs _ E|p effs _ E|err _|effs _ E|]; simpl;
    [by apply Hsame..| | |by apply (Hsame _ E)|by apply (Hsame [])].
  - rewrite E. split; simpl; [|lia]. apply Forall_app. split; [|by constructor].
    eapply Forall_impl; [exact H1|]. simpl. lia.
  - destruct (run_failed_times a t err) as [E1 E2]. rewrite E2, app_nil_r. unfold time_inv. rewrite E1.
    split; [done|lia].
Qed.

Lemma active_run_times ts a n times :
  ordered n ts -> time_inv a n times ->
  time_inv (active_run a ts).1 (default n (now <$> last ts)) (times ++ batch_times (active_run a ts).2).
Proof.
  revert a n times. induction ts as [|t ts IH]; intros a n times Ho I; simpl.
  { by rewrite app_nil_r. }
  destruct Ho as [Ht Ho]. pose proof (active_turn_times a t n times Ht I) as I1.
  destruct (active_turn a t) as [a1 effs1]. pose proof (IH a1 _ _ Ho I1) as I2.
  destruct (active_run a1 ts) as [a2 effs2]. simpl in *. unfold batch_times in *.
  rewrite omap_app, app_assoc, last_cons. by destruct (last ts).
Qed.

Lemma run_failed_not_exited a t err :
  (forall k, backoff k <> None) -> at_phase (run_failed a t err).1 <> Exited.
Proof.
  intros Hb. unfold run_failed. destruct err; simpl; try done;
    destruct (backoff (attempts a)) eqn:E; simpl; try done; by destruct (Hb (attempts a)).
Qed.

(** The actor of a relay ends when it is told to or its channels are closed, and
    for inactivity only when it is not the home relay's and a minute has passed
    since it was started and since it last took datagrams from its queue. *)
Theorem relay_actor_exits u t0 ts t a effs :
  (forall k, backoff k <> None) -> ordered t0 ts ->
  active_run (active_new u t0) ts = (a, effs) -> at_phase a <> Exited -> at_phase (active_turn a t).1 = Exited ->
  stop t = true \/ prio_inbox t = Some None \/ inbox t = Some None \/ datagrams t = Some [] \/
  (is_home_relay a = false /\
   Forall (fun s => s + RELAY_INACTIVE_CLEANUP_TIME <= now t) (t0 :: batch_times effs)).
Proof.
  intros Hb Ho Er Ha Hx.
  assert (I : time_inv (active_new u t0) t0 [t0]) by (split; [by constructor|done]).
  apply (active_run_times ts _ _ _ Ho) in I as [I _]. rewrite Er in I. simpl in I.
  assert (Hr : exit_reason a t).
  { destruct (active_turn_outcome a t) as [|b effs' _|p effs' Hg _|p effs' Hg _|err _|effs' Hr _|]; try done.
    - by destruct p.
    - by destruct p.
    - by destruct (run_failed_not_exited a t err Hb). }
  destruct Hr as [|[|[|[|Hin]]]]; auto. do 4 right. apply andb_prop in Hin as [Hh Hin].
  apply negb_true_iff in Hh. apply Z.leb_le in Hin. split; [done|].
  eapply Forall_impl; [exact I|]. simpl. lia.
Qed.

(** Turns in which nothing happens but time passing, a few seconds at most. *)
Definition uneventful (t : turn) : Prop :=
  stop t = false /\ prio_inbox t = None /\ connect t = None /\ inbox t = None.

Fixpoint timely (n : Z) (ts : list turn) : Prop :=
  match ts with
  | [] => True
  | t :: ts => n <= now t <= n + from_secs 3 /\ uneventful t /\ timely (now t) ts
  end.

(** While a relay cannot be reached: what keeps the actor from being inactive. *)
Definition dialing_inv (a : ActiveRelayActor) (n : Z) : Prop :=
  match at_phase a with
  | Dialing du fa =>
      n < fa <= n + from_secs 3 /\
      (du = fa + from_secs 7 /\ fa < inactive_timeout a \/ fa + from_secs 57 <= inactive_timeout a)
  | Backoff until => n <= until /\ until + from_secs 9 <= inactive_timeout a
  | _ => False
  end.

Lemma dialing_turn_inv a t n :
  (forall k, exists delay, backoff k = Some delay /\ 0 <= delay <= from_secs 45) ->
  n <= now t <= n + from_secs 3 -> uneventful t -> dialing_inv a n -> dialing_inv (active_turn a t).1 (now t).
Proof.
  intros Hb Ht (Hs & Hp & Hc & Hi) I. unfold active_turn, dialing_inv in *.
  destruct (at_phase a) as [du fa| | |until| |] eqn:Ep; try done.
  - unfold dialing_turn. rewrite Hs, Hp, Hc, Hi. destruct (Z.leb_spec du (now t)).
    + unfold run_failed. destruct (Hb (attempts a)) as (delay & -> & Hd). simpl. split; [lia|].
      unfold from_secs in *. lia.
    + destruct (Z.leb_spec fa (now t)); simpl.
      * unfold next_tick, RELAY_INACTIVE_CLEANUP_TIME, UNDELIVERABLE_DATAGRAM_TIMEOUT, from_secs, from_millis in *.
        destruct (Z.ltb_spec (fa + 5 * 10 ^ 6) (now t)); split; lia.
      * assert (inactive a t = false) as ->.
        { unfold inactive. apply andb_false_intro2, Z.leb_gt. unfold from_secs in *. lia. }
        simpl. rewrite Ep. split; [lia|]. tauto.
  - destruct (Z.leb_spec until (now t)); simpl.
    + unfold CONNECT_TIMEOUT, UNDELIVERABLE_DATAGRAM_TIMEOUT, from_secs in *. lia.
    + rewrite Ep. lia.
Qed.

(** The actor of a relay that cannot be reached never ends for inactivity: every
    flush of its queue counts as activity, also when the queue is empty. *)
Theorem unreachable_relay_never_inactive u t0 ts :
  (forall k, exists delay, backoff k = Some delay /\ 0 <= delay <= from_secs 45) ->
  timely t0 ts -> at_phase (active_run (active_new u t0) ts).1 <> Exited.
Proof.
  intros Hb. assert (I : dialing_inv (active_new u t0) t0).
  { unfold dialing_inv, RELAY_INACTIVE_CLEANUP_TIME, from_secs. simpl. unfold RELAY_INACTIVE_CLEANUP_TIME, from_secs. lia. }
  revert I. generalize (active_new u t0). revert t0.
  induction ts as [|t ts IH]; intros n a I; simpl.
  - intros _ E. unfold dialing_inv in I. by rewrite E in I.
  - intros (Ht & Hu & Hts). pose proof (dialing_turn_inv a t n Hb Ht Hu I) as I1.
    destruct (active_turn a t) as [a1 effs1]. specialize (IH _ a1 I1 Hts). revert IH. by destruct (active_run a1 ts).
Qed.

(** ** The home relay and its actors *)

(** What an actor will take itself for when it has read its messages. *)
Definition eventual_home (h : ActiveRelayHandle) : bool :=
  fold_left (fun b m => match m with SetHomeRelay b' => b' | CheckConnection _ => b end)
    (queued (inbox_addr h)) (actor_is_home h).

(** Every actor that runs is told whether its relay is the home relay. *)
Definition flags_inv (r : RelayActor) : Prop :=
  forall u h home, active_relays r !! u = Some h -> receiver_gone (inbox_addr h) = false ->
  home_url r = Some home -> eventual_home h = bool_decide (u = home).

Definition relays_inv (r : RelayActor) : Prop :=
  flags_inv r /\ forall home, home_url r = Some home -> is_Some (active_relays r !! home).

Lemma set_status_url w u state : status_url <$> set_status w u state = status_url <$> w.
Proof. unfold set_status, set_status_allowed. case_bool_decide as E; [|done]. simpl. by rewrite E. Qed.

Lemma eventual_home_send msg h :
  receiver_gone (inbox_addr h) = false ->
  eventual_home (send_inbox msg h) = match msg with SetHomeRelay b => b | CheckConnection _ => eventual_home h end.
Proof. intros E. unfold send_inbox, eventual_home. rewrite E. simpl. by rewrite fold_left_app. Qed.

Lemma send_inbox_gone msg h : receiver_gone (inbox_addr (send_inbox msg h)) = receiver_gone (inbox_addr h).
Proof. unfold send_inbox. by destruct (receiver_gone (inbox_addr h)) eqn:E. Qed.

Lemma active_relay_handle_spec r u :
  flags_inv r ->
  flags_inv (active_relay_handle r u) /\ is_Some (active_relays (active_relay_handle r u) !! u) /\
  my_relay (active_relay_handle r u) = my_relay r /\
  active_relays r ⊆ active_relays (active_relay_handle r u).
Proof.
  intros F. unfold active_relay_handle. destruct (active_relays r !! u) as [h|] eqn:Eu; [by rewrite Eu|].
  split_and!; simpl.
  - intros v h home. simpl. rewrite lookup_insert_Some. intros [[<- <-]|[Hne Hl]] Hg Hh; [|by apply (F v)].
    change (home_url r = Some home) in Hh. clear Hg. rewrite Hh. case_bool_decide as E1; case_bool_decide as E2; try done; congruence.
  - rewrite lookup_insert_eq. eauto.
  - done.
  - by apply insert_subseteq.
Qed.

Lemma set_home_relays_inv r home :
  home_url r = Some home -> relays_inv (set_home_relays r home).
Proof.
  intros Hh. unfold set_home_relays. set (r1 := with_active r _).
  assert (F : flags_inv r1).
  { intros u h home' Hl Hg Hh'. unfold r1 in Hl. simpl in Hl. rewrite map_lookup_imap in Hl.
    destruct (active_relays r !! u) as [h0|] eqn:E0; [|done]. simpl in Hl. injection Hl as <-.
    rewrite send_inbox_gone in Hg. rewrite eventual_home_send by done.
    assert (home' = home) as -> by (change (home_url r1) with (home_url r) in Hh'; congruence). done. }
  destruct (active_relay_handle_spec r1 home F) as (F' & Hs & Hm & _). split; [done|].
  intros home'. unfold home_url. rewrite Hm. change (status_url <$> my_relay r1) with (home_url r).
  rewrite Hh. by intros [= <-].
Qed.

Lemma flags_inv_subset r m :
  flags_inv r -> m ⊆ active_relays r -> flags_inv (with_active r m).
Proof. intros F Hs u h home Hl. simpl in Hl. apply (F u). by eapply lookup_weaken. Qed.

(** Changes of one handle that leave its flag and its being closed alone. *)
Lemma relays_inv_insert r u h h' :
  relays_inv r -> active_relays r !! u = Some h ->
  (receiver_gone (inbox_addr h') = false ->
     receiver_gone (inbox_addr h) = false /\ eventual_home h' = eventual_home h) ->
  relays_inv (with_active r (<[u := h']> (active_relays r))).
Proof.
  intros [F Hx] Hu Hh. split.
  - intros v k home. simpl. rewrite lookup_insert_Some. intros [[<- <-]|[Hne Hl]] Hg Hhome.
    + destruct (Hh Hg) as [Hg' ->]. by apply F.
    + by apply (F v).
  - intros home Hhome. simpl. destruct (decide (home = u)) as [->|Hne]; [rewrite lookup_insert_eq; eauto|].
    rewrite lookup_insert_ne by done. by apply Hx.
Qed.

Lemma active_relay_handle_inv r u : relays_inv r -> relays_inv (active_relay_handle r u).
Proof.
  intros [F Hx]. destruct (active_relay_handle_spec r u F) as (F' & _ & Hm & Hs). split; [done|].
  intros home. unfold home_url. rewrite Hm. intros Hh. destruct (Hx home Hh) as [h Hl].
  exists h. by eapply lookup_weaken.
Qed.

Lemma relays_inv_fut r fut : relays_inv r ->
  relays_inv (mkRelayActor (my_relay r) (relay_map r) (active_relays r) (spawned r) fut).
Proof. done. Qed.

Lemma try_send_datagram_inv r item has_route order :
  relays_inv r -> relays_inv (try_send_datagram r item has_route order).
Proof.
  intros I. unfold try_send_datagram. destruct (active_relay_handle_for_endpoint _ _ _ _) as [u r1] eqn:Ea.
  assert (I1 : relays_inv r1) by (injection Ea as <- <-; by apply active_relay_handle_inv).
  destruct (active_relays r1 !! u) as [h|] eqn:Eu; [|done].
  destruct (try_send (datagrams_send_queue h) item) as [c []]; [|done|by apply relays_inv_fut].
  by apply (relays_inv_insert _ _ h).
Qed.

Lemma reap_active_relays_inv r : relays_inv r -> relays_inv (reap_active_relays r).
Proof.
  intros [F Hx]. unfold reap_active_relays.
  set (r1 := with_active r _). assert (F1 : flags_inv r1) by (apply flags_inv_subset; [done|apply map_filter_subseteq]).
  change (my_relay r1) with (my_relay r). destruct (my_relay r) as [status|] eqn:Em.
  - destruct (active_relay_handle_spec r1 (status_url status) F1) as (F' & Hs & Hm & _). split; [done|].
    intros home. unfold home_url. rewrite Hm. change (my_relay r1) with (my_relay r). rewrite Em. by intros [= <-].
  - split; [done|]. intros home. unfold home_url. change (my_relay r1) with (my_relay r). by rewrite Em.
Qed.

Lemma relay_handle_msg_inv r ips msg : relays_inv r -> relays_inv (relay_handle_msg r ips msg).
Proof.
  intros [F Hx].
  assert (Hc : relays_inv (send_check_connection r ips)).
  { split.
    - intros u h home Hl Hg Hh. simpl in Hl. apply lookup_fmap_Some in Hl as (h0 & <- & Hl).
      rewrite send_inbox_gone in Hg. rewrite eventual_home_send by done. by apply F.
    - intros home Hh. simpl. rewrite lookup_fmap. destruct (Hx home Hh) as [h ->]. eauto. }
  destruct msg as [|pref|]; simpl; [done| |done]. unfold on_network_change. case_bool_decide; [done|].
  destruct pref as [u|]; [by apply set_home_relays_inv|]. split; [by intros ???|done].
Qed.

Lemma poll_blocked_inv r r' : relays_inv r -> poll_blocked r = Some r' -> relays_inv r'.
Proof.
  intros I. unfold poll_blocked. destruct (datagram_send_fut r) as [[[u n] item]|]; [|done].
  destruct (active_relays r !! u) as [h|] eqn:Eu; [|intros [= <-]; by apply relays_inv_fut].
  destruct (negb _); [intros [= <-]; by apply relays_inv_fut|].
  destruct (try_send (datagrams_send_queue h) item) as [c []]; intros [= <-]; [|by apply relays_inv_fut].
  by apply (relays_inv_insert r u h (with_datagrams h c)).
Qed.

(** Of what a turn does only a network change sets or clears the home relay. *)
Lemma active_relay_handle_watch r u : my_relay (active_relay_handle r u) = my_relay r.
Proof. unfold active_relay_handle. by destruct (active_relays r !! u). Qed.

Lemma try_send_datagram_watch r item has_route order :
  my_relay (try_send_datagram r item has_route order) = my_relay r.
Proof.
  unfold try_send_datagram. destruct (active_relay_handle_for_endpoint _ _ _ _) as [u r1] eqn:Ea.
  assert (E : my_relay r1 = my_relay r) by (injection Ea as <- <-; apply active_relay_handle_watch).
  destruct (active_relays r1 !! u) as [h|]; [|done]. by destruct (try_send _ _) as [c []].
Qed.

Lemma reap_active_relays_watch r : my_relay (reap_active_relays r) = my_relay r.
Proof.
  unfold reap_active_relays. set (r1 := with_active r _). change (my_relay r) with (my_relay r1).
  destruct (my_relay r1) eqn:E; rewrite ?active_relay_handle_watch; done.
Qed.

Lemma poll_blocked_watch r r' : poll_blocked r = Some r' -> my_relay r' = my_relay r.
Proof.
  unfold poll_blocked. destruct (datagram_send_fut r) as [[[u n] item]|]; [|done].
  destruct (active_relays r !! u) as [h|]; [|by intros [= <-]].
  destruct (negb _); [by intros [= <-]|]. by destruct (try_send _ _) as [c []]; intros [= <-].
Qed.

Lemma relay_run_turn_inv r t r' : relay_run_turn r t = Some r' -> relays_inv r -> relays_inv r'.
Proof.
  unfold relay_run_turn. intros E I. destruct (rt_cancelled t); [done|].
  destruct (rt_joined t); [injection E as <-; by apply reap_active_relays_inv|].
  destruct (rt_msg t) as [[msg|]|]; [injection E as <-; by apply relay_handle_msg_inv|done|].
  destruct (match datagram_send_fut r with None => _ | _ => _ end) as [[item|]|]; [|done|].
  - injection E as <-. by apply try_send_datagram_inv.
  - injection E as <-. destruct (poll_blocked r) as [r2|] eqn:Eb; simpl; [|done]. by eapply poll_blocked_inv.
Qed.

(** A turn that sets or clears the home relay tells all actors, whatever was before. *)
Lemma relay_handle_msg_moved r ips msg :
  home_url (relay_handle_msg r ips msg) <> home_url r -> relays_inv (relay_handle_msg r ips msg).
Proof.
  destruct msg as [|pref|]; [done| |done]. simpl. unfold on_network_change. case_bool_decide; [done|].
  destruct pref as [u|]; intros _; [by apply set_home_relays_inv|]. split; [by intros ???|done].
Qed.

Lemma relay_run_turn_moved r t r' :
  relay_run_turn r t = Some r' -> home_url r' <> home_url r -> relays_inv r'.
Proof.
  unfold relay_run_turn. intros E Hne. destruct (rt_cancelled t); [done|].
  destruct (rt_joined t); [injection E as <-; unfold home_url in Hne; by rewrite reap_active_relays_watch in Hne|].
  destruct (rt_msg t) as [[msg|]|]; [injection E as <-; by apply relay_handle_msg_moved|done|].
  destruct (match datagram_send_fut r with None => _ | _ => _ end) as [[item|]|]; [|done|].
  - injection E as <-. unfold home_url in Hne. by rewrite try_send_datagram_watch in Hne.
  - injection E as <-. destruct (poll_blocked r) as [r2|] eqn:Eb; simpl in Hne; [|done].
    unfold home_url in Hne. by rewrite (poll_blocked_watch _ _ Eb) in Hne.
Qed.

Definition world_inv (w : relay_world) : Prop := overtaken w = false -> relays_inv (world_actor w).

Lemma relay_step_inv w w' : relay_step w w' -> world_inv w -> world_inv w'.
Proof.
  intros [w0 t r1 E|w0 u h msg rest Hl Hq|w0 u h n Hl|w0 u state Ha|w0 before u state after Hc|w0 u h Hl] I Ho;
    simpl in Ho |- *.
  - apply andb_false_iff in Ho as [Ho|Ho%bool_decide_eq_false]; [|by eapply relay_run_turn_moved].
    by eapply relay_run_turn_inv, I.
  - apply (relays_inv_insert _ _ h); [by apply I|done|]. simpl. intros Hg. split; [done|].
    unfold eventual_home. simpl. rewrite Hq. by destruct msg.
  - by apply (relays_inv_insert _ _ h); [apply I|..].
  - by apply I.
  - apply orb_false_iff in Ho as [Ho Hu%negb_false_iff%bool_decide_eq_true]. destruct (I Ho) as [F Hx].
    assert (E : home_url (with_watch (world_actor w0) (watch_set u state)) = home_url (world_actor w0)) by done.
    unfold relays_inv, flags_inv. by rewrite E.
  - by apply (relays_inv_insert _ _ h); [apply I|..].
Qed.

(** C26: While the endpoint has a home relay, that relay has an actor, and every actor
    that runs has been told, or will be by the messages in its inbox, whether its relay
    is the home relay. This holds whatever the actors do until a status write overtakes
    a change of the home relay, and again from the next change on. *)
Theorem home_relay_kept relay_map w :
  rtc relay_step (relay_world_new relay_map) w -> overtaken w = false ->
  forall home, home_url (world_actor w) = Some home ->
  is_Some (active_relays (world_actor w) !! home) /\
  forall u h, active_relays (world_actor w) !! u = Some h -> receiver_gone (inbox_addr h) = false ->
    eventual_home h = bool_decide (u = home).
Proof.
  intros Hr Ho home Hh.
  assert (I : world_inv w).
  { eapply (rtc_invariant relay_step world_inv); [|intros ??? Hs; by eapply relay_step_inv|exact Hr].
    split; [|done]. intros u h home' Hl. simpl in Hl. by rewrite lookup_empty in Hl. }
  destruct (I Ho) as [F Hx]. split; [by apply Hx|]. intros u h Hl Hg. by apply (F u).
Qed.

(** The first turns of an endpoint: its home relay becomes [u]. *)
Definition network_turn (pref : option RelayUrl) : relay_turn :=
  mkRelayTurn false false (Some (Some (NetworkChange pref))) [] None (fun _ => false) [].

Definition first_handle (relay_map : gmap RelayUrl Relays.RelayConfig) (u : RelayUrl) : ActiveRelayHandle :=
  mkHandle 0 (mkChannel [SetHomeRelay true] 64 false) (mkChannel [] 64 false) false
    (relay_map !! u ≫= Relays.auth_token).

Definition first_home (relay_map : gmap RelayUrl Relays.RelayConfig) (u : RelayUrl) : relay_world :=
  mkRelayWorld (mkRelayActor (watch_set u Connecting) relay_map (<[u := first_handle relay_map u]> ∅) 1 None) [] false.

Lemma first_home_reached relay_map u : relay_step (relay_world_new relay_map) (first_home relay_map u).
Proof.
  apply (RsTurn (relay_world_new relay_map) (network_turn (Some u))).
  unfold relay_run_turn. simpl. unfold on_network_change, set_home_relays, active_relay_handle. simpl.
  rewrite map_imap_empty, lookup_empty. unfold home_url. simpl. by rewrite bool_decide_true by done.
Qed.

(** When the endpoint has no home relay any more, the actor of the last one is
    not told: it goes on as the home relay's, which never ends for inactivity. *)
Theorem cleared_home_keeps_flag relay_map u :
  exists w h, rtc relay_step (relay_world_new relay_map) w /\ my_relay (world_actor w) = None /\
    active_relays (world_actor w) !! u = Some h /\ actor_is_home h = true /\ queued (inbox_addr h) = [] /\
    receiver_gone (inbox_addr h) = false.
Proof.
  set (h1 := mkHandle 0 (mkChannel [] 64 false) (mkChannel [] 64 false) true (relay_map !! u ≫= Relays.auth_token)).
  exists (mkRelayWorld (mkRelayActor None relay_map (<[u := h1]> (<[u := first_handle relay_map u]> ∅)) 1 None) [] false), h1.
  split_and!; try done.
  - eapply rtc_l; [apply (first_home_reached relay_map u)|].
    eapply rtc_l; [apply (RsMessage _ u (first_handle relay_map u) (SetHomeRelay true) []); [by simpl; rewrite lookup_insert_eq|done]|].
    apply rtc_once. by apply (RsTurn (mkRelayWorld _ [] false) (network_turn None)).
  - simpl. by rewrite lookup_insert_eq.
Qed.

(** A write of [set_status] whose check came before a new home relay was set puts
    the old one back, although the check is there to prevent it. *)
Theorem stale_status_overwrites_home relay_map old new state :
  old <> new ->
  exists w w', rtc relay_step (relay_world_new relay_map) w /\ home_url (world_actor w) = Some new /\
    relay_step w w' /\ my_relay (world_actor w') = Some (mkStatus old state).
Proof.
  intros Hne.
  set (r2 := on_network_change (world_actor (first_home relay_map old)) (Some new)).
  assert (Hm : home_url r2 = Some new).
  { unfold r2, on_network_change. rewrite bool_decide_false by (unfold home_url; simpl; congruence).
    unfold set_home_relays, home_url. by rewrite active_relay_handle_watch. }
  set (w2 := mkRelayWorld r2 [(old, state)] false). exists w2. eexists. split_and!; [| |by apply (RsWrite w2 [] old state [])|done].
  - eapply rtc_l; [apply (first_home_reached relay_map old)|].
    eapply rtc_l; [apply (RsCheck _ old state); unfold set_status_allowed; simpl; by rewrite bool_decide_true|].
    apply rtc_once. by apply (RsTurn (mkRelayWorld _ [(old, state)] false) (network_turn (Some new)) r2).
  - done.
Qed.

(** ** Where a datagram goes *)

(** A datagram goes to the actor of its relay if there is one, else to an actor
    that has heard from the endpoint, else to a new actor for its relay: to the
    end of its queue, to no queue when the actor has ended, or it is held back
    until the queue has room. *)
Theorem datagram_routed r item has_route order :
  datagram_send_fut r = None ->
  let r' := try_send_datagram r item has_route order in
  exists u h,
    (u = item_url item \/
     active_relays r !! item_url item = None /\ is_Some (active_relays r !! u) /\ has_route u = true) /\
    active_relays (active_relay_handle r u) !! u = Some h /\
    (forall v, v <> u -> active_relays r' !! v = active_relays r !! v) /\
    (r' = active_relay_handle r u /\ receiver_gone (datagrams_send_queue h) = true \/
     active_relays r' !! u = Some h /\ datagram_send_fut r' = Some (u, actor_no h, item) /\
       (capacity (datagrams_send_queue h) <= length (queued (datagrams_send_queue h)))%nat \/
     exists h', active_relays r' !! u = Some h' /\ inbox_addr h' = inbox_addr h /\ datagram_send_fut r' = None /\
       queued (datagrams_send_queue h') = queued (datagrams_send_queue h) ++ [item]).
Proof.
  intros Hf r'. set (u := relay_for_endpoint r (item_url item) has_route order).
  assert (Hu : u = item_url item \/
     active_relays r !! item_url item = None /\ is_Some (active_relays r !! u) /\ has_route u = true).
  { unfold u, relay_for_endpoint. destruct (active_relays r !! item_url item) eqn:E; [by left|].
    destruct (head _) as [v|] eqn:Eh; simpl; [right|by left]. split; [done|].
    apply head_Some_elem_of, list_elem_of_filter in Eh. by destruct Eh as [[??] _]. }
  assert (Hs : exists h, active_relays (active_relay_handle r u) !! u = Some h /\
     datagram_send_fut (active_relay_handle r u) = None /\
     forall v, v <> u -> active_relays (active_relay_handle r u) !! v = active_relays r !! v).
  { unfold active_relay_handle. destruct (active_relays r !! u) as [h|] eqn:E; [by exists h|].
    eexists. simpl. rewrite lookup_insert_eq. split; [done|]. split; [done|].
    intros v Hv. by rewrite lookup_insert_ne. }
  destruct Hs as (h & Hh & Hf' & Hv). exists u, h. split; [done|]. split; [done|].
  unfold r', try_send_datagram, active_relay_handle_for_endpoint. fold u. rewrite Hh. unfold try_send.
  destruct (receiver_gone (datagrams_send_queue h)) eqn:Eg; [by split; [|left]|].
  destruct (Nat.leb_spec (capacity (datagrams_send_queue h)) (length (queued (datagrams_send_queue h)))) as [Hc|Hc].
  - split; [done|]. right. left. done.
  - split.
    + intros v Hne. simpl. rewrite lookup_insert_ne by done. by apply Hv.
    + right. right. eexists. simpl. rewrite lookup_insert_eq. by split_and!.
Qed.
End Relayed.

(** ** Witnesses *)

Arguments Ready {A} a.
Arguments Pending {A} waker_registered.
Arguments mkChannel {A} queued capacity receiver_gone.
Arguments queued {A} c.

Section Witnesses.
#[local] Existing Instance noq_proto.
#[local] Existing Instance padded_crypto.

Definition some_peer : EndpointId := mkPublicKey (replicate 32 Byte.x09).
Definition home_example : RelayUrl := "https://relay.example".
Definition no_delay (k : nat) : option Z := Some (from_secs 1).

(** Two datagrams of six bytes, received through the home relay. *)
Definition some_batch : RelayRecvDatagram := mkRecvDatagram home_example some_peer example_batch.
Definition some_transport : RelayTransport := mkTransport [some_batch] false None.

Lemma relay_recv_lossless_witness :
  exists slots self', poll_recv some_transport [8; 100] 2 2 = Ok (Ready (Ok slots), self') /\
    flat_map slot_pieces slots ++ flat_map pieces (backlog self') =
      [(home_example, some_peer, String.list_byte_of_string "Hello ");
       (home_example, some_peer, String.list_byte_of_string "World!")].
Proof.
  destruct (poll_recv some_transport [8; 100] 2 2) as [[p self']| |] eqn:E; [|discriminate E|discriminate E].
  pose proof (relay_recv_lossless some_transport [8; 100] p self') as T.
  destruct p as [[slots|e|]|w]; [|discriminate E..].
  exists slots, self'. split; [reflexivity|].
  destruct T as (_ & T & _); [repeat constructor; lia| |exact E|rewrite T; reflexivity].
  repeat constructor; unfold fits; simpl; lia.
Defined.

Definition oversized : RelayRecvDatagram := some_batch.

Lemma oversized_segments_block_witness :
  exists slots,
    poll_recv (mkTransport [] false (Some oversized)) [4; 5] 2 2 =
      Ok (Ready (Ok slots), mkTransport [] false (Some oversized)) /\
    Forall (fun f => f_contents f = []) slots.
Proof.
  apply (oversized_segments_block (mkTransport [] false (Some oversized)) [4; 5] oversized 6);
    [reflexivity|reflexivity|reflexivity|discriminate|repeat constructor; lia].
Defined.

Definition long_datagram : RelayRecvDatagram :=
  mkRecvDatagram home_example some_peer (mkDatagrams None None (replicate 10 Byte.x01)).

Lemma dropped_datagram_without_waker_witness :
  poll_recv (mkTransport [long_datagram; some_batch] false None) [4; 5] 2 2 =
  Ok (Pending false, mkTransport [some_batch] false None).
Proof. apply (dropped_datagram_without_waker 4 [5] long_datagram [some_batch] false); reflexivity. Defined.

(** A turn in which only the clock moves, and one with a message of the relay. *)
Definition at_time (n : Z) : turn := mkTurn n false None None None None None None true [] 0.
Definition relay_says (n : Z) (msg : RelayToClientMsg) : turn :=
  mkTurn n false None None None None (Some (Some (Ok msg))) None true [] 0.
Definition sent_at (n : Z) : turn := mkTurn n false None None None None None (Some (Ok tt)) true [] 0.
Definition connected_at (n : Z) : turn :=
  mkTurn n false None (Some (Ok None)) None None None None true [] 0.

(** The connection is opened, the first ping is sent and answered, then the
    relay pings and is answered. *)
Definition some_turns : list turn :=
  [at_time 0; connected_at 0; at_time 0; sent_at 1; relay_says 2 (R2CPong []);
   relay_says 3 (R2CPing [Byte.x01]); sent_at 4].

Definition some_actor : ActiveRelayActor := (active_run no_delay (active_new home_example 0) some_turns).1.

Lemma relay_connection_state_witness :
  let log := conn_log [] (active_run no_delay (active_new home_example 0) some_turns).2 in
  pongs_out log = [[Byte.x01]] /\ last (pings_in log) = Some [Byte.x01] /\ pong_seen log = true.
Proof.
  destruct (relay_connection_state no_delay home_example 0 some_turns None
    (mkConnected (Ping.mkPingTracker None Ping.PING_TIMEOUT (Some 2)) ∅ None None true) (3 + PING_INTERVAL))
    as (_ & T1 & T2 & _); [vm_compute; reflexivity|].
  split; [vm_compute; reflexivity|]. split; [rewrite <- T1; vm_compute; reflexivity|symmetry; exact T2].
Defined.

Definition stream_ends (n : Z) : turn := mkTurn n false None None None None (Some None) None true [] 0.

Lemma lost_connection_redialed_witness :
  at_phase (active_turn no_delay some_actor (stream_ends 5)).1 =
    Dialing (5 + CONNECT_TIMEOUT) (5 + UNDELIVERABLE_DATAGRAM_TIMEOUT).
Proof.
  assert (E : pong_seen (conn_log [] (active_run no_delay (active_new home_example 0) some_turns).2) = true)
    by (vm_compute; reflexivity).
  pose proof (lost_connection_redialed no_delay home_example 0 some_turns (stream_ends 5) some_actor
    (active_run no_delay (active_new home_example 0) some_turns).2
    (mkConnected (Ping.mkPingTracker None Ping.PING_TIMEOUT (Some 2)) ∅ None None true)
    (surjective_pairing _)) as T.
  rewrite E in T. apply T; vm_compute; [reflexivity|reflexivity|discriminate|discriminate].
Defined.

(** After a minute without datagrams, the relay being there. *)
Definition idle_minute : list turn :=
  some_turns ++ [at_time (from_secs 59); sent_at (from_secs 59); relay_says (from_secs 59) (R2CPong [])].

Lemma relay_actor_exits_witness :
  0 + RELAY_INACTIVE_CLEANUP_TIME <= from_secs 61.
Proof.
  destruct (relay_actor_exits no_delay home_example 0 idle_minute (at_time (from_secs 61))
    (active_run no_delay (active_new home_example 0) idle_minute).1
    (active_run no_delay (active_new home_example 0) idle_minute).2) as [T|[T|[T|[T|[_ T]]]]];
    [discriminate|repeat split; vm_compute; discriminate|apply surjective_pairing
    |vm_compute; discriminate|vm_compute; reflexivity
    |discriminate T..|].
  exact (proj1 (Forall_cons_1 _ _ _ T)).
Defined.

Definition dialing_turns : list turn :=
  [at_time 0; at_time (from_secs 3); at_time (from_secs 6); at_time (from_secs 9); at_time (from_secs 11)].

Lemma unreachable_relay_never_inactive_witness :
  at_phase (active_run no_delay (active_new home_example 0) dialing_turns).1 <> Exited.
Proof.
  apply (unreachable_relay_never_inactive no_delay home_example 0 dialing_turns).
  - intros k. exists (from_secs 1). split; [reflexivity|]. unfold from_secs. lia.
  - unfold dialing_turns, timely, uneventful, from_secs. simpl. repeat split; lia.
Defined.

Lemma home_relay_kept_witness :
  let w := first_home ∅ home_example in
  is_Some (active_relays (world_actor w) !! home_example) /\
  forall u h, active_relays (world_actor w) !! u = Some h -> receiver_gone _ (inbox_addr h) = false ->
    eventual_home h = bool_decide (u = home_example).
Proof.
  apply (home_relay_kept ∅ (first_home ∅ home_example)); [|reflexivity|reflexivity].
  apply rtc_once, first_home_reached.
Defined.

Definition some_item : RelaySendItem := mkSendItem some_peer home_example example_batch.

Lemma datagram_routed_witness :
  exists u h, (u = home_example \/ is_Some ((∅ : gmap RelayUrl ActiveRelayHandle) !! u)) /\
    active_relays (active_relay_handle (RelayActor_new ∅) u) !! u = Some h.
Proof.
  destruct (datagram_routed (RelayActor_new ∅) some_item (fun _ => true) []) as (u & h & Hu & Hh & _); [reflexivity|].
  exists u, h. split; [|exact Hh]. destruct Hu as [Hu|(_ & Hu & _)]; [left; exact Hu|right; exact Hu].
Defined.

End Witnesses.
End Relayed.
