(* ===== verification/PathWatcher.v ===== *)
(** * PathWatcher: what an application sees of the paths of a connection

    Models [iroh/src/socket/remote_map/remote_state/path_watcher.rs]: the list of
    open paths the remote state actor keeps for a connection, the events it
    broadcasts, and the two streams an application reads. The statistics of a
    path are the QUIC stack's. *)

From S2P Require Import Prelude External Instances Keys Addrs MappedAddrs.
Import Addrs Mapped.

Module Watch.

Definition BROADCAST_CAPACITY : nat := 8.

Abbreviation PathId := Z.

#[export] Instance LocalTransportAddr_eq_dec : EqDecision LocalTransportAddr.
Proof. solve_decision. Defined.

Section Watch.
Context {PathStats : Type}.

Inductive PathEvent :=
| Opened (id : PathId) (remote_addr : TransportAddr) (local_addr : LocalTransportAddr)
| Closed (id : PathId) (remote_addr : TransportAddr) (local_addr : LocalTransportAddr) (last_stats : PathStats)
| Selected (id : PathId) (remote_addr : TransportAddr) (local_addr : LocalTransportAddr)
| Lagged (missed : nat).

(** [PathData]: the weak handle of a path is its id. *)
Record PathData := mkPathData {
  handle : PathId;
  remote_addr : TransportAddr;
  local_addr : LocalTransportAddr
}.

#[export] Instance PathData_eq_dec : EqDecision PathData.
Proof. solve_decision. Defined.

(** The shared state, what was broadcast so far, and how often the waiters of
    the snapshot streams were notified. *)
Record PathStateSender := mkSender {
  path_list : list PathData;
  selected : option PathId;
  closed : bool;
  sent_events : list PathEvent;
  notified : nat
}.

Definition PathStateSender_new : PathStateSender := mkSender [] None false [] 0.

(** [list.iter().position(..)] and the replacement of that entry, or [push]. *)
Fixpoint put (entry : PathData) (l : list PathData) : list PathData :=
  match l with
  | [] => [entry]
  | e :: l => if handle e =? handle entry then entry :: l else e :: put entry l
  end.

(** The entry of a path and the list without it. *)
Fixpoint take_path (id : PathId) (l : list PathData) : option (PathData * list PathData) :=
  match l with
  | [] => None
  | e :: l => if handle e =? id then Some (e, l)
              else (fun '(x, l) => (x, e :: l)) <$> take_path id l
  end.

Definition record_opened (s : PathStateSender) (id : PathId) (network_path : FourTuple) : PathStateSender :=
  let remote_addr := Addr_to_transport (remote network_path) in
  let local_addr := local network_path in
  mkSender (put (mkPathData id remote_addr local_addr) (path_list s)) (selected s) (closed s)
    (sent_events s ++ [Opened id remote_addr local_addr]) (S (notified s)).

(** [stats] are those of the path at the time. *)
Definition record_abandoned (s : PathStateSender) (id : PathId) (stats : PathStats) : PathStateSender :=
  let selected := if bool_decide (selected s = Some id) then None else selected s in
  match take_path id (path_list s) with
  | Some (data, list) =>
      mkSender list selected (closed s)
        (sent_events s ++ [Closed id (remote_addr data) (local_addr data) stats]) (S (notified s))
  | None => mkSender (path_list s) selected (closed s) (sent_events s) (notified s)
  end.

Definition record_selected (s : PathStateSender) (network_path : FourTuple) : PathStateSender :=
  let remote_addr' := Addr_to_transport (remote network_path) in
  let local_addr' := local network_path in
  let selected_path_id :=
    handle <$> head (filter (fun p => remote_addr p = remote_addr' /\ local_addr p = local_addr') (path_list s)) in
  if bool_decide (selected_path_id = selected s) then s
  else
    match selected_path_id with
    | Some path_id =>
        mkSender (path_list s) (Some path_id) (closed s)
          (sent_events s ++ [Selected path_id remote_addr' local_addr']) (S (notified s))
    | None => mkSender (path_list s) None (closed s) (sent_events s) (notified s)
    end.

(** The last events of the paths the closed connection has statistics for. *)
Definition closing_events (path_stats : list (PathId * PathStats)) (l : list PathData) : list PathEvent :=
  omap (fun path =>
          (fun '(_, stats) => Closed (handle path) (remote_addr path) (local_addr path) stats) <$>
            head (filter (fun p => p.1 = handle path) path_stats)) l.

Definition close (s : PathStateSender) (path_stats : list (PathId * PathStats)) : PathStateSender :=
  if closed s then s
  else mkSender (path_list s) (selected s) true
         (sent_events s ++ closing_events path_stats (path_list s)) (S (notified s)).

(** [Drop]. *)
Definition drop_sender (s : PathStateSender) : PathStateSender :=
  if closed s then s
  else mkSender (path_list s) (selected s) true (sent_events s) (S (notified s)).

(** ** Readers *)

(** A [PathEventStream] is how many events it has behind it. [events()] begins
    after what was sent. *)
Definition subscribe (s : PathStateSender) : nat := length (sent_events s).

(** The next item of the stream: the broadcast channel keeps the last events;
    a subscriber that is further behind is told how many it missed. *)
Definition poll_event (s : PathStateSender) (pos : nat) : option PathEvent * nat :=
  let oldest := (length (sent_events s) - BROADCAST_CAPACITY)%nat in
  if (pos <? oldest)%nat then (Some (Lagged (oldest - pos)), oldest)
  else match sent_events s !! pos with
       | Some event => (Some event, S pos)
       | None => (None, pos)
       end.

(** [PathListStream]: the notifications its [Notified] future was created after. *)
Record PathListStream := mkListStream { first_poll : bool; created_at : nat }.

Definition stream (s : PathStateSender) : PathListStream := mkListStream true (notified s).

Inductive list_poll :=
| ListPending
| ListEnd
| ListItem (snapshot : list PathData) (is_selected : option PathId).

Definition poll_list (s : PathStateSender) (this : PathListStream) : list_poll * PathListStream :=
  let snapshot := if closed s then ListEnd else ListItem (path_list s) (selected s) in
  if first_poll this then (snapshot, mkListStream false (created_at this))
  else if (created_at this <? notified s)%nat then (snapshot, mkListStream false (notified s))
  else (ListPending, this).

(** [PathList::get] and [Path::is_selected]. *)
Definition list_get (snapshot : list PathData) (id : PathId) : option PathData :=
  head (filter (fun p => handle p = id) snapshot).
Definition is_selected (selected : option PathId) (data : PathData) : bool :=
  bool_decide (selected = Some (handle data)).

(** ** What the events say *)

(** The open paths of a reader that began with a list and follows the events. *)
Definition replay (l : list PathData) (evs : list PathEvent) : list PathData :=
  fold_left (fun l e =>
    match e with
    | Opened id remote local => put (mkPathData id remote local) l
    | Closed id _ _ _ => default l (snd <$> take_path id l)
    | Selected _ _ _ | Lagged _ => l
    end) evs l.

Inductive path_op :=
| OpOpened (id : PathId) (network_path : FourTuple)
| OpAbandoned (id : PathId) (stats : PathStats)
| OpSelected (network_path : FourTuple).

Definition apply_op (s : PathStateSender) (o : path_op) : PathStateSender :=
  match o with
  | OpOpened id network_path => record_opened s id network_path
  | OpAbandoned id stats => record_abandoned s id stats
  | OpSelected network_path => record_selected s network_path
  end.

Definition run_ops (s : PathStateSender) (ops : list path_op) : PathStateSender := fold_left apply_op ops s.

(** ** Lemmas *)

Definition ids_nodup (l : list PathData) : Prop := NoDup (map handle l).

Lemma take_path_ids id l x l' :
  take_path id l = Some (x, l') -> handle x = id /\ map handle l ≡ₚ id :: map handle l'.
Proof.
  revert l'. induction l as [|e l IH]; intros l'; simpl; [done|].
  destruct (Z.eqb_spec (handle e) id) as [<-|Hne]; [by intros [= <- <-]|].
  destruct (take_path id l) as [[y k]|]; [|done]. simpl. intros [= <- <-].
  destruct (IH k eq_refl) as [Hx Hp]. split; [done|]. simpl. rewrite Hp. by rewrite perm_swap.
Qed.

Lemma take_path_none id l : take_path id l = None -> id ∉ map handle l.
Proof.
  induction l as [|e l IH]; simpl; [by intros _ ?%elem_of_nil|].
  destruct (Z.eqb_spec (handle e) id); [done|]. destruct (take_path id l); [done|].
  intros _. rewrite not_elem_of_cons. split; [done|]. by apply IH.
Qed.

Lemma op_event s o :
  exists evs, sent_events (apply_op s o) = sent_events s ++ evs /\
    path_list (apply_op s o) = replay (path_list s) evs /\
    (notified s <= notified (apply_op s o))%nat /\
    (path_list (apply_op s o) <> path_list s -> notified s < notified (apply_op s o))%nat.
Proof.
  destruct o as [id t|id stats|t]; simpl.
  - eexists. split; [done|]. split; [done|]. simpl. lia.
  - unfold record_abandoned. destruct (take_path id (path_list s)) as [[data l]|] eqn:E; simpl.
    + eexists. split; [done|]. simpl. rewrite E. split; [done|]. lia.
    + exists []. rewrite app_nil_r. split_and!; done.
  - unfold record_selected. case_bool_decide; [exists []; rewrite app_nil_r; by split_and!|].
    destruct (handle <$> head _); simpl; [eexists; split; [done|]; split; [done|]; simpl; split; [lia|done]|].
    exists []. rewrite app_nil_r. by split_and!.
Qed.

(** A reader that takes the list and then follows the events from there knows the
    open paths at every later time; and a change of the list is notified to the
    streams of snapshots. *)
Theorem path_events_complete s ops :
  exists evs, sent_events (run_ops s ops) = sent_events s ++ evs /\
    path_list (run_ops s ops) = replay (path_list s) evs /\
    (notified s <= notified (run_ops s ops))%nat /\
    (path_list (run_ops s ops) <> path_list s -> notified s < notified (run_ops s ops))%nat.
Proof.
  revert s. induction ops as [|o ops IH]; intros s; [exists []; rewrite app_nil_r; by split_and!|].
  destruct (op_event s o) as (evs1 & E1 & L1 & M1 & N1). destruct (IH (apply_op s o)) as (evs2 & E2 & L2 & M2 & N2).
  exists (evs1 ++ evs2). change (run_ops s (o :: ops)) with (run_ops (apply_op s o) ops).
  rewrite E2, E1, app_assoc. split; [done|]. unfold replay. rewrite fold_left_app.
  fold (replay (path_list s) evs1). rewrite <- L1. split; [done|]. split; [lia|]. intros Hne.
  destruct (decide (path_list (apply_op s o) = path_list s)) as [Heq|Hne']; [|specialize (N1 Hne'); lia].
  rewrite Heq in N2. specialize (N2 Hne). lia.
Qed.

Lemma put_ids entry l : ids_nodup l -> ids_nodup (put entry l) /\ (forall id, id ∈ map handle (put entry l) -> id = handle entry \/ id ∈ map handle l).
Proof.
  unfold ids_nodup. induction l as [|e l IH]; simpl; intros Hn.
  - split; [apply NoDup_singleton|]. intros id ?%list_elem_of_singleton. by left.
  - apply NoDup_cons in Hn as [Hni Hn]. destruct (IH Hn) as [IH1 IH2].
    destruct (Z.eqb_spec (handle e) (handle entry)) as [Heq|Hne]; simpl.
    + split; [apply NoDup_cons; by rewrite <- Heq|]. intros id. rewrite !elem_of_cons. naive_solver.
    + split.
      * apply NoDup_cons. split; [|done]. intros [E|E]%IH2; done.
      * intros id. rewrite !elem_of_cons. naive_solver.
Qed.

Lemma elem_of_put entry l p :
  ids_nodup l -> p ∈ put entry l <-> p = entry \/ p ∈ l /\ handle p <> handle entry.
Proof.
  unfold ids_nodup. induction l as [|e l IH]; simpl; intros Hn.
  - rewrite list_elem_of_singleton, elem_of_nil. naive_solver.
  - apply NoDup_cons in Hn as [Hni Hn]. destruct (Z.eqb_spec (handle e) (handle entry)) as [Heq|Hne].
    + rewrite !elem_of_cons. split.
      * intros [->|Hp]; [by left|]. right. split; [by right|]. intros Hh. apply Hni. rewrite Heq, <- Hh.
        by apply list_elem_of_fmap_2.
      * intros [->|[[->|Hp] Hh]]; [by left|done|by right].
    + rewrite !elem_of_cons, IH by done. naive_solver.
Qed.

Lemma elem_of_take_path id l x l' p :
  ids_nodup l -> take_path id l = Some (x, l') -> p ∈ l' <-> p ∈ l /\ handle p <> id.
Proof.
  unfold ids_nodup. revert l'. induction l as [|e l IH]; intros l'; simpl; [done|]. intros Hn.
  apply NoDup_cons in Hn as [Hni Hn]. destruct (Z.eqb_spec (handle e) id) as [<-|Hne].
  - intros [= <- <-]. rewrite elem_of_cons. split.
    + intros Hp. split; [by right|]. intros Hh. apply Hni. rewrite <- Hh. by apply list_elem_of_fmap_2.
    + intros [[->|Hp] Hh]; done.
  - destruct (take_path id l) as [[y k]|]; [|done]. simpl. intros [= <- <-].
    rewrite !elem_of_cons, (IH k Hn eq_refl). naive_solver.
Qed.

Lemma apply_op_nodup s o : ids_nodup (path_list s) -> ids_nodup (path_list (apply_op s o)).
Proof.
  intros Hn. destruct o as [id t|id stats|t]; simpl.
  - by apply put_ids.
  - unfold record_abandoned. destruct (take_path id (path_list s)) as [[data l]|] eqn:Et; [|done]. simpl.
    destruct (take_path_ids _ _ _ _ Et) as [_ Hp]. unfold ids_nodup in *. rewrite Hp in Hn.
    by apply NoDup_cons in Hn as [_ ?].
  - unfold record_selected. case_bool_decide; [done|]. by destruct (handle <$> head _).
Qed.

Lemma record_selected_list s t : path_list (record_selected s t) = path_list s /\ closed (record_selected s t) = closed s.
Proof. unfold record_selected. case_bool_decide; [done|]. by destruct (handle <$> head _). Qed.

(** Every path is listed once. *)
Theorem paths_listed_once ops : ids_nodup (path_list (run_ops PathStateSender_new ops)).
Proof.
  assert (H : forall s, ids_nodup (path_list s) -> ids_nodup (path_list (run_ops s ops))).
  { induction ops as [|o ops IH]; intros s Hn; [done|]. apply IH. by apply apply_op_nodup. }
  apply H. apply NoDup_nil_2.
Qed.

(** When the connection closes with the statistics of all its paths, every one of
    them gets its last event, and the streams of snapshots end. *)
Theorem close_ends_paths s path_stats :
  ids_nodup (path_list s) -> closed s = false ->
  (forall p, p ∈ path_list s -> handle p ∈ map fst path_stats) ->
  exists evs, sent_events (close s path_stats) = sent_events s ++ evs /\ replay (path_list s) evs = [] /\
    (forall st, created_at st <= notified s -> (poll_list (close s path_stats) st).1 = ListEnd)%nat.
Proof.
  intros Hn Hc Hall. unfold close. rewrite Hc. eexists. split; [done|]. split.
  - clear Hc. revert Hn Hall. generalize (path_list s). intros l. induction l as [|p l IH]; intros Hn Hall; [done|].
    apply NoDup_cons in Hn as [Hni Hn]. simpl.
    destruct (head (filter (fun q : PathId * PathStats => q.1 = handle p) path_stats)) as [[i st]|] eqn:Eh; simpl.
    + rewrite Z.eqb_refl. simpl. apply IH; [done|]. intros q Hq. apply Hall. by right.
    + exfalso. assert (Hp : handle p ∈ map fst path_stats) by (apply Hall; by left).
      apply list_elem_of_fmap in Hp as ([i st] & Hi & Hin).
      assert (Hf : (i, st) ∈ filter (fun q : PathId * PathStats => q.1 = handle p) path_stats)
        by (by apply list_elem_of_filter).
      destruct (filter _ path_stats); [by apply elem_of_nil in Hf|done].
  - intros st Hst. unfold poll_list. simpl. destruct (first_poll st); [done|].
    by destruct (Nat.ltb_spec (created_at st) (S (notified s))); [|lia].
Qed.

(** A selected path that the connection does not have takes the selection away,
    and neither an event nor a notification says so. *)
Theorem deselection_unnoticed s t :
  (forall p, p ∈ path_list s -> remote_addr p <> Addr_to_transport (remote t)) ->
  selected (record_selected s t) = None /\ sent_events (record_selected s t) = sent_events s /\
  notified (record_selected s t) = notified s.
Proof.
  intros Hno. unfold record_selected.
  assert (head (filter (fun p => remote_addr p = Addr_to_transport (remote t) /\ local_addr p = local t)
                  (path_list s)) = None) as ->.
  { destruct (head _) as [p|] eqn:E; [|done]. apply head_Some_elem_of, list_elem_of_filter in E as [[E _] Hin].
    by destruct (Hno p Hin). }
  simpl. case_bool_decide as E; [by rewrite <- E|done].
Qed.

(** A subscriber gets every event in turn or is told how many it missed. *)
Theorem subscriber_accounts s pos e pos' :
  (pos <= length (sent_events s))%nat -> poll_event s pos = (e, pos') ->
  match e with
  | None => pos = length (sent_events s) /\ pos' = pos
  | Some e =>
      (pos' <= length (sent_events s))%nat /\
      (e = Lagged (pos' - pos) /\ (pos + 1 <= pos')%nat /\ (length (sent_events s) - pos' = BROADCAST_CAPACITY)%nat \/
       sent_events s !! pos = Some e /\ pos' = S pos)
  end.
Proof.
  intros Hp. unfold poll_event. destruct (Nat.ltb_spec pos (length (sent_events s) - BROADCAST_CAPACITY)).
  - intros [= <- <-]. split; [lia|]. left. split; [done|]. unfold BROADCAST_CAPACITY in *. lia.
  - destruct (sent_events s !! pos) as [ev|] eqn:E; intros [= <- <-].
    + apply lookup_lt_Some in E as Hlt. split; [lia|by right].
    + apply lookup_ge_None in E. split; [lia|done].
Qed.

End Watch.

(** ** Witnesses *)

Definition sample_path (port : Z) : FourTuple :=
  TupleIp (SocketV4 [Byte.x0a; Byte.x00; Byte.x00; Byte.x01] port) None.

Definition two_paths : @PathStateSender Z :=
  run_ops PathStateSender_new [OpOpened 0 (sample_path 1); OpOpened 1 (sample_path 2); OpSelected (sample_path 1)].

Definition two_stats : list (PathId * Z) := [(0, 10); (1, 20)].

Lemma close_ends_paths_witness :
  exists evs, sent_events (close two_paths two_stats) = sent_events two_paths ++ evs /\
    replay (path_list two_paths) evs = [] /\
    (forall st, created_at st <= notified two_paths ->
       (poll_list (close two_paths two_stats) st).1 = ListEnd)%nat.
Proof.
  apply close_ends_paths.
  - apply (apply_op_nodup (run_ops PathStateSender_new [OpOpened 0 (sample_path 1); OpOpened 1 (sample_path 2)])
             (OpSelected (sample_path 1))).
    apply (apply_op_nodup (run_ops PathStateSender_new [OpOpened 0 (sample_path 1)]) (OpOpened 1 (sample_path 2))).
    apply (apply_op_nodup PathStateSender_new (OpOpened 0 (sample_path 1))), NoDup_nil_2.
  - reflexivity.
  - intros p [->|[->|Hp%elem_of_nil]%elem_of_cons]%elem_of_cons; [by left|by right; left|done].
Defined.

Lemma deselection_unnoticed_witness :
  selected two_paths = Some 0 /\ selected (record_selected two_paths (sample_path 3)) = None /\
  sent_events (record_selected two_paths (sample_path 3)) = sent_events two_paths /\
  notified (record_selected two_paths (sample_path 3)) = notified two_paths.
Proof.
  split; [reflexivity|]. apply deselection_unnoticed.
  intros p [->|[->|Hp%elem_of_nil]%elem_of_cons]%elem_of_cons; [discriminate|discriminate|done].
Defined.

Lemma subscriber_accounts_witness :
  exists e, poll_event two_paths 2 = (Some e, 3%nat) /\
    (3 <= length (sent_events two_paths))%nat /\
    (e = Lagged (3 - 2) /\ (2 + 1 <= 3)%nat /\ (length (sent_events two_paths) - 3 = BROADCAST_CAPACITY)%nat \/
     sent_events two_paths !! 2%nat = Some e /\ 3%nat = 3%nat).
Proof.
  eexists. split; [reflexivity|]. apply (subscriber_accounts two_paths 2 (Some _) 3); [simpl; lia|reflexivity].
Defined.

End Watch.
