(* ===== verification/RemoteState.v ===== *)
(** * RemoteState: the actor that manages the paths to a remote endpoint

    Models [iroh/src/socket/remote_map/remote_state.rs]: all connections to one
    remote endpoint, the paths that are open on each, the selection of the path
    that carries the data, hole punching and address lookup. The QUIC stack is a
    parameter: what it answers about a connection is a [conn_view], and what the
    actor asks of it, with what the actor tells its other clients, is a list of
    commands. The hash maps of connections and of the paths of a connection are
    iterated in the order of [map_to_list]; the counters of [SocketMetrics] that
    this file increments are left out. *)

From S2P Require Import Prelude External Instances Keys Addrs MappedAddrs PathState PathWatcher.
Import Addrs Mapped Paths.

Module Remote.

Definition HOLEPUNCH_ATTEMPTS_INTERVAL : Z := from_secs 5.
Definition GOOD_ENOUGH_LATENCY : Z := from_millis 10.
Definition UPGRADE_INTERVAL : Z := from_secs 60.
Definition ACTOR_MAX_IDLE_TIMEOUT : Z := from_secs 60.
Definition RELAY_PATH_MAX_IDLE_TIMEOUT : Z := from_secs 30.

(** [ConnId]: the [stable_id] of a connection. *)
Abbreviation ConnId := Z.
Abbreviation PathId := Watch.PathId.

(** ** The QUIC stack *)

Inductive nat_error :=
| NatClosed | TooManyAddresses | WrongConnectionSide | ExtensionNotNegotiated | NatMultipath | NotEnoughAddresses.

(** [open_path_ensure]: the path is being opened, or the future, polled once,
    has an error; [OtherPathError] is every other outcome without a path id. *)
Inductive path_error := RemoteCidsExhausted | MaxPathIdReached | OtherPathError.
Inductive open_answer := Opening | Refused (err : path_error).

Inductive QuicPathStatus := Available | BackupStatus.

Section Remote.
Context {E PathStats : Type}.

(** What the stack says of a connection: its side, the paths it has with their
    addresses, round trip times and statistics, the NAT traversal candidates, and
    its answers to the calls that can fail. *)
Record conn_view := mkView {
  is_client : bool;
  live_paths : gmap PathId (option (SocketAddr * option IpAddr));
  rtt_of : PathId -> option Z;
  stats_of : PathId -> PathStats;
  remote_nat_addresses : option (list SocketAddr);
  local_nat_addresses : option (gset SocketAddr);
  nat_round : result nat_error (list SocketAddr);
  open_path_ensure : SocketAddr * option IpAddr -> open_answer
}.

(** The connections whose weak handle can be upgraded, and the current value of
    the watched direct addresses of the socket. *)
Record world := mkWorld {
  w_conn : ConnId -> option conn_view;
  w_local : gset SocketAddr
}.

(** What else is known while a strong handle of a connection is held. *)
Definition holding (w : world) (c : ConnId) (v : conn_view) : world :=
  mkWorld (fun c' => if c' =? c then Some v else w_conn w c') (w_local w).

Inductive command :=
| SetStatus (c : ConnId) (path : PathId) (status : QuicPathStatus)
| ClosePath (c : ConnId) (path : PathId)
| OpenPath (c : ConnId) (addr : SocketAddr * option IpAddr) (status : QuicPathStatus)
| PingPath (c : ConnId) (path : PathId)
| SetMaxIdleTimeout (c : ConnId) (path : PathId) (timeout : Z)
| AddNatAddress (c : ConnId) (addr : SocketAddr)
| RemoveNatAddress (c : ConnId) (addr : SocketAddr)
| NatRound (c : ConnId)
| SendTo (dst : FourTuple)
| StartLookup
| ReplyReceiver (c : ConnId)
| ReplyInfo (tx : Z) (id : EndpointId) (addrs : list (TransportAddr * TransportAddrUsage))
| WatcherEnds (c : ConnId) (final : @Watch.PathStateSender PathStats).

(** ** State *)

Record HolepunchAttempt := mkAttempt {
  hp_when : Z;
  hp_local : gset SocketAddr;
  hp_remote : gset SocketAddr
}.

Record ConnectionState := mkConnState {
  cs_paths : gmap PathId FourTuple;
  path_state : @Watch.PathStateSender PathStats;
  has_been_direct : bool
}.

Record State := mkState {
  endpoint_id : EndpointId;
  local_direct_addrs : gset SocketAddr;      (* the value the watcher last saw *)
  mapped : Maps;
  known : @RemotePathState E;                (* [paths] *)
  last_holepunch : option HolepunchAttempt;
  selected_path : option FourTuple;
  scheduled_holepunch : option Z;
  scheduled_open_path : option Z;
  pending_open_paths : list FourTuple;
  lookup_running : bool                      (* is there an [address_lookup_stream]? *)
}.

Record RemoteStateActor := mkActor {
  connections : gmap ConnId ConnectionState;
  state : State
}.

(** The order of a hash map of paths, and the configured selector. *)
Context (iter_order : gmap Addr PathState -> list (Addr * PathState)).
Context (path_selector : option FourTuple -> list candidate -> option FourTuple).

Definition actor_new (id : EndpointId) (local : gset SocketAddr) (maps : Maps) : RemoteStateActor :=
  mkActor ∅ (mkState id local maps RemotePathState_new None None None None [] false).

Definition with_mapped (s : State) (m : Maps) : State :=
  mkState (endpoint_id s) (local_direct_addrs s) m (known s) (last_holepunch s) (selected_path s)
    (scheduled_holepunch s) (scheduled_open_path s) (pending_open_paths s) (lookup_running s).
Definition with_known (s : State) (k : RemotePathState) : State :=
  mkState (endpoint_id s) (local_direct_addrs s) (mapped s) k (last_holepunch s) (selected_path s)
    (scheduled_holepunch s) (scheduled_open_path s) (pending_open_paths s) (lookup_running s).
Definition with_holepunch (s : State) (last : option HolepunchAttempt) (scheduled : option Z) : State :=
  mkState (endpoint_id s) (local_direct_addrs s) (mapped s) (known s) last (selected_path s)
    scheduled (scheduled_open_path s) (pending_open_paths s) (lookup_running s).
Definition with_selected (s : State) (p : option FourTuple) : State :=
  mkState (endpoint_id s) (local_direct_addrs s) (mapped s) (known s) (last_holepunch s) p
    (scheduled_holepunch s) (scheduled_open_path s) (pending_open_paths s) (lookup_running s).
Definition with_pending (s : State) (at_time : option Z) (l : list FourTuple) : State :=
  mkState (endpoint_id s) (local_direct_addrs s) (mapped s) (known s) (last_holepunch s) (selected_path s)
    (scheduled_holepunch s) at_time l (lookup_running s).
Definition with_lookup (s : State) (running : bool) : State :=
  mkState (endpoint_id s) (local_direct_addrs s) (mapped s) (known s) (last_holepunch s) (selected_path s)
    (scheduled_holepunch s) (scheduled_open_path s) (pending_open_paths s) running.
Definition with_local (s : State) (local : gset SocketAddr) : State :=
  mkState (endpoint_id s) local (mapped s) (known s) (last_holepunch s) (selected_path s)
    (scheduled_holepunch s) (scheduled_open_path s) (pending_open_paths s) (lookup_running s).

(** [local_candidates]: [get] brings the watcher up to date. *)
Definition local_candidates (s : State) (w : world) : gset SocketAddr * State :=
  (w_local w, with_local s (w_local w)).

(** ** Paths of a connection *)

Definition path_status_for_addr (s : State) (addr : FourTuple) : QuicPathStatus :=
  if bool_decide (Some addr = selected_path s) then Available else BackupStatus.

Definition set_path_status (s : State) (c : ConnId) (path : PathId) (network_path : FourTuple) : command :=
  SetStatus c path (path_status_for_addr s network_path).

Definition transport_tuple_for_path (s : State) (v : conn_view) (path : PathId) : option FourTuple :=
  match live_paths v !! path with
  | Some (Some t) => from_noq t (relay_addrs (mapped s)) (custom_addrs (mapped s))
  | _ => None
  end.

Definition open_path_on_conn (s : State) (c : ConnId) (cs : ConnectionState) (v : conn_view) (open_addr : FourTuple)
    (now : Z) : State * list command :=
  if negb (is_client v) then (s, [])
  else if bool_decide (open_addr ∈ (map_to_list (cs_paths cs)).*2) then (s, [])
  else
    let '(quic_addr, m) := to_noq_four_tuple open_addr (mapped s) in
    let s := with_mapped s m in
    match open_path_ensure v quic_addr with
    | Opening => (s, [OpenPath c quic_addr (path_status_for_addr s open_addr)])
    | Refused RemoteCidsExhausted | Refused MaxPathIdReached =>
        (with_pending s (Some (now + from_millis 333)) (pending_open_paths s ++ [open_addr]), [])
    | Refused OtherPathError => (s, [])
    end.

Definition add_open_path (cs : ConnectionState) (v : conn_view) (network_path : FourTuple) (path : PathId)
    : ConnectionState :=
  mkConnState (<[path := network_path]> (cs_paths cs))
    (if live_paths v !! path is Some _ then Watch.record_opened (path_state cs) path network_path else path_state cs)
    (has_been_direct cs || FourTuple_is_ip network_path).

Definition remove_path (cs : ConnectionState) (v : conn_view) (path : PathId)
    : option (FourTuple * ConnectionState) :=
  (fun addr => (addr, mkConnState (delete path (cs_paths cs))
                        (Watch.record_abandoned (path_state cs) path (stats_of v path)) (has_been_direct cs)))
    <$> cs_paths cs !! path.

Definition register_and_configure_path (s : State) (c : ConnId) (cs : ConnectionState) (v : conn_view)
    (path : PathId) (now : Z) : State * ConnectionState * list command * option FourTuple :=
  match transport_tuple_for_path s v path with
  | None => (s, cs, [], None)
  | Some network_path =>
      let cs := add_open_path cs v network_path path in
      let idle := if FourTuple_is_relay network_path then [SetMaxIdleTimeout c path RELAY_PATH_MAX_IDLE_TIMEOUT]
                  else [] in
      (with_known s (insert_open_path iter_order (known s) (remote network_path) Connection now), cs,
       idle ++ [set_path_status s c path network_path], Some network_path)
  end.

(** [update_qnt_candidates]. *)
Definition update_qnt_candidates (c : ConnId) (v : conn_view) (direct_addrs : gset SocketAddr) : list command :=
  match local_nat_addresses v with
  | None => []
  | Some noq_candidates =>
      (AddNatAddress c <$> elements (direct_addrs ∖ noq_candidates)) ++
      (RemoveNatAddress c <$> elements (noq_candidates ∖ direct_addrs))
  end.

(** ** Hole punching *)

(** The lowest connection whose handle is alive and that is a client's. *)
Definition lowest_client (a : RemoteStateActor) (w : world) : option (ConnId * conn_view) :=
  fold_right (fun '(c, _) acc =>
    match w_conn w c with
    | Some v =>
        if is_client v then
          match acc with
          | Some (c', v') => if c <? c' then Some (c, v) else Some (c', v')
          | None => Some (c, v)
          end
        else acc
    | None => acc
    end) None (map_to_list (connections a)).

(** [SocketAddr::new(addr.ip().to_canonical(), addr.port())]. *)
Definition canonical (a : SocketAddr) : SocketAddr :=
  match socket_ip a with
  | V4 ip => socket_addr_new (V4 ip) (socket_port a)
  | V6 ip => socket_addr_new (to_canonical ip) (socket_port a)
  end.

Definition do_holepunching (s : State) (w : world) (c : ConnId) (v : conn_view) (now : Z) : State * list command :=
  let '(local, s) := local_candidates s w in
  (match nat_round v with
   | Ok remote =>
       with_holepunch s (Some (mkAttempt now local (list_to_set (map canonical remote))))
         (scheduled_holepunch s)
   | Err (NatMultipath | NotEnoughAddresses) =>
       with_holepunch s (last_holepunch s) (Some (now + from_millis 100))
   | _ => s
   end, [NatRound c]).

Definition trigger_holepunching (a : RemoteStateActor) (w : world) (now : Z) : RemoteStateActor * list command :=
  match lowest_client a w with
  | None => (a, [])
  | Some (c, v) =>
      match remote_nat_addresses v with
      | None => (a, [])
      | Some addrs =>
          let remote : gset SocketAddr := list_to_set addrs in
          let '(local, s) := local_candidates (state a) w in
          let new_candidates :=
            match last_holepunch s with
            | Some last_hp => negb (bool_decide (remote ⊆ hp_remote last_hp)) ||
                              negb (bool_decide (local ⊆ hp_local last_hp))
            | None => true
            end in
          let too_soon :=
            match last_holepunch s with
            | Some last_hp =>
                let next_hp := hp_when last_hp + HOLEPUNCH_ATTEMPTS_INTERVAL in
                if negb new_candidates && (now <? next_hp) then Some next_hp else None
            | None => None
            end in
          match too_soon with
          | Some next_hp => (mkActor (connections a) (with_holepunch s (last_holepunch s) (Some next_hp)), [])
          | None => let '(s, cmds) := do_holepunching s w c v now in (mkActor (connections a) s, cmds)
          end
      end
  end.

(** ** Path selection *)

Definition candidates (a : RemoteStateActor) (w : world) : list candidate :=
  flat_map (fun '(c, cs) =>
    match w_conn w c with
    | Some v => map (fun '(path, addr) => (addr, rtt_of v path)) (map_to_list (cs_paths cs))
    | None => []
    end) (map_to_list (connections a)).

Definition ip_paths (cs : ConnectionState) : nat :=
  length (filter (fun t => FourTuple_is_ip t = true) (map_to_list (cs_paths cs)).*2).

(** What becomes of one path of a connection. *)
Definition apply_to_path (s : State) (c : ConnId) (cs : ConnectionState) (v : conn_view) (selected : FourTuple)
    (p : PathId * FourTuple) : list command :=
  let '(path, path_remote) := p in
  match live_paths v !! path with
  | None => []
  | Some _ =>
      if is_client v && FourTuple_is_ip path_remote && negb (bool_decide (path_remote = selected)) &&
         (1 <? ip_paths cs)%nat
      then [ClosePath c path]
      else [set_path_status s c path path_remote]
  end.

Definition apply_to_conn (w : world) (now : Z) (selected : FourTuple)
    (acc : State * gmap ConnId ConnectionState * list command) (p : ConnId * ConnectionState)
    : State * gmap ConnId ConnectionState * list command :=
  let '(s, conns, cmds) := acc in
  let '(c, cs) := p in
  match w_conn w c with
  | None => acc
  | Some v =>
      let '(s, opened) := open_path_on_conn s c cs v selected now in
      let applied := flat_map (apply_to_path s c cs v selected) (map_to_list (cs_paths cs)) in
      let cs := mkConnState (cs_paths cs) (Watch.record_selected (path_state cs) selected) (has_been_direct cs) in
      (s, <[c := cs]> conns, cmds ++ opened ++ applied)
  end.

Definition apply_selected_path (a : RemoteStateActor) (w : world) (now : Z) : RemoteStateActor * list command :=
  match selected_path (state a) with
  | None => (a, [])
  | Some selected =>
      let '(s, conns, cmds) :=
        fold_left (apply_to_conn w now selected) (map_to_list (connections a)) (state a, connections a, []) in
      (mkActor conns s, cmds)
  end.

Definition select_path (a : RemoteStateActor) (w : world) (now : Z) : RemoteStateActor * list command :=
  let s := state a in
  let s := match path_selector (selected_path s) (candidates a w) with
           | Some addr => if bool_decide (selected_path s = Some addr) then s else with_selected s (Some addr)
           | None => s
           end in
  apply_selected_path (mkActor (connections a) s) w now.

Definition open_path_on_all_conns (a : RemoteStateActor) (w : world) (open_addr : FourTuple) (now : Z)
    : RemoteStateActor * list command :=
  let '(s, cmds) :=
    fold_left (fun '(s, cmds) '(c, cs) =>
      match w_conn w c with
      | None => (s, cmds)
      | Some v => let '(s, cmds') := open_path_on_conn s c cs v open_addr now in (s, cmds ++ cmds')
      end) (map_to_list (connections a)) (state a, []) in
  (mkActor (connections a) s, cmds).

(** The branch of [scheduled_path_open]. *)
Definition open_scheduled_paths (a : RemoteStateActor) (w : world) (now : Z) : RemoteStateActor * list command :=
  fold_left (fun '(a, cmds) addr =>
    let '(a, cmds') := open_path_on_all_conns a w addr now in (a, cmds ++ cmds'))
    (pending_open_paths (state a)) (mkActor (connections a) (with_pending (state a) None []), []).

(** ** Messages and events *)

Definition handle_msg_add_connection (a : RemoteStateActor) (w : world) (c : ConnId) (v : conn_view) (now : Z)
    : RemoteStateActor * list command :=
  let w := holding w c v in
  let dropped := if connections a !! c is Some old then [WatcherEnds c (Watch.drop_sender (path_state old))] else [] in
  let '(local, s) := local_candidates (state a) w in
  let nat := update_qnt_candidates c v local in
  let cs := mkConnState ∅ Watch.PathStateSender_new false in
  let '(s, cs, cmds, first_path) :=
    match live_paths v !! 0 with
    | Some _ => register_and_configure_path s c cs v 0 now
    | None => (s, cs, [], None)
    end in
  let relays :=
    match first_path with
    | Some t => if negb (FourTuple_is_relay t) && is_client v
                then map from_remote (filter (fun addr => Addr_is_relay addr = true) (iter_order (paths (known s))).*1)
                else []
    | None => []
    end in
  let '(s, opened) :=
    fold_left (fun '(s, cmds) open_addr =>
      let '(s, cmds') := open_path_on_conn s c cs v open_addr now in (s, cmds ++ cmds')) relays (s, []) in
  let a := mkActor (<[c := cs]> (connections a)) s in
  let '(a, punched) := trigger_holepunching a w now in
  let '(a, selected) := select_path a w now in
  (a, dropped ++ nat ++ cmds ++ opened ++ punched ++ selected ++ [ReplyReceiver c]).

Definition handle_msg_network_change (a : RemoteStateActor) (w : world) (is_major : bool) (now : Z)
    : RemoteStateActor * list command :=
  let pings :=
    flat_map (fun '(c, cs) =>
      match w_conn w c with
      | None => []
      | Some v => flat_map (fun '(path, _) => if live_paths v !! path is Some _ then [PingPath c path] else [])
                    (map_to_list (cs_paths cs))
      end) (map_to_list (connections a)) in
  if is_major then let '(a, cmds) := trigger_holepunching a w now in (a, pings ++ cmds) else (a, pings).

(** [path_stats] are the statistics the closed connection leaves. *)
Definition handle_connection_close (a : RemoteStateActor) (c : ConnId) (path_stats : list (PathId * PathStats))
    : RemoteStateActor * list command :=
  let conns := delete c (connections a) in
  (mkActor conns (if bool_decide (conns = ∅) then with_selected (state a) None else state a),
   match connections a !! c with
   | Some cs => [WatcherEnds c (Watch.close (path_state cs) path_stats)]
   | None => []
   end).

Definition update_local_direct_address (a : RemoteStateActor) (w : world) : RemoteStateActor * list command :=
  let '(local, s) := local_candidates (state a) w in
  (mkActor (connections a) s,
   flat_map (fun '(c, _) =>
     match w_conn w c with
     | Some v => update_qnt_candidates c v local
     | None => []
     end) (map_to_list (connections a))).

Inductive path_event :=
| Established (path : PathId)
| Abandoned (path : PathId)
| OtherPathEvent.

Definition handle_path_event (a : RemoteStateActor) (w : world) (c : ConnId) (event : option path_event) (now : Z)
    : RemoteStateActor * list command :=
  match event, connections a !! c, w_conn w c with
  | Some event, Some cs, Some v =>
      match event with
      | Established path =>
          match live_paths v !! path with
          | None => (a, [])
          | Some _ =>
              let '(s, cs, cmds, _) := register_and_configure_path (state a) c cs v path now in
              let '(a, cmds') := select_path (mkActor (<[c := cs]> (connections a)) s) w now in
              (a, cmds ++ cmds')
          end
      | Abandoned path =>
          match remove_path cs v path with
          | None => (a, [])
          | Some (network_path, cs) =>
              let s := if bool_decide (remote network_path ∈ remote <$> (map_to_list (cs_paths cs)).*2)
                       then state a
                       else with_known (state a) (abandoned_path (known (state a)) (remote network_path) now) in
              select_path (mkActor (<[c := cs]> (connections a)) s) w now
          end
      | OtherPathEvent => (a, [])
      end
  | _, _, _ => (a, [])
  end.

(** [Iterator::min]. *)
Definition min_list (l : list Z) : option Z :=
  fold_right (fun x acc => Some (match acc with Some y => Z.min x y | None => x end)) None l.

Definition conn_good_enough (w : world) (c : ConnId) (cs : ConnectionState) : bool :=
  match w_conn w c with
  | None => false
  | Some v =>
      match min_list (omap (fun '(path, addr) => if FourTuple_is_ip addr then rtt_of v path else None)
                        (map_to_list (cs_paths cs))) with
      | Some rtt => rtt <=? GOOD_ENOUGH_LATENCY
      | None => false
      end
  end.

Definition check_connections (a : RemoteStateActor) (w : world) (now : Z) : RemoteStateActor * list command :=
  if forallb (fun '(c, cs) => conn_good_enough w c cs) (map_to_list (connections a)) then (a, [])
  else trigger_holepunching a w now.

(** [handle_msg_send_datagram]. *)
Definition handle_msg_send_datagram (s : State) : list command :=
  match selected_path s with
  | Some addr => [SendTo (from_remote (remote addr))]
  | None =>
      flat_map (fun addr =>
        match addr with
        | AddrIp sockaddr => if bool_decide (sockaddr ∈ local_direct_addrs s) then [] else [SendTo (from_remote addr)]
        | _ => [SendTo (from_remote addr)]
        end) (iter_order (paths (known s))).*1
  end.

(** [to_transports_addr]. *)
Definition to_transports_addr (id : EndpointId) (addrs : list TransportAddr) : list Addr :=
  map (fun addr => match addr with
                   | TransportRelay relay_url => AddrRelay relay_url id
                   | TransportIp sockaddr => Addr_from sockaddr
                   | TransportCustom custom_addr => AddrCustom custom_addr
                   end) addrs.

Definition trigger_address_lookup (s : State) : State * list command :=
  if (if selected_path s is Some _ then true else false) || lookup_running s then (s, [])
  else (with_lookup s true, [StartLookup]).

Definition handle_msg_resolve_remote (s : State) (addrs : list TransportAddr) (tx now : Z) : State * list command :=
  let s := with_known s (insert_multiple iter_order (known s) (to_transports_addr (endpoint_id s) addrs) App now) in
  let s := with_known s (resolve_remote (known s) tx) in
  trigger_address_lookup s.

(** An item of the lookup: the endpoint it is for, where it is from, its addresses. *)
Record lookup_item := mkItem { item_endpoint : EndpointId; provenance : string; item_addrs : list TransportAddr }.

Definition handle_address_lookup_item (s : State) (item : option (AddressLookupFailed E + lookup_item)) (now : Z)
    : State :=
  match item with
  | None => with_lookup (with_known s (address_lookup_finished (known s) (Ok tt))) false
  | Some (inl err) => with_lookup (with_known s (address_lookup_finished (known s) (Err err))) false
  | Some (inr item) =>
      if negb (bool_decide (item_endpoint item = endpoint_id s)) then s
      else with_known s (insert_multiple iter_order (known s) (to_transports_addr (endpoint_id s) (item_addrs item))
                           (AddressLookup (provenance item)) now)
  end.

(** ** The loop *)

Inductive RemoteStateMessage :=
| MsgSendDatagram
| MsgAddConnection (c : ConnId) (v : conn_view)
| MsgResolveRemote (addrs : list TransportAddr) (tx : Z)
| MsgRemoteInfo (tx : Z)
| MsgNetworkChange (is_major : bool).

Definition handle_message (a : RemoteStateActor) (w : world) (msg : RemoteStateMessage) (now : Z)
    : RemoteStateActor * list command :=
  match msg with
  | MsgSendDatagram => (a, handle_msg_send_datagram (state a))
  | MsgAddConnection c v => handle_msg_add_connection a w c v now
  | MsgResolveRemote addrs tx =>
      let '(s, cmds) := handle_msg_resolve_remote (state a) addrs tx now in (mkActor (connections a) s, cmds)
  | MsgRemoteInfo tx => (a, [ReplyInfo tx (endpoint_id (state a)) (to_remote_addrs iter_order (known (state a)))])
  | MsgNetworkChange is_major => handle_msg_network_change a w is_major now
  end.

(** What the actor has between two turns of its loop. *)
Record Loop := mkLoop {
  actor : RemoteStateActor;
  inbox : list RemoteStateMessage;
  idle_at : Z                                (* the deadline of [idle_timeout] *)
}.

(** What a turn of the loop finds: the messages that arrive while it waits, and
    for every other branch of the [select!] whether it is ready. [t_late] arrive
    after the inbox was polled, [t_last] after the actor found that it is idle. *)
Record turn := mkTurn {
  t_now : Z;
  t_world : world;
  t_cancelled : bool;
  t_arrived : list RemoteStateMessage;
  t_senders_gone : bool;
  t_path : option (ConnId * option path_event);
  t_nat : bool;
  t_closed : option (ConnId * list (PathId * PathStats));
  t_local : option bool;                     (* [Some false]: the watcher is disconnected *)
  t_lookup : option (option (AddressLookupFailed E + lookup_item));
  t_check : bool;
  t_late : list RemoteStateMessage;
  t_last : list RemoteStateMessage
}.

Definition is_idle (a : RemoteStateActor) (inbox : list RemoteStateMessage) : bool :=
  bool_decide (connections a = ∅) && bool_decide (inbox = []) && resolve_requests_is_empty (known (state a)).

Definition due (deadline : option Z) (now : Z) : bool :=
  match deadline with Some d => d <=? now | None => false end.

(** The loop goes on, or it ends with the messages that are left. *)
Inductive outcome :=
| Goes (l : Loop) (handled : list RemoteStateMessage) (cmds : list command)
| Ends (leftover : list RemoteStateMessage) (cmds : list command).

(** The end of [run] drops the connections with their watchers. *)
Definition drop_actor (a : RemoteStateActor) : list command :=
  map (fun '(c, cs) => WatcherEnds c (Watch.drop_sender (path_state cs))) (map_to_list (connections a)).

(** A turn: the branches in their order. *)
Definition loop_turn (l : Loop) (t : turn) : outcome :=
  let now := t_now t in let w := t_world t in
  let a := actor l in let s := state a in
  let idle := if is_idle a (inbox l) then idle_at l else now + ACTOR_MAX_IDLE_TIMEOUT in
  let queue := inbox l ++ t_arrived t in
  let rest := queue ++ t_late t ++ t_last t in
  let goes '(a, cmds) := Goes (mkLoop a rest idle) [] cmds in
  let ends := Ends rest (drop_actor a) in
  if t_cancelled t then ends
  else match queue with
  | msg :: queue =>
      let '(a, cmds) := handle_message a w msg now in
      Goes (mkLoop a (queue ++ t_late t ++ t_last t) idle) [msg] cmds
  | [] =>
  if t_senders_gone t then ends
  else match t_path t with
  | Some (c, event) => goes (handle_path_event a w c event now)
  | None =>
  if t_nat t then goes (trigger_holepunching a w now)
  else match t_closed t with
  | Some (c, path_stats) => goes (handle_connection_close a c path_stats)
  | None =>
  match t_local t with
  | Some false => ends
  | Some true =>
      let '(a, cmds) := update_local_direct_address a w in
      let '(a, cmds') := trigger_holepunching a w now in goes (a, cmds ++ cmds')
  | None =>
  if due (scheduled_open_path s) now then goes (open_scheduled_paths a w now)
  else if due (scheduled_holepunch s) now then
    goes (trigger_holepunching (mkActor (connections a) (with_holepunch s (last_holepunch s) None)) w now)
  else match (if lookup_running s then t_lookup t else None) with
  | Some item => goes (mkActor (connections a) (handle_address_lookup_item s item now), [])
  | None =>
  if t_check t then goes (check_connections a w now)
  else if idle <=? now then
    if is_idle a (queue ++ t_late t) then ends
    else Goes (mkLoop a rest (now + ACTOR_MAX_IDLE_TIMEOUT)) [] []
  else goes (a, [])
  end end end end end.

(** [run] over the turns it takes: the messages it handled, the commands, and the
    messages left over if it ended; the messages that arrived with the turns that
    were not taken are not part of it. *)
Fixpoint run_loop (l : Loop) (turns : list turn)
    : list RemoteStateMessage * list command * (Loop + list RemoteStateMessage) :=
  match turns with
  | [] => ([], [], inl l)
  | t :: turns =>
      match loop_turn l t with
      | Ends leftover cmds => ([], cmds, inr leftover)
      | Goes l handled cmds =>
          let '(handled', cmds', last) := run_loop l turns in (handled ++ handled', cmds ++ cmds', last)
      end
  end.

Definition handle_initial (a : RemoteStateActor) (w : world) (initial_msgs : list RemoteStateMessage) (now : Z)
    : RemoteStateActor * list command :=
  fold_left (fun '(a, cmds) msg => let '(a, cmds') := handle_message a w msg now in (a, cmds ++ cmds'))
    initial_msgs (a, []).

(** ** Lemmas *)

Lemma fold_left_inv {A B} (P : A -> Prop) (f : A -> B -> A) l a :
  P a -> (forall a x, x ∈ l -> P a -> P (f a x)) -> P (fold_left f l a).
Proof.
  revert a. induction l as [|x l IH]; intros a Ha Hs; [done|]. simpl. apply IH.
  - apply Hs; [by left|done].
  - intros b y Hy. apply Hs. by right.
Qed.

(** Opening a path on a connection leaves all but the maps and the pending paths. *)
Record same_choice (s s' : State) : Prop := mkSameChoice {
  sc_selected : selected_path s' = selected_path s;
  sc_last : last_holepunch s' = last_holepunch s;
  sc_known : known s' = known s;
  sc_local : local_direct_addrs s' = local_direct_addrs s
}.

Lemma same_choice_refl s : same_choice s s.
Proof. done. Qed.

Lemma same_choice_trans s s' s'' : same_choice s s' -> same_choice s' s'' -> same_choice s s''.
Proof. intros [] []. split; congruence. Qed.

Lemma open_path_same s c cs v t now : same_choice s (open_path_on_conn s c cs v t now).1.
Proof.
  unfold open_path_on_conn. destruct (negb _); [done|]. case_bool_decide; [done|].
  destruct (to_noq_four_tuple t (mapped s)) as [q m]. by destruct (open_path_ensure v q) as [|[]].
Qed.

Lemma open_path_cmds s c cs v t now cmd :
  cmd ∈ (open_path_on_conn s c cs v t now).2 ->
  is_client v = true /\ (t ∉ (map_to_list (cs_paths cs)).*2) /\
  exists q, cmd = OpenPath c q (path_status_for_addr s t).
Proof.
  unfold open_path_on_conn. destruct (is_client v) eqn:Ec; simpl; [|by intros ?%elem_of_nil].
  case_bool_decide; simpl; [by intros ?%elem_of_nil|].
  destruct (to_noq_four_tuple t (mapped s)) as [q m].
  destruct (open_path_ensure v q) as [|[]]; simpl; [|by intros ?%elem_of_nil..].
  intros ->%list_elem_of_singleton. split_and!; [done|done|]. by exists q.
Qed.

(** ** The turns of the loop *)

Definition arrivals (t : turn) : list RemoteStateMessage := t_arrived t ++ t_late t ++ t_last t.

Lemma loop_turn_messages l t :
  match loop_turn l t with
  | Goes l' handled _ => inbox l ++ arrivals t = handled ++ inbox l'
  | Ends leftover _ => inbox l ++ arrivals t = leftover
  end.
Proof.
  unfold loop_turn, arrivals. rewrite (app_assoc (inbox l)).
  destruct (t_cancelled t); [done|]. destruct (inbox l ++ t_arrived t) as [|msg queue].
  2: { by destruct (handle_message _ _ _ _). }
  destruct (t_senders_gone t); [done|].
  destruct (t_path t) as [[c e]|]; [by destruct (handle_path_event _ _ _ _ _)|].
  destruct (t_nat t); [by destruct (trigger_holepunching _ _ _)|].
  destruct (t_closed t) as [[c ps]|]; [done|].
  destruct (t_local t) as [[]|]; [|done|].
  { destruct (update_local_direct_address _ _) as [a' k]. by destruct (trigger_holepunching a' _ _). }
  destruct (due _ _); [by destruct (open_scheduled_paths _ _ _)|].
  destruct (due _ _); [by destruct (trigger_holepunching _ _ _)|].
  destruct (if lookup_running _ then _ else _); [done|].
  destruct (t_check t); [by destruct (check_connections _ _ _)|].
  destruct (_ <=? _); [|done]. by destruct (is_idle _ _).
Qed.

(** The turns [run_loop] takes: all of them, or those up to the one that ends it. *)
Fixpoint turns_taken (l : Loop) (turns : list turn) : nat :=
  match turns with
  | [] => 0
  | t :: turns =>
      match loop_turn l t with
      | Ends _ _ => 1
      | Goes l _ _ => S (turns_taken l turns)
      end
  end.

(** C18: Every message the inbox accepts until the actor has ended is handled, in order,
    or is still in the inbox, or is returned when the actor ends; also a message of
    the last turn, that arrives while the actor decides to end. *)
Theorem remote_messages_kept l turns :
  let '(handled, _, last) := run_loop l turns in
  inbox l ++ flat_map arrivals (take (turns_taken l turns) turns) =
    handled ++ (match last with inl l' => inbox l' | inr leftover => leftover end) /\
  (if last is inl _ then turns_taken l turns = length turns else True).
Proof.
  revert l. induction turns as [|t turns IH]; intros l; [simpl; by rewrite app_nil_r|]. simpl.
  pose proof (loop_turn_messages l t) as Ht. destruct (loop_turn l t) as [l' handled cmds|leftover cmds].
  - specialize (IH l'). destruct (run_loop l' turns) as [[h' c'] last]. destruct IH as [Hm Hk]. simpl.
    split; [by rewrite app_assoc, Ht, <- !app_assoc, Hm|]. by destruct last; [f_equal|].
  - simpl. by rewrite app_nil_r.
Qed.

(** Unless it is cancelled or loses its senders or the address watcher, the actor
    ends only when it has no connection and no one waits for an address, its
    timeout has passed, and the messages it returns are those that came after it
    looked. *)
Theorem actor_ends_idle l t leftover cmds :
  loop_turn l t = Ends leftover cmds ->
  t_cancelled t = false -> t_senders_gone t = false -> t_local t <> Some false ->
  connections (actor l) = ∅ /\ pending_resolve_requests (known (state (actor l))) = [] /\
  idle_at l <= t_now t /\ leftover = t_last t /\ cmds = [].
Proof.
  unfold loop_turn. intros H Hc Hs Hl. rewrite Hc, Hs in H.
  destruct (inbox l ++ t_arrived t) as [|msg queue] eqn:Eq; [|by destruct (handle_message _ _ _ _)].
  apply app_eq_nil in Eq as [Ei Ea].
  destruct (t_path t) as [[c e]|]; [by destruct (handle_path_event _ _ _ _ _)|].
  destruct (t_nat t); [by destruct (trigger_holepunching _ _ _)|].
  destruct (t_closed t) as [[c ps]|]; [done|].
  destruct (t_local t) as [[]|]; [|done|].
  { destruct (update_local_direct_address _ _) as [a' k]. by destruct (trigger_holepunching a' _ _). }
  destruct (due _ _); [by destruct (open_scheduled_paths _ _ _)|].
  destruct (due _ _); [by destruct (trigger_holepunching _ _ _)|].
  destruct (if lookup_running _ then _ else _); [done|].
  destruct (t_check t); [by destruct (check_connections _ _ _)|].
  destruct (Z.leb_spec (if is_idle (actor l) (inbox l) then idle_at l else t_now t + ACTOR_MAX_IDLE_TIMEOUT) (t_now t))
    as [Hle|]; [|done].
  destruct (is_idle (actor l) ([] ++ t_late t)) eqn:Ei2; [|done]. injection H as <- <-.
  unfold is_idle in Ei2. apply andb_prop in Ei2 as [[E1 E2]%andb_prop E3].
  rewrite Ei in Hle. unfold is_idle in Hle. rewrite E1, E3 in Hle. simpl in Hle.
  apply bool_decide_eq_true in E1, E2, E3. simpl in E2. rewrite E2. unfold drop_actor.
  by rewrite E1, map_to_list_empty.
Qed.

(** ** Hole punching *)

Definition is_round (cmd : command) : bool := if cmd is NatRound _ then true else false.
Definition rounds (cmds : list command) : list command := List.filter is_round cmds.

(** When another round may begin. *)
Definition round_allowed (last : option HolepunchAttempt) (local : gset SocketAddr) (remote : list SocketAddr) (now : Z)
    : Prop :=
  match last with
  | None => True
  | Some hp => ~ (list_to_set remote ⊆ hp_remote hp) \/ ~ (local ⊆ hp_local hp) \/
               hp_when hp + HOLEPUNCH_ATTEMPTS_INTERVAL <= now
  end.

Lemma rounds_app a b : rounds (a ++ b) = rounds a ++ rounds b.
Proof. apply List.filter_app. Qed.

Lemma rounds_none cmds : (forall cmd, cmd ∈ cmds -> is_round cmd = false) -> rounds cmds = [].
Proof.
  induction cmds as [|x cmds IH]; intros H; [done|]. simpl. rewrite (H x) by (by left).
  apply IH. intros y Hy. apply H. by right.
Qed.

Lemma rounds_open s c cs v t now : rounds (open_path_on_conn s c cs v t now).2 = [].
Proof. apply rounds_none. by intros cmd (_ & _ & q & ->)%open_path_cmds. Qed.

Lemma rounds_qnt c v local : rounds (update_qnt_candidates c v local) = [].
Proof.
  apply rounds_none. unfold update_qnt_candidates. destruct (local_nat_addresses v); [|by intros ? ?%elem_of_nil].
  by intros cmd [(? & -> & _)%list_elem_of_fmap|(? & -> & _)%list_elem_of_fmap]%elem_of_app.
Qed.

Lemma rounds_flat_map {A} (f : A -> list command) l : (forall x, rounds (f x) = []) -> rounds (flat_map f l) = [].
Proof. intros H. induction l as [|x l IH]; [done|]. simpl. by rewrite rounds_app, H, IH. Qed.

Lemma apply_path_rounds s c cs v t p : rounds (apply_to_path s c cs v t p) = [].
Proof. destruct p as [path r]. simpl. destruct (live_paths v !! path); [|done]. by destruct (_ && _ && _ && _). Qed.

Lemma apply_selected_rounds a w now :
  rounds (apply_selected_path a w now).2 = [] /\
  same_choice (state a) (state (apply_selected_path a w now).1).
Proof.
  unfold apply_selected_path. destruct (selected_path (state a)) as [sel|]; [|done].
  set (P := fun acc : State * gmap ConnId ConnectionState * list command =>
              rounds acc.2 = [] /\ same_choice (state a) acc.1.1).
  assert (HP : P (fold_left (apply_to_conn w now sel) (map_to_list (connections a)) (state a, connections a, []))).
  { apply fold_left_inv; [done|]. intros [[s conns] cmds] [c cs] _ [Hr Hs]. simpl in Hr, Hs. unfold apply_to_conn.
    destruct (w_conn w c) as [v|]; [|done].
    pose proof (rounds_open s c cs v sel now) as Ho. pose proof (open_path_same s c cs v sel now) as Hsame.
    destruct (open_path_on_conn s c cs v sel now) as [s' opened]. split; simpl.
    - simpl in Ho. rewrite !rounds_app, Hr, Ho. apply rounds_flat_map. intros p. apply apply_path_rounds.
    - by eapply same_choice_trans. }
  by destruct (fold_left _ _ _) as [[s conns] cmds].
Qed.

Lemma select_rounds a w now :
  rounds (select_path a w now).2 = [] /\ last_holepunch (state (select_path a w now).1) = last_holepunch (state a).
Proof.
  unfold select_path. destruct (apply_selected_rounds (mkActor (connections a)
    match path_selector (selected_path (state a)) (candidates a w) with
    | Some addr => if bool_decide (selected_path (state a) = Some addr) then state a else with_selected (state a) (Some addr)
    | None => state a end) w now) as [Hr [_ Hl _ _]].
  split; [done|]. rewrite Hl. simpl. destruct (path_selector _ _); [|done]. by case_bool_decide.
Qed.

Lemma lowest_client_spec a w c v :
  lowest_client a w = Some (c, v) ->
  (c ∈ dom (connections a)) /\ w_conn w c = Some v /\ is_client v = true /\
  forall c' v', c' ∈ dom (connections a) -> w_conn w c' = Some v' -> is_client v' = true -> c <= c'.
Proof.
  set (low := fun l : list (ConnId * ConnectionState) => fold_right (fun '(c, _) acc =>
    match w_conn w c with
    | Some v => if is_client v then match acc with
          | Some (c', v') => if c <? c' then Some (c, v) else Some (c', v') | None => Some (c, v) end else acc
    | None => acc end) None l).
  assert (H : forall l, match low l with
    | Some (c, v) => (c ∈ l.*1) /\ w_conn w c = Some v /\ is_client v = true /\
        forall c' v', c' ∈ l.*1 -> w_conn w c' = Some v' -> is_client v' = true -> c <= c'
    | None => forall c' v', c' ∈ l.*1 -> w_conn w c' = Some v' -> is_client v' = false end).
  { induction l as [|[d cs] l IH]; simpl; [by intros ? ? ?%elem_of_nil|].
    destruct (w_conn w d) as [u|] eqn:Eu; [destruct (is_client u) eqn:Ec|]; simpl.
    - destruct (low l) as [[e x]|].
      + destruct IH as (Hin & Hw & Hcl & Hmin). destruct (Z.ltb_spec d e).
        * split_and!; [by left|done|done|]. intros c' v' [->|Hc']%elem_of_cons Hw' Hc; [lia|].
          specialize (Hmin _ _ Hc' Hw' Hc). lia.
        * split_and!; [by right|done|done|]. intros c' v' [->|Hc']%elem_of_cons Hw' Hc; [lia|]. by eapply Hmin.
      + split_and!; [by left|done|done|]. intros c' v' [->|Hc']%elem_of_cons Hw' Hc; [lia|].
        by rewrite (IH _ _ Hc' Hw') in Hc.
    - destruct (low l) as [[e x]|].
      + destruct IH as (Hin & Hw & Hcl & Hmin). split_and!; [by right|done|done|].
        intros c' v' [->|Hc']%elem_of_cons Hw' Hc; [congruence|]. by eapply Hmin.
      + intros c' v' [->|Hc']%elem_of_cons Hw'; [congruence|]. by eapply IH.
    - destruct (low l) as [[e x]|].
      + destruct IH as (Hin & Hw & Hcl & Hmin). split_and!; [by right|done|done|].
        intros c' v' [->|Hc']%elem_of_cons Hw' Hc; [congruence|]. by eapply Hmin.
      + intros c' v' [->|Hc']%elem_of_cons Hw'; [congruence|]. by eapply IH. }
  intros Hlow. specialize (H (map_to_list (connections a))). change (lowest_client a w) with (low (map_to_list (connections a))) in Hlow.
  rewrite Hlow in H. destruct H as (Hin & Hw & Hcl & Hmin).
  assert (Hd : forall c', c' ∈ dom (connections a) <-> c' ∈ (map_to_list (connections a)).*1).
  { intros c'. rewrite elem_of_dom, list_elem_of_fmap. split.
    - intros [x Hx]. exists (c', x). by rewrite elem_of_map_to_list.
    - intros ([d x] & -> & Hx%elem_of_map_to_list). by exists x. }
  split_and!; [by apply Hd|done|done|]. intros c' v' Hc'. apply Hmin. by apply Hd.
Qed.

(** What one call of [trigger_holepunching] does. *)
Definition punched (conns : gset ConnId) (last : option HolepunchAttempt) (w : world) (now : Z)
    (cmds : list command) : Prop :=
  rounds cmds = [] \/
  exists c v remote, rounds cmds = [NatRound c] /\ w_conn w c = Some v /\ is_client v = true /\
    (forall c' v', c' ∈ conns -> w_conn w c' = Some v' -> is_client v' = true -> c <= c') /\
    remote_nat_addresses v = Some remote /\ round_allowed last (w_local w) remote now.

Lemma trigger_punched a w now :
  punched (dom (connections a)) (last_holepunch (state a)) w now (trigger_holepunching a w now).2.
Proof.
  unfold trigger_holepunching. destruct (lowest_client a w) as [[c v]|] eqn:El; [|by left].
  apply lowest_client_spec in El as (_ & Hw & Hc & Hmin).
  destruct (remote_nat_addresses v) as [remote|] eqn:Er; [|by left]. cbn [local_candidates last_holepunch with_local].
  destruct (last_holepunch (state a)) as [hp|] eqn:Eh.
  - destruct (negb _ && _) eqn:Et; [by left|]. right. exists c, v, remote.
    split_and!; [by destruct (nat_round v) as [|[]|]|done..|]. unfold round_allowed.
    apply andb_false_iff in Et as [Et%negb_false_iff|Et%Z.ltb_ge]; [|by right; right].
    apply orb_prop in Et as [Et|Et]; apply negb_true_iff, bool_decide_eq_false in Et; [by left|by right; left].
  - right. exists c, v, remote. by split_and!.
Qed.

Lemma punched_app conns last w now pre cmds post :
  rounds pre = [] -> rounds post = [] -> punched conns last w now cmds -> punched conns last w now (pre ++ cmds ++ post).
Proof. intros Hpre Hpost H. unfold punched. by rewrite !rounds_app, Hpre, Hpost, app_nil_r. Qed.

Lemma trigger_connections a w now : connections (trigger_holepunching a w now).1 = connections a.
Proof.
  unfold trigger_holepunching. destruct (lowest_client a w) as [[c v]|]; [|done].
  destruct (remote_nat_addresses v); [|done]. cbn [local_candidates]. by destruct (match last_holepunch _ with Some _ => _ | None => _ end).
Qed.

(** ** The connections *)

(** What a property of a connection needs to survive a selection. *)
Definition select_closed (Q : ConnectionState -> Prop) : Prop :=
  forall cs t, Q cs -> Q (mkConnState (cs_paths cs) (Watch.record_selected (path_state cs) t) (has_been_direct cs)).

Lemma apply_selected_conns Q a w now :
  select_closed Q -> map_Forall (fun _ => Q) (connections a) ->
  map_Forall (fun _ => Q) (connections (apply_selected_path a w now).1) /\
  dom (connections (apply_selected_path a w now).1) = dom (connections a).
Proof.
  intros HQ Ha. unfold apply_selected_path. destruct (selected_path (state a)) as [sel|]; [|done].
  set (P := fun acc : State * gmap ConnId ConnectionState * list command =>
              map_Forall (fun _ => Q) acc.1.2 /\ dom acc.1.2 = dom (connections a)).
  assert (HP : P (fold_left (apply_to_conn w now sel) (map_to_list (connections a)) (state a, connections a, []))).
  { apply fold_left_inv; [done|]. intros [[s conns] cmds] [c cs] Hin%elem_of_map_to_list [Hr Hs].
    unfold apply_to_conn. destruct (w_conn w c) as [v|]; [|done]. simpl in Hr, Hs.
    destruct (open_path_on_conn s c cs v sel now) as [s' opened]. split; simpl.
    - apply map_Forall_insert_2; [|done]. apply HQ. by apply (Ha c).
    - rewrite dom_insert_L, Hs. apply elem_of_dom_2 in Hin. set_solver. }
  by destruct (fold_left _ _ _) as [[s conns] cmds].
Qed.

Lemma select_conns Q a w now :
  select_closed Q -> map_Forall (fun _ => Q) (connections a) ->
  map_Forall (fun _ => Q) (connections (select_path a w now).1) /\
  dom (connections (select_path a w now).1) = dom (connections a).
Proof. intros HQ Ha. unfold select_path. by apply (apply_selected_conns Q (mkActor (connections a) _)). Qed.

Lemma open_all_facts a w t now :
  connections (open_path_on_all_conns a w t now).1 = connections a /\
  rounds (open_path_on_all_conns a w t now).2 = [] /\
  same_choice (state a) (state (open_path_on_all_conns a w t now).1).
Proof.
  unfold open_path_on_all_conns. set (f := fun '(s, cmds) '(c, cs) => _).
  assert (H : rounds (fold_left f (map_to_list (connections a)) (state a, [])).2 = [] /\
              same_choice (state a) (fold_left f (map_to_list (connections a)) (state a, [])).1).
  { apply (fold_left_inv (fun x : State * list command => rounds x.2 = [] /\ same_choice (state a) x.1)); [done|].
    intros [s cmds] [c cs] _ [Hr Hs]. unfold f. destruct (w_conn w c) as [v|]; [|done].
    pose proof (rounds_open s c cs v t now) as Ho. pose proof (open_path_same s c cs v t now) as Hsame.
    destruct (open_path_on_conn s c cs v t now) as [s' opened]. simpl in *. rewrite rounds_app, Hr, Ho.
    split; [done|]. by eapply same_choice_trans. }
  destruct (fold_left f _ _) as [s cmds]. by split_and!; [|apply H..].
Qed.

Lemma open_scheduled_facts a w now :
  connections (open_scheduled_paths a w now).1 = connections a /\ rounds (open_scheduled_paths a w now).2 = [].
Proof.
  unfold open_scheduled_paths.
  apply (fold_left_inv (fun x : RemoteStateActor * list command => connections x.1 = connections a /\ rounds x.2 = []));
    [done|]. intros [b cmds] t _ [Hc Hr]. destruct (open_all_facts b w t now) as (Hc' & Hr' & _).
  destruct (open_path_on_all_conns b w t now) as [b' cmds']. simpl in *. by rewrite rounds_app, Hr, Hr', Hc', Hc.
Qed.

(** *** The paths of a connection and its watcher *)

Definition data_of (path : PathId) (t : FourTuple) : Watch.PathData :=
  Watch.mkPathData path (Addr_to_transport (remote t)) (local t).

Record conn_ok (cs : ConnectionState) : Prop := mkConnOk {
  ok_nodup : Watch.ids_nodup (Watch.path_list (path_state cs));
  ok_paths : forall p, p ∈ Watch.path_list (path_state cs) <->
               exists t, cs_paths cs !! Watch.handle p = Some t /\ p = data_of (Watch.handle p) t;
  ok_open : Watch.closed (path_state cs) = false
}.

Lemma conn_ok_selected : select_closed conn_ok.
Proof.
  intros cs t [Hn Hp Ho]. destruct (Watch.record_selected_list (path_state cs) t) as [El Ec].
  split; simpl; rewrite ?El, ?Ec; done.
Qed.

Lemma conn_ok_new : conn_ok (mkConnState ∅ Watch.PathStateSender_new false).
Proof.
  split; [apply NoDup_nil_2| |done]. intros p. simpl. rewrite elem_of_nil. setoid_rewrite lookup_empty. naive_solver.
Qed.

Lemma conn_ok_opened cs v t path :
  conn_ok cs -> is_Some (live_paths v !! path) -> conn_ok (add_open_path cs v t path).
Proof.
  intros [Hn Hp Ho] [x Hx]. unfold add_open_path. rewrite Hx. split; simpl; [|intros p|done].
  - by apply (Watch.apply_op_nodup (path_state cs) (Watch.OpOpened path t)).
  - rewrite Watch.elem_of_put, Hp by done. simpl. split.
    + intros [->|[(t' & Ht & ->) Hne]]; simpl in *; [exists t; by rewrite lookup_insert_eq|].
      exists t'. by rewrite lookup_insert_ne.
    + intros (t' & Ht & Heq). destruct (decide (Watch.handle p = path)) as [Hh|Hne].
      * left. rewrite Hh, lookup_insert_eq in Ht. injection Ht as <-. by rewrite Heq, Hh.
      * right. rewrite lookup_insert_ne in Ht by done. split; [by exists t'|done].
Qed.

Lemma conn_ok_removed cs v path t cs' : conn_ok cs -> remove_path cs v path = Some (t, cs') -> conn_ok cs'.
Proof.
  intros [Hn Hp Ho]. unfold remove_path. destruct (cs_paths cs !! path) as [t'|] eqn:Et; [|done]. simpl.
  intros [= <- <-]. split; simpl.
  - by apply (Watch.apply_op_nodup (path_state cs) (Watch.OpAbandoned path (stats_of v path))).
  - assert (Hin : data_of path t' ∈ Watch.path_list (path_state cs)) by (apply Hp; by exists t').
    intros p. unfold Watch.record_abandoned.
    destruct (Watch.take_path path (Watch.path_list (path_state cs))) as [[x l]|] eqn:Ex; simpl.
    + rewrite (Watch.elem_of_take_path _ _ _ _ p Hn Ex), Hp. split.
      * intros [(t'' & Ht & Heq) Hne]. exists t''. by rewrite lookup_delete_ne.
      * intros (t'' & [Hne Ht]%lookup_delete_Some & Heq). split; [by exists t''|done].
    + destruct (Watch.take_path_none _ _ Ex). by apply (list_elem_of_fmap_2 Watch.handle _ (data_of path t')).
  - unfold Watch.record_abandoned. by destruct (Watch.take_path _ _) as [[]|].
Qed.

Lemma register_ok s c cs v path now :
  conn_ok cs -> is_Some (live_paths v !! path) -> conn_ok (register_and_configure_path s c cs v path now).1.1.2.
Proof.
  intros Hok Hl. unfold register_and_configure_path. destruct (transport_tuple_for_path s v path) as [t|]; [|done].
  by apply conn_ok_opened.
Qed.

Lemma register_facts s c cs v path now :
  last_holepunch (register_and_configure_path s c cs v path now).1.1.1 = last_holepunch s /\
  rounds (register_and_configure_path s c cs v path now).1.2 = [].
Proof.
  unfold register_and_configure_path. destruct (transport_tuple_for_path s v path) as [t|]; [|done]. simpl.
  split; [done|]. by destruct (FourTuple_is_relay t).
Qed.

(** *** What a turn does to the actor *)

Inductive turn_effect (a : RemoteStateActor) (w : world) (now : Z)
    : list RemoteStateMessage -> RemoteStateActor * list command -> Prop :=
| EffMessage msg : turn_effect a w now [msg] (handle_message a w msg now)
| EffPath c event : turn_effect a w now [] (handle_path_event a w c event now)
| EffTrigger : turn_effect a w now [] (trigger_holepunching a w now)
| EffClosed c path_stats : turn_effect a w now [] (handle_connection_close a c path_stats)
| EffLocal cmds r : cmds = (update_local_direct_address a w).2 ->
    r = trigger_holepunching (update_local_direct_address a w).1 w now ->
    turn_effect a w now [] (r.1, cmds ++ r.2)
| EffOpen : turn_effect a w now [] (open_scheduled_paths a w now)
| EffScheduled : turn_effect a w now []
    (trigger_holepunching (mkActor (connections a) (with_holepunch (state a) (last_holepunch (state a)) None)) w now)
| EffLookup item : turn_effect a w now [] (mkActor (connections a) (handle_address_lookup_item (state a) item now), [])
| EffCheck : turn_effect a w now [] (check_connections a w now)
| EffNothing : turn_effect a w now [] (a, []).

Lemma loop_turn_effect l t l' handled cmds :
  loop_turn l t = Goes l' handled cmds ->
  turn_effect (actor l) (t_world t) (t_now t) handled (actor l', cmds).
Proof.
  unfold loop_turn. destruct (t_cancelled t); [done|]. destruct (inbox l ++ t_arrived t) as [|msg queue].
  2: { pose proof (EffMessage (actor l) (t_world t) (t_now t) msg) as H.
       destruct (handle_message _ _ _ _). intros [= <- <- <-]. exact H. }
  destruct (t_senders_gone t); [done|].
  destruct (t_path t) as [[c e]|].
  { pose proof (EffPath (actor l) (t_world t) (t_now t) c e) as H.
    destruct (handle_path_event _ _ _ _ _). intros [= <- <- <-]. exact H. }
  destruct (t_nat t).
  { pose proof (EffTrigger (actor l) (t_world t) (t_now t)) as H.
    destruct (trigger_holepunching _ _ _). intros [= <- <- <-]. exact H. }
  destruct (t_closed t) as [[c ps]|].
  { pose proof (EffClosed (actor l) (t_world t) (t_now t) c ps) as H.
    destruct (handle_connection_close _ _ _). intros [= <- <- <-]. exact H. }
  destruct (t_local t) as [[]|]; [|done|].
  { pose proof (EffLocal (actor l) (t_world t) (t_now t) _ _ eq_refl eq_refl) as H.
    destruct (update_local_direct_address _ _) as [a' k]. cbn [fst snd] in H.
    destruct (trigger_holepunching a' _ _). intros [= <- <- <-]. exact H. }
  destruct (due _ _).
  { pose proof (EffOpen (actor l) (t_world t) (t_now t)) as H.
    destruct (open_scheduled_paths _ _ _). intros [= <- <- <-]. exact H. }
  destruct (due _ _).
  { pose proof (EffScheduled (actor l) (t_world t) (t_now t)) as H.
    destruct (trigger_holepunching _ _ _). intros [= <- <- <-]. exact H. }
  destruct (if lookup_running _ then _ else _) as [item|]; [intros [= <- <- <-]; apply EffLookup|].
  destruct (t_check t).
  { pose proof (EffCheck (actor l) (t_world t) (t_now t)) as H.
    destruct (check_connections _ _ _). intros [= <- <- <-]. exact H. }
  destruct (_ <=? _); [destruct (is_idle _ _); [done|]|]; intros [= <- <- <-]; apply EffNothing.
Qed.

(** What [AddConnection] holds while it is handled. *)
Definition turn_world (w : world) (handled : list RemoteStateMessage) : world :=
  if handled is [MsgAddConnection c v] then holding w c v else w.

Lemma open_relays_facts s c cs v now ts :
  let r := fold_left (fun '(s, cmds) t =>
      let '(s, cmds') := open_path_on_conn s c cs v t now in (s, cmds ++ cmds')) ts (s, [] : list command) in
  same_choice s r.1 /\ rounds r.2 = [].
Proof.
  apply (fold_left_inv (fun r : State * list command => same_choice s r.1 /\ rounds r.2 = [])); [done|].
  intros [s' cmds] t _ [Hs Hr]. pose proof (rounds_open s' c cs v t now) as Ho.
  pose proof (open_path_same s' c cs v t now) as Hsame. destruct (open_path_on_conn s' c cs v t now). simpl in *.
  rewrite rounds_app, Hr, Ho. split; [by eapply same_choice_trans|done].
Qed.

Lemma add_connection_facts a w c v now :
  map_Forall (fun _ => conn_ok) (connections a) ->
  let r := handle_msg_add_connection a w c v now in
  map_Forall (fun _ => conn_ok) (connections r.1) /\ dom (connections r.1) = {[c]} ∪ dom (connections a) /\
  punched (dom (connections r.1)) (last_holepunch (state a)) (holding w c v) now r.2.
Proof.
  intros Ha. unfold handle_msg_add_connection. cbn [local_candidates].
  set (s0 := with_local (state a) _). set (cs0 := mkConnState ∅ _ _).
  set (reg := match live_paths v !! 0 with Some _ => _ | None => _ end).
  assert (Hreg : conn_ok reg.1.1.2 /\ last_holepunch reg.1.1.1 = last_holepunch (state a) /\ rounds reg.1.2 = []).
  { unfold reg. destruct (live_paths v !! 0) eqn:El; [|split_and!; [apply conn_ok_new|done..]].
    split; [apply register_ok; [apply conn_ok_new|by rewrite El]|]. apply (register_facts s0). }
  destruct reg as [[[s cs] cmds] first]. cbn [fst snd] in Hreg. destruct Hreg as (Hok & Hl & Hr).
  set (relays := match first with Some _ => _ | None => _ end).
  pose proof (open_relays_facts s c cs v now relays) as [[_ Hl' _ _] Hr'].
  destruct (fold_left _ relays (s, [])) as [s' opened]. cbn [fst snd] in Hl', Hr'.
  set (a1 := mkActor (<[c := cs]> (connections a)) s').
  pose proof (trigger_punched a1 (holding w c v) now) as Hp. pose proof (trigger_connections a1 (holding w c v) now) as Hc.
  destruct (trigger_holepunching a1 (holding w c v) now) as [a2 hp]. subst a1. cbn [fst snd connections state] in Hp, Hc.
  assert (Ha2 : map_Forall (fun _ => conn_ok) (connections a2)) by (rewrite Hc; by apply map_Forall_insert_2).
  destruct (select_conns conn_ok a2 (holding w c v) now conn_ok_selected Ha2) as [Hok3 Hd3].
  destruct (select_rounds a2 (holding w c v) now) as [Hr3 _].
  destruct (select_path a2 (holding w c v) now) as [a3 sel]. cbn [fst snd] in *.
  split; [done|]. rewrite Hd3, Hc. split; [by rewrite dom_insert_L|].
  replace (_ ++ _ ++ _ ++ _ ++ _ ++ _ ++ [ReplyReceiver c]) with
    ((((if connections a !! c is Some old then [WatcherEnds c (Watch.drop_sender (path_state old))] else []) ++
       update_qnt_candidates c v (w_local (holding w c v))) ++ cmds ++ opened) ++ hp ++ (sel ++ [ReplyReceiver c]))
    by (by rewrite <- !app_assoc).
  apply punched_app.
  - rewrite !rounds_app, Hr, Hr', rounds_qnt. by destruct (connections a !! c).
  - by rewrite rounds_app, Hr3.
  - by rewrite <- Hl, <- Hl'.
Qed.

Lemma path_event_facts a w c event now :
  map_Forall (fun _ => conn_ok) (connections a) ->
  map_Forall (fun _ => conn_ok) (connections (handle_path_event a w c event now).1) /\
  rounds (handle_path_event a w c event now).2 = [].
Proof.
  intros Ha. unfold handle_path_event. destruct event as [event|]; [|done].
  destruct (connections a !! c) as [cs|] eqn:Ec; [|done]. destruct (w_conn w c) as [v|]; [|done].
  pose proof (Ha c cs Ec) as Hcs. cbn beta in Hcs. destruct event as [path|path|]; [| |done].
  - destruct (live_paths v !! path) as [x|] eqn:El; [|done].
    assert (Hl : is_Some (live_paths v !! path)) by (by rewrite El).
    pose proof (register_ok (state a) c cs v path now Hcs Hl) as Hok.
    pose proof (register_facts (state a) c cs v path now) as [_ Hr].
    destruct (register_and_configure_path _ _ _ _ _ _) as [[[s cs'] cmds] first]. cbn [fst snd] in Hok, Hr.
    destruct (select_conns conn_ok (mkActor (<[c := cs']> (connections a)) s) w now conn_ok_selected
                (map_Forall_insert_2 _ _ _ _ Hok Ha)) as [Hok' _].
    destruct (select_rounds (mkActor (<[c := cs']> (connections a)) s) w now) as [Hr' _].
    destruct (select_path _ w now) as [a' cmds']. cbn [fst snd] in *. by rewrite rounds_app, Hr, Hr'.
  - destruct (remove_path cs v path) as [[t cs']|] eqn:Er; [|done].
    pose proof (conn_ok_removed _ _ _ _ _ Hcs Er) as Hok. split.
    + by apply (select_conns conn_ok (mkActor _ _) w now conn_ok_selected), map_Forall_insert_2.
    + apply select_rounds.
Qed.

Lemma network_change_rounds a w is_major now :
  connections (handle_msg_network_change a w is_major now).1 = connections a /\
  punched (dom (connections a)) (last_holepunch (state a)) w now (handle_msg_network_change a w is_major now).2.
Proof.
  unfold handle_msg_network_change. set (pings := flat_map _ _).
  assert (Hp : rounds pings = []).
  { apply rounds_flat_map. intros [c cs]. destruct (w_conn w c) as [v|]; [|done].
    apply rounds_flat_map. intros [path t]. by destruct (live_paths v !! path). }
  destruct is_major; [|by split; [|left]]. pose proof (trigger_punched a w now) as Ht.
  pose proof (trigger_connections a w now) as Hc.
  destruct (trigger_holepunching a w now) as [a' cmds]. split; [done|]. simpl in *.
  rewrite <- (app_nil_r cmds). by apply punched_app.
Qed.

Lemma turn_effect_facts a w now handled r :
  turn_effect a w now handled r -> map_Forall (fun _ => conn_ok) (connections a) ->
  map_Forall (fun _ => conn_ok) (connections r.1) /\
  punched (dom (connections r.1)) (last_holepunch (state a)) (turn_world w handled) now r.2.
Proof.
  intros H Ha. destruct H as [msg|c event| |c ps|cmds r -> ->| | |item| |].
  - destruct msg as [|c v|addrs tx|tx|major]; simpl.
    + split; [done|]. left. unfold handle_msg_send_datagram.
      destruct (selected_path (state a)); [done|]. apply rounds_flat_map.
      intros [sa| |]; [by case_bool_decide|done..].
    + by destruct (add_connection_facts a w c v now Ha) as (H1 & _ & H2).
    + unfold handle_msg_resolve_remote, trigger_address_lookup. by destruct (_ || _); split; [|left| |left].
    + by split; [|left].
    + destruct (network_change_rounds a w major now) as [-> H2]. by split.
  - destruct (path_event_facts a w c event now Ha) as [H1 H2]. by split; [|left].
  - rewrite trigger_connections. split; [done|]. apply trigger_punched.
  - simpl. split; [by apply map_Forall_delete|]. left. by destruct (connections a !! c).
  - cbn [fst snd]. rewrite trigger_connections. split; [done|].
    rewrite <- (app_nil_r (trigger_holepunching _ _ _).2). apply punched_app; [|done|].
    + simpl. apply rounds_flat_map. intros [c cs]. destruct (w_conn w c); [apply rounds_qnt|done].
    + apply (trigger_punched (update_local_direct_address a w).1).
  - destruct (open_scheduled_facts a w now) as [-> H2]. by split; [|left].
  - rewrite trigger_connections. split; [done|].
    apply (trigger_punched (mkActor (connections a) (with_holepunch (state a) (last_holepunch (state a)) None))).
  - by split; [|left].
  - unfold check_connections. destruct (forallb _ _); [by split; [|left]|].
    rewrite trigger_connections. split; [done|]. apply trigger_punched.
  - by split; [|left].
Qed.

(** ** Theorems *)

Definition loop_ok (l : Loop) : Prop := map_Forall (fun _ => conn_ok) (connections (actor l)).

(** C16: In a turn the actor begins at most one round of hole punching, on the lowest of
    the live client connections, and only when there was none before, when one of the
    candidates is new, or when the last one is five seconds old. *)
Theorem holepunch_rate_limited l t l' handled cmds :
  loop_ok l -> loop_turn l t = Goes l' handled cmds ->
  punched (dom (connections (actor l'))) (last_holepunch (state (actor l))) (turn_world (t_world t) handled)
    (t_now t) cmds.
Proof. intros Ha H%loop_turn_effect. by apply (turn_effect_facts _ _ _ _ _ H). Qed.

Lemma run_loop_ok l turns handled cmds l' :
  loop_ok l -> run_loop l turns = (handled, cmds, inl l') -> loop_ok l'.
Proof.
  revert l handled cmds. induction turns as [|t turns IH]; intros l handled cmds Hl; simpl; [by intros [= <- <- <-]|].
  destruct (loop_turn l t) as [l1 h1 c1|] eqn:Et; [|done].
  apply loop_turn_effect in Et. destruct (turn_effect_facts _ _ _ _ _ Et Hl) as [Hl1 _].
  destruct (run_loop l1 turns) as [[h2 c2] last] eqn:Er. intros [= <- <- ->]. by eapply (IH l1).
Qed.

Lemma handle_initial_ok a w msgs now :
  map_Forall (fun _ => conn_ok) (connections a) ->
  map_Forall (fun _ => conn_ok) (connections (handle_initial a w msgs now).1).
Proof.
  intros Ha. unfold handle_initial.
  apply (fold_left_inv (fun r : RemoteStateActor * list command => map_Forall (fun _ => conn_ok) (connections r.1))); [done|].
  intros [b cmds] msg _ Hb. destruct (turn_effect_facts _ _ _ _ _ (EffMessage b w now msg) Hb) as [H _].
  by destruct (handle_message b w msg now).
Qed.

(** C17: From the start of the actor on, after any messages and events, what the watcher
    of a connection shows to the application is exactly the paths the actor has for
    the connection, each once, and the watcher is not closed. *)
Theorem watchers_show_paths id local maps w msgs now idle turns :
  match run_loop (mkLoop (handle_initial (actor_new id local maps) w msgs now).1 [] idle) turns with
  | (_, _, inl l') => forall c cs, connections (actor l') !! c = Some cs ->
      NoDup (map Watch.handle (Watch.path_list (path_state cs))) /\ Watch.closed (path_state cs) = false /\
      forall p, p ∈ Watch.path_list (path_state cs) <->
        exists t, cs_paths cs !! Watch.handle p = Some t /\ p = data_of (Watch.handle p) t
  | (_, _, inr _) => True
  end.
Proof.
  destruct (run_loop _ turns) as [[h cmds] [l'|]] eqn:Er; [|done]. intros c cs Hc.
  apply run_loop_ok in Er; [|by apply handle_initial_ok, map_Forall_empty]. by destruct (Er c cs Hc).
Qed.

(** A trigger that finds a client connection with its candidates begins a round, or
    one is scheduled for the end of the interval. *)
Theorem holepunch_progress a w now c v remote :
  lowest_client a w = Some (c, v) -> remote_nat_addresses v = Some remote ->
  let r := trigger_holepunching a w now in
  rounds r.2 = [NatRound c] \/
  exists hp, last_holepunch (state a) = Some hp /\ ~ round_allowed (Some hp) (w_local w) remote now /\
    scheduled_holepunch (state r.1) = Some (hp_when hp + HOLEPUNCH_ATTEMPTS_INTERVAL).
Proof.
  intros Hl Hr. unfold trigger_holepunching. rewrite Hl, Hr. cbn [local_candidates last_holepunch with_local].
  destruct (last_holepunch (state a)) as [hp|] eqn:Eh; [|by left]. destruct (negb _ && _) eqn:Et; [|by left].
  right. exists hp. split; [done|]. split; [|done]. unfold round_allowed.
  apply andb_prop in Et as [Et%negb_true_iff Hlt%Z.ltb_lt]. apply orb_false_iff in Et as [E1%negb_false_iff E2%negb_false_iff].
  apply bool_decide_eq_true in E1, E2. intros [H|[H|H]]; [done|done|lia].
Qed.

(** *** The selected path *)

(** What a command of [apply_selected_path] may be; [q] is the address of the selected
    path for the QUIC stack. *)
Definition selection_command (a : RemoteStateActor) (w : world) (sel : FourTuple) (q : SocketAddr * option IpAddr)
    (cmd : command) : Prop :=
  match cmd with
  | ClosePath c path => exists cs v t, connections a !! c = Some cs /\ w_conn w c = Some v /\ is_client v = true /\
      cs_paths cs !! path = Some t /\ FourTuple_is_ip t = true /\ t <> sel /\ (1 < ip_paths cs)%nat
  | SetStatus c path st => exists cs t, connections a !! c = Some cs /\ cs_paths cs !! path = Some t /\
      (st = Available <-> t = sel)
  | OpenPath c addr st => exists cs v, connections a !! c = Some cs /\ w_conn w c = Some v /\ is_client v = true /\
      (sel ∉ (map_to_list (cs_paths cs)).*2) /\ addr = q /\ st = Available
  | _ => False
  end.

(** A live client connection that lacks the selected path gets it, or the path waits
    to be opened again when the QUIC stack has run out of ids for it. *)
Definition path_opened (w : world) (sel : FourTuple) (q : SocketAddr * option IpAddr) (c : ConnId) (cs : ConnectionState)
    (s : State) (cmds : list command) : Prop :=
  forall v, w_conn w c = Some v -> is_client v = true -> sel ∉ (map_to_list (cs_paths cs)).*2 ->
    match open_path_ensure v q with
    | Opening => OpenPath c q Available ∈ cmds
    | Refused OtherPathError => True
    | Refused _ => sel ∈ pending_open_paths s /\ is_Some (scheduled_open_path s)
    end.

Lemma status_available s t sel : selected_path s = Some sel -> path_status_for_addr s t = Available <-> t = sel.
Proof. intros Hs. unfold path_status_for_addr. rewrite Hs. case_bool_decide; naive_solver. Qed.

Lemma apply_to_path_command a w c cs v s sel q path t cmd :
  connections a !! c = Some cs -> w_conn w c = Some v -> selected_path s = Some sel ->
  cs_paths cs !! path = Some t -> cmd ∈ apply_to_path s c cs v sel (path, t) -> selection_command a w sel q cmd.
Proof.
  intros Hc Hw Hs Ht. unfold apply_to_path. destruct (live_paths v !! path); [|by intros ?%elem_of_nil].
  destruct (_ && _ && _ && _) eqn:Eb; intros ->%list_elem_of_singleton; simpl.
  - apply andb_prop in Eb as [[[E1 E2]%andb_prop E3%negb_true_iff]%andb_prop E4%Nat.ltb_lt].
    apply bool_decide_eq_false in E3. exists cs, v, t. by split_and!.
  - exists cs, t. split_and!; [done..|]. by apply status_available.
Qed.

(** The command a live path of a live connection gets. *)
Definition path_treated (w : world) (sel : FourTuple) (c : ConnId) (cs : ConnectionState) (cmds : list command) : Prop :=
  forall v path t, w_conn w c = Some v -> cs_paths cs !! path = Some t -> is_Some (live_paths v !! path) ->
    (t = sel -> SetStatus c path Available ∈ cmds) /\
    (t <> sel -> if is_client v && FourTuple_is_ip t && (1 <? ip_paths cs)%nat
                 then ClosePath c path ∈ cmds else SetStatus c path BackupStatus ∈ cmds).

Lemma apply_to_path_treated s c cs v sel path t :
  selected_path s = Some sel -> is_Some (live_paths v !! path) ->
  (t = sel -> SetStatus c path Available ∈ apply_to_path s c cs v sel (path, t)) /\
  (t <> sel -> if is_client v && FourTuple_is_ip t && (1 <? ip_paths cs)%nat
     then ClosePath c path ∈ apply_to_path s c cs v sel (path, t)
     else SetStatus c path BackupStatus ∈ apply_to_path s c cs v sel (path, t)).
Proof.
  intros Hs [x Hx]. unfold apply_to_path, set_path_status, path_status_for_addr. rewrite Hx, Hs.
  split; intros Ht.
  - rewrite (bool_decide_eq_true_2 (t = sel)), (bool_decide_eq_true_2 (Some t = Some sel)) by congruence.
    rewrite andb_false_r. simpl. by apply list_elem_of_singleton.
  - rewrite (bool_decide_eq_false_2 (t = sel)), (bool_decide_eq_false_2 (Some t = Some sel)) by congruence.
    simpl. rewrite andb_true_r. destruct (_ && _ && _); by apply list_elem_of_singleton.
Qed.

(** Opening a path on one connection. *)
Record opened_on (s : State) (c : ConnId) (cs : ConnectionState) (v : conn_view) (t : FourTuple) (r : State * list command)
    : Prop := mkOpenedOn {
  oo_addr : (to_noq_four_tuple t (mapped r.1)).1 = (to_noq_four_tuple t (mapped s)).1;
  oo_pending : forall x, x ∈ pending_open_paths s -> x ∈ pending_open_paths r.1;
  oo_scheduled : is_Some (scheduled_open_path s) -> is_Some (scheduled_open_path r.1);
  oo_cmds cmd : cmd ∈ r.2 ->
    is_client v = true /\ (t ∉ (map_to_list (cs_paths cs)).*2) /\
    cmd = OpenPath c (to_noq_four_tuple t (mapped s)).1 (path_status_for_addr s t);
  oo_opens : is_client v = true -> t ∉ (map_to_list (cs_paths cs)).*2 ->
    match open_path_ensure v (to_noq_four_tuple t (mapped s)).1 with
    | Opening => OpenPath c (to_noq_four_tuple t (mapped s)).1 (path_status_for_addr s t) ∈ r.2
    | Refused OtherPathError => True
    | Refused _ => t ∈ pending_open_paths r.1 /\ is_Some (scheduled_open_path r.1)
    end
}.

Lemma open_path_opened s c cs v t now : opened_on s c cs v t (open_path_on_conn s c cs v t now).
Proof.
  unfold open_path_on_conn. pose proof (to_noq_again t (mapped s)) as Hq.
  assert (Hnil : forall P : command -> Prop, forall cmd, cmd ∈ [] -> P cmd) by (by intros P cmd ?%elem_of_nil).
  destruct (is_client v) eqn:Ec; simpl; [|split; simpl; try done; [apply Hnil|congruence]].
  case_bool_decide as Hin; [split; simpl; try done; apply Hnil|].
  destruct (to_noq_four_tuple t (mapped s)) as [q m] eqn:Em. simpl in Hq.
  assert (Hpend : forall x, x ∈ pending_open_paths s -> x ∈ pending_open_paths s ++ [t])
    by (intros x Hx; apply elem_of_app; by left).
  assert (Hlast : t ∈ pending_open_paths s ++ [t]) by (apply elem_of_app; right; by apply list_elem_of_singleton).
  destruct (open_path_ensure v q) as [|[]] eqn:Eo; split; simpl; rewrite ?Em; simpl; rewrite ?Hq, ?Eo; try done;
    try (apply Hnil); eauto.
  - by intros cmd ->%list_elem_of_singleton.
  - intros _ _. by apply list_elem_of_singleton.
Qed.

(** What the selection has done for the connections treated so far. *)
Record applied (a : RemoteStateActor) (w : world) (sel : FourTuple) (dn : list (ConnId * ConnectionState))
    (acc : State * gmap ConnId ConnectionState * list command) : Prop := mkApplied {
  ap_selected : selected_path acc.1.1 = Some sel;
  ap_addr : (to_noq_four_tuple sel (mapped acc.1.1)).1 = (to_noq_four_tuple sel (mapped (state a))).1;
  ap_sound cmd : cmd ∈ acc.2 -> selection_command a w sel (to_noq_four_tuple sel (mapped (state a))).1 cmd;
  ap_treated c cs : (c, cs) ∈ dn -> path_treated w sel c cs acc.2;
  ap_opened c cs : (c, cs) ∈ dn ->
    path_opened w sel (to_noq_four_tuple sel (mapped (state a))).1 c cs acc.1.1 acc.2
}.

Lemma path_treated_more w sel c cs cmds more : path_treated w sel c cs cmds -> path_treated w sel c cs (cmds ++ more).
Proof.
  intros Ht v path t Hv Hp Hl. destruct (Ht v path t Hv Hp Hl) as [T1 T2]. split.
  - intros ->. apply elem_of_app. left. by apply T1.
  - intros Hne. specialize (T2 Hne). by destruct (_ && _ && _); apply elem_of_app; left.
Qed.

Lemma path_opened_more w sel q c cs s s' cmds more :
  path_opened w sel q c cs s cmds -> (forall x, x ∈ pending_open_paths s -> x ∈ pending_open_paths s') ->
  (is_Some (scheduled_open_path s) -> is_Some (scheduled_open_path s')) -> path_opened w sel q c cs s' (cmds ++ more).
Proof.
  intros Ho Hp Hs v Hv Hc Hn. specialize (Ho v Hv Hc Hn). destruct (open_path_ensure v q) as [|[]]; [|naive_solver..].
  apply elem_of_app. by left.
Qed.

Lemma apply_to_conn_applied a w now sel dn acc c cs :
  connections a !! c = Some cs -> applied a w sel dn acc ->
  applied a w sel (dn ++ [(c, cs)]) (apply_to_conn w now sel acc (c, cs)).
Proof.
  intros Hc [Hs Haddr Hsnd Htr Hop]. destruct acc as [[s conns] cmds]. cbn [fst snd] in *.
  unfold apply_to_conn. destruct (w_conn w c) as [v|] eqn:Ew.
  2: { split; cbn [fst snd]; try done; intros d ds [Hd|[= -> ->]%list_elem_of_singleton]%elem_of_app;
         [by apply Htr|intros v path t Hv; congruence|by apply Hop|intros v Hv; congruence]. }
  pose proof (open_path_same s c cs v sel now) as [Hss _ _ _].
  destruct (open_path_opened s c cs v sel now) as [Oa Op Os Oc Oo].
  destruct (open_path_on_conn s c cs v sel now) as [s' opened]. cbn [fst snd] in *. rewrite Hs in Hss. rewrite Haddr in *.
  assert (Hav : path_status_for_addr s sel = Available) by (by apply (status_available s sel sel Hs)).
  rewrite Hav in *. split; cbn [fst snd]; [done|done| | |].
  - intros cmd. rewrite !elem_of_app. intros [Hcmd|[Hcmd|Hcmd]]; [by apply Hsnd| |].
    + apply Oc in Hcmd as (Hcl & Hno & ->). by exists cs, v.
    + apply list_elem_of_In, in_flat_map in Hcmd as ([path t] & Hpt & Hcmd).
      apply list_elem_of_In in Hpt, Hcmd. apply elem_of_map_to_list in Hpt.
      by apply (apply_to_path_command a w c cs v s' sel _ path t).
  - intros d ds [Hd|[= -> ->]%list_elem_of_singleton]%elem_of_app; [by apply path_treated_more, Htr|].
    intros v' path t Hv Ht Hl. assert (v' = v) as -> by congruence.
    destruct (apply_to_path_treated s' c cs v sel path t Hss Hl) as [T1 T2].
    assert (Hsub : forall cmd, cmd ∈ apply_to_path s' c cs v sel (path, t) ->
              cmd ∈ cmds ++ opened ++ flat_map (apply_to_path s' c cs v sel) (map_to_list (cs_paths cs))).
    { intros cmd Hcmd. rewrite !elem_of_app. right. right. apply list_elem_of_In, in_flat_map. exists (path, t).
      split; [apply list_elem_of_In; by apply elem_of_map_to_list|by apply list_elem_of_In]. }
    split; [by intros; apply Hsub, T1|]. intros Hne. specialize (T2 Hne). by destruct (_ && _ && _); apply Hsub.
  - intros d ds [Hd|[= -> ->]%list_elem_of_singleton]%elem_of_app; [by apply (path_opened_more _ _ _ _ _ s); auto|].
    intros v' Hv Hcl Hno. assert (v' = v) as -> by congruence. specialize (Oo Hcl Hno).
    destruct (open_path_ensure v _) as [|[]]; [|done..]. rewrite !elem_of_app. auto.
Qed.

Lemma apply_selected_applied a w now sel :
  selected_path (state a) = Some sel ->
  applied a w sel (map_to_list (connections a))
    (fold_left (apply_to_conn w now sel) (map_to_list (connections a)) (state a, connections a, [])).
Proof.
  intros Hsel.
  assert (H0 : applied a w sel [] (state a, connections a, [])).
  { split; simpl; try done; [by intros ? ?%elem_of_nil|by intros ? ? ?%elem_of_nil..]. }
  assert (H : forall todo dn acc, applied a w sel dn acc -> (forall x, x ∈ todo -> connections a !! x.1 = Some x.2) ->
            applied a w sel (dn ++ todo) (fold_left (apply_to_conn w now sel) todo acc)).
  { induction todo as [|[c cs] todo IH]; intros dn acc HP Hin; [by rewrite app_nil_r|]. simpl.
    replace (dn ++ (c, cs) :: todo) with ((dn ++ [(c, cs)]) ++ todo) by (by rewrite <- app_assoc).
    apply IH; [|intros x Hx; apply Hin; by right]. apply apply_to_conn_applied; [apply (Hin (c, cs)); by left|done]. }
  apply (H _ [] _ H0). intros [c cs] Hx. by apply elem_of_map_to_list.
Qed.


(** A client connection that has two IP paths and not the selected one as an IP path
    is left without an IP path: all of them are closed. *)
Theorem all_ip_paths_closed a w now sel c cs v :
  selected_path (state a) = Some sel -> connections a !! c = Some cs -> w_conn w c = Some v -> is_client v = true ->
  (1 < ip_paths cs)%nat -> (FourTuple_is_ip sel = false \/ sel ∉ (map_to_list (cs_paths cs)).*2) ->
  forall path t, cs_paths cs !! path = Some t -> FourTuple_is_ip t = true -> is_Some (live_paths v !! path) ->
    ClosePath c path ∈ (apply_selected_path a w now).2.
Proof.
  intros Hsel Hc Hw Hcl Hip Hno path t Ht Hti Hl.
  assert (Hne : t <> sel).
  { intros ->. destruct Hno as [Hno|Hno]; [congruence|]. apply Hno. apply list_elem_of_fmap. exists (path, sel).
    split; [done|]. by apply elem_of_map_to_list. }
  pose proof (ap_treated _ _ _ _ _ (apply_selected_applied a w now sel Hsel) c cs) as H.
  unfold apply_selected_path. rewrite Hsel. destruct (fold_left _ _ _) as [[s conns] cmds].
  destruct (H (proj2 (elem_of_map_to_list _ _ _) Hc) v path t Hw Ht Hl) as [_ H2]. specialize (H2 Hne).
  by rewrite Hcl, Hti, (proj2 (Nat.ltb_lt _ _) Hip) in H2.
Qed.

(** *** Paths that wait to be opened *)

(** The live client connections. *)
Definition live_clients (conns : gmap ConnId ConnectionState) (w : world) : list (ConnId * ConnectionState) :=
  List.filter (fun '(c, _) => match w_conn w c with Some v => is_client v | None => false end) (map_to_list conns).

(** None of them can open any of the paths: the remote has issued no ids for it. *)
Definition all_refuse (conns : gmap ConnId ConnectionState) (w : world) (ts : list FourTuple) : Prop :=
  forall c cs v, conns !! c = Some cs -> w_conn w c = Some v -> is_client v = true ->
    (forall q, open_path_ensure v q = Refused RemoteCidsExhausted) /\
    (forall t, t ∈ ts -> t ∉ (map_to_list (cs_paths cs)).*2).

Lemma open_all_refused a w t now ts :
  all_refuse (connections a) w ts -> t ∈ ts ->
  let r := open_path_on_all_conns a w t now in
  connections r.1 = connections a /\
  pending_open_paths (state r.1) =
    pending_open_paths (state a) ++ replicate (length (live_clients (connections a) w)) t /\
  (live_clients (connections a) w <> [] -> scheduled_open_path (state r.1) = Some (now + from_millis 333)).
Proof.
  intros Href Ht. unfold open_path_on_all_conns, live_clients. set (f := fun '(s, cmds) '(c, cs) => _).
  assert (Hin : forall x, x ∈ map_to_list (connections a) -> connections a !! x.1 = Some x.2)
    by (intros [c cs] Hx; by apply elem_of_map_to_list).
  assert (H : forall l s cmds, (forall x, x ∈ l -> connections a !! x.1 = Some x.2) ->
    let k := List.filter (fun '(c, _) => match w_conn w c with Some v => is_client v | None => false end) l in
    pending_open_paths (fold_left f l (s, cmds)).1 = pending_open_paths s ++ replicate (length k) t /\
    scheduled_open_path (fold_left f l (s, cmds)).1 =
      (if k is [] then scheduled_open_path s else Some (now + from_millis 333))).
  { induction l as [|[c cs] l IH]; intros s cmds Hl; simpl; [by rewrite app_nil_r|].
    assert (Hc : connections a !! c = Some cs) by (apply (Hl (c, cs)); by left).
    assert (Hl' : forall x, x ∈ l -> connections a !! x.1 = Some x.2) by (intros x Hx; apply Hl; by right).
    destruct (w_conn w c) as [v|] eqn:Ew; [|by apply IH]. unfold open_path_on_conn.
    destruct (is_client v) eqn:Ec; simpl; [|by apply (IH s (cmds ++ []))].
    destruct (Href c cs v Hc Ew Ec) as [Hr Hno]. rewrite bool_decide_eq_false_2 by (by apply Hno).
    destruct (to_noq_four_tuple t (mapped s)) as [q m]. rewrite Hr.
    match goal with |- context [fold_left f l (?s1, ?c1)] => destruct (IH s1 c1 Hl') as [E1 E2] end.
    rewrite E1, E2. simpl. rewrite <- app_assoc. split; [done|].
    by destruct (List.filter _ l). }
  specialize (H (map_to_list (connections a)) (state a) [] Hin). simpl in H.
  destruct (fold_left f (map_to_list (connections a)) (state a, [])) as [s cmds]. simpl in *. destruct H as [-> ->].
  split_and!; [done|done|]. intros Hne. by destruct (List.filter _ _).
Qed.

Lemma open_scheduled_refused a w now :
  all_refuse (connections a) w (pending_open_paths (state a)) ->
  let r := (open_scheduled_paths a w now).1 in
  connections r = connections a /\
  pending_open_paths (state r) =
    flat_map (replicate (length (live_clients (connections a) w))) (pending_open_paths (state a)).
Proof.
  intros Href. unfold open_scheduled_paths. set (f := fun '(a, cmds) addr => _).
  assert (H : forall l b cmds, connections b = connections a -> (forall t, t ∈ l -> t ∈ pending_open_paths (state a)) ->
    connections (fold_left f l (b, cmds)).1 = connections a /\
    pending_open_paths (state (fold_left f l (b, cmds)).1) =
      pending_open_paths (state b) ++ flat_map (replicate (length (live_clients (connections a) w))) l).
  { induction l as [|t l IH]; intros b cmds Hb Hin; simpl; [by rewrite app_nil_r|]. rewrite <- Hb in Href.
    destruct (open_all_refused b w t now _ Href) as (Hc & Hp & _); [apply Hin; by left|].
    destruct (open_path_on_all_conns b w t now) as [b' cmds']. simpl in Hc, Hp.
    edestruct (IH b' (cmds ++ cmds')) as [-> ->]; [by rewrite Hc|intros; apply Hin; by right|].
    by rewrite Hp, Hb, <- app_assoc. }
  by apply H.
Qed.

(** The retries every third of a second, [n] times. *)
Fixpoint retry_open (n : nat) (a : RemoteStateActor) (w : world) (now : Z) : RemoteStateActor :=
  match n with
  | O => a
  | S n => retry_open n (open_scheduled_paths a w now).1 w (now + from_millis 333)
  end.

(** C33: While the remote issues no new ids, every retry puts each waiting path back once
    for every client connection: with [k] of them, the queue is [k ^ n] times as long
    after [n] retries. *)
Theorem pending_paths_multiply n a w now :
  all_refuse (connections a) w (pending_open_paths (state a)) ->
  length (pending_open_paths (state (retry_open n a w now))) =
    (length (live_clients (connections a) w) ^ n * length (pending_open_paths (state a)))%nat.
Proof.
  revert a now. induction n as [|n IH]; intros a now Href; [simpl; lia|]. cbn [retry_open].
  destruct (open_scheduled_refused a w now Href) as [Hc Hp]. set (k := length (live_clients (connections a) w)) in *.
  rewrite IH, Hc.
  - fold k. rewrite Hp. clear. rewrite Nat.pow_succ_r'. generalize (pending_open_paths (state a)). intros l.
    assert (length (flat_map (replicate k) l) = (k * length l)%nat) as ->; [|lia].
    induction l as [|t l IHl]; simpl; [lia|]. rewrite length_app, length_replicate, IHl. lia.
  - rewrite Hc, Hp. intros c cs v H1 H2 H3. destruct (Href c cs v H1 H2 H3) as [H4 H5]. split; [done|].
    intros t Ht. apply H5. apply list_elem_of_In, in_flat_map in Ht as (t' & Ht' & Hr).
    apply list_elem_of_In in Ht', Hr. apply elem_of_replicate in Hr as [-> _]. done.
Qed.

(** *** What the actor takes a path for *)

(** The selected path outlives the last connection that has it, when another
    connection is left; the datagrams for the remote then go there only. *)
Theorem selection_outlives_paths a c path_stats t :
  selected_path (state a) = Some t -> delete c (connections a) <> ∅ ->
  (forall c' cs, connections a !! c' = Some cs -> c' <> c -> t ∉ (map_to_list (cs_paths cs)).*2) ->
  let a' := (handle_connection_close a c path_stats).1 in
  selected_path (state a') = Some t /\
  (forall c' cs, connections a' !! c' = Some cs -> t ∉ (map_to_list (cs_paths cs)).*2) /\
  handle_msg_send_datagram (state a') = [SendTo (from_remote (remote t))].
Proof.
  intros Hs Hd Hno. unfold handle_connection_close. simpl. rewrite bool_decide_eq_false_2 by done.
  split_and!; [done| |by unfold handle_msg_send_datagram; rewrite Hs].
  intros c' cs [Hne Hc]%lookup_delete_Some. by apply Hno with (c' := c').
Qed.

(** A path that one connection abandons is taken for inactive also while another
    connection has a path to the same address. *)
Theorem abandoned_while_in_use a w c cs v path t now c' cs' path' st :
  connections a !! c = Some cs -> w_conn w c = Some v -> cs_paths cs !! path = Some t ->
  (forall p t', p <> path -> cs_paths cs !! p = Some t' -> remote t' <> remote t) ->
  connections a !! c' = Some cs' -> c' <> c -> cs_paths cs' !! path' = Some t ->
  paths (known (state a)) !! remote t = Some st -> status st = Open ->
  let a' := (handle_path_event a w c (Some (Abandoned path)) now).1 in
  status <$> paths (known (state a')) !! remote t = Some (Inactive now).
Proof.
  intros Hc Hw Ht Hother Hc' Hne Ht' Hk Hst. unfold handle_path_event. rewrite Hc, Hw.
  unfold remove_path. rewrite Ht. simpl. rewrite bool_decide_eq_false_2.
  2: { intros (t' & Heq & ([p t''] & -> & Hp%elem_of_map_to_list)%list_elem_of_fmap)%list_elem_of_fmap.
       simpl in *. apply lookup_delete_Some in Hp as [Hpne Hp]. by apply (Hother p t''). }
  unfold select_path. cbn [state connections].
  match goal with |- context [apply_selected_path ?b w now] => destruct (apply_selected_rounds b w now) as [_ [_ _ -> _]] end.
  cbn [state]. destruct (path_selector _ _); [case_bool_decide|]; simpl; unfold abandoned_path;
    rewrite Hk; simpl; by rewrite lookup_insert_eq, Hst.
Qed.

(** *** Candidates and datagrams *)

(** The NAT traversal addresses of a connection after the commands for it. *)
Definition nat_after (c : ConnId) (noq : gset SocketAddr) (cmds : list command) : gset SocketAddr :=
  fold_left (fun noq cmd =>
    match cmd with
    | AddNatAddress c' addr => if c' =? c then {[addr]} ∪ noq else noq
    | RemoveNatAddress c' addr => if c' =? c then noq ∖ {[addr]} else noq
    | _ => noq
    end) cmds noq.

(** The stack's candidates become exactly the direct addresses. *)
Theorem candidates_synchronised c v direct noq :
  local_nat_addresses v = Some noq -> nat_after c noq (update_qnt_candidates c v direct) = direct.
Proof.
  intros Hn. unfold update_qnt_candidates, nat_after. rewrite Hn, fold_left_app.
  assert (Hadd : forall l (s : gset SocketAddr), fold_left (fun noq cmd =>
    match cmd with
    | AddNatAddress c' addr => if c' =? c then {[addr]} ∪ noq else noq
    | RemoveNatAddress c' addr => if c' =? c then noq ∖ {[addr]} else noq
    | _ => noq end) (AddNatAddress c <$> l) s = list_to_set l ∪ s).
  { induction l as [|x l IH]; intros s; simpl; [set_solver|]. rewrite Z.eqb_refl, IH. set_solver. }
  assert (Hrem : forall l (s : gset SocketAddr), fold_left (fun noq cmd =>
    match cmd with
    | AddNatAddress c' addr => if c' =? c then {[addr]} ∪ noq else noq
    | RemoveNatAddress c' addr => if c' =? c then noq ∖ {[addr]} else noq
    | _ => noq end) (RemoveNatAddress c <$> l) s = s ∖ list_to_set l).
  { induction l as [|x l IH]; intros s; simpl; [set_solver|]. rewrite Z.eqb_refl, IH. set_solver. }
  rewrite Hadd, Hrem, !list_to_set_elements_L. apply set_eq. intros x.
  rewrite elem_of_difference, elem_of_union, !elem_of_difference.
  destruct (decide (x ∈ direct)), (decide (x ∈ noq)); naive_solver.
Qed.

(** *** Requests for an address *)

(** C31: A request for an address of a remote without a selected path is answered at
    once, or when the lookup that then runs ends, whatever it finds before. *)
Theorem resolve_answered s addrs tx now asked items last :
  resolve_inv (known s) asked -> selected_path s = None -> last = None \/ (exists err, last = Some (inl err)) ->
  Forall (fun item => exists i, item = Some (inr i)) items ->
  let s' := (handle_msg_resolve_remote s addrs tx now).1 in
  lookup_running s' = true /\
  tx ∈ map fst (replies (known (fold_left (fun s item => handle_address_lookup_item s item now) (items ++ [last]) s'))).
Proof.
  intros Hi Hs Hlast Hitems. unfold handle_msg_resolve_remote.
  set (k := resolve_remote _ tx).
  assert (Hk : resolve_inv k (asked ++ [tx])).
  { pose proof (apply_op_inv iter_order _ _ (OpInsert (to_transports_addr (endpoint_id s) addrs) App now) Hi) as H1.
    pose proof (apply_op_inv iter_order _ _ (OpResolve tx) H1) as H2. simpl in H2. by rewrite app_nil_r in H2. }
  set (s0 := with_known _ k). assert (Hs0 : known s0 = k) by done. assert (Hsel : selected_path s0 = None) by done.
  clearbody s0. unfold trigger_address_lookup. rewrite Hsel. simpl.
  set (s1 := (if lookup_running s0 then (s0, []) else (with_lookup s0 true, [StartLookup])).1).
  assert (H1 : lookup_running s1 = true /\ known s1 = k) by (unfold s1; by destruct (lookup_running s0) eqn:El).
  clearbody s1. destruct H1 as [H1 Hk1]. split; [done|]. rewrite fold_left_app. simpl. rewrite <- Hk1 in Hk.
  assert (H : forall s, resolve_inv (known s) (asked ++ [tx]) -> resolve_inv (known
    (fold_left (fun s item => handle_address_lookup_item s item now) items s)) (asked ++ [tx])).
  { clear - Hitems. induction Hitems as [|item items [i ->] _ IH]; intros s Hk; [done|]. simpl. apply IH.
    destruct (negb _); [done|]. simpl. by apply insert_multiple_inv. }
  specialize (H s1 Hk). set (s2 := fold_left _ items s1) in *. clearbody s2.
  assert (Hf : forall res, tx ∈ map fst (replies (address_lookup_finished (known s2) res))).
  { intros res. pose proof (emit_inv (known s2) _ (if res is Err e then Some e else None) (inv_answered _ _ H)) as [_ Ha].
    unfold address_lookup_finished. unfold emit_pending_resolve_requests in *. destruct H as [_ Ha2].
    destruct (pending_resolve_requests (known s2)) as [|x l] eqn:Ep.
    - rewrite app_nil_r in Ha2. rewrite Ha2. apply elem_of_app. right. by left.
    - cbn [pending_resolve_requests replies] in *. rewrite app_nil_r in Ha. rewrite Ha. apply elem_of_app. right. by left. }
  destruct Hlast as [->|[err ->]]; apply Hf.
Qed.

End Remote.

(** ** Witnesses *)

Section Witnesses.

Local Abbreviation path_to := Watch.sample_path.

Definition sample_id : EndpointId := mkPublicKey (replicate 32 Byte.x0b).
Definition sample_addr (port : Z) : SocketAddr := SocketV4 [Byte.x0a; Byte.x00; Byte.x00; Byte.x01] port.

(** A client connection with the paths [0] and [1], whose peer has issued no ids. *)
Definition sample_view : @conn_view Z :=
  mkView true {[0 := Some (sample_addr 1, None); 1 := Some (sample_addr 2, None)]} (fun _ => None) (fun p => p)
    (Some [sample_addr 3]) (Some {[sample_addr 5]}) (Ok [sample_addr 3]) (fun _ => Refused RemoteCidsExhausted).

Definition sample_world : @world Z := mkWorld (fun _ => Some sample_view) {[sample_addr 4]}.

Definition sample_conn : @ConnectionState Z :=
  mkConnState {[0 := path_to 1; 1 := path_to 2]} Watch.PathStateSender_new true.

Definition sample_state (known : @RemotePathState unit) (sel : option FourTuple) (pending : list FourTuple) : State :=
  mkState sample_id ∅ no_maps known None sel None None pending false.

Definition in_order (m : gmap Addr PathState) : list (Addr * PathState) := map_to_list m.
Definition keep_current (current : option FourTuple) (l : list candidate) : option FourTuple := None.

(** Two connections with the same paths. *)
Definition two_conns (known : RemotePathState) (sel : option FourTuple) (pending : list FourTuple) : RemoteStateActor :=
  mkActor {[1 := sample_conn; 2 := sample_conn]} (sample_state known sel pending).

Lemma two_conns_lookup known sel pending c cs : connections (two_conns known sel pending) !! c = Some cs -> cs = sample_conn.
Proof.
  unfold two_conns. cbn [connections].
  intros [[_ <-]|[_ [_ <-]%lookup_singleton_Some]]%lookup_insert_Some; done.
Qed.

Lemma sample_paths t : t ∉ [path_to 1; path_to 2] -> t ∉ (map_to_list (cs_paths sample_conn)).*2.
Proof.
  intros Ht ([p t'] & -> & Hp%elem_of_map_to_list)%list_elem_of_fmap. apply Ht. simpl in *.
  apply lookup_insert_Some in Hp as [[_ <-]|[_ Hp]]; [by left|].
  apply lookup_singleton_Some in Hp as [_ <-]. right. by left.
Qed.

Definition quiet_turn (now : Z) : @turn unit Z :=
  mkTurn now sample_world false [] false None false None None None false [] [].

Definition joining : @Loop unit Z :=
  mkLoop (actor_new sample_id ∅ no_maps) [MsgAddConnection 7 sample_view] 0.

Lemma holepunch_rate_limited_witness :
  exists l' handled cmds, loop_turn in_order keep_current joining (quiet_turn 10) = Goes l' handled cmds /\
    rounds cmds = [NatRound 7] /\
    punched (dom (connections (actor l'))) None (turn_world sample_world handled) 10 cmds.
Proof.
  eexists _, _, _. split; [reflexivity|]. split; [vm_compute; reflexivity|].
  apply (holepunch_rate_limited in_order keep_current joining (quiet_turn 10)); [apply map_Forall_empty|reflexivity].
Defined.

Lemma holepunch_progress_witness :
  rounds (trigger_holepunching (two_conns RemotePathState_new None []) sample_world 10).2 = [NatRound 1] \/
  exists hp, (None : option HolepunchAttempt) = Some hp /\ ~ round_allowed (Some hp) {[sample_addr 4]} [sample_addr 3] 10 /\
    scheduled_holepunch (state (trigger_holepunching (two_conns RemotePathState_new None []) sample_world 10).1) =
      Some (hp_when hp + HOLEPUNCH_ATTEMPTS_INTERVAL).
Proof.
  apply (holepunch_progress (two_conns RemotePathState_new None []) sample_world 10 1 sample_view [sample_addr 3]).
  - vm_compute. reflexivity.
  - reflexivity.
Defined.

(** The selected path is on neither connection: it is opened on both. *)
Definition open_world : @world Z :=
  mkWorld (fun _ => Some (mkView (is_client sample_view) (live_paths sample_view) (fun _ => None) (fun p => p)
    (Some [sample_addr 3]) (Some {[sample_addr 5]}) (Ok [sample_addr 3]) (fun _ => Opening))) {[sample_addr 4]}.


Lemma all_ip_paths_closed_witness :
  ClosePath 1 0 ∈ (apply_selected_path (two_conns RemotePathState_new (Some (path_to 9)) []) sample_world 10).2 /\
  ClosePath 1 1 ∈ (apply_selected_path (two_conns RemotePathState_new (Some (path_to 9)) []) sample_world 10).2.
Proof.
  pose proof (all_ip_paths_closed (two_conns RemotePathState_new (Some (path_to 9)) []) sample_world 10 (path_to 9) 1
    sample_conn sample_view eq_refl eq_refl eq_refl eq_refl) as H.
  assert (H1 : (1 < ip_paths sample_conn)%nat) by (vm_compute; lia).
  assert (H2 : path_to 9 ∉ (map_to_list (cs_paths sample_conn)).*2).
  { apply sample_paths. rewrite !not_elem_of_cons. split_and!; [discriminate|discriminate|apply not_elem_of_nil]. }
  split; [apply (H H1 (or_intror H2) 0 (path_to 1))|apply (H H1 (or_intror H2) 1 (path_to 2))];
    try reflexivity; by eexists.
Defined.

Lemma pending_paths_multiply_witness :
  length (pending_open_paths (state (retry_open 10 (two_conns RemotePathState_new None [path_to 9]) sample_world 0))) =
  1024%nat.
Proof.
  rewrite (pending_paths_multiply 10 (two_conns RemotePathState_new None [path_to 9]) sample_world 0).
  - vm_compute. reflexivity.
  - intros c cs v Hc Hv _. apply two_conns_lookup in Hc as ->. injection Hv as <-. split; [reflexivity|].
    intros t ->%list_elem_of_singleton. apply sample_paths. rewrite !not_elem_of_cons.
    split_and!; [discriminate|discriminate|apply not_elem_of_nil].
Defined.

Definition one_left : RemoteStateActor :=
  mkActor {[1 := sample_conn; 2 := mkConnState {[0 := path_to 3]} Watch.PathStateSender_new true]}
    (sample_state RemotePathState_new (Some (path_to 1)) []).

Lemma selection_outlives_paths_witness :
  let a' := (handle_connection_close one_left 1 []).1 in
  selected_path (state a') = Some (path_to 1) /\
  (forall c' cs, connections a' !! c' = Some cs -> path_to 1 ∉ (map_to_list (cs_paths cs)).*2) /\
  handle_msg_send_datagram (PathStats := Z) in_order (state a') = [SendTo (from_remote (remote (path_to 1)))].
Proof.
  apply (selection_outlives_paths (PathStats := Z) in_order one_left 1 [] (path_to 1)).
  - reflexivity.
  - intros H. apply (f_equal (fun m : gmap ConnId ConnectionState => m !! 2)) in H. discriminate H.
  - simpl. intros c' cs Hc Hne. rewrite lookup_insert_ne, lookup_singleton_Some in Hc by done. destruct Hc as [_ <-].
    simpl. rewrite map_to_list_singleton. simpl. rewrite list_elem_of_singleton. discriminate.
Defined.

Definition open_known : @RemotePathState unit :=
  mkRemotePathState {[remote (path_to 1) := mkPathState ∅ Open]} [] []
    (mkSocketMetrics (fun _ => 0) (fun _ => 0)).

Lemma abandoned_while_in_use_witness :
  status <$> paths (known (state (handle_path_event in_order keep_current (two_conns open_known None []) sample_world 1
    (Some (Abandoned 0)) 50).1)) !! remote (path_to 1) = Some (Inactive 50).
Proof.
  apply (abandoned_while_in_use in_order keep_current (two_conns open_known None []) sample_world 1 sample_conn sample_view 0
    (path_to 1) 50 2 sample_conn 0 (mkPathState ∅ Open)); try reflexivity; [|discriminate].
  intros p t' Hne Hp. simpl in Hp. rewrite lookup_insert_ne, lookup_singleton_Some in Hp by done.
  destruct Hp as [_ <-]. discriminate.
Defined.

Lemma candidates_synchronised_witness :
  nat_after 1 {[sample_addr 5]} (update_qnt_candidates 1 sample_view {[sample_addr 4]}) = {[sample_addr 4]}.
Proof. apply (candidates_synchronised 1 sample_view {[sample_addr 4]} {[sample_addr 5]}). reflexivity. Defined.

Lemma resolve_answered_witness :
  let s' := (handle_msg_resolve_remote (PathStats := Z) in_order (sample_state RemotePathState_new None []) [] 77 5).1 in
  lookup_running s' = true /\
  77 ∈ map fst (replies (known (fold_left (fun s item => handle_address_lookup_item in_order s item 5) ([] ++ [None]) s'))).
Proof.
  apply (resolve_answered (PathStats := Z) in_order (sample_state RemotePathState_new None []) [] 77 5 [] [] None).
  - constructor; [by left|done].
  - reflexivity.
  - by left.
  - constructor.
Defined.

Lemma actor_ends_idle_witness :
  let l := mkLoop (actor_new sample_id ∅ no_maps) [] 5 : @Loop unit Z in
  connections (actor l) = ∅ /\ pending_resolve_requests (known (state (actor l))) = [] /\
  idle_at l <= 10 /\ ([] : list (@RemoteStateMessage Z)) = [] /\ ([] : list (@command Z)) = [].
Proof.
  apply (actor_ends_idle in_order keep_current (mkLoop (actor_new sample_id ∅ no_maps) [] 5) (quiet_turn 10) [] []);
    try reflexivity. discriminate.
Defined.

End Witnesses.
End Remote.
