(* ===== verification/AddressLookup.v ===== *)
(** * AddressLookup: publishing and resolving the addresses of endpoints

    Models [iroh/src/address_lookup.rs] with its services [memory.rs],
    [pkarr.rs] and [dns.rs]: the registry of services an endpoint publishes to
    and resolves with, the merged stream of results, the lookup in memory, and
    the publisher and resolver that talk to a pkarr relay. The lookup stream is
    composed with the remote state actor, the pkarr client with the DNS server. *)

From S2P Require Import Prelude External Instances Keys Addrs NetText EndpointInfo Pkarr DnsResolver.
From S2P Require Import PacketStore ZoneStore DnsServer MappedAddrs PathState RemoteState.
Import Addrs Mapped Info Pkarr Paths.

Module Lookup.

(** ** Items and services *)

Record Item := mkItem {
  item_info : EndpointInfo;
  item_provenance : string;
  item_last_updated : option Z
}.

Definition item_endpoint_id (i : Item) : EndpointId := info_endpoint_id (item_info i).
Definition item_to_endpoint_addr (i : Item) : EndpointAddr := to_endpoint_addr (item_info i).
Definition item_user_data (i : Item) : option UserData := data_user_data (info_data (item_info i)).

Section Lookup.
Context {Src : Type}.

(** An error of a service: its name and what went wrong. *)
Record Error := mkError { error_provenance : string; error_source : Src }.

(** [AddressLookup]. Publishing changes the service; a lookup is the sequence of
    results its stream will produce, if the service resolves at all; a lookup can
    panic. *)
Class AddressLookup (T : Type) := mkAddressLookup {
  publish : T -> EndpointData -> T;
  resolve : T -> EndpointId -> result Error (option (list (Error + Item)))
}.

(** [FilteredAddressLookup]. *)
Record FilteredAddressLookup (T : Type) := mkFiltered { inner : T; lookup_filter : AddrFilter }.
Arguments mkFiltered {T}.
Arguments inner {T}.
Arguments lookup_filter {T}.

#[export] Instance Filtered_AddressLookup {T} `{AddressLookup T} : AddressLookup (FilteredAddressLookup T) := {|
  publish self data := mkFiltered (publish (inner self) (apply_filter data (lookup_filter self))) (lookup_filter self);
  resolve self id := resolve (inner self) id
|}.

(** ** MemoryLookup *)

Record StoredEndpointInfo := mkStored { stored_data : EndpointData; stored_updated : Z (* ns since the epoch *) }.

Record MemoryLookup := mkMemory {
  endpoints : gmap EndpointId StoredEndpointInfo;
  memory_provenance : string
}.

Definition MemoryLookup_new : MemoryLookup := mkMemory ∅ "memory_lookup".
Definition with_provenance (provenance : string) : MemoryLookup := mkMemory ∅ provenance.

Definition set_endpoint_info (self : MemoryLookup) (info : EndpointInfo) (now : Z)
    : MemoryLookup * option EndpointData :=
  (mkMemory (<[info_endpoint_id info := mkStored (info_data info) now]> (endpoints self)) (memory_provenance self),
   stored_data <$> endpoints self !! info_endpoint_id info).

Definition add_endpoint_info (self : MemoryLookup) (info : EndpointInfo) (now : Z) : MemoryLookup :=
  let data := info_data info in
  let entry := match endpoints self !! info_endpoint_id info with
               | Some existing =>
                   mkStored (set_user_data (add_addrs (stored_data existing) (data_addrs data)) (data_user_data data)) now
               | None => mkStored data now
               end in
  mkMemory (<[info_endpoint_id info := entry]> (endpoints self)) (memory_provenance self).

Definition from_endpoint_info (infos : list (EndpointInfo * Z)) : MemoryLookup :=
  fold_left (fun res '(info, now) => add_endpoint_info res info now) infos MemoryLookup_new.

Definition get_endpoint_info (self : MemoryLookup) (id : EndpointId) : option EndpointInfo :=
  (fun info => mkEndpointInfo id (stored_data info)) <$> endpoints self !! id.

Definition remove_endpoint_info (self : MemoryLookup) (id : EndpointId) : MemoryLookup * option EndpointInfo :=
  (mkMemory (delete id (endpoints self)) (memory_provenance self), get_endpoint_info self id).

(** [as_micros() as u64]; the conversion panics for a time before the epoch. *)
Definition memory_resolve {F} (self : MemoryLookup) (id : EndpointId) : result F (option Item) :=
  match endpoints self !! id with
  | None => Ok None
  | Some info =>
      if stored_updated info <? 0 then Panic
      else Ok (Some (mkItem (mkEndpointInfo id (stored_data info)) (memory_provenance self)
                       (Some ((stored_updated info / 1000) mod 2 ^ 64))))
  end.

#[export] Instance Memory_AddressLookup : AddressLookup MemoryLookup := {|
  publish self _ := self;
  resolve self id := rmap (fmap (fun item => [inr item])) (memory_resolve self id)
|}.

(** ** The registry of services *)

Record AddressLookupServices (T : Type) := mkServices {
  services : list T;
  last_data : option EndpointData;
  addr_filter : option AddrFilter
}.
Arguments mkServices {T}.
Arguments services {T}.
Arguments last_data {T}.
Arguments addr_filter {T}.

(** [AddressLookupStream]. *)
Record AddressLookupStream := mkStream {
  has_streams : bool;
  errors : list Error;
  did_emit : bool;
  stream_closed : bool
}.

Definition stream_empty : AddressLookupStream := mkStream false [] false false.
Definition stream_new : AddressLookupStream := mkStream true [] false false.

Inductive polled (A : Type) := Pending | Ready (x : A).
Arguments Pending {A}.
Arguments Ready {A} x.

(** [poll_next], given what the merged streams answer if they are polled. *)
Definition poll_next (this : AddressLookupStream) (merged : polled (option (Error + Item)))
    : polled (option (AddressLookupFailed Error + (Error + Item))) * AddressLookupStream :=
  if stream_closed this then (Ready None, this)
  else if negb (has_streams this) then
    (Ready (Some (inl NoServiceConfigured)), mkStream false (errors this) (did_emit this) true)
  else match merged with
  | Pending => (Pending, this)
  | Ready (Some (inr item)) => (Ready (Some (inr (inr item))), mkStream true (errors this) true false)
  | Ready (Some (inl error)) =>
      (Ready (Some (inr (inl error))), mkStream true (errors this ++ [error]) (did_emit this) false)
  | Ready None =>
      if negb (did_emit this)
      then (Ready (Some (inl (NoResults (errors this)))), mkStream true [] (did_emit this) true)
      else (Ready None, mkStream true (errors this) (did_emit this) true)
  end.

Section Services.
Context {T : Type} `{AddressLookup T}.

Definition services_default : AddressLookupServices T := mkServices [] None None.

Definition set_addr_filter (self : AddressLookupServices T) (filter : AddrFilter) : AddressLookupServices T :=
  mkServices (services self) (last_data self) (Some filter).

Definition add_boxed (self : AddressLookupServices T) (service : T) : AddressLookupServices T :=
  let service := match last_data self with Some data => publish service data | None => service end in
  mkServices (services self ++ [service]) (last_data self) (addr_filter self).

Definition services_is_empty (self : AddressLookupServices T) : bool :=
  match services self with [] => true | _ :: _ => false end.

Definition services_len (self : AddressLookupServices T) : nat := length (services self).

Definition services_clear (self : AddressLookupServices T) : AddressLookupServices T :=
  mkServices [] (last_data self) (addr_filter self).

Definition services_publish (self : AddressLookupServices T) (data : EndpointData) : AddressLookupServices T :=
  let data := match addr_filter self with Some filter => apply_filter data filter | None => data end in
  mkServices (map (fun service => publish service data) (services self)) (Some data) (addr_filter self).

Fixpoint resolve_all (l : list T) (id : EndpointId) : result Error (list (list (Error + Item))) :=
  match l with
  | [] => Ok []
  | service :: l =>
      let? stream := resolve service id in
      let? streams := resolve_all l id in
      Ok (match stream with Some stream => stream :: streams | None => streams end)
  end.

(** The stream of a lookup and the streams it merges. *)
Definition services_resolve (self : AddressLookupServices T) (id : EndpointId)
    : result Error (AddressLookupStream * list (list (Error + Item))) :=
  if services_is_empty self then Ok (stream_empty, [])
  else rmap (pair stream_new) (resolve_all (services self) id).

Inductive services_op :=
| OpFilter (filter : AddrFilter)
| OpAdd (service : T)
| OpClear
| OpPublish (data : EndpointData).

Definition services_apply (self : AddressLookupServices T) (op : services_op) : AddressLookupServices T :=
  match op with
  | OpFilter filter => set_addr_filter self filter
  | OpAdd service => add_boxed self service
  | OpClear => services_clear self
  | OpPublish data => services_publish self data
  end.
End Services.

(** ** Operations that overlap

    The registry is shared. [publish] reads the filter, then holds the services
    for reading while it goes through them and stores the data; [add_boxed] reads
    the data, lets it go, and then takes the services for writing. A service is
    the data it was given. *)

Inductive thread :=
| Publishing (data : EndpointData) (next : nat)
| Adding (given : list EndpointData).

Record shared := mkShared {
  registered : list (list EndpointData);
  stored : option EndpointData;
  threads : gmap nat thread
}.

Inductive shared_step : shared -> shared -> Prop :=
| SPublish s t data :
    threads s !! t = None ->
    shared_step s (mkShared (registered s) (stored s) (<[t := Publishing data 0]> (threads s)))
| SDeliver s t data i given :
    threads s !! t = Some (Publishing data i) -> registered s !! i = Some given ->
    shared_step s (mkShared (<[i := given ++ [data]]> (registered s)) (stored s)
                     (<[t := Publishing data (S i)]> (threads s)))
| SStore s t data :
    threads s !! t = Some (Publishing data (length (registered s))) ->
    shared_step s (mkShared (registered s) (Some data) (delete t (threads s)))
| SAdd s t :
    threads s !! t = None ->
    shared_step s (mkShared (registered s) (stored s)
                     (<[t := Adding (match stored s with Some data => [data] | None => [] end)]> (threads s)))
| SPush s t given :
    threads s !! t = Some (Adding given) ->
    (forall u data i, threads s !! u <> Some (Publishing data i)) ->
    shared_step s (mkShared (registered s ++ [given]) (stored s) (delete t (threads s))).

(** ** The publisher *)

Record PublisherState := mkPublisher { failed_attempts : Z; republish_at : option Z }.

Definition publisher_init : PublisherState := mkPublisher 0 None.

(** What a turn of the loop finds: whether the watcher is connected, what it
    holds, whether the publication of that succeeds and when it is done, and what
    the [select!] then waits for. *)
Inductive wake := Updated | Disconnected | Republish.

Record publisher_turn := mkPublisherTurn {
  is_connected : bool;
  current_info : option EndpointInfo;
  publish_ok : bool;
  done_at : Z;
  woken_by : wake;
  woken_at : Z
}.

Inductive attempt := Attempt (info : EndpointInfo) (ok : bool) (at_time : Z).

Definition publish_step (republish_interval : Z) (self : PublisherState) (t : publisher_turn)
    : PublisherState * list attempt :=
  match current_info t with
  | None => (self, [])
  | Some info =>
      (if publish_ok t then mkPublisher 0 (Some (done_at t + republish_interval))
       else mkPublisher (failed_attempts self + 1) (Some (done_at t + from_secs (failed_attempts self + 1))),
       [Attempt info (publish_ok t) (done_at t)])
  end.

(** The timer wakes the loop only at its time. *)
Definition wake_possible (self : PublisherState) (t : publisher_turn) : bool :=
  match woken_by t with
  | Updated | Disconnected => true
  | Republish => match republish_at self with Some at_time => at_time <=? woken_at t | None => false end
  end.

Fixpoint publisher_run (republish_interval : Z) (self : PublisherState) (turns : list publisher_turn)
    : option PublisherState * list attempt :=
  match turns with
  | [] => (Some self, [])
  | t :: turns =>
      if negb (is_connected t) then (None, [])
      else
        let '(self, tried) := publish_step republish_interval self t in
        match woken_by t with
        | Disconnected => (None, tried)
        | _ => if wake_possible self t
               then let '(last, rest) := publisher_run republish_interval self turns in (last, tried ++ rest)
               else (Some self, tried)
        end
  end.

(** [update_endpoint_data]: the new value of the watchable. *)
Definition update_endpoint_data (id : EndpointId) (filter : AddrFilter) (data : EndpointData) : EndpointInfo :=
  mkEndpointInfo id (apply_filter data filter).

(** ** The client of a pkarr relay *)

Inductive PkarrError :=
| PkarrPublicKey (source : KeyParsingError)
| PkarrVerify (source : SignedPacketVerifyError)
| InvalidRelayUrl
| HttpSend
| HttpRequest (status : Z)
| HttpPayload
| Encoding (source : SignedPacketBuildError).

Section Client.
Context {Ed : Ed25519} {De : DataEncoding} {Sd : SimpleDns} {Uc : UrlCrate}.
Context {Url World : Type}.
(** [path_segments_mut] and [push] of the url crate, and the HTTP client: a request
    has an answer or fails, the body of an answer can fail to arrive. *)
Context (push_segment : Url -> string -> option Url).
Context (put_request : World -> Url -> bytes -> World * option Z).
Context (get_request : World -> Url -> World * option (Z * option bytes)).

Definition is_success (status : Z) : bool := (200 <=? status) && (status <? 300).

Definition client_publish (relay_url : Url) (w : World) (signed_packet : SignedPacket)
    : World * result PkarrError unit :=
  match packet_public_key (E := PkarrError) signed_packet with
  | Ok key =>
      match push_segment relay_url (to_z32 key) with
      | None => (w, Err InvalidRelayUrl)
      | Some url =>
          let '(w, response) := put_request w url (to_relay_payload signed_packet) in
          (w, match response with
              | None => Err HttpSend
              | Some status => if is_success status then Ok tt else Err (HttpRequest status)
              end)
      end
  | Err e => (w, Err e)
  | Panic => (w, Panic)
  end.

Definition client_resolve (relay_url : Url) (w : World) (id : EndpointId) : World * result PkarrError SignedPacket :=
  match push_segment relay_url (to_z32 id) with
  | None => (w, Err InvalidRelayUrl)
  | Some url =>
      let '(w, response) := get_request w url in
      (w, match response with
          | None => Err HttpSend
          | Some (status, body) =>
              if negb (is_success status) then Err (HttpRequest status)
              else match body with
                   | None => Err HttpPayload
                   | Some payload => map_err PkarrVerify (from_relay_payload id payload)
                   end
          end)
  end.

(** [publish_current]; [timestamp] is what [Timestamp::now] returns. *)
Definition publish_current (relay_url : Url) (secret_key : SecretKey) (ttl timestamp : Z) (w : World) (info : EndpointInfo)
    : World * result PkarrError unit :=
  match map_err Encoding (to_pkarr_signed_packet info secret_key ttl timestamp) with
  | Ok signed_packet => client_publish relay_url w signed_packet
  | Err e => (w, Err e)
  | Panic => (w, Panic)
  end.

Inductive pkarr_source := FromClient (source : PkarrError) | FromParse (source : ParseError).

(** [PkarrResolver::resolve]: the one item of its stream. *)
Definition pkarr_resolve (relay_url : Url) (w : World) (id : EndpointId) : World * result pkarr_source Item :=
  let '(w, packet) := client_resolve relay_url w id in
  (w, let? signed_packet := map_err FromClient packet in
      let? info := map_err FromParse (from_pkarr_signed_packet signed_packet) in
      Ok (mkItem info "pkarr" None)).
End Client.

(** ** The DNS lookup *)

Definition DNS_STAGGERING_MS : list Z := [200; 300; 600; 1000; 2000; 3000].

(** [DnsAddressLookup::resolve]: one staggered lookup; [runs] are the time each call
    takes and what it answers. *)
Definition dns_resolve (randoms : list Z) (runs : list (Z * result Dns.LookupError EndpointInfo))
    : result (list Dns.LookupError) Item :=
  rmap (fun info => mkItem info "dns" None) (Dns.stagger_call DNS_STAGGERING_MS randoms runs).

(** ** Theorems *)

(** *** Publishing *)

(** Whatever was done before, the last thing every registered service was given is
    the last data the registry published, filtered. *)
Theorem services_up_to_date {T} `{AddressLookup T} (ops : list (@services_op T)) :
  let self := fold_left services_apply ops services_default in
  forall data, last_data self = Some data -> Forall (fun service => exists before, service = publish before data) (services self).
Proof.
  set (P := fun self : AddressLookupServices T => forall data, last_data self = Some data ->
    Forall (fun service => exists before, service = publish before data) (services self)).
  apply (Remote.fold_left_inv P); [done|]. intros self [filter|service| |data] _ Hself d; simpl.
  - apply Hself.
  - intros Hd. rewrite Hd. apply Forall_app. split; [by apply Hself|]. apply Forall_singleton. by eexists.
  - intros _. constructor.
  - intros [= <-]. apply Forall_forall. intros service (before & -> & _)%list_elem_of_fmap. by eexists.
Qed.

(** A service that is added while data is published for the first time can miss it:
    it is registered, the data is stored, nothing is under way, and the service was
    never given anything. *)
Theorem added_service_misses_data data :
  exists s, rtc shared_step (mkShared [] None ∅) s /\
    threads s = ∅ /\ stored s = Some data /\ registered s = [[]].
Proof.
  exists (mkShared [[]] (Some data) ∅). split_and!; [|done..].
  eapply rtc_l; [apply (SAdd _ 1); done|]. cbn [threads registered stored].
  eapply rtc_l; [apply (SPublish _ 2 data); cbn [threads]; rewrite lookup_insert_ne by done; apply lookup_empty|].
  cbn [threads registered stored].
  eapply rtc_l; [apply (SStore _ 2 data); cbn [threads]; apply lookup_insert_eq|]. cbn [threads registered stored].
  rewrite delete_insert_id by (rewrite lookup_insert_ne by done; apply lookup_empty).
  eapply rtc_l; [apply (SPush _ 1 []); cbn [threads]|].
  - apply lookup_insert_eq.
  - intros u d i. destruct (decide (u = 1%nat)) as [->|Hne]; [by rewrite lookup_insert_eq|by rewrite lookup_insert_ne].
  - cbn [threads registered stored]. rewrite delete_insert_id by apply lookup_empty. apply rtc_refl.
Qed.

(** Two publications that overlap can leave a service with the data of one and the
    registry with the data of the other. *)
Theorem publications_cross d1 d2 :
  exists s, rtc shared_step (mkShared [[]] None ∅) s /\
    threads s = ∅ /\ stored s = Some d2 /\ registered s = [[d2; d1]].
Proof.
  exists (mkShared [[d2; d1]] (Some d2) ∅). split_and!; [|done..].
  eapply rtc_l; [apply (SPublish _ 1 d1); done|]. cbn [threads registered stored].
  eapply rtc_l; [apply (SPublish _ 2 d2); cbn [threads]; rewrite lookup_insert_ne by done; apply lookup_empty|].
  cbn [threads registered stored].
  eapply rtc_l; [apply (SDeliver _ 2 d2 0 []); [apply lookup_insert_eq|done]|]. cbn [threads registered stored].
  rewrite insert_insert_eq.
  eapply rtc_l; [apply (SDeliver _ 1 d1 0 [d2]); [cbn [threads]; rewrite lookup_insert_ne by done; apply lookup_insert_eq|done]|].
  cbn [threads registered stored].
  eapply rtc_l; [apply (SStore _ 1 d1); apply lookup_insert_eq|]. cbn [threads registered stored].
  eapply rtc_l; [apply (SStore _ 2 d2); cbn [threads]; rewrite lookup_delete_ne, lookup_insert_ne by done; apply lookup_insert_eq|].
  cbn [threads registered stored]. simpl.
  match goal with |- rtc _ (mkShared _ _ ?m) _ => assert (m = ∅) as ->; [|apply rtc_refl] end.
  apply map_eq. intros k. rewrite lookup_empty.
  destruct (decide (k = 1%nat)) as [->|]; [rewrite lookup_delete_ne by done; apply lookup_delete_eq|].
  destruct (decide (k = 2%nat)) as [->|]; [apply lookup_delete_eq|].
  rewrite !lookup_delete_ne, !lookup_insert_ne by done. apply lookup_empty.
Qed.

(** *** The merged stream *)

Definition errors_of (xs : list (Error + Item)) : list Error := omap (fun x => if x is inl e then Some e else None) xs.
Definition items_of (xs : list (Error + Item)) : list Item := omap (fun x => if x is inr i then Some i else None) xs.

(** What the consumer gets of a stream that polls [polls] times. *)
Fixpoint drive (this : AddressLookupStream) (polls : list (polled (option (Error + Item))))
    : list (polled (option (AddressLookupFailed Error + (Error + Item)))) :=
  match polls with
  | [] => []
  | merged :: polls => let '(out, this) := poll_next this merged in out :: drive this polls
  end.

Definition ready {A} (l : list (polled A)) : list A := omap (fun p => if p is Ready x then Some x else None) l.

(** How the stream ends. *)
Definition stream_end (errs : list Error) (emitted : bool) : option (AddressLookupFailed Error + (Error + Item)) :=
  if emitted then None else Some (inl (NoResults errs)).

Lemma drive_open this pre xs :
  has_streams this = true -> stream_closed this = false -> ready pre = map Some xs ->
  ready (drive this (pre ++ [Ready None])) =
    map (fun x => Some (inr x)) xs ++
      [stream_end (errors this ++ errors_of xs) (did_emit this || negb (bool_decide (items_of xs = [])))].
Proof.
  revert this xs. induction pre as [|[|x] pre IH]; intros [hs es emitted cl] xs; simpl; intros -> ->.
  - destruct xs; [|done]. intros _. unfold poll_next. simpl. rewrite app_nil_r, orb_false_r.
    by destruct emitted.
  - intros Hx. unfold poll_next. simpl. by rewrite (IH (mkStream true es emitted false) xs).
  - destruct xs as [|y xs]; [done|]. simpl. intros [= -> Hx]. unfold poll_next. simpl.
    destruct y as [e|item]; simpl.
    + rewrite (IH (mkStream true (es ++ [e]) emitted false) xs) by done. simpl. by rewrite <- app_assoc.
    + rewrite (IH (mkStream true es true false) xs) by done. simpl. by rewrite orb_true_r.
Qed.

(** A lookup passes on every result of every service as soon as it is there, errors
    included, and none of them ends it. At the end, and only without any item, it
    reports all the errors at once; without services it says so; after that it has
    ended for good. *)
Theorem lookup_stream_complete pre xs first more :
  ready pre = map Some xs ->
  ready (drive stream_new (pre ++ [Ready None])) =
    map (fun x => Some (inr x)) xs ++ [stream_end (errors_of xs) (negb (bool_decide (items_of xs = [])))] /\
  drive stream_empty (first :: more) = Ready (Some (inl NoServiceConfigured)) :: replicate (length more) (Ready None).
Proof.
  intros Hx. split; [by apply (drive_open stream_new)|].
  assert (H : forall l es b, drive (mkStream false es b true) l = replicate (length l) (Ready None)).
  { induction l as [|m l IH]; intros es b; [done|]. simpl. unfold poll_next. simpl. by rewrite IH. }
  simpl. unfold poll_next. simpl. by rewrite H.
Qed.

(** *** A lookup for the remote state actor *)

Section Outcome.
Context (iter_order : gmap Mapped.Addr PathState -> list (Mapped.Addr * PathState)).

(** [trigger_address_lookup] drops the errors of single services. *)
Definition feed (out : option (AddressLookupFailed Error + (Error + Item)))
    : option (option (AddressLookupFailed Error + Remote.lookup_item)) :=
  match out with
  | None => Some None
  | Some (inl failed) => Some (Some (inl failed))
  | Some (inr (inl _)) => None
  | Some (inr (inr i)) =>
      Some (Some (inr (Remote.mkItem (item_endpoint_id i) (item_provenance i) (elements (addrs (item_to_endpoint_addr i))))))
  end.

Definition useful (id : EndpointId) (x : Error + Item) : bool :=
  if x is inr i then bool_decide (item_endpoint_id i = id) && negb (bool_decide (data_addrs (info_data (item_info i)) = []))
  else false.

Abbreviation handle := (fun s item now => Remote.handle_address_lookup_item iter_order (E := Error) s item now).

Lemma insert_multiple_replies (k : @RemotePathState Error) l source now r :
  r ∈ replies k -> r ∈ replies (insert_multiple iter_order k l source now).
Proof.
  intros Hr. unfold insert_multiple, prune_paths. simpl. destruct (_ && _); [|done].
  unfold emit_pending_resolve_requests. simpl. destruct (pending_resolve_requests k); [done|]. simpl.
  apply elem_of_app. by left.
Qed.

Lemma handle_item_replies s item now r : r ∈ replies (Remote.known s) -> r ∈ replies (Remote.known (handle s item now)).
Proof.
  intros Hr. destruct item as [[failed|i]|]; simpl.
  - unfold address_lookup_finished, emit_pending_resolve_requests.
    destruct (pending_resolve_requests _); [done|]. simpl. apply elem_of_app. by left.
  - destruct (negb _); [done|]. simpl. by apply insert_multiple_replies.
  - unfold address_lookup_finished, emit_pending_resolve_requests.
    destruct (pending_resolve_requests _); [done|]. simpl. apply elem_of_app. by left.
Qed.

Lemma insert_sources_empty source now l :
  fold_left (insert_source source now) l (∅ : gmap Mapped.Addr PathState) = ∅ <-> l = [].
Proof.
  split; [|by intros ->]. destruct l as [|a l]; [done|]. simpl. intros Hl. exfalso. revert Hl.
  apply insert_sources_nonempty, insert_non_empty.
Qed.

(** While nothing is known, [tx] waits; a useful item answers it. *)
Lemma handle_useful s tx now x :
  paths (Remote.known s) = ∅ -> tx ∈ pending_resolve_requests (Remote.known s) ->
  let s' := match feed (Some (inr x)) with Some item => handle s item now | None => s end in
  Remote.endpoint_id s' = Remote.endpoint_id s /\
  if useful (Remote.endpoint_id s) x then (tx, Ok tt) ∈ replies (Remote.known s')
  else paths (Remote.known s') = ∅ /\ tx ∈ pending_resolve_requests (Remote.known s').
Proof.
  intros Hp Htx. destruct x as [e|i]; [done|]. cbn [feed]. unfold Remote.handle_address_lookup_item, useful.
  cbn [Remote.item_endpoint Remote.item_addrs Remote.provenance].
  destruct (bool_decide (item_endpoint_id i = Remote.endpoint_id s)); cbn [negb andb]; [|done]. split; [done|].
  cbn [Remote.with_known Remote.known]. set (l := Remote.to_transports_addr _ _).
  assert (Hl : l = [] <-> data_addrs (info_data (item_info i)) = []).
  { assert (He : elements (addrs (item_to_endpoint_addr i)) = [] <-> data_addrs (info_data (item_info i)) = []).
    { unfold item_to_endpoint_addr, to_endpoint_addr. cbn [addrs]. rewrite elements_empty_iff.
      destruct (data_addrs _) as [|a rest]; [done|]. split; [|done]. simpl. intros He. set_solver. }
    rewrite <- He. unfold l, Remote.to_transports_addr. by destruct (elements _). }
  unfold insert_multiple. rewrite Hp, (bool_decide_eq_true_2 (∅ = ∅)) by done.
  cbn [set_paths paths pending_resolve_requests replies andb]. set (m := fold_left _ l ∅).
  assert (Hm : m = ∅ <-> data_addrs (info_data (item_info i)) = []) by (unfold m; by rewrite insert_sources_empty).
  clearbody m. clear Hl l. destruct (bool_decide (data_addrs _ = [])) eqn:Hd; cbn [negb].
  - apply bool_decide_eq_true, Hm in Hd as ->. rewrite (bool_decide_eq_true_2 (∅ = ∅)) by done. cbn. by rewrite prune_empty.
  - apply bool_decide_eq_false in Hd. rewrite <- Hm in Hd. rewrite (bool_decide_eq_false_2 (m = ∅)) by done. cbn [negb].
    unfold prune_paths, emit_pending_resolve_requests. cbn [set_paths paths pending_resolve_requests replies].
    destruct (pending_resolve_requests (Remote.known s)) as [|t ts]; [by apply elem_of_nil in Htx|].
    rewrite (bool_decide_eq_false_2 (m = ∅)) by done. cbn [replies]. apply elem_of_app. right.
    apply (list_elem_of_fmap_2 (fun tx => (tx, Ok tt : result (AddressLookupFailed Error) unit)) (t :: ts)). done.
Qed.

(** The answer a request gets from a lookup. *)
Definition lookup_answer (id : EndpointId) (xs : list (Error + Item)) : result (AddressLookupFailed Error) unit :=
  if existsb (useful id) xs then Ok tt
  else Err (NoResults (if bool_decide (items_of xs = []) then errors_of xs else [])).

Lemma fold_handle_replies l s now r :
  r ∈ replies (Remote.known s) -> r ∈ replies (Remote.known (fold_left (fun s item => handle s item now) l s)).
Proof. revert s. induction l as [|x l IH]; intros s Hr; [done|]. simpl. by apply IH, handle_item_replies. Qed.

Lemma omap_feed_cons y l : omap feed (y :: l) = match feed y with Some z => z :: omap feed l | None => omap feed l end.
Proof. done. Qed.

Lemma lookup_feed_answer xs s tx now errs emitted :
  paths (Remote.known s) = ∅ -> tx ∈ pending_resolve_requests (Remote.known s) ->
  (tx, if existsb (useful (Remote.endpoint_id s)) xs then Ok tt else Err (NoResults (if emitted : bool then [] else errs)))
  ∈ replies (Remote.known (fold_left (fun s item => handle s item now)
      (omap feed (map (fun x => Some (inr x)) xs ++ [stream_end errs emitted])) s)).
Proof.
  revert s. induction xs as [|x xs IH]; intros s Hp Htx.
  - simpl. destruct emitted; simpl; unfold address_lookup_finished, emit_pending_resolve_requests;
      (destruct (pending_resolve_requests (Remote.known s)) as [|t ts] eqn:Et; [by apply elem_of_nil in Htx|]);
      rewrite bool_decide_eq_true_2 by done; simpl; apply elem_of_app; right;
      [apply (list_elem_of_fmap_2 (fun tx => (tx, Err (NoResults []) : result (AddressLookupFailed Error) unit)) (t :: ts))
      |apply (list_elem_of_fmap_2 (fun tx => (tx, Err (NoResults errs) : result (AddressLookupFailed Error) unit)) (t :: ts))]; done.
  - cbn [map app existsb]. rewrite omap_feed_cons. pose proof (handle_useful s tx now x Hp Htx) as [Hid Hx].
    destruct (feed (Some (inr x))) as [item|] eqn:Ef; cbn [fold_left].
    + destruct (useful (Remote.endpoint_id s) x); simpl.
      * by apply fold_handle_replies.
      * rewrite <- Hid. destruct Hx. by apply IH.
    + destruct x as [e|i]; [|done]. simpl. by apply IH.
Qed.

(** C21: A request for an address of an endpoint nothing is known of: it is answered with
    success if any service found an address of that endpoint; otherwise it fails,
    with the errors of all services if none of them found anything. *)
Theorem lookup_outcome s tx now pre xs :
  Remote.selected_path s = None -> Remote.lookup_running s = false ->
  paths (Remote.known s) = ∅ -> ready pre = map Some xs ->
  let s1 := (Remote.handle_msg_resolve_remote (PathStats := unit) iter_order s [] tx now).1 in
  let outs := ready (drive stream_new (pre ++ [Ready None])) in
  Remote.lookup_running s1 = true /\
  (tx, lookup_answer (Remote.endpoint_id s) xs) ∈
    replies (Remote.known (fold_left (fun s item => handle s item now) (omap feed outs) s1)).
Proof.
  intros Hsel Hrun Hp Hx. rewrite (drive_open stream_new pre xs) by done. cbv zeta.
  set (s1 := (Remote.handle_msg_resolve_remote iter_order s [] tx now).1).
  assert (H1 : Remote.lookup_running s1 = true /\ Remote.endpoint_id s1 = Remote.endpoint_id s /\
               paths (Remote.known s1) = ∅ /\ tx ∈ pending_resolve_requests (Remote.known s1)).
  { unfold s1, Remote.handle_msg_resolve_remote, Remote.trigger_address_lookup. simpl. rewrite Hsel, Hrun. simpl.
    unfold insert_multiple. simpl. rewrite Hp, bool_decide_eq_true_2 by done. simpl. rewrite ?prune_empty.
    unfold resolve_remote. simpl. rewrite bool_decide_eq_true_2 by done. simpl. split_and!; [done..|].
    apply elem_of_app. right. by left. }
  clearbody s1. destruct H1 as (Hr & Hid & Hp1 & Htx). split; [done|]. unfold lookup_answer. rewrite <- Hid.
  pose proof (lookup_feed_answer xs s1 tx now (errors_of xs) (negb (bool_decide (items_of xs = []))) Hp1 Htx) as H.
  by destruct (bool_decide (items_of xs = [])).
Qed.
End Outcome.

(** *** The lookup in memory *)

(** Adding an info keeps every address known before, the relay URLs too, adds the new
    ones once, and replaces the user data; other endpoints keep theirs. *)
Theorem memory_add_merges self info now old :
  NoDup (data_addrs old) -> get_endpoint_info self (info_endpoint_id info) = Some (mkEndpointInfo (info_endpoint_id info) old) ->
  let self' := add_endpoint_info self info now in
  exists merged, get_endpoint_info self' (info_endpoint_id info) = Some (mkEndpointInfo (info_endpoint_id info) merged) /\
    NoDup (data_addrs merged) /\ data_user_data merged = data_user_data (info_data info) /\
    (forall a, a ∈ data_addrs merged <-> a ∈ data_addrs old \/ a ∈ data_addrs (info_data info)) /\
    (forall id, id <> info_endpoint_id info -> get_endpoint_info self' id = get_endpoint_info self id).
Proof.
  intros Hn Hget. unfold get_endpoint_info, add_endpoint_info in *. cbn [endpoints].
  destruct (endpoints self !! info_endpoint_id info) as [[d upd]|] eqn:Ee; [|done]. simpl in Hget. injection Hget as ->.
  destruct (add_addrs_spec old (data_addrs (info_data info)) Hn) as (new & Ha & Hnd & Hm).
  eexists. rewrite lookup_insert_eq. split; [done|]. cbn [set_user_data data_addrs data_user_data stored_data].
  rewrite Ha. split_and!; [done|done|done|]. intros id Hid. by rewrite lookup_insert_ne.
Qed.

(** *** The publisher *)

(** The failures since the last success. *)
Definition streak (l : list attempt) : Z := fold_left (fun n '(Attempt _ ok _) => if ok : bool then 0 else n + 1) l 0.

Definition attempt_of (t : publisher_turn) : option attempt :=
  (fun info => Attempt info (publish_ok t) (done_at t)) <$> current_info t.

(** When the timer is set to fire after these attempts. *)
Definition next_at (interval : Z) (l : list attempt) : option Z :=
  (fun '(Attempt _ ok at_time) => at_time + (if ok : bool then interval else from_secs (streak l))) <$> last l.

Lemma publish_step_schedule interval self t before :
  failed_attempts self = streak before -> republish_at self = next_at interval before ->
  let '(self', tried) := publish_step interval self t in
  failed_attempts self' = streak (before ++ tried) /\ republish_at self' = next_at interval (before ++ tried) /\
  tried = match attempt_of t with Some a => [a] | None => [] end.
Proof.
  intros Hf Hr. unfold publish_step, attempt_of. destruct (current_info t) as [info|]; simpl; [|by rewrite app_nil_r].
  unfold next_at, streak. rewrite last_snoc, fold_left_app. simpl. fold (streak before). rewrite <- Hf.
  by destruct (publish_ok t).
Qed.

(** The publisher makes one attempt in every turn that has something to publish, with
    what the watcher then holds. The next one comes at the latest after the interval
    following a success, and [n] seconds after the [n]-th failure in a row. It stops
    only when the endpoint is gone. *)
Theorem publisher_schedule interval turns :
  let '(last, attempts) := publisher_run interval publisher_init turns in
  (exists k, attempts = omap attempt_of (take k turns)) /\
  match last with
  | Some self => failed_attempts self = streak attempts /\ republish_at self = next_at interval attempts
  | None => exists t, t ∈ turns /\ (is_connected t = false \/ woken_by t = Disconnected)
  end.
Proof.
  assert (H : forall self before, failed_attempts self = streak before -> republish_at self = next_at interval before ->
    let '(last, attempts) := publisher_run interval self turns in
    (exists k, attempts = omap attempt_of (take k turns)) /\
    match last with
    | Some self => failed_attempts self = streak (before ++ attempts) /\ republish_at self = next_at interval (before ++ attempts)
    | None => exists t, t ∈ turns /\ (is_connected t = false \/ woken_by t = Disconnected)
    end).
  { induction turns as [|t turns IH]; intros self before Hf Hr; cbn [publisher_run].
    - rewrite app_nil_r. split; [by exists 0%nat|done].
    - destruct (is_connected t) eqn:Ec; cbn [negb].
      2: { split; [by exists 0%nat|]. exists t. split; [by left|by left]. }
      pose proof (publish_step_schedule interval self t before Hf Hr) as Hs.
      destruct (publish_step interval self t) as [self' tried]. destruct Hs as (Hf' & Hr' & Ht).
      assert (H1 : tried = omap attempt_of (take 1 (t :: turns))) by (rewrite Ht; simpl; by destruct (attempt_of t)).
      destruct (woken_by t) eqn:Ew.
      2: { split; [by exists 1%nat|]. exists t. split; [by left|by right]. }
      all: destruct (wake_possible self' t); [|split; [by exists 1%nat|done]];
        specialize (IH self' (before ++ tried) Hf' Hr');
        destruct (publisher_run interval self' turns) as [last rest]; destruct IH as [[k Hk] Hlast];
        rewrite <- app_assoc in Hlast; split;
        [exists (S k); cbn [take]; rewrite Ht, Hk; change (omap attempt_of (t :: take k turns)) with
           (match attempt_of t with Some y => y :: omap attempt_of (take k turns) | None => omap attempt_of (take k turns) end);
         by destruct (attempt_of t)
        |destruct last; [done|]; destruct Hlast as (u & Hu & Hd); exists u; split; [by right|done]]. }
  by apply (H publisher_init []).
Qed.

(** *** The pkarr client against the DNS server *)

Section Relay.
Context {Ed : Ed25519} {De : DataEncoding} {Sd : SimpleDns} {HK : Hickory} {HR : HickoryRecords}.
Context {Zc : ZoneCaches Zones.CachedZone} {Rd : Redb} {Uc : UrlCrate}.
Context {EdL : Ed25519Laws Ed} {DeL : DataEncodingLaws De} {SdL : SimpleDnsLaws Sd}.
Context {HL : HickoryLaws HK HR} {DI : DnsInterop Sd HK HR} {ZcL : ZoneCachesLaws Zc}.

(** The routes of the server as the client reaches them: the last segment of the URL
    is the key. *)
Definition key_segment (base key : string) : option string := Some key.

Definition put_route (o : Store.Options) (now : Z) (st : Server.store_state) (key : string) (body : bytes)
    : Server.store_state * option Z :=
  match Server.http_put o now key body st with
  | Ok (st, status) => (st, Some status)
  | Err (Server.mkAppError status) => (st, Some status)
  | Panic => (st, None)
  end.

Definition get_route (st : Server.store_state) (key : string) : Server.store_state * option (Z * option bytes) :=
  (st, match Server.http_get key st with
       | Ok body => Some (200, Some body)
       | Err (Server.mkAppError status) => Some (status, Some [])
       | Panic => None
       end).

(** C22: What the publisher of an endpoint puts on a pkarr relay, the resolver of another
    endpoint gets from it: the same info up to the order of its addresses, unless the
    relay has something newer, for info without equals signs in its relay URLs and
    user data (the parser cuts a value at one). *)
Theorem pkarr_publish_resolve o now st info sk ttl ts p base :
  info_wf info -> no_equals (info_data info) -> info_endpoint_id info = public sk -> Store.in_u64 ts ->
  to_pkarr_signed_packet info sk ttl ts = Ok p ->
  (forall q, st.2 !! as_bytes (public sk) = Some q -> Store.packet_ts q < ts) ->
  exists st' d,
    publish_current key_segment (put_route o now) base sk ttl ts st info = (st', Ok tt) /\
    (pkarr_resolve key_segment get_route base st' (public sk)).2 =
      Ok (mkItem (mkEndpointInfo (public sk) d) "pkarr" None) /\
    same_data (info_data info) d.
Proof.
  intros Hwf Hne Hid Hts Hp Hold.
  destruct (published_info_resolves info sk ttl ts p Hwf Hid Hts Hp) as (Hfrom & Hrelay & Hts' & Hinfo & _).
  assert (Hkey : forall E, packet_public_key (E := E) p = Ok (public sk)).
  { destruct (info_strings_parse info (info_wf_addrs _ Hwf) (info_wf_user _ Hwf)) as (strings & Hs & _).
    unfold to_pkarr_signed_packet in Hp. rewrite Hs in Hp. cbn [rbind] in Hp.
    by destruct (own_packet _ _ _ _ _ _ Hts Hp) as (_ & Hk & _). }
  assert (Hpok : Store.packet_ok p) by (by exists (packet_bytes p)).
  assert (Hpk : Store.packet_key p = as_bytes (public sk)).
  { pose proof (Store.facts_key p (Store.packet_ok_facts p Hpok) Zones.ZoneError) as Hk. unfold Store.key_of in Hk.
    rewrite Hkey in Hk. by injection Hk. }
  eexists (Zones.cache_remove st.1 (as_bytes (public sk)), <[as_bytes (public sk) := p]> st.2), _. split_and!.
  - unfold publish_current. rewrite Hp. cbn [map_err]. unfold client_publish. rewrite Hkey.
    unfold key_segment, put_route, Server.http_put. rewrite from_z32_to_z32 by apply public_valid. cbn [map_err rbind].
    rewrite Hrelay. cbn [map_err rbind]. rewrite Server.insert_newest.
    + by rewrite Hpk.
    + rewrite Hpk. intros q Hq.
      pose proof (Store.facts_ts p (Store.packet_ok_facts p Hpok) ParseError) as Hk. rewrite Hts' in Hk.
      injection Hk as <-. by apply Hold.
  - unfold pkarr_resolve, client_resolve, key_segment, get_route, Server.http_get, Zones.key_bytes_from_z32.
    rewrite from_z32_to_z32 by apply public_valid. cbn [map_err rmap rbind snd]. rewrite lookup_insert_eq.
    cbn [ok_or rbind is_success negb]. simpl. rewrite Hrelay. cbn [map_err rbind]. rewrite Hinfo. done.
  - apply parsed_same; [exact (info_wf_addrs _ Hwf)|exact (info_wf_nodup _ Hwf)|done].
Qed.
End Relay.

End Lookup.

Arguments Pending {A}.
Arguments Ready {A} x.

(** ** Witnesses *)

Definition some_item (id : EndpointId) (l : list TransportAddr) : Item :=
  mkItem (mkEndpointInfo id (mkEndpointData l None)) "test" None.
Definition some_ip : TransportAddr := TransportIp (SocketV4 [Byte.x0a; Byte.x00; Byte.x00; Byte.x01] 80).
Definition failing : @Error nat + Item := inl (mkError "dns" 7%nat).
Definition found : @Error nat + Item := inr (some_item example_id [some_ip]).

Lemma lookup_stream_complete_witness :
  ready (drive stream_new ([Pending; Ready (Some failing); Pending; Ready (Some found)] ++ [Ready None])) =
    [Some (inr failing); Some (inr found); None] /\
  drive (Src := nat) stream_empty [Pending; Pending] = [Ready (Some (inl NoServiceConfigured)); Ready None].
Proof.
  apply (lookup_stream_complete [Pending; Ready (Some failing); Pending; Ready (Some found)] [failing; found] Pending [Pending]).
  reflexivity.
Defined.

Definition waiting_state : @Remote.State (@Error nat) :=
  Remote.mkState example_id ∅ no_maps RemotePathState_new None None None None [] false.

Lemma lookup_outcome_witness :
  let s1 := (Remote.handle_msg_resolve_remote (PathStats := unit) (fun m => map_to_list m) waiting_state [] 7 5).1 in
  Remote.lookup_running s1 = true /\
  (7, lookup_answer example_id [failing]) ∈
    replies (Remote.known (fold_left (fun s item => Remote.handle_address_lookup_item (fun m => map_to_list m) s item 5)
      (omap feed (ready (drive stream_new ([Ready (Some failing)] ++ [Ready None])))) s1)).
Proof.
  apply (lookup_outcome (fun m => map_to_list m) waiting_state 7 5 [Ready (Some failing)] [failing]); reflexivity.
Defined.

Definition one_relay : MemoryLookup :=
  add_endpoint_info MemoryLookup_new (mkEndpointInfo example_id (mkEndpointData [some_ip] None)) 5.

Lemma memory_add_merges_witness :
  let self' := add_endpoint_info one_relay (EndpointInfo_new example_id) 9 in
  exists merged, get_endpoint_info self' example_id = Some (mkEndpointInfo example_id merged) /\
    NoDup (data_addrs merged) /\ data_user_data merged = None /\
    (forall a, a ∈ data_addrs merged <-> a ∈ [some_ip] \/ a ∈ []) /\
    (forall id, id <> example_id -> get_endpoint_info self' id = get_endpoint_info one_relay id).
Proof.
  apply (memory_add_merges one_relay (EndpointInfo_new example_id) 9 (mkEndpointData [some_ip] None)).
  - apply NoDup_singleton.
  - reflexivity.
Defined.

#[local] Opaque example_packet.

Lemma pkarr_publish_resolve_witness :
  exists st' d,
    @publish_current checksum_keys data_encoding packed_dns _ _ key_segment
      (@put_route checksum_keys data_encoding packed_dns list_names list_records Zones.zone_caches Store.example_store Store.Options_default 5)
      "base" example_sk 30 1700000000000000 Server.example_state relay_info = (st', Ok tt) /\
    (@pkarr_resolve checksum_keys data_encoding packed_dns scheme_urls _ _ key_segment
      (@get_route checksum_keys data_encoding list_names list_records Zones.zone_caches) "base" st' (public example_sk)).2 =
      Ok (mkItem (mkEndpointInfo (public example_sk) d) "pkarr" None) /\
    same_data (info_data relay_info) d.
Proof.
  apply (@pkarr_publish_resolve checksum_keys data_encoding packed_dns list_names list_records Zones.zone_caches
    Store.example_store scheme_urls checksum_keys_laws data_encoding_laws packed_dns_laws
    Store.Options_default 5 Server.example_state relay_info example_sk 30 1700000000000000 example_packet "base").
  - exact relay_info_wf.
  - exact relay_info_no_equals.
  - exact Server.relay_info_id.
  - unfold Store.in_u64, u64_max. lia.
  - exact Server.relay_info_packet.
  - intros q Hq. unfold Server.example_state in Hq. cbn [snd] in Hq. by rewrite lookup_empty in Hq.
Defined.

End Lookup.
