(* ===== verification/RelayHttp.v ===== *)
(** * RelayHttp: the relay's HTTP server

    Models [iroh-relay/src/server/http_server.rs] (the routes, the upgrade of a
    request to the relay protocol, the acceptance of a client into the registry,
    the establishment timeout and the accept loop) and the services of
    [iroh-relay/src/server.rs] (the request an access control sees, the page
    handlers, the captive portal service, the start of all of them and their
    supervisor). hyper, TLS and the sockets are what the turns of a [select!]
    find ready; header values, SHA-1 and base64 are parameters. *)

From S2P Require Import Prelude External Instances Utf8 Keys TunnelServer RelayFrames RelayProto RateLimit.
From S2P Require Import RelayClients Handshake Addrs RelayMap DnsResolver NetReport RelayDial.
Import Handshake.

Module Http.

(** ** Text *)

Definition lower_char (c : Ascii.ascii) : Ascii.ascii :=
  let n := Ascii.nat_of_ascii c in
  if ((65 <=? n) && (n <=? 90))%nat then Ascii.ascii_of_nat (n + 32) else c.

(** [to_ascii_lowercase]. *)
Fixpoint lower (s : string) : string :=
  match s with
  | EmptyString => EmptyString
  | String c s => String (lower_char c) (lower s)
  end.

Definition eq_ignore_ascii_case (a b : string) : bool := (lower a =? lower b)%string.

Definition space : Ascii.ascii := Ascii.ascii_of_nat 32.

(** [split_once(' ')]. *)
Fixpoint split_space (s : string) : option (string * string) :=
  match s with
  | EmptyString => None
  | String c s =>
      if Ascii.eqb c space then Some (EmptyString, s)
      else (fun '(a, b) => (String c a, b)) <$> split_space s
  end.

(** The newest of the versions, by the derived [Ord]. *)
Definition max_version (vs : list ProtocolVersion) : option ProtocolVersion :=
  fold_left (fun acc v =>
    match acc with
    | None => Some v
    | Some w => Some (if version_rank w <=? version_rank v then v else w)
    end) vs None.

Section Server.
Context {N : NoqProto} {Ed : Ed25519} {P : Postcard} {H : HandshakeCrypto} {T : HttpText H}.

(** ** Requests and responses of the http crate *)

(** A header map in the order of its iteration; a name may occur more than
    once, and names are compared without regard to case. *)
Definition HeaderMap : Type := list (string * HeaderValue).

Definition get_all (name : string) (hs : HeaderMap) : list HeaderValue :=
  omap (fun '(k, v) => if eq_ignore_ascii_case k name then Some v else None) hs.
Definition get (name : string) (hs : HeaderMap) : option HeaderValue := head (get_all name hs).

(** The parts of a request that are read. *)
Record Request := mkRequest {
  method : string;
  uri_path : string;
  uri_query : option string;
  headers : HeaderMap
}.

Record Response := mkResponse { status : Z; response_headers : HeaderMap; response_body : string }.

(** [http::response::Builder]: it remembers the first invalid header. *)
Inductive HttpError := InvalidHeaderValue.
Definition ResponseBuilder : Type := result HttpError (Z * HeaderMap).

Definition builder : ResponseBuilder := Ok (200, []).
Definition add_header (name : string) (value : HeaderValue) (b : ResponseBuilder) : ResponseBuilder :=
  let? (st, hs) := b in Ok (st, hs ++ [(name, value)]).
Definition add_text (name text : string) (b : ResponseBuilder) : ResponseBuilder :=
  let? (st, hs) := b in
  let? value := ok_or (header_from_str text) InvalidHeaderValue in
  Ok (st, hs ++ [(name, value)]).
Definition with_status (st : Z) (b : ResponseBuilder) : ResponseBuilder :=
  let? (_, hs) := b in Ok (st, hs).
Definition with_body (text : string) (b : ResponseBuilder) : result HttpError Response :=
  let? (st, hs) := b in Ok (mkResponse st hs text).
Definition add_headers (hs : HeaderMap) (b : ResponseBuilder) : ResponseBuilder :=
  fold_left (fun b '(k, v) => add_header k v b) hs b.

(** What a service fails with. *)
Inductive HyperError := HyperHttp (e : HttpError) | HyperToStr.

(** ** The request an access control sees *)

Record ClientRequest := mkClientRequest {
  connection_id : Z;
  endpoint_id : PublicKey;
  protocol_version : ProtocolVersion;
  request : Request
}.

(** [url::form_urlencoded::parse]. *)
Context (form_parse : string -> list (string * string)).

Definition query_pairs (self : ClientRequest) : list (string * string) :=
  form_parse (default EmptyString (uri_query (request self))).

(** The loop over the [Authorization] headers: [Some] when it returns. *)
Fixpoint bearer_token (values : list HeaderValue) : option (option string) :=
  match values with
  | [] => None
  | value :: values =>
      match header_to_str value with
      | None => Some None
      | Some value =>
          match split_space value with
          | Some (scheme, token) =>
              if eq_ignore_ascii_case scheme "Bearer" then Some (Some token) else bearer_token values
          | None => bearer_token values
          end
      end
  end.

Definition auth_token (self : ClientRequest) : option string :=
  match bearer_token (get_all "authorization" (headers (request self))) with
  | Some r => r
  | None => snd <$> List.find (fun '(name, _) => (name =? "token")%string) (query_pairs self)
  end.

(** ** The service *)

Definition handler : Type := Request -> ResponseBuilder -> result HyperError Response.

Record Inner := mkInner {
  handlers : gmap (string * string) handler;
  inner_headers : HeaderMap;
  rate_limit : option Rate.ClientRateLimit;
  access : ClientRequest -> Access
}.

Definition WEBSOCKET_UPGRADE_PROTOCOL : string := "websocket".
Definition SUPPORTED_WEBSOCKET_VERSION : string := "13".
Definition SEC_WEBSOCKET_ACCEPT_GUID : string := "258EAFA5-E914-47DA-95CA-C5AB0DC85B11".

Definition UPGRADE : string := "upgrade".
Definition CONNECTION : string := "connection".
Definition SEC_WEBSOCKET_KEY : string := "sec-websocket-key".
Definition SEC_WEBSOCKET_VERSION : string := "sec-websocket-version".
Definition SEC_WEBSOCKET_PROTOCOL : string := "sec-websocket-protocol".
Definition SEC_WEBSOCKET_ACCEPT : string := "sec-websocket-accept".

Definition derive_accept_key (client_key : HeaderValue) : string :=
  base64_encode (sha1 (String.list_byte_of_string (header_as_ref client_key) ++
                       String.list_byte_of_string SEC_WEBSOCKET_ACCEPT_GUID)).

Inductive RelayUpgradeReqError :=
| MissingHeader (header : string)
| InvalidHeader (header details : string)
| UnsupportedWebsocketVersion
| UnsupportedRelayVersion (we_support you_support : string).

Definition upgrade_error_text (e : RelayUpgradeReqError) : string :=
  match e with
  | MissingHeader header => "missing header: " ++ header
  | InvalidHeader header details => "invalid header value for " ++ header ++ ": " ++ details
  | UnsupportedWebsocketVersion =>
      "invalid header value for " ++ SEC_WEBSOCKET_VERSION ++
      ": unsupported websocket version, only supporting " ++ SUPPORTED_WEBSOCKET_VERSION
  | UnsupportedRelayVersion we_support you_support =>
      "invalid header value for " ++ SEC_WEBSOCKET_PROTOCOL ++ ": unsupported relay version: we support " ++
      we_support ++ " but you only provide " ++ you_support
  end%string.

(** [build_response] and [default_response], which are the same. *)
Definition default_response (self : Inner) : ResponseBuilder := add_headers (inner_headers self) builder.

Definition expect_header (req : Request) (header : string) : result RelayUpgradeReqError HeaderValue :=
  ok_or (get header (headers req)) (MissingHeader header).

Definition negotiate (subprotocols : string) : option ProtocolVersion :=
  max_version (omap (fun p => match_from_str (trim p)) (split_comma subprotocols)).

(** The checks of [handle_relay_ws_upgrade]: the client's key and the version. *)
Definition check_upgrade (req : Request) : result RelayUpgradeReqError (HeaderValue * ProtocolVersion) :=
  let? upgrade_header := expect_header req UPGRADE in
  let? _ := ensure (header_as_ref upgrade_header =? WEBSOCKET_UPGRADE_PROTOCOL)%string
              (InvalidHeader UPGRADE ("value must be " ++ WEBSOCKET_UPGRADE_PROTOCOL)%string) in
  let? key := expect_header req SEC_WEBSOCKET_KEY in
  let? version := expect_header req SEC_WEBSOCKET_VERSION in
  let? _ := ensure (header_as_ref version =? SUPPORTED_WEBSOCKET_VERSION)%string
              UnsupportedWebsocketVersion in
  let? protocols := expect_header req SEC_WEBSOCKET_PROTOCOL in
  let? subprotocols := ok_or (header_to_str protocols)
              (InvalidHeader SEC_WEBSOCKET_PROTOCOL "header value is not ascii") in
  let? protocol_version := ok_or (negotiate subprotocols)
              (UnsupportedRelayVersion all_joined subprotocols) in
  Ok (key, protocol_version).

(** [HeaderValue::from_static] panics on what is no header value. *)
Definition from_static {E} (text : string) : result E HeaderValue :=
  match header_from_str text with Some v => Ok v | None => Panic end.

(** The 101 response. *)
Definition switching_protocols (self : Inner) (key : HeaderValue) (version : ProtocolVersion)
    : result RelayUpgradeReqError Response :=
  let? websocket := from_static WEBSOCKET_UPGRADE_PROTOCOL in
  let? version := from_static (version_to_str version) in
  match with_body "switching to websocket protocol"
          (add_text CONNECTION "upgrade"
            (add_header SEC_WEBSOCKET_PROTOCOL version
              (add_text SEC_WEBSOCKET_ACCEPT (derive_accept_key key)
                (add_header UPGRADE websocket (with_status 101 (default_response self)))))) with
  | Ok r => Ok r
  | _ => Panic
  end.

(** With the response comes the version of the task that waits for the upgrade. *)
Definition handle_relay_ws_upgrade (self : Inner) (req : Request)
    : result RelayUpgradeReqError (Response * ProtocolVersion) :=
  let? (key, version) := check_upgrade req in
  let? response := switching_protocols self key version in
  Ok (response, version).

Definition not_found_fn (self : Inner) (res : ResponseBuilder) : result HyperError Response :=
  map_err HyperHttp (with_body "Not Found" (with_status 404 (add_headers (inner_headers self) res))).

(** [call]: the response, and the version of the upgrade task when one is spawned. *)
Definition call (self : Inner) (req : Request) : result HyperError Response * option ProtocolVersion :=
  if (method req =? "GET")%string && (uri_path req =? Dial.RELAY_PATH)%string then
    match handle_relay_ws_upgrade self req with
    | Ok (response, version) => (Ok response, Some version)
    | Err UnsupportedWebsocketVersion =>
        (map_err HyperHttp
           (with_body (upgrade_error_text UnsupportedWebsocketVersion)
             (add_text SEC_WEBSOCKET_VERSION SUPPORTED_WEBSOCKET_VERSION
               (with_status 400 (default_response self)))), None)
    | Err e =>
        (map_err HyperHttp (with_body (upgrade_error_text e) (with_status 400 (default_response self))), None)
    | Panic => (Panic, None)
    end
  else
    match handlers self !! (method req, uri_path req) with
    | Some handler => (handler req (default_response self), None)
    | None => (not_found_fn self (default_response self), None)
    end.

(** ** Accepting a client *)

Inductive AcceptError :=
| AcceptHandshake (source : Error)
| RateLimitingMisconfigured (source : Rate.InvalidBucketConfig).

Inductive ConnectionHandlerError :=
| HandlerAccept (source : AcceptError)
| DowncastUpgrade
| BufferNotEmpty (buf : bytes).

(** [accept] up to the registration: the configuration of the client to
    register, and the calls made to the access control. [conn] is the id the
    counter gives the request; [now] and the totals are those of the limiter. *)
Definition accept (self : Inner) (conn now bytes_total conns_total : Z) (io : Exporter) (parts : Request)
    (version : ProtocolVersion) (random : bytes)
    : proc (result AcceptError Clients.Config * list access_call) :=
  match Rate.from_cfg (rate_limit self) now bytes_total conns_total with
  | Err e => Ret (Err (RateLimitingMisconfigured e), [])
  | Panic => Ret (Panic, [])
  | Ok _ =>
      pbind (serverside io (get Dial.CLIENT_AUTH_HEADER (headers parts)) random) (fun r =>
        match r with
        | Err e => Ret (Err (AcceptHandshake e), [])
        | Panic => Ret (Panic, [])
        | Ok authentication =>
            let request := mkClientRequest conn (client_key authentication) version parts in
            pbind (authorize_with authentication (endpoint_id request) (connection_id request)
                     (access self request)) (fun '(r, calls) =>
              Ret (match r with
                   | Ok guard =>
                       Ok (Clients.mkConfig (guard_endpoint_id guard) (guard_connection_id guard)
                             PER_CLIENT_SEND_QUEUE_DEPTH version)
                   | Err e => Err (AcceptHandshake e)
                   | Panic => Panic
                   end, calls))
        end)
  end.

(** [relay_connection_handler]: [upgraded] is the stream and what was read ahead
    of the upgrade, [None] when it is not a stream of this server. *)
Definition relay_connection_handler (self : Inner) (conn now bytes_total conns_total : Z)
    (upgraded : option (Exporter * bytes)) (parts : Request) (version : ProtocolVersion) (random : bytes)
    : proc (result ConnectionHandlerError Clients.Config * list access_call) :=
  match upgraded with
  | None => Ret (Err DowncastUpgrade, [])
  | Some (io, read_buf) =>
      if bool_decide (read_buf = []) then
        pbind (accept self conn now bytes_total conns_total io parts version random) (fun '(r, calls) =>
          Ret (map_err HandlerAccept r, calls))
      else Ret (Err (BufferNotEmpty read_buf), [])
  end.

(** The task spawned with the 101 response: [upgraded] is [None] when the upgrade
    fails. The client to register, whether the waiters for the establishment are
    notified, and the calls made to the access control. *)
Definition upgrade_task (self : Inner) (conn now bytes_total conns_total : Z)
    (upgraded : option (option (Exporter * bytes))) (req : Request) (version : ProtocolVersion) (random : bytes)
    : proc (option Clients.Config * bool * list access_call) :=
  match upgraded with
  | None => Ret (None, false, [])
  | Some upgraded =>
      pbind (relay_connection_handler self conn now bytes_total conns_total upgraded req version random)
        (fun '(r, calls) =>
          Ret (match r with
               | Ok cfg => (Some cfg, true, calls)
               | _ => (None, false, calls)
               end))
  end.

(** ** The process: the counter of connection ids, the requests between their id
    and their registration, and the registry *)

Record Service := mkService {
  NEXT : Z;                        (* AtomicU64 *)
  pending : list Z;
  registry : Clients.Clients;
  stopped : bool
}.

Definition service_init : Service := mkService 0 [] Clients.empty false.

(** [ConnectionId::next]. *)
Definition next_connection_id (s : Service) : Z * Service :=
  (NEXT s, mkService ((NEXT s + 1) mod 2 ^ 64) (pending s ++ [NEXT s]) (registry s) (stopped s)).

Definition answered (conn : Z) (s : Service) : list Z := filter (fun c => c <> conn) (pending s).

(** What happens: an id is drawn, a client is accepted, a request ends without a
    client, the registry does something else, the server shuts down. *)
Inductive service_event :=
| Requested
| Accepted (parts : Request) (cfg : Clients.Config)
| Refused (conn : Z)
| Registry (o : Clients.op)
| ShutDown.

Definition is_register (o : Clients.op) : bool := if o is Clients.Register _ then true else false.

(** The task of an upgrade is not among those the server stops: it may accept
    its client after the shutdown. *)
Inductive service_step (self : Inner) : Service -> service_event -> Service -> Prop :=
| step_request s : service_step self s Requested (next_connection_id s).2
| step_accept s conn now bt ct io parts version random answers cfg calls out :
    conn ∈ pending s ->
    drive (accept self conn now bt ct io parts version random) answers = (Some (Ok cfg, calls), out) ->
    service_step self s (Accepted parts cfg)
      (mkService (NEXT s) (answered conn s) (Clients.register (registry s) cfg) (stopped s))
| step_refuse s conn :
    conn ∈ pending s ->
    service_step self s (Refused conn) (mkService (NEXT s) (answered conn s) (registry s) (stopped s))
| step_registry s o :
    is_register o = false ->
    service_step self s (Registry o)
      (mkService (NEXT s) (pending s) (Clients.apply (registry s) o) (stopped s))
| step_shutdown s :
    service_step self s ShutDown (mkService (NEXT s) (pending s) (Clients.shutdown (registry s)).1 true).

Inductive service_run (self : Inner) : list service_event -> Service -> Prop :=
| run_init : service_run self [] service_init
| run_step evs s e s' :
    service_run self evs s -> service_step self s e s' -> service_run self (evs ++ [e]) s'.

Definition requests (evs : list service_event) : Z :=
  Z.of_nat (length (omap (fun e => if e is Requested then Some tt else None) evs)).

Definition operations (evs : list service_event) : list Clients.op :=
  omap (fun e => match e with
                 | Accepted _ cfg => Some (Clients.Register cfg)
                 | Registry o => Some o
                 | _ => None
                 end) evs.

(** ** Serving a connection *)

Definition ESTABLISH_TIMEOUT : Z := from_secs 30.

(** A turn of [clearable_timeout]: the output of the future if it is ready,
    whether the notification came, whether the timer has run out. *)
Record timeout_turn (A : Type) := mkTimeoutTurn { ready : option A; notified : bool; elapsed : bool }.
#[global] Arguments mkTimeoutTurn {A}.
#[global] Arguments ready {A}.
#[global] Arguments notified {A}.
#[global] Arguments elapsed {A}.

Inductive Elapsed := mkElapsed.

(** [timeout]: whether it is still set. [None]: the turns end before the loop. *)
Fixpoint clearable_timeout {A} (timeout : bool) (turns : list (timeout_turn A)) : option (result Elapsed A) :=
  match turns with
  | [] => None
  | t :: turns =>
      match ready t with
      | Some res => Some (Ok res)
      | None =>
          if notified t then clearable_timeout false turns
          else if timeout && elapsed t then Some (Err mkElapsed)
          else clearable_timeout timeout turns
      end
  end.

Inductive io_error := UnexpectedEof | OtherIo.
Inductive hyper_error := IncompleteMessage | OtherHyper.

Inductive ServeConnectionError :=
| TlsHandshake (source : io_error)
| ServeConnection (source : hyper_error)
| ManualAccept (source : io_error)
| LetsEncryptAccept (source : io_error)
| Https (source : hyper_error)
| HttpConnection (source : hyper_error)
| EstablishTimeout.

(** The acceptor, with what it finds on the connection. *)
Inductive TlsAcceptor :=
| LetsEncrypt (accepted : result io_error (option (result io_error unit)))
| Manual (accepted : result io_error unit).

(** [serve_connection]: [served] is how hyper ends the connection. *)
Definition serve_connection (served : result hyper_error unit) : result ServeConnectionError unit :=
  map_err ServeConnection served.

Definition tls_serve_connection (acceptor : TlsAcceptor) (served : result hyper_error unit)
    : result ServeConnectionError unit :=
  match acceptor with
  | LetsEncrypt accepted =>
      let? start := map_err LetsEncryptAccept accepted in
      match start with
      | None => Ok tt
      | Some start_handshake =>
          let? _ := map_err TlsHandshake start_handshake in
          serve_connection served
      end
  | Manual accepted =>
      let? _ := map_err ManualAccept accepted in
      serve_connection served
  end.

(** The counters [handle_connection] updates. *)
Record HttpMetrics := mkHttpMetrics {
  http_connections : Z;
  http_connections_closed : Z;
  http_connections_errored : Z
}.

Definition is_peer_disconnect (e : ServeConnectionError) : bool :=
  match e with
  | ManualAccept UnexpectedEof | LetsEncryptAccept UnexpectedEof => true
  | Https IncompleteMessage | HttpConnection IncompleteMessage => true
  | _ => false
  end.

(** One connection: the turns carry, when it is ready, how hyper ended it. *)
Definition handle_connection (tls : option TlsAcceptor) (turns : list (timeout_turn (result hyper_error unit)))
    (m : HttpMetrics) : option (result ServeConnectionError unit * HttpMetrics) :=
  let serve_fut := match tls with Some acceptor => tls_serve_connection acceptor | None => serve_connection end in
  let turns := map (fun t => mkTimeoutTurn (serve_fut <$> ready t) (notified t) (elapsed t)) turns in
  match clearable_timeout true turns with
  | None => None
  | Some res =>
      let res := match res with
                 | Ok res => res
                 | Err _ => Err EstablishTimeout
                 | Panic => Panic
                 end in
      let errored := match res with Err e => negb (is_peer_disconnect e) | _ => false end in
      Some (res, mkHttpMetrics (http_connections m + 1) (http_connections_closed m + 1)
                   (http_connections_errored m + if errored then 1 else 0))
  end.

(** ** The accept loop *)

Inductive join (A : Type) := Joined (a : A) | JoinCancelled | JoinPanicked.
#[global] Arguments Joined {A}.
#[global] Arguments JoinCancelled {A}.
#[global] Arguments JoinPanicked {A}.

(** A turn of the loop: whether the server is cancelled, a connection task that
    has ended, what the listener accepts. *)
Record serve_turn := mkServeTurn {
  cancelled : bool;
  joined : option (join unit);
  accepted : option (result io_error nat)      (* the stream *)
}.

Inductive serve_event := Serve (stream : nat) | ServiceShutdown | TasksShutdown.
Inductive serve_end := Serving | Finished | ServePanicked.

Fixpoint serve_loop (turns : list serve_turn) : list serve_event * serve_end :=
  match turns with
  | [] => ([], Serving)
  | t :: turns =>
      if cancelled t then ([ServiceShutdown; TasksShutdown], Finished)
      else
        match joined t with
        | Some JoinPanicked => ([], ServePanicked)
        | Some _ => serve_loop turns
        | None =>
            match accepted t with
            | Some (Ok stream) => let '(evs, e) := serve_loop turns in (Serve stream :: evs, e)
            | _ => serve_loop turns
            end
        end
  end.

(** ** The pages *)

Definition quote : string := String (Ascii.ascii_of_nat 34) EmptyString.
Definition newline : string := String (Ascii.ascii_of_nat 10) EmptyString.

Definition INDEX : string :=
  ("<html><body>" ++ newline ++ "<h1>Iroh Relay</h1>" ++ newline ++ "<p>" ++ newline ++
   "  This is an <a href=" ++ quote ++ "https://iroh.computer/" ++ quote ++ ">Iroh</a> Relay server." ++
   newline ++ "</p>" ++ newline)%string.
Definition ROBOTS_TXT : string := ("User-agent: *" ++ newline ++ "Disallow: /" ++ newline)%string.
Definition NOTFOUND : string := "Not Found".
Definition NO_CONTENT_CHALLENGE_HEADER : string := "X-Iroh-Challenge".
Definition NO_CONTENT_RESPONSE_HEADER : string := "X-Iroh-Response".
Definition RELAY_PROBE_PATH : string := "/ping".

Definition TLS_HEADERS : list (string * string) :=
  [("Strict-Transport-Security", "max-age=63072000; includeSubDomains");
   ("Content-Security-Policy",
    "default-src 'none'; frame-ancestors 'none'; form-action 'none'; base-uri 'self'; block-all-mixed-content; plugin-types 'none'")]%string.

Definition root_handler : handler := fun _ response =>
  map_err HyperHttp (with_body INDEX (add_text "Content-Type" "text/html; charset=utf-8" (with_status 200 response))).

Definition probe_handler : handler := fun _ response =>
  map_err HyperHttp (with_body EmptyString (add_text "Access-Control-Allow-Origin" "*" (with_status 200 response))).

Definition robots_handler : handler := fun _ response =>
  map_err HyperHttp (with_body ROBOTS_TXT (with_status 200 response)).

Definition is_challenge_char (c : Ascii.ascii) : bool :=
  let n := Ascii.nat_of_ascii c in
  ((97 <=? n) && (n <=? 122) || (65 <=? n) && (n <=? 90) || (48 <=? n) && (n <=? 57)
   || (n =? 46) || (n =? 45) || (n =? 95))%nat.

Definition challenge_ok (c : string) : bool :=
  negb (c =? EmptyString)%string && (String.length c <? 64)%nat && str_forall is_challenge_char c.

Definition serve_no_content_handler : handler := fun r response =>
  let? response :=
    match get NO_CONTENT_CHALLENGE_HEADER (headers r) with
    | Some challenge =>
        if challenge_ok (header_as_ref challenge) then
          let? text := ok_or (header_to_str challenge) HyperToStr in
          Ok (add_text NO_CONTENT_RESPONSE_HEADER ("response " ++ text) response)
        else Ok response
    | None => Ok response
    end in
  map_err HyperHttp (with_body EmptyString (with_status 204 response)).

(** [serde_json::to_string] of the health record, with the version and the
    commit of the build. *)
Context (health_json : string -> string -> string -> option string) (pkg_version : string) (git_sha : option string).

Definition healthz_handler : handler := fun _ response =>
  let body := default ("{" ++ quote ++ "status" ++ quote ++ ":" ++ quote ++ "error" ++ quote ++ "}")%string
                (health_json "ok" pkg_version (default "unknown"%string git_sha)) in
  map_err HyperHttp (with_body body (add_text "Content-Type" "application/json" (with_status 200 response))).

(** [CaptivePortalService::call]. *)
Definition captive_portal_call (req : Request) : result HyperError Response :=
  if (method req =? "GET")%string && (uri_path req =? "/generate_204")%string
  then serve_no_content_handler req builder
  else map_err HyperHttp (with_body NOTFOUND (with_status 404 builder)).

(** The loop of [run_captive_portal_service]: it never ends but by a panic. *)
Fixpoint captive_portal_loop (turns : list serve_turn) : list serve_event * serve_end :=
  match turns with
  | [] => ([], Serving)
  | t :: turns =>
      match joined t with
      | Some JoinPanicked => ([], ServePanicked)
      | Some _ => captive_portal_loop turns
      | None =>
          match accepted t with
          | Some (Ok stream) => let '(evs, e) := captive_portal_loop turns in (Serve stream :: evs, e)
          | _ => captive_portal_loop turns
          end
      end
  end.

(** ** Starting the services *)

(** rustls configurations, and the Let's Encrypt client: whether its TLS
    configuration builds. *)
Context {ServerTls : Type}.

Inductive CertConfig :=
| CertLetsEncrypt (acme_client : bool) (server_config : ServerTls)
| CertManual (server_config : ServerTls).

Record TlsConfig := mkTlsConfig { https_bind_addr : Addrs.SocketAddr; cert : CertConfig }.
(** Of the limits only that of a client's traffic has an effect; the capacity of the
    key cache, which clients do not see, is left out. *)
Record RelayConfig := mkRelayConfig {
  http_bind_addr : Addrs.SocketAddr;
  tls : option TlsConfig;
  client_rx : option Rate.ClientRateLimit;
  config_access : ClientRequest -> Access
}.
Record QuicConfig := mkQuicConfig { quic_bind_addr : Addrs.SocketAddr; quic_server_config : option ServerTls }.
Record ServerConfig := mkServerConfig {
  relay : option RelayConfig;
  quic : option QuicConfig;
  metrics_addr : option Addrs.SocketAddr
}.

Inductive SpawnError :=
| QuicSpawn (tls_not_configured : bool)
| TlsHeaderParse
| BindTlsListener
| AcmeClientTlsConfig
| SpawnNoLocalAddr
| BindTcpListener (addr : Addrs.SocketAddr)
| SpawnMetrics.

(** Sockets: a TCP listener bound to an address, its address, and whether the
    QUIC endpoint and the metrics server start. *)
Context {Listener : Type} (tcp_bind : Addrs.SocketAddr -> option Listener).
Context (listener_addr : Listener -> option Addrs.SocketAddr).
Context (quic_spawn : Addrs.SocketAddr -> ServerTls -> option Addrs.SocketAddr).
Context (metrics_spawn : Addrs.SocketAddr -> bool).

Inductive service_task := AcmeTask | CaptivePortalTask (listener : Listener).

(** The relay's HTTP server, and all that runs. *)
Record HttpServer := mkHttpServer { server_addr : Addrs.SocketAddr; server_tls : option ServerTls; server_inner : Inner }.
Record Server := mkServer {
  http_addr : option Addrs.SocketAddr;
  https_addr : option Addrs.SocketAddr;
  quic_addr : option Addrs.SocketAddr;
  relay_server : option HttpServer;
  tasks : list service_task
}.

(** [ServerBuilder::headers] over [TLS_HEADERS]. *)
Definition tls_header_map : result SpawnError HeaderMap :=
  foldr (fun '(name, value) acc =>
    let? v := ok_or (header_from_str value) TlsHeaderParse in
    let? hs := acc in Ok ((name, v) :: hs)) (Ok []) TLS_HEADERS.

Definition page_handlers : gmap (string * string) handler :=
  <[("GET", "/healthz") := healthz_handler]>
  (<[("GET", "/robots.txt") := robots_handler]>
  (<[("GET", RELAY_PROBE_PATH) := probe_handler]>
  (<[("GET", "/index.html") := root_handler]>
  (<[("GET", "/") := root_handler]> ∅))))%string.

(** [ServerBuilder::spawn]. *)
Definition builder_spawn (addr : Addrs.SocketAddr) (tls : option ServerTls) (inner : Inner)
    : result SpawnError HttpServer :=
  let? listener := ok_or (tcp_bind addr) (BindTcpListener addr) in
  let? addr := ok_or (listener_addr listener) SpawnNoLocalAddr in
  Ok (mkHttpServer addr tls inner).

(** The relay half of [Server::spawn]: the server, the address of the captive
    portal service, the tasks and the TLS configuration. *)
Definition spawn_relay (config : RelayConfig)
    : result SpawnError (HttpServer * option Addrs.SocketAddr * list service_task * option ServerTls) :=
  let? hs := tls_header_map in
  let relay_bind_addr := match tls config with Some t => https_bind_addr t | None => http_bind_addr config end in
  match tls config with
  | Some t =>
      let? (server_config, acme) :=
        match cert t with
        | CertLetsEncrypt acme_client c =>
            let? _ := ensure acme_client AcmeClientTlsConfig in Ok (c, [AcmeTask])
        | CertManual c => Ok (c, [])
        end in
      let? http_listener := ok_or (tcp_bind (http_bind_addr config)) BindTlsListener in
      let? http_addr := ok_or (listener_addr http_listener) SpawnNoLocalAddr in
      let inner := mkInner page_handlers hs (client_rx config) (config_access config) in
      let? server := builder_spawn relay_bind_addr (Some server_config) inner in
      Ok (server, Some http_addr, acme ++ [CaptivePortalTask http_listener], Some server_config)
  | None =>
      let inner := mkInner (<[("GET", "/generate_204")%string := serve_no_content_handler]> page_handlers)
                     hs (client_rx config) (config_access config) in
      let? server := builder_spawn relay_bind_addr None inner in
      Ok (server, None, [], None)
  end.

Definition spawn (config : ServerConfig) : result SpawnError Server :=
  let? _ := ensure (match metrics_addr config with Some addr => metrics_spawn addr | None => true end)
              SpawnMetrics in
  let? (relay_server, http_addr, tasks, tls_config) :=
    match relay config with
    | Some relay_config =>
        let? (server, http_addr, tasks, tls_config) := spawn_relay relay_config in
        Ok (Some server, http_addr, tasks, tls_config)
    | None => Ok (None, None, [], None)
    end in
  let relay_addr := server_addr <$> relay_server in
  let? quic_addr :=
    match quic config with
    | Some quic_config =>
        let? server_config :=
          ok_or (match quic_server_config quic_config with Some c => Some c | None => tls_config end)
            (QuicSpawn true) in
        let? addr := ok_or (quic_spawn (quic_bind_addr quic_config) server_config) (QuicSpawn false) in
        Ok (Some addr)
    | None => Ok None
    end in
  Ok (mkServer (match http_addr with Some a => Some a | None => relay_addr end)
        (match http_addr with Some _ => relay_addr | None => None end)
        quic_addr relay_server tasks).

(** What answers a request on the server's plain HTTP address: the captive
    portal service when it runs, the relay otherwise. *)
Definition serve_plain (s : Server) (req : Request) : option (result HyperError Response) :=
  match List.find (fun t => if t is CaptivePortalTask _ then true else false) (tasks s) with
  | Some _ => Some (captive_portal_call req)
  | None => (fun r => (call (server_inner r) req).1) <$> relay_server s
  end.

(** ** The supervisor *)

Inductive SupervisorError :=
| AcmeEventStreamFinished
| SupervisorJoin
| NoRelayServicesEnabled
| TaskCancelled.

(** What the supervisor waits for: a task, the QUIC server, the relay's HTTP
    server. *)
Record supervisor_turn := mkSupervisorTurn {
  task_ended : option (join (result SupervisorError unit));
  quic_ended : option (join unit);
  relay_ended : option (join unit)
}.

Inductive supervisor_command := CancelRelay | AbortRelay | ShutdownQuic | AbortTasks.

Definition join_map {A B} (f : A -> B) (j : join A) : join B :=
  match j with
  | Joined a => Joined (f a)
  | JoinCancelled => JoinCancelled
  | JoinPanicked => JoinPanicked
  end.

(** The [biased] select; [None] when it waits on. *)
Definition supervisor_select (has_tasks quic_enabled relay_enabled : bool) (t : supervisor_turn)
    : option (join (result SupervisorError unit)) :=
  match (if has_tasks then task_ended t else None) with
  | Some ret => Some ret
  | None =>
      match (if quic_enabled then quic_ended t else None) with
      | Some ret => Some (join_map (fun _ => Ok tt) ret)
      | None =>
          match (if relay_enabled then relay_ended t else None) with
          | Some ret => Some (join_map (fun _ => Ok tt) ret)
          | None =>
              if has_tasks || quic_enabled || relay_enabled then None
              else Some (Joined (Err NoRelayServicesEnabled))
          end
      end
  end.

(** What is stopped at the end. The HTTP server is dropped once it is cancelled:
    its task is aborted unless it has ended. *)
Definition supervisor_stops (quic_enabled relay_enabled : bool) (t : supervisor_turn) : list supervisor_command :=
  (if relay_enabled then
     CancelRelay :: (if relay_ended t is Some _ then [] else [AbortRelay])
   else []) ++
  (if quic_enabled then [ShutdownQuic] else []) ++ [AbortTasks].

Fixpoint relay_supervisor (has_tasks quic_enabled relay_enabled : bool) (turns : list supervisor_turn)
    : option (result SupervisorError unit * list supervisor_command) :=
  match turns with
  | [] => None
  | t :: turns =>
      match supervisor_select has_tasks quic_enabled relay_enabled t with
      | None => relay_supervisor has_tasks quic_enabled relay_enabled turns
      | Some (Joined ret) => Some (ret, supervisor_stops quic_enabled relay_enabled t)
      | Some JoinCancelled => Some (Err TaskCancelled, supervisor_stops quic_enabled relay_enabled t)
      | Some JoinPanicked => Some (Panic, [])
      end
  end.

End Server.

(** ** Lemmas: versions and headers *)

Lemma max_version_from vs acc :
  let r := fold_left (fun acc v =>
    match acc with
    | None => Some v
    | Some w => Some (if version_rank w <=? version_rank v then v else w)
    end) vs acc in
  match r with
  | Some v => (acc = Some v \/ v ∈ vs) /\ (forall w, acc = Some w \/ w ∈ vs -> version_rank w <= version_rank v)
  | None => acc = None /\ vs = []
  end.
Proof.
  revert acc. induction vs as [|x vs IH]; intros acc; simpl.
  - destruct acc as [w|]; [|done]. split; [by left|]. intros w' [[= ->]|Hw]; [lia|by apply elem_of_nil in Hw].
  - specialize (IH (match acc with
                    | None => Some x
                    | Some w => Some (if version_rank w <=? version_rank x then x else w)
                    end)).
    destruct (fold_left _ vs _) as [v|]; [|by destruct acc, IH]. destruct IH as [Hin Hmax]. split.
    + destruct Hin as [E|Hv]; [|right; by right]. destruct acc as [w|]; [|injection E as ->; right; by left].
      destruct (_ <=? _); injection E as ->; [right; by left|by left].
    + intros w Hw. destruct acc as [u|].
      * assert (Hx : version_rank u <= version_rank v /\ version_rank x <= version_rank v).
        { destruct (version_rank u <=? version_rank x) eqn:E.
          - apply Z.leb_le in E. specialize (Hmax x (or_introl eq_refl)). lia.
          - apply Z.leb_gt in E. specialize (Hmax u (or_introl eq_refl)). lia. }
        destruct Hw as [[= <-]|Hw]; [apply Hx|]. apply elem_of_cons in Hw as [->|Hw]; [apply Hx|]. auto.
      * destruct Hw as [[=]|Hw]. apply elem_of_cons in Hw as [->|Hw]; auto.
Qed.

Lemma negotiate_best s v :
  negotiate s = Some v ->
  (exists p, p ∈ split_comma s /\ match_from_str (trim p) = Some v) /\
  (forall p w, p ∈ split_comma s -> match_from_str (trim p) = Some w -> version_rank w <= version_rank v).
Proof.
  unfold negotiate, max_version. intros E.
  pose proof (max_version_from (omap (fun p => match_from_str (trim p)) (split_comma s)) None) as Hm.
  simpl in Hm. rewrite E in Hm. destruct Hm as [[[=]|Hin] Hmax]. split.
  - apply list_elem_of_omap in Hin as (p & Hp & Hv). eauto.
  - intros p w Hp Hw. apply Hmax. right. apply list_elem_of_omap. eauto.
Qed.

Lemma negotiate_none s :
  negotiate s = None -> forall p, p ∈ split_comma s -> match_from_str (trim p) = None.
Proof.
  unfold negotiate, max_version. intros E p Hp.
  pose proof (max_version_from (omap (fun p => match_from_str (trim p)) (split_comma s)) None) as Hm.
  simpl in Hm. rewrite E in Hm. destruct Hm as [_ Hnil]. destruct (match_from_str (trim p)) as [v|] eqn:Ev; [|done].
  assert (Hv : v ∈ omap (fun p => match_from_str (trim p)) (split_comma s)) by (apply list_elem_of_omap; eauto).
  rewrite Hnil in Hv. by apply elem_of_nil in Hv.
Qed.

(** The versions the client offers. *)
Lemma negotiate_all : negotiate all_joined = Some V2.
Proof. vm_compute. reflexivity. Qed.

Section Facts.
Context {N : NoqProto} {Ed : Ed25519} {P : Postcard} {H : HandshakeCrypto} {T : HttpText H}.
Context {NL : NoqProtoLaws N} {EdL : Ed25519Laws Ed} {PL : PostcardLaws P} {HL : HandshakeCryptoLaws H}.
Context {TL : HttpTextLaws T}.

Lemma get_all_app name a b : get_all name (a ++ b) = get_all name a ++ get_all name b.
Proof. apply omap_app. Qed.

Lemma get_app_l name a b v : get name a = Some v -> get name (a ++ b) = Some v.
Proof. unfold get. rewrite get_all_app. by destruct (get_all name a). Qed.

Lemma get_app_r name a b : get_all name a = [] -> get name (a ++ b) = get name b.
Proof. unfold get. rewrite get_all_app. by intros ->. Qed.

Lemma add_headers_ok hs st hs' : add_headers hs (Ok (st, hs')) = Ok (st, hs' ++ hs).
Proof.
  unfold add_headers. revert hs'. induction hs as [|[k v] hs IH]; intros hs'; simpl; [by rewrite app_nil_r|].
  by rewrite IH, <- app_assoc.
Qed.

Lemma default_response_ok self : default_response self = Ok (200, inner_headers self).
Proof. unfold default_response, builder. by rewrite add_headers_ok. Qed.

Lemma visible_header s : str_forall visible_ascii s = true ->
  exists v, header_from_str s = Some v /\ header_as_ref v = s /\ header_to_str v = Some s.
Proof.
  intros Hv. destruct (header_from_str_visible s Hv) as [v E]. exists v. split; [done|].
  pose proof (header_from_str_text _ _ E) as <-. split; [done|]. by apply header_to_str_visible.
Qed.

Lemma version_visible v : str_forall visible_ascii (version_to_str v) = true.
Proof. by destruct v. Qed.

Lemma match_version v : match_from_str (version_to_str v) = Some v.
Proof. by destruct v. Qed.

(** The 101 response names the version it agreed to. *)
Lemma switching_protocols_ok self key v :
  exists websocket version accept_key conn,
    header_as_ref websocket = WEBSOCKET_UPGRADE_PROTOCOL /\
    header_as_ref accept_key = derive_accept_key key /\
    header_as_ref conn = "upgrade"%string /\ header_to_str version = Some (version_to_str v) /\
    switching_protocols self key v =
      Ok (mkResponse 101
            (inner_headers self ++ [(UPGRADE, websocket); (SEC_WEBSOCKET_ACCEPT, accept_key);
                                    (SEC_WEBSOCKET_PROTOCOL, version); (CONNECTION, conn)])
            "switching to websocket protocol").
Proof.
  destruct (visible_header WEBSOCKET_UPGRADE_PROTOCOL eq_refl) as (ws & Ews & Aws & _).
  destruct (visible_header (version_to_str v) (version_visible v)) as (ver & Ever & _ & Tver).
  destruct (visible_header (derive_accept_key key) (base64_visible _)) as (ak & Eak & Aak & _).
  destruct (visible_header "upgrade" eq_refl) as (co & Eco & Aco & _).
  exists ws, ver, ak, co. repeat (split; [done|]).
  unfold switching_protocols, from_static. rewrite Ews, Ever, default_response_ok. simpl.
  unfold add_text. simpl. rewrite Eak. simpl. rewrite Eco. simpl.
  by rewrite <- !app_assoc.
Qed.

(** ** The upgrade *)

(** A request the relay upgrades, to the newest version it offers. *)
Definition valid_upgrade (req : Request) (key : HeaderValue) (v : ProtocolVersion) : Prop :=
  exists u ver ps offered,
    get UPGRADE (headers req) = Some u /\ header_as_ref u = WEBSOCKET_UPGRADE_PROTOCOL /\
    get SEC_WEBSOCKET_KEY (headers req) = Some key /\
    get SEC_WEBSOCKET_VERSION (headers req) = Some ver /\ header_as_ref ver = SUPPORTED_WEBSOCKET_VERSION /\
    get SEC_WEBSOCKET_PROTOCOL (headers req) = Some ps /\ header_to_str ps = Some offered /\
    (exists p, p ∈ split_comma offered /\ match_from_str (trim p) = Some v) /\
    (forall p w, p ∈ split_comma offered -> match_from_str (trim p) = Some w ->
       version_rank w <= version_rank v).

Lemma version_rank_inj v w : version_rank v = version_rank w -> v = w.
Proof. by destruct v, w. Qed.

Lemma check_upgrade_valid req key v : check_upgrade req = Ok (key, v) <-> valid_upgrade req key v.
Proof.
  unfold check_upgrade, expect_header, valid_upgrade. split.
  - destruct (get UPGRADE _) as [u|]; simpl; [|done].
    destruct (String.eqb_spec (header_as_ref u) WEBSOCKET_UPGRADE_PROTOCOL) as [Eu|]; simpl; [|done].
    destruct (get SEC_WEBSOCKET_KEY _) as [key'|]; simpl; [|done].
    destruct (get SEC_WEBSOCKET_VERSION _) as [ver|]; simpl; [|done].
    destruct (String.eqb_spec (header_as_ref ver) SUPPORTED_WEBSOCKET_VERSION) as [Ev|]; simpl; [|done].
    destruct (get SEC_WEBSOCKET_PROTOCOL _) as [ps|]; simpl; [|done].
    destruct (header_to_str ps) as [offered|] eqn:Ep; simpl; [|done].
    destruct (negotiate offered) as [v'|] eqn:En; simpl; [|done]. intros [= -> ->].
    apply negotiate_best in En as [? ?]. exists u, ver, ps, offered. done.
  - intros (u & ver & ps & offered & -> & Eu & -> & -> & Ev & -> & Ep & (p & Hp & Hv) & Hbest). simpl.
    rewrite Eu. simpl. rewrite Ev. simpl. rewrite Ep. simpl.
    destruct (negotiate offered) as [v'|] eqn:En; simpl.
    + apply negotiate_best in En as [(p' & Hp' & Hv') Hbest'].
      pose proof (Hbest _ _ Hp' Hv'). pose proof (Hbest' _ _ Hp Hv).
      rewrite (version_rank_inj v' v) by lia. done.
    + by rewrite (negotiate_none _ En p Hp) in Hv.
Qed.

Lemma check_upgrade_no_panic req : check_upgrade req <> Panic.
Proof.
  unfold check_upgrade, expect_header. destruct (get UPGRADE _) as [u|]; simpl; [|done].
  destruct (_ =? _)%string; simpl; [|done]. destruct (get SEC_WEBSOCKET_KEY _); simpl; [|done].
  destruct (get SEC_WEBSOCKET_VERSION _) as [ver|]; simpl; [|done]. destruct (_ =? _)%string; simpl; [|done].
  destruct (get SEC_WEBSOCKET_PROTOCOL _) as [ps|]; simpl; [|done].
  destruct (header_to_str ps) as [o|]; simpl; [|done]. by destruct (negotiate o).
Qed.

Definition is_relay_request (req : Request) : bool :=
  (method req =? "GET")%string && (uri_path req =? Dial.RELAY_PATH)%string.

Lemma call_upgrade self req key v :
  is_relay_request req = true -> valid_upgrade req key v ->
  exists r, switching_protocols self key v = Ok r /\ call self req = (Ok r, Some v).
Proof.
  intros Hr Hv. apply check_upgrade_valid in Hv.
  destruct (switching_protocols_ok self key v) as (ws & ver & ak & co & _ & _ & _ & _ & E).
  eexists. split; [exact E|]. unfold call. unfold is_relay_request in Hr. rewrite Hr.
  unfold handle_relay_ws_upgrade. rewrite Hv. simpl. by rewrite E.
Qed.

Lemma call_refused self req e :
  is_relay_request req = true -> check_upgrade req = Err e ->
  exists r, call self req = (Ok r, None) /\ status r = 400 /\ response_body r = upgrade_error_text e.
Proof.
  intros Hr He. unfold call. unfold is_relay_request in Hr. rewrite Hr.
  unfold handle_relay_ws_upgrade. rewrite He. simpl.
  destruct (visible_header SUPPORTED_WEBSOCKET_VERSION eq_refl) as (v13 & E13 & _).
  destruct e; rewrite default_response_ok; unfold add_text; simpl; try rewrite E13; simpl; eexists; done.
Qed.

(** ** A client of this library *)

(** The headers the websocket client adds to those it is given. *)
Record websocket_request (ws : HeaderMap) (key : HeaderValue) : Prop := {
  ws_upgrade : exists u, get UPGRADE ws = Some u /\ header_as_ref u = WEBSOCKET_UPGRADE_PROTOCOL;
  ws_key : get SEC_WEBSOCKET_KEY ws = Some key;
  ws_version : exists v, get SEC_WEBSOCKET_VERSION ws = Some v /\ header_as_ref v = SUPPORTED_WEBSOCKET_VERSION;
  ws_protocol : get_all SEC_WEBSOCKET_PROTOCOL ws = [];
  ws_authorization : get_all "authorization" ws = [];
  ws_client_auth : get_all Dial.CLIENT_AUTH_HEADER ws = []
}.

(** What [upgrade_headers] puts into the request. *)
Lemma upgrade_headers_spec {Url} exporter (cb : Dial.ClientBuilder (Url := Url)) stream hs :
  Dial.upgrade_headers exporter cb stream = Ok hs ->
  (exists v, get SEC_WEBSOCKET_PROTOCOL hs = Some v /\ header_to_str v = Some all_joined) /\
  get_all "authorization" hs =
    match Dial.auth_token cb with
    | Some t => option_list (header_from_str ("Bearer " ++ t)%string)
    | None => []
    end /\
  (Dial.auth_token cb = None \/ exists t v, Dial.auth_token cb = Some t /\
     header_from_str ("Bearer " ++ t)%string = Some v) /\
  client_header (Dial.secret_key cb) (Dial.stream_exporter exporter stream) (get Dial.CLIENT_AUTH_HEADER hs).
Proof.
  unfold Dial.upgrade_headers, client_header.
  destruct (visible_header all_joined eq_refl) as (v & Ev & _ & Tv). rewrite Ev. simpl.
  destruct (Dial.auth_token cb) as [t|]; simpl.
  - destruct (header_from_str ("Bearer " ++ t)%string) as [tv|] eqn:Et; simpl; [|done].
    destruct (KeyMaterialClientAuth_new _ _) as [auth|]; simpl.
    + destruct (into_header_value auth) as [av|e|] eqn:Ea; simpl; [|done..]. intros [= <-].
      split; [by exists v|]. split; [done|]. split; [right; eauto|]. by exists av.
    + intros [= <-]. split; [by exists v|]. split; [done|]. split; [right; eauto|]. done.
  - destruct (KeyMaterialClientAuth_new _ _) as [auth|]; simpl.
    + destruct (into_header_value auth) as [av|e|] eqn:Ea; simpl; [|done..]. intros [= <-].
      split; [by exists v|]. split; [done|]. split; [by left|]. by exists av.
    + intros [= <-]. split; [by exists v|]. split; [done|]. split; [by left|]. done.
Qed.

Lemma client_request_valid {Url} exporter (cb : Dial.ClientBuilder (Url := Url)) stream hs ws key query :
  websocket_request ws key -> Dial.upgrade_headers exporter cb stream = Ok hs ->
  valid_upgrade (mkRequest "GET" Dial.RELAY_PATH query (ws ++ hs)) key V2.
Proof.
  intros Hws Hhs. apply upgrade_headers_spec in Hhs as [(ps & Eps & Tps) _].
  destruct (ws_upgrade _ _ Hws) as (u & Eu & Au). destruct (ws_version _ _ Hws) as (ver & Ever & Aver).
  exists u, ver, ps, all_joined. simpl.
  rewrite (get_app_l _ _ _ _ Eu), (get_app_l _ _ _ _ (ws_key _ _ Hws)), (get_app_l _ _ _ _ Ever).
  rewrite (get_app_r _ _ _ (ws_protocol _ _ Hws)).
  destruct (negotiate_best _ _ negotiate_all) as [Hoff Hbest]. done.
Qed.

Lemma split_space_bearer t : split_space ("Bearer " ++ t)%string = Some ("Bearer"%string, t).
Proof. reflexivity. Qed.

(** The token arrives. *)
Lemma client_token {Url} exporter (cb : Dial.ClientBuilder (Url := Url)) stream hs ws key query conn pk v form_parse t :
  websocket_request ws key -> Dial.upgrade_headers exporter cb stream = Ok hs ->
  Dial.auth_token cb = Some t -> str_forall visible_ascii t = true ->
  auth_token form_parse (mkClientRequest conn pk v (mkRequest "GET" Dial.RELAY_PATH query (ws ++ hs))) = Some t.
Proof.
  intros Hws Hhs Ht Hvis. apply upgrade_headers_spec in Hhs as (_ & Hauth & _ & _). rewrite Ht in Hauth.
  destruct (visible_header ("Bearer " ++ t)) as (tv & Etv & _ & Ttv).
  { rewrite str_forall_app, Hvis. done. }
  unfold auth_token. simpl request. simpl headers.
  rewrite get_all_app, (ws_authorization _ _ Hws), Hauth, Etv. simpl. rewrite Ttv.
  by rewrite split_space_bearer.
Qed.

(** ** The handshake of [accept] *)

Definition accept_outcome (access : Access) (pk : PublicKey) (conn : Z) (v : ProtocolVersion)
    : result AcceptError Clients.Config * list access_call :=
  match access with
  | Allow => (Ok (Clients.mkConfig pk conn PER_CLIENT_SEND_QUEUE_DEPTH v), [OnConnect conn])
  | Deny reason => (Err (AcceptHandshake (ServerDeniedAuth (default not_authorized reason))), [OnConnect conn])
  end.

(** [accept] once the client is authenticated. *)
Definition accept_tail (self : Inner) (conn : Z) (parts : Request) (version : ProtocolVersion)
    (r : result Error SuccessfulAuthentication) : proc (result AcceptError Clients.Config * list access_call) :=
  match r with
  | Err e => Ret (Err (AcceptHandshake e), [])
  | Panic => Ret (Panic, [])
  | Ok authentication =>
      let request := mkClientRequest conn (client_key authentication) version parts in
      pbind (authorize_with authentication (endpoint_id request) (connection_id request)
               (access self request)) (fun '(r, calls) =>
        Ret (match r with
             | Ok guard =>
                 Ok (Clients.mkConfig (guard_endpoint_id guard) (guard_connection_id guard)
                       PER_CLIENT_SEND_QUEUE_DEPTH version)
             | Err e => Err (AcceptHandshake e)
             | Panic => Panic
             end, calls))
  end.

Lemma accept_unfold self conn now bt ct io parts version random :
  is_ok (Rate.from_cfg (rate_limit self) now bt ct) = true ->
  accept self conn now bt ct io parts version random =
  pbind (serverside io (get Dial.CLIENT_AUTH_HEADER (headers parts)) random) (accept_tail self conn parts version).
Proof. unfold accept. by destruct (Rate.from_cfg _ _ _ _). Qed.

Lemma server_reads_auth_bind {A B} n sk c expected (f : FrameType * bytes -> proc (result Error A))
    (g : result Error SuccessfulAuthentication -> proc B) :
  run_both (S n) (ptry (read_frame expected) f)
    (pbind (await? (_, frame) := read_frame [FtClientAuth] in
            await? client_auth := Ret (deserialize_frame FtClientAuth ClientAuth_deserialize frame) in
            server_verdict c client_auth) g) []
    [encode_frame FtClientAuth (ClientAuth_fields (ClientAuth_new sk c))] =
  run_both n (ptry (read_frame expected) f)
    (g (Ok (mkSuccessfulAuthentication (public sk) SignedChallenge))) [] [].
Proof.
  simpl. fold (read_frame_result [FtClientAuth] (encode_frame FtClientAuth (ClientAuth_fields (ClientAuth_new sk c)))).
  rewrite read_encoded by set_solver. cbn [ptry pbind]. unfold deserialize_frame.
  rewrite ClientAuth_deserialize_ok by (apply public_valid || apply sign_length).
  simpl. unfold server_verdict. by rewrite ClientAuth_verify_own.
Qed.

(** The answer to the client, read where the client reads it. *)
Lemma tail_answer n expected self conn parts v auth :
  FtServerConfirmsAuth ∈ expected -> FtServerDeniesAuth ∈ expected ->
  let a := access self (mkClientRequest conn (client_key auth) v parts) in
  access_wf a ->
  run_both (S (S (S n)))
    (ptry (read_frame expected) (fun '(tag, frame) => Ret (client_finish tag frame)))
    (accept_tail self conn parts v (Ok auth)) [] [] =
  Some (client_outcome a, accept_outcome a (client_key auth) conn v).
Proof.
  intros H1 H2 a Hwf. set (p := ptry _ _). unfold accept_tail. cbn zeta. fold a.
  simpl endpoint_id. simpl connection_id. destruct a as [|r].
  - transitivity (run_both (S (S n)) p (Ret (accept_outcome Allow (client_key auth) conn v))
      [encode_frame FtServerConfirmsAuth []] []); [done|].
    unfold p. rewrite run_read by done. simpl. unfold deserialize_frame.
    by rewrite ServerConfirmsAuth_deserialize_ok.
  - set (d := mkServerDeniesAuth (default not_authorized r)).
    transitivity (run_both (S (S n)) p (Ret (accept_outcome (Deny r) (client_key auth) conn v))
      [encode_frame FtServerDeniesAuth (ServerDeniesAuth_fields d)] []); [done|].
    unfold p. rewrite run_read by done. simpl. unfold deserialize_frame.
    rewrite ServerDeniesAuth_deserialize_ok; [done|]. by destruct r.
Qed.

Lemma tail_without_challenge self conn parts v auth sk :
  let a := access self (mkClientRequest conn (client_key auth) v parts) in
  access_wf a ->
  run_both 8 (clientside sk) (accept_tail self conn parts v (Ok auth)) [] [] =
  Some (client_outcome a, accept_outcome a (client_key auth) conn v).
Proof.
  intros a Hwf. unfold accept_tail. cbn zeta. fold a. simpl endpoint_id. simpl connection_id. destruct a as [|r].
  - transitivity (run_both 7 (clientside sk) (Ret (accept_outcome Allow (client_key auth) conn v))
      [encode_frame FtServerConfirmsAuth []] []); [done|].
    rewrite client_without_challenge by set_solver. simpl. unfold deserialize_frame.
    by rewrite ServerConfirmsAuth_deserialize_ok.
  - set (d := mkServerDeniesAuth (default not_authorized r)).
    transitivity (run_both 7 (clientside sk) (Ret (accept_outcome (Deny r) (client_key auth) conn v))
      [encode_frame FtServerDeniesAuth (ServerDeniesAuth_fields d)] []); [done|].
    rewrite client_without_challenge by set_solver. simpl. unfold deserialize_frame.
    rewrite ServerDeniesAuth_deserialize_ok; [done|]. by destruct r.
Qed.

(** An honest client against [accept]. *)
Lemma accept_both self conn now bt ct sk io_c io_s parts v random :
  is_ok (Rate.from_cfg (rate_limit self) now bt ct) = true ->
  length random = 16%nat -> exporter_ok io_c ->
  client_header sk io_c (get Dial.CLIENT_AUTH_HEADER (headers parts)) ->
  let a := access self (mkClientRequest conn (public sk) v parts) in
  access_wf a ->
  run_both 8 (clientside sk) (accept self conn now bt ct io_s parts v random) [] [] =
  Some (client_outcome a, accept_outcome a (public sk) conn v).
Proof.
  intros Hrate Hrand Hio Hh a Hwf. rewrite accept_unfold by done. set (header := get _ _) in *.
  unfold serverside. destruct (check_header_own sk io_c io_s header Hio Hh) as [Hc|Hc]; rewrite Hc.
  - set (c := mkServerChallenge random).
    transitivity (run_both 7 (clientside sk)
      (pbind (await? (_, frame) := read_frame [FtClientAuth] in
              await? client_auth := Ret (deserialize_frame FtClientAuth ClientAuth_deserialize frame) in
              server_verdict c client_auth) (accept_tail self conn parts v))
      [encode_frame FtServerChallenge (ServerChallenge_fields c)] []); [done|].
    rewrite client_after_challenge by done. simpl app. rewrite server_reads_auth_bind.
    by rewrite tail_answer by (done || set_solver).
  - exact (tail_without_challenge self conn parts v (mkSuccessfulAuthentication (public sk) SignedKeyMaterial) sk Hwf).
Qed.

(** ** Any peer *)

Lemma drive_pbind {A B} (p : proc A) (k : A -> proc B) answers r out :
  drive (pbind p k) answers = (Some r, out) ->
  exists a answers1 answers2 out1 out2,
    answers = answers1 ++ answers2 /\ drive p answers1 = (Some a, out1) /\ drive (k a) answers2 = (Some r, out2).
Proof.
  revert answers out. induction p as [a|frame c IH|c IH]; intros answers out Hd; simpl in Hd.
  - exists a, [], answers, [], out. done.
  - destruct answers as [|[ok|i] answers]; [done| |done].
    destruct (drive (pbind (c ok) k) answers) as [r' out'] eqn:E. injection Hd as -> <-.
    apply IH in E as (a & a1 & a2 & o1 & o2 & -> & E1 & E2).
    exists a, (Sent ok :: a1), a2, (frame :: o1), o2. split; [done|]. split; [|done]. simpl. by rewrite E1.
  - destruct answers as [|[ok|i] answers]; [done|done|].
    apply IH in Hd as (a & a1 & a2 & o1 & o2 & -> & E1 & E2).
    exists a, (Got i :: a1), a2, o1, o2. done.
Qed.

Lemma authorize_with_ok auth pk conn a answers guard calls out :
  drive (authorize_with auth pk conn a) answers = (Some (Ok guard, calls), out) ->
  a = Allow /\ guard = mkOnDisconnectGuard pk conn.
Proof.
  destruct a as [|reason]; simpl.
  - unfold Handshake.accept, write_frame. intros Hd. split; [done|].
    destruct answers as [|[[]|i] answers]; simpl in Hd; simplify_eq/=; done.
  - unfold deny, write_frame. destruct answers as [|[[]|i] answers]; simpl; intros Hd; simplify_eq/=.
Qed.

(** What the registration of a client rests on, by the request it was made with. *)
Definition admitted_with (self : Inner) (r : ClientRequest) : Prop :=
  exists io random answers auth,
    client_key auth = endpoint_id r /\
    authentic io (get Dial.CLIENT_AUTH_HEADER (headers (request r))) random answers auth /\
    access self r = Allow.

Definition admitted (self : Inner) (e : PublicKey) (conn : Z) : Prop :=
  exists io parts v random answers auth,
    client_key auth = e /\
    authentic io (get Dial.CLIENT_AUTH_HEADER (headers parts)) random answers auth /\
    access self (mkClientRequest conn e v parts) = Allow.

(** The request of an accepted client. *)
Definition accepted_request (parts : Request) (cfg : Clients.Config) : ClientRequest :=
  mkClientRequest (Clients.cfg_connection_id cfg) (Clients.cfg_endpoint_id cfg) (Clients.cfg_protocol_version cfg) parts.

Lemma admitted_with_admitted self r : admitted_with self r -> admitted self (endpoint_id r) (connection_id r).
Proof.
  destruct r as [conn e v parts]. intros (io & random & answers & auth & Ha). by exists io, parts, v, random, answers, auth.
Qed.

Lemma accept_sound self conn now bt ct io parts v random answers cfg calls out :
  drive (accept self conn now bt ct io parts v random) answers = (Some (Ok cfg, calls), out) ->
  Clients.cfg_connection_id cfg = conn /\ Clients.cfg_protocol_version cfg = v /\
  admitted_with self (accepted_request parts cfg).
Proof.
  unfold accept. destruct (Rate.from_cfg _ _ _ _) as [rl|e|]; simpl; [|intros Hd; simplify_eq..].
  intros Hd. apply drive_pbind in Hd as (r & a1 & a2 & o1 & o2 & -> & E1 & E2).
  pose proof (drive_server io _ random a1 r o1 E1) as Hs.
  destruct r as [auth|e|]; simpl in E2; [|simplify_eq..].
  apply drive_pbind in E2 as ([r calls'] & b1 & b2 & q1 & q2 & -> & F1 & F2). simpl in F2.
  destruct r as [guard|e|]; simplify_eq/=. apply authorize_with_ok in F1 as [Ha ->]. simpl.
  split; [done|]. split; [done|]. by exists io, random, a1, auth.
Qed.

(** ** Runs of the service *)

Lemma requests_app a b : requests (a ++ b) = requests a + requests b.
Proof. unfold requests. rewrite omap_app, length_app. lia. Qed.

Lemma requests_nonneg a : 0 <= requests a.
Proof. unfold requests. lia. Qed.

Lemma operations_app a b : operations (a ++ b) = operations a ++ operations b.
Proof. apply omap_app. Qed.

Lemma run_app s a b : Clients.run s (a ++ b) = Clients.run (Clients.run s a) b.
Proof. apply fold_left_app. Qed.

Lemma accepted_registered evs parts cfg :
  Accepted parts cfg ∈ evs -> Clients.cfg_connection_id cfg ∈ Clients.registered (operations evs).
Proof.
  intros Hin. unfold Clients.registered, operations. apply list_elem_of_omap.
  exists (Clients.Register cfg). split; [|done]. apply list_elem_of_omap. by exists (Accepted parts cfg).
Qed.

Lemma accepted_once evs parts cfg parts' cfg' :
  NoDup (Clients.registered (operations evs)) -> Accepted parts cfg ∈ evs -> Accepted parts' cfg' ∈ evs ->
  Clients.cfg_connection_id cfg = Clients.cfg_connection_id cfg' -> parts = parts' /\ cfg = cfg'.
Proof.
  induction evs as [|e evs IH]; [by intros _ ?%elem_of_nil|]. intros Hnd Hl Hr Hid.
  assert (Hfirst : forall parts cfg, e = Accepted parts cfg ->
    forall parts' cfg', Accepted parts' cfg' ∈ evs -> Clients.cfg_connection_id cfg <> Clients.cfg_connection_id cfg').
  { intros p c -> p' c' Hin Heq. change (operations (Accepted p c :: evs)) with (Clients.Register c :: operations evs) in Hnd.
    apply NoDup_cons in Hnd as [Hx _]. apply Hx. rewrite Heq. by apply (accepted_registered evs p' c'). }
  assert (Hnd' : NoDup (Clients.registered (operations evs))).
  { eapply sublist_NoDup; [exact Hnd|]. by destruct e as [| | |[]|]; first [reflexivity|apply sublist_cons]. }
  apply elem_of_cons in Hl as [Hl|Hl], Hr as [Hr|Hr].
  - rewrite <- Hl in Hr. by injection Hr as -> ->.
  - by destruct (Hfirst _ _ (eq_sym Hl) _ _ Hr).
  - by destruct (Hfirst _ _ (eq_sym Hr) _ _ Hl).
  - by apply IH.
Qed.

Record service_inv (self : Inner) (evs : list service_event) (s : Service) : Prop := {
  si_next : NEXT s = requests evs mod 2 ^ 64;
  si_nodup : NoDup (pending s ++ Clients.registered (operations evs));
  si_range c : c ∈ pending s ++ Clients.registered (operations evs) -> 0 <= c < requests evs;
  si_distinct : Clients.distinct (registry s);
  si_conns e c : c ∈ Clients.abs_conns (registry s) e ->
    exists parts cfg, Accepted parts cfg ∈ evs /\ Clients.cfg_endpoint_id cfg = e /\ Clients.cfg_connection_id cfg = c;
  si_admitted parts cfg : Accepted parts cfg ∈ evs -> admitted_with self (accepted_request parts cfg);
  si_registry : stopped s = false -> registry s = Clients.run Clients.empty (operations evs)
}.

Lemma elem_of_snoc {A} (x y : A) l : x ∈ l -> x ∈ l ++ [y].
Proof. intros. apply elem_of_app. by left. Qed.

Lemma service_inv_init self : service_inv self [] service_init.
Proof.
  destruct Clients.empty_refines as (Hd & Hr & _). constructor; simpl; try done.
  - constructor.
  - intros c Hc. by apply elem_of_nil in Hc.
  - intros e c Hc. unfold Clients.abs_conns in Hc. simpl in Hc. rewrite lookup_empty in Hc.
    by apply elem_of_nil in Hc.
  - intros parts cfg Hc. by apply elem_of_nil in Hc.
Qed.

Lemma service_inv_request self evs s :
  service_inv self evs s -> requests evs < 2 ^ 64 ->
  service_inv self (evs ++ [Requested]) (next_connection_id s).2.
Proof.
  intros [Hn Hnd Hr Hd Hc Ha Hs] Hlt. pose proof (requests_nonneg evs).
  assert (Hreq : requests (evs ++ [Requested]) = requests evs + 1) by (rewrite requests_app; done).
  assert (Hops : operations (evs ++ [Requested]) = operations evs)
    by (rewrite operations_app; apply app_nil_r).
  assert (HN : NEXT s = requests evs) by (rewrite Hn; apply Z.mod_small; lia).
  constructor; simpl; rewrite ?Hops, ?Hreq.
  - by rewrite HN.
  - rewrite HN, <- app_assoc. apply NoDup_Permutation_proper with
      (y := requests evs :: pending s ++ Clients.registered (operations evs)).
    { by rewrite Permutation_middle. }
    constructor; [|done]. intros Hin. apply Hr in Hin. lia.
  - intros c Hin. rewrite HN in Hin. rewrite <- app_assoc in Hin.
    apply elem_of_app in Hin as [Hin|Hin]; [assert (0 <= c < requests evs) by (apply Hr, elem_of_app; by left); lia|].
    apply elem_of_cons in Hin as [->|Hin]; [lia|].
    assert (0 <= c < requests evs) by (apply Hr, elem_of_app; by right). lia.
  - done.
  - intros e c Hin. destruct (Hc e c Hin) as (parts & cfg & Hcfg & ?). exists parts, cfg. split; [by apply elem_of_snoc|done].
  - intros parts cfg Hin. apply elem_of_app in Hin as [Hin|Hin]; [auto|]. by apply list_elem_of_singleton in Hin.
  - done.
Qed.

Lemma service_inv_quiet self evs s e s' :
  service_inv self evs s -> NEXT s' = NEXT s -> operations [e] = [] -> requests [e] = 0 ->
  (forall parts cfg, e <> Accepted parts cfg) -> sublist (pending s') (pending s) ->
  Clients.distinct (registry s') ->
  (forall x c, c ∈ Clients.abs_conns (registry s') x -> c ∈ Clients.abs_conns (registry s) x) ->
  (stopped s' = false -> stopped s = false /\ registry s' = registry s) ->
  service_inv self (evs ++ [e]) s'.
Proof.
  intros [Hn Hnd Hr Hd Hc Ha Hs] HN Hops Hreq Hne Hp Hd' Hconns Hst.
  constructor; rewrite ?requests_app, ?operations_app, ?Hops, ?Hreq, ?Z.add_0_r, ?app_nil_r.
  - congruence.
  - eapply sublist_NoDup; [exact Hnd|]. by apply sublist_app.
  - intros c Hin. apply Hr. apply elem_of_app in Hin as [Hin|Hin]; apply elem_of_app; [left|by right].
    by eapply elem_of_sublist.
  - done.
  - intros x c Hin. destruct (Hc x c (Hconns _ _ Hin)) as (parts & cfg & Hcfg & ?). exists parts, cfg.
    split; [by apply elem_of_snoc|done].
  - intros parts cfg Hin. apply elem_of_app in Hin as [Hin|Hin]; [auto|].
    apply list_elem_of_singleton in Hin. by destruct (Hne parts cfg).
  - intros Hf. destruct (Hst Hf) as [Hf' ->]. auto.
Qed.

Lemma registered_snoc evs parts cfg :
  Clients.registered (operations (evs ++ [Accepted parts cfg])) =
  Clients.registered (operations evs) ++ [Clients.cfg_connection_id cfg].
Proof. rewrite operations_app. unfold Clients.registered. by rewrite omap_app. Qed.

Lemma answered_split conn s :
  NoDup (pending s) -> conn ∈ pending s -> pending s ≡ₚ conn :: answered conn s.
Proof.
  unfold answered. generalize (pending s) as l. induction l as [|x l IH]; intros Hnd Hin; [by apply elem_of_nil in Hin|].
  apply NoDup_cons in Hnd as [Hx Hnd]. rewrite filter_cons. case_decide as Hxc.
  - apply elem_of_cons in Hin as [->|Hin]; [done|]. rewrite (IH Hnd Hin) at 1. apply Permutation_swap.
  - subst x. f_equiv. clear IH Hin Hnd. induction l as [|y l IH]; [done|].
    apply not_elem_of_cons in Hx as [Hy Hl]. rewrite filter_cons_True by congruence. f_equiv. auto.
Qed.

Lemma service_inv_accept self evs s conn parts cfg :
  service_inv self evs s -> conn ∈ pending s -> Clients.cfg_connection_id cfg = conn ->
  admitted_with self (accepted_request parts cfg) ->
  service_inv self (evs ++ [Accepted parts cfg])
    (mkService (NEXT s) (answered conn s) (Clients.register (registry s) cfg) (stopped s)).
Proof.
  intros [Hn Hnd Hr Hd Hc Ha Hs] Hin Hconn Hadm.
  assert (Hreq : requests (evs ++ [Accepted parts cfg]) = requests evs) by (rewrite requests_app; apply Z.add_0_r).
  assert (Hperm : pending s ++ Clients.registered (operations evs) ≡ₚ
                  answered conn s ++ Clients.registered (operations evs) ++ [conn]).
  { apply NoDup_app in Hnd as [Hnd _]. rewrite (answered_split conn s Hnd Hin) at 1.
    rewrite app_assoc, (Permutation_app_comm _ [conn]). done. }
  assert (Hfresh : forall e, conn ∉ Clients.abs_conns (registry s) e).
  { intros e He. destruct (Hc e conn He) as (parts' & cfg' & Hcfg & _ & Hid). apply accepted_registered in Hcfg.
    rewrite Hid in Hcfg. apply NoDup_app in Hnd as (_ & Hdis & _). by apply (Hdis conn). }
  constructor; simpl; rewrite ?registered_snoc, ?Hreq, ?Hconn.
  - done.
  - by rewrite <- Hperm.
  - intros c. rewrite <- Hperm. apply Hr.
  - intros e. rewrite Clients.register_conns. unfold Clients.upd. case_decide; [|apply Hd].
    rewrite Hconn. constructor; [apply Hfresh|apply Hd].
  - intros e c. rewrite Clients.register_conns. unfold Clients.upd. case_decide as He.
    + rewrite Hconn. intros Hcin. apply elem_of_cons in Hcin as [->|Hcin].
      * exists parts, cfg. split; [apply elem_of_app; right; by apply list_elem_of_singleton|]. done.
      * subst e. destruct (Hc _ c Hcin) as (parts' & cfg' & Hcfg & ?). exists parts', cfg'. split; [by apply elem_of_snoc|done].
    + intros Hcin. destruct (Hc e c Hcin) as (parts' & cfg' & Hcfg & ?). exists parts', cfg'. split; [by apply elem_of_snoc|done].
  - intros parts' cfg' Hcfg. apply elem_of_app in Hcfg as [Hcfg|Hcfg]; [auto|].
    apply list_elem_of_singleton in Hcfg. by injection Hcfg as -> ->.
  - intros Hf. rewrite operations_app, run_app, <- (Hs Hf). done.
Qed.

(** What the registry does beside registering keeps its connections. *)
Lemma apply_conns s o e c :
  is_register o = false -> Clients.distinct s ->
  c ∈ Clients.abs_conns (Clients.apply s o) e -> c ∈ Clients.abs_conns s e.
Proof.
  intros Ho Hd. destruct o as [cfg|id conn|id conn|dst data src]; simpl; [done| | |].
  - rewrite Clients.unregister_conns by done. unfold Clients.upd. case_decide as He; [|done]. subst.
    apply Clients.filter_subset.
  - by rewrite Clients.disconnect_conns.
  - by rewrite Clients.send_packet_conns.
Qed.

Lemma apply_keeps_distinct s o :
  is_register o = false -> Clients.distinct s -> Clients.distinct (Clients.apply s o).
Proof.
  intros Ho Hd e. destruct o as [cfg|id conn|id conn|dst data src]; simpl; [done| | |].
  - rewrite Clients.unregister_conns by done. unfold Clients.upd. case_decide; [|apply Hd].
    apply NoDup_ListNoDup, List.NoDup_filter, NoDup_ListNoDup, Hd.
  - rewrite Clients.disconnect_conns. apply Hd.
  - rewrite Clients.send_packet_conns. apply Hd.
Qed.

Lemma service_inv_registry self evs s o :
  service_inv self evs s -> is_register o = false ->
  service_inv self (evs ++ [Registry o])
    (mkService (NEXT s) (pending s) (Clients.apply (registry s) o) (stopped s)).
Proof.
  intros [Hn Hnd Hr Hd Hc Ha Hs] Ho.
  assert (Hreq : requests (evs ++ [Registry o]) = requests evs) by (rewrite requests_app; apply Z.add_0_r).
  assert (Hreg : Clients.registered (operations (evs ++ [Registry o])) = Clients.registered (operations evs)).
  { rewrite operations_app. unfold Clients.registered. rewrite omap_app. destruct o; [done|apply app_nil_r..]. }
  constructor; simpl; rewrite ?Hreg, ?Hreq; try done.
  - by apply apply_keeps_distinct.
  - intros e c Hin. apply apply_conns in Hin; [|done..]. destruct (Hc e c Hin) as (parts & cfg & Hcfg & ?).
    exists parts, cfg. split; [by apply elem_of_snoc|done].
  - intros parts cfg Hin. apply elem_of_app in Hin as [Hin|Hin]; [auto|]. by apply list_elem_of_singleton in Hin.
  - intros Hf. rewrite operations_app, run_app, <- (Hs Hf). done.
Qed.

Lemma shutdown_conns s e : Clients.abs_conns (Clients.shutdown s).1 e = [].
Proof. unfold Clients.abs_conns. simpl. by rewrite lookup_empty. Qed.

Lemma service_inv_run self evs s :
  service_run self evs s -> requests evs <= 2 ^ 64 -> service_inv self evs s.
Proof.
  induction 1 as [|evs s e s' Hrun IH Hstep]; intros Hle; [apply service_inv_init|].
  rewrite requests_app in Hle. pose proof (requests_nonneg [e]).
  specialize (IH ltac:(lia)). pose proof (si_distinct _ _ _ IH).
  destruct Hstep as [s|s conn now bt ct io parts v random answers cfg calls out Hin Hd|s conn Hin|s o Ho|s].
  - apply service_inv_request; [done|]. change (requests [Requested]) with 1 in Hle. lia.
  - apply accept_sound in Hd as (? & _ & ?). by eapply service_inv_accept.
  - apply (service_inv_quiet self evs s); simpl; try done. apply sublist_filter.
  - by apply service_inv_registry.
  - apply (service_inv_quiet self evs s); cbn [registry stopped pending]; try done.
    + intros e. rewrite shutdown_conns. constructor.
    + intros x c Hin. rewrite shutdown_conns in Hin. by apply elem_of_nil in Hin.
Qed.

(** ** The establishment timeout *)

(** Turns at which the connection goes on, not yet established. *)
Definition waiting {A} (t : timeout_turn A) : Prop := ready t = None /\ notified t = false /\ elapsed t = false.

(** The timer runs out on a connection that is neither over nor established. *)
Definition timed_out {A} (turns : list (timeout_turn A)) : Prop :=
  exists pre t post, turns = pre ++ t :: post /\ Forall waiting pre /\
    ready t = None /\ notified t = false /\ elapsed t = true.

Lemma timeout_cleared {A} (turns : list (timeout_turn A)) e : clearable_timeout false turns <> Some (Err e).
Proof. induction turns as [|t turns IH]; simpl; [done|]. destruct (ready t); [done|]. by destruct (notified t). Qed.

Lemma timed_out_cons {A} (t : timeout_turn A) turns : waiting t -> timed_out (t :: turns) <-> timed_out turns.
Proof.
  intros (Hr & Hn & He). split.
  - intros ([|u pre] & v & post & Heq & Hpre & Hv & Hn' & He'); simplify_eq/=; [congruence|].
    apply Forall_cons in Hpre as [_ Hpre]. by exists pre, v, post.
  - intros (pre & v & post & -> & Hpre & Hv). exists (t :: pre), v, post.
    split; [done|]. split; [|done]. by constructor.
Qed.

Lemma timeout_exact {A} (turns : list (timeout_turn A)) :
  (exists e, clearable_timeout true turns = Some (Err e)) <-> timed_out turns.
Proof.
  induction turns as [|t turns IH]; simpl.
  - split; [by intros [e ?]|]. intros ([|] & ? & ? & ? & _); done.
  - destruct (ready t) as [a|] eqn:Hr.
    { split; [by intros [e ?]|]. intros ([|u pre] & v & post & Heq & Hpre & Hv & _); simplify_eq/=; try congruence.
      apply Forall_cons in Hpre as [(? & _) _]. congruence. }
    destruct (notified t) eqn:Hn.
    { split; [intros [e He]; by apply timeout_cleared in He|].
      intros ([|u pre] & v & post & Heq & Hpre & _ & Hv & _); simplify_eq/=; try congruence.
      apply Forall_cons in Hpre as [(_ & ? & _) _]. congruence. }
    destruct (elapsed t) eqn:He.
    + split; [|eauto]. intros _. by exists [], t, turns.
    + rewrite timed_out_cons by done. exact IH.
Qed.

Lemma timed_out_map {A B} (f : A -> B) turns :
  timed_out (map (fun t => mkTimeoutTurn (f <$> ready t) (notified t) (elapsed t)) turns) <-> timed_out turns.
Proof.
  assert (Hw : forall t, waiting (mkTimeoutTurn (f <$> ready t) (notified t) (elapsed t)) <-> waiting t).
  { intros t. unfold waiting. simpl. by rewrite fmap_None. }
  split.
  - intros (pre & t & post & Heq & Hpre & Hr & Hn & He).
    apply fmap_app_inv in Heq as (pre' & rest & -> & Heq & ->).
    destruct rest as [|t' post']; [done|]. injection Heq as -> ->. simpl in *.
    exists pre', t', post'. rewrite fmap_None in Hr. repeat split; try done.
    rewrite Forall_fmap in Hpre. eapply Forall_impl; [exact Hpre|]. intros u. apply Hw.
  - intros (pre & t & post & -> & Hpre & Hr & Hn & He). rewrite map_app. simpl.
    eexists _, _, _. split; [done|]. simpl. rewrite Hr. repeat split; try done.
    apply List.Forall_map. eapply Forall_impl; [exact Hpre|]. intros u. apply Hw.
Qed.

(** The errors a connection can end with: hyper's are all of one kind. *)
Lemma serve_error tls served e :
  (match tls with Some acceptor => tls_serve_connection acceptor | None => serve_connection end) served = Err e ->
  e <> EstablishTimeout /\ (forall h, e <> Https h) /\ (forall h, e <> HttpConnection h).
Proof.
  destruct tls as [[[[[[]|x|]|]|x|]|[[]|x|]]|]; simpl; unfold serve_connection; destruct served; simpl;
    intros E; simplify_eq; done.
Qed.

(** Requests beside the relay path. *)
Lemma call_handler self req :
  is_relay_request req = false ->
  call self req = (match (handlers self !! (method req, uri_path req) : option handler) with
                   | Some h => h req (default_response self)
                   | None => not_found_fn self (default_response self)
                   end, None).
Proof.
  intros Hrel. unfold call. unfold is_relay_request in Hrel. rewrite Hrel. by destruct (handlers self !! _).
Qed.

(** ** The captive portal check *)

Lemma challenge_visible c : str_forall is_challenge_char c = true -> str_forall visible_ascii c = true.
Proof. apply str_forall_impl. intros x. destruct x as [[] [] [] [] [] [] [] []]; done. Qed.

Lemma challenge_ok_host host :
  challenge_ok (NetReport.portal_challenge host) = true <->
  (String.length host <= 60)%nat /\ str_forall is_challenge_char host = true.
Proof.
  unfold challenge_ok. change (str_forall is_challenge_char (NetReport.portal_challenge host)) with (str_forall is_challenge_char host).
  change (String.length (NetReport.portal_challenge host)) with (3 + String.length host)%nat. change (negb _) with true.
  rewrite andb_true_iff, andb_true_l, Nat.ltb_lt. split; intros []; split; (done || lia).
Qed.

(** What the handler answers to a challenge, after the headers of the server. *)
Lemma no_content_answer r hs c :
  get NO_CONTENT_CHALLENGE_HEADER (headers r) = Some c ->
  exists hs', serve_no_content_handler r (Ok (200, hs)) = Ok (mkResponse 204 (hs ++ hs') EmptyString) /\
    (if challenge_ok (header_as_ref c)
     then exists v, hs' = [(NO_CONTENT_RESPONSE_HEADER, v)] /\
                    header_to_str v = Some ("response " ++ header_as_ref c)%string
     else hs' = []).
Proof.
  intros E. unfold serve_no_content_handler. rewrite E. destruct (challenge_ok (header_as_ref c)) eqn:Hc.
  - unfold challenge_ok in Hc. apply andb_true_iff in Hc as [_ Hc]. apply challenge_visible in Hc.
    rewrite (header_to_str_visible _ Hc). simpl. unfold add_text. simpl.
    destruct (visible_header ("response " ++ header_as_ref c)) as (v & Ev & _ & Tv).
    { rewrite str_forall_app, Hc. done. }
    simpl in Ev. rewrite Ev. simpl. eexists. split; [done|]. by exists v.
  - exists []. simpl. by rewrite app_nil_r.
Qed.

(** The headers every response carries. *)
Lemma tls_header_map_ok :
  exists hs, tls_header_map = Ok hs /\ get_all NO_CONTENT_RESPONSE_HEADER hs = [] /\
             get_all SEC_WEBSOCKET_PROTOCOL hs = [].
Proof.
  unfold tls_header_map, TLS_HEADERS. simpl.
  destruct (visible_header "max-age=63072000; includeSubDomains" eq_refl) as (a & Ea & _).
  match goal with |- context [header_from_str ?x] =>
    match x with context ["default-src"%string] => idtac | _ => idtac end end.
  rewrite Ea. simpl.
  match goal with |- context [header_from_str ?x] =>
    destruct (visible_header x eq_refl) as (b & Eb & _); rewrite Eb end.
  simpl. eexists. split; [done|]. done.
Qed.

Section Spawned.
Context (health_json : string -> string -> string -> option string) (pkg_version : string) (git_sha : option string).
Context {ServerTls Listener : Type} (tcp_bind : Addrs.SocketAddr -> option Listener).
Context (listener_addr : Listener -> option Addrs.SocketAddr).
Context (quic_spawn : Addrs.SocketAddr -> ServerTls -> option Addrs.SocketAddr).
Context (metrics_spawn : Addrs.SocketAddr -> bool).

Notation spawn := (spawn health_json pkg_version git_sha tcp_bind listener_addr quic_spawn metrics_spawn).
Notation spawn_relay := (spawn_relay (ServerTls := ServerTls) health_json pkg_version git_sha tcp_bind listener_addr).

(** The address a bound socket has. *)
Definition bound_addr (a : Addrs.SocketAddr) : option Addrs.SocketAddr := tcp_bind a ≫= listener_addr.

Lemma builder_spawn_ok addr (tls : option ServerTls) inner (server : HttpServer (ServerTls := ServerTls)) :
  builder_spawn tcp_bind listener_addr addr tls inner = Ok server ->
  bound_addr addr = Some (server_addr server) /\ server_tls server = tls /\ server_inner server = inner.
Proof.
  unfold builder_spawn, bound_addr. destruct (tcp_bind addr) as [l|]; simpl; [|done].
  destruct (listener_addr l) as [a|]; simpl; [|done]. by intros [= <-].
Qed.

(** The HTTP services of a relay configuration. *)
Lemma spawn_relay_ok config server http tasks tls_config :
  spawn_relay config = Ok (server, http, tasks, tls_config) ->
  exists hs, tls_header_map = Ok hs /\ inner_headers (server_inner server) = hs /\
    access (server_inner server) = config_access config /\
    rate_limit (server_inner server) = client_rx config /\
    match tls config with
    | Some t =>
        bound_addr (https_bind_addr t) = Some (server_addr server) /\
        is_Some http /\ bound_addr (http_bind_addr config) = http /\
        handlers (server_inner server) = page_handlers health_json pkg_version git_sha /\
        List.find (fun t => if t is CaptivePortalTask _ then true else false) tasks <> None /\
        is_Some tls_config /\ server_tls server = tls_config
    | None =>
        bound_addr (http_bind_addr config) = Some (server_addr server) /\
        http = None /\ tasks = [] /\ tls_config = None /\ server_tls server = None /\
        handlers (server_inner server) =
          <[("GET", "/generate_204")%string := serve_no_content_handler]>
            (page_handlers health_json pkg_version git_sha)
    end.
Proof.
  unfold Http.spawn_relay. destruct tls_header_map as [hs|e|]; simpl; [|done..].
  destruct (tls config) as [t|] eqn:Etls; simpl.
  - destruct (match cert t with CertLetsEncrypt _ _ => _ | CertManual _ => _ end) as [[c acme]|e|] eqn:Ec; simpl; [|done..].
    destruct (tcp_bind (http_bind_addr config)) as [l|] eqn:El; simpl; [|done].
    destruct (listener_addr l) as [a|] eqn:Ea; simpl; [|done].
    destruct (builder_spawn _ _ _ _ _) as [sv|e|] eqn:Eb; simpl; [|done..].
    apply builder_spawn_ok in Eb as (Hb & Ht & Hi). intros [= <- <- <- <-]. rewrite Hi.
    exists hs. simpl. repeat (split; [done|]).
    split; [unfold bound_addr; by rewrite El|]. split; [done|]. split; [|split; [by eexists|done]].
    clear Ec. induction acme as [|[] acme IH]; simpl; done.
  - destruct (builder_spawn _ _ _ _ _) as [sv|e|] eqn:Eb; simpl; [|done..].
    apply builder_spawn_ok in Eb as (Hb & Ht & Hi). intros [= <- <- <- <-]. rewrite Hi.
    exists hs. simpl. done.
Qed.

Lemma spawn_ok config rc srv :
  spawn config = Ok srv -> relay config = Some rc ->
  exists server http tasks' tls_config, spawn_relay rc = Ok (server, http, tasks', tls_config) /\
    relay_server srv = Some server /\ tasks srv = tasks' /\
    http_addr srv = match http with Some a => Some a | None => Some (server_addr server) end /\
    https_addr srv = (if http is Some _ then Some (server_addr server) else None).
Proof.
  unfold Http.spawn. intros Hs Hrc. rewrite Hrc in Hs.
  destruct (ensure _ _) as [u|e|]; simpl in Hs; [|done..].
  destruct (spawn_relay rc) as [[[[server http] tasks'] tls_config]|e|] eqn:Er; simpl in Hs; [|done..].
  destruct (match quic config with Some _ => _ | None => _ end) as [q|e|]; simpl in Hs; [|done..].
  injection Hs as <-. exists server, http, tasks', tls_config. done.
Qed.

(** The captive portal check's request, sent to the server's HTTP address. *)
Definition portal_get (srv : Server (ServerTls := ServerTls) (Listener := Listener))
    (_ : option (string * list Addrs.SocketAddr)) (_ : string) (hs : list (string * string))
    : option NetReport.http_response :=
  hs ← mapM (fun '(k, v) => pair k <$> header_from_str v) hs;
  match serve_plain srv (mkRequest "GET" "/generate_204" None hs) with
  | Some (Ok r) =>
      Some (NetReport.mkResponse (status r) (fun name => header_to_str <$> get name (response_headers r)) 0)
  | _ => None
  end.

Lemma portal_get_answer config rc srv client url host :
  spawn config = Ok srv -> relay config = Some rc -> str_forall visible_ascii host = true ->
  exists r, portal_get srv client url [("X-Iroh-Challenge"%string, NetReport.portal_challenge host)] = Some r /\
    NetReport.resp_status r = 204 /\
    NetReport.resp_header r "X-Iroh-Response" =
      (if challenge_ok (NetReport.portal_challenge host)
       then Some (Some (NetReport.portal_response (NetReport.portal_challenge host))) else None).
Proof.
  intros Hs Hrc Hvis. destruct (spawn_ok _ _ _ Hs Hrc) as (server & http & ts & tc & Hr & Hserver & Hts & _).
  apply spawn_relay_ok in Hr as (hs & Ehs & Hih & _ & _ & Hr).
  destruct tls_header_map_ok as (hs' & Ehs' & Hno & _). rewrite Ehs in Ehs'. injection Ehs' as <-.
  destruct (visible_header (NetReport.portal_challenge host)) as (c & Ec & Ac & _).
  { unfold NetReport.portal_challenge. rewrite str_forall_app, Hvis. done. }
  unfold portal_get. simpl mapM. simpl in Ec. rewrite Ec. simpl.
  set (req := mkRequest _ _ _ _).
  assert (Hget : get NO_CONTENT_CHALLENGE_HEADER (headers req) = Some c) by done.
  assert (Hplain : exists own, get_all NO_CONTENT_RESPONSE_HEADER own = [] /\
            serve_plain srv req = Some (serve_no_content_handler req (Ok (200, own)))).
  { unfold serve_plain. rewrite Hts, Hserver. destruct (tls rc) as [t|].
    - destruct Hr as (_ & _ & _ & _ & Hf & _). exists []. split; [done|].
      destruct (List.find _ ts); [done|by destruct Hf].
    - destruct Hr as (_ & _ & -> & _ & _ & Hh). exists hs. split; [done|]. simpl. unfold call. simpl.
      rewrite Hh, lookup_insert_eq, default_response_ok, Hih. done. }
  destruct Hplain as (own & Hown & ->). destruct (no_content_answer req own c Hget) as (hs' & -> & Hhs').
  eexists. split; [done|]. split; [done|]. simpl. rewrite (get_app_r _ _ _ Hown). rewrite Ac in Hhs'.
  destruct (challenge_ok _).
  - destruct Hhs' as (v & -> & Tv). unfold get. simpl. by rewrite Tv.
  - by rewrite Hhs'.
Qed.

(** The captive portal check of the client, made against a relay of this
    library over TLS or not, says that there is no portal exactly when the
    relay's host name has at most 60 characters, all letters, digits, dots,
    hyphens or underscores. For a longer name the relay does not answer the
    challenge and the client takes it for a portal. *)
Theorem portal_check_of_relay config rc srv url_host host_str lookup client_builds s dm u choice host client r :
  spawn config = Ok srv -> relay config = Some rc ->
  Relays.get s dm u = Some r -> host_str u = Some host -> str_forall visible_ascii host = true ->
  NetReport.resolve_to_addrs url_host lookup NetReport.PortalDnsLookup u = Ok client -> client_builds client = true ->
  exists portal,
    NetReport.check_captive_portal url_host host_str lookup client_builds (portal_get srv) s dm (Some u) choice
      = Ok portal /\
    (portal = false <-> (String.length host <= 60)%nat /\ str_forall is_challenge_char host = true).
Proof.
  intros Hs Hrc Hget Hhost Hvis Hres Hcb.
  destruct (portal_get_answer config rc srv client (NetReport.portal_url host) host Hs Hrc Hvis) as (resp & Eg & Est & Ehd).
  unfold NetReport.check_captive_portal. cbn [mbind option_bind]. rewrite Hget. cbn [fmap option_fmap option_map].
  rewrite Hres. cbn [rbind]. rewrite Hcb, Hhost. cbn [ensure rbind from_option id].
  rewrite Eg. cbn [ok_or rbind]. rewrite Est, Ehd. eexists. split; [done|]. rewrite <- challenge_ok_host.
  destruct (challenge_ok _); simpl.
  - rewrite bool_decide_true by done. done.
  - done.
Qed.

(** A started relay is reached where its addresses say: over TLS the HTTPS
    address is that of the relay and the HTTP address that of the captive portal
    service, without TLS the HTTP address is that of the relay and there is no
    HTTPS address; the relay applies the configured access control and rate
    limit, and answers its pages with 200 and what it does not know with 404. *)
Theorem spawn_serves config rc srv :
  spawn config = Ok srv -> relay config = Some rc ->
  exists server, relay_server srv = Some server /\
    access (server_inner server) = config_access rc /\ rate_limit (server_inner server) = client_rx rc /\
    http_addr srv = bound_addr (http_bind_addr rc) /\ is_Some (http_addr srv) /\
    https_addr srv = (tls rc ≫= fun t => bound_addr (https_bind_addr t)) /\
    (https_addr srv = None -> tls rc = None) /\
    (forall q hs path, path ∈ ["/"; "/index.html"; "/ping"; "/robots.txt"; "/healthz"]%string ->
       exists r, (call (server_inner server) (mkRequest "GET" path q hs)).1 = Ok r /\ status r = 200) /\
    (forall req, is_relay_request req = false -> handlers (server_inner server) !! (method req, uri_path req) = None ->
       exists r, (call (server_inner server) req).1 = Ok r /\ status r = 404).
Proof.
  intros Hs Hrc. destruct (spawn_ok _ _ _ Hs Hrc) as (server & http & ts & tc & Hr & Hserver & _ & Hhttp & Hhttps).
  apply spawn_relay_ok in Hr as (hs & Ehs & Hih & Hacc & Hrl & Hr). exists server.
  split; [done|]. split; [done|]. split; [done|]. rewrite Hhttp, Hhttps.
  assert (Hpages : forall path, path ∈ ["/"; "/index.html"; "/ping"; "/robots.txt"; "/healthz"]%string ->
    handlers (server_inner server) !! ("GET"%string, path) =
      page_handlers health_json pkg_version git_sha !! ("GET"%string, path)).
  { intros path Hp. destruct (tls rc).
    - destruct Hr as (_ & _ & _ & -> & _). done.
    - destruct Hr as (_ & _ & _ & _ & _ & ->). rewrite lookup_insert_ne; [done|].
      intros [= <-]. repeat (apply elem_of_cons in Hp as [Hp|Hp]; [done|]). by apply elem_of_nil in Hp. }
  assert (Hpage : forall q hs' path, path ∈ ["/"; "/index.html"; "/ping"; "/robots.txt"; "/healthz"]%string ->
       exists r, (call (server_inner server) (mkRequest "GET" path q hs')).1 = Ok r /\ status r = 200).
  { intros q hs' path Hp. assert (Hrel : (path =? Dial.RELAY_PATH)%string = false).
    { repeat (apply elem_of_cons in Hp as [->|Hp]; [done|]). by apply elem_of_nil in Hp. }
    rewrite call_handler by exact Hrel. cbn [method uri_path fst]. rewrite (Hpages path Hp), default_response_ok.
    destruct (visible_header "text/html; charset=utf-8" eq_refl) as (v1 & E1 & _).
    destruct (visible_header "*" eq_refl) as (v2 & E2 & _).
    destruct (visible_header "application/json" eq_refl) as (v3 & E3 & _).
    repeat (apply elem_of_cons in Hp as [->|Hp];
      [cbv [page_handlers]; simpl_map; simpl; unfold root_handler, probe_handler, robots_handler, healthz_handler, add_text;
       simpl; rewrite ?E1, ?E2, ?E3; simpl; eexists; split; reflexivity|]).
    by apply elem_of_nil in Hp. }
  assert (Hmissing : forall req, is_relay_request req = false ->
       handlers (server_inner server) !! (method req, uri_path req) = None ->
       exists r, (call (server_inner server) req).1 = Ok r /\ status r = 404).
  { intros req Hrel Hnone. rewrite call_handler by done. cbn [fst]. rewrite Hnone, default_response_ok.
    unfold not_found_fn. rewrite add_headers_ok. simpl. eexists. done. }
  destruct (tls rc) as [t|]; simpl.
  - destruct Hr as (Hb & [a ->] & Ha & _). rewrite Ha, Hb. done.
  - destruct Hr as (Hb & -> & _). rewrite Hb. done.
Qed.

End Spawned.

(** ** Properties *)

(** The relay upgrades a request to its protocol exactly when it is a GET of
    the relay path with the websocket headers and offers a version the relay
    knows; it agrees to the newest version offered, and the response says so
    with the key derived from the client's. Any other GET of the relay path is
    answered 400. *)
Theorem relay_upgrade_exact self req :
  (forall v, (call self req).2 = Some v <->
     is_relay_request req = true /\ exists key, valid_upgrade req key v) /\
  (forall key v, is_relay_request req = true -> valid_upgrade req key v ->
     exists r ws ak ver conn, call self req = (Ok r, Some v) /\ status r = 101 /\
       response_headers r =
         inner_headers self ++ [(UPGRADE, ws); (SEC_WEBSOCKET_ACCEPT, ak); (SEC_WEBSOCKET_PROTOCOL, ver); (CONNECTION, conn)] /\
       header_as_ref ak = derive_accept_key key /\ (header_to_str ver ≫= match_from_str) = Some v) /\
  (is_relay_request req = true -> (call self req).2 = None ->
     exists r, (call self req).1 = Ok r /\ status r = 400).
Proof.
  split; [|split].
  - intros v. split.
    + destruct (is_relay_request req) eqn:Hr.
      * destruct (check_upgrade req) as [[key v']|e|] eqn:E.
        -- apply check_upgrade_valid in E. destruct (call_upgrade self req key v' Hr E) as (r & _ & ->).
           simpl. intros [= <-]. eauto.
        -- destruct (call_refused self req e Hr E) as (r & -> & _). done.
        -- by apply check_upgrade_no_panic in E.
      * unfold call. unfold is_relay_request in Hr. rewrite Hr. by destruct (handlers self !! _).
    + intros [Hr (key & Hv)]. by destruct (call_upgrade self req key v Hr Hv) as (r & _ & ->).
  - intros key v Hr Hv. destruct (call_upgrade self req key v Hr Hv) as (r & E & ->).
    destruct (switching_protocols_ok self key v) as (ws & ver & ak & co & _ & Hak & _ & Hver & E').
    rewrite E in E'. injection E' as ->. exists (mkResponse 101 (inner_headers self ++
      [(UPGRADE, ws); (SEC_WEBSOCKET_ACCEPT, ak); (SEC_WEBSOCKET_PROTOCOL, ver); (CONNECTION, co)])
      "switching to websocket protocol"), ws, ak, ver, co.
    repeat (split; [done|]). rewrite Hver. apply match_version.
  - intros Hr Hn. destruct (check_upgrade req) as [[key v']|e|] eqn:E.
    + apply check_upgrade_valid in E. destruct (call_upgrade self req key v' Hr E) as (r & _ & E').
      by rewrite E' in Hn.
    + destruct (call_refused self req e Hr E) as (r & -> & Hst & _). eauto.
    + by apply check_upgrade_no_panic in E.
Qed.

(** C11: A client of this library connects to this relay: the request it makes is
    upgraded to the newest version, which both ends take from it; its token
    reaches the access control; and the two ends of the handshake finish with the
    decision of the access control about this very request. When it is to allow,
    the relay registers the client under the client's public key with the id and
    the version of the request. *)
Theorem client_connects {Url} exporter (cb : Dial.ClientBuilder (Url := Url)) stream hs ws key query
    self conn now bt ct io_s random form_parse :
  websocket_request ws key -> Dial.upgrade_headers exporter cb stream = Ok hs ->
  get_all SEC_WEBSOCKET_PROTOCOL (inner_headers self) = [] ->
  is_ok (Rate.from_cfg (rate_limit self) now bt ct) = true ->
  length random = 16%nat -> exporter_ok (Dial.stream_exporter exporter stream) ->
  let req := mkRequest "GET" Dial.RELAY_PATH query (ws ++ hs) in
  let creq := mkClientRequest conn (public (Dial.secret_key cb)) V2 req in
  access_wf (access self creq) ->
  (exists r, call self req = (Ok r, Some V2) /\ status r = 101 /\
     ((get SEC_WEBSOCKET_PROTOCOL (response_headers r) ≫= header_to_str) ≫= match_from_str) = Some V2) /\
  (forall t, Dial.auth_token cb = Some t -> str_forall visible_ascii t = true ->
     auth_token form_parse creq = Some t) /\
  run_both 8 (clientside (Dial.secret_key cb)) (accept self conn now bt ct io_s req V2 random) [] [] =
    Some (client_outcome (access self creq),
          accept_outcome (access self creq) (public (Dial.secret_key cb)) conn V2).
Proof.
  intros Hws Hhs Hown Hrate Hrand Hio req creq Hwf.
  pose proof (client_request_valid exporter cb stream hs ws key query Hws Hhs) as Hv. split; [|split].
  - destruct (call_upgrade self req key V2 eq_refl Hv) as (r & Er & Ec). exists r. split; [done|].
    destruct (switching_protocols_ok self key V2) as (w & ver & ak & co & _ & _ & _ & Tver & E).
    rewrite E in Er. injection Er as <-. split; [done|]. simpl. rewrite (get_app_r _ _ _ Hown).
    change (get _ _) with (Some ver). simpl. by rewrite Tver.
  - intros t Ht Hvis. by eapply client_token.
  - assert (Hc : client_header (Dial.secret_key cb) (Dial.stream_exporter exporter stream)
                   (get Dial.CLIENT_AUTH_HEADER (headers req))).
    { apply upgrade_headers_spec in Hhs as (_ & _ & _ & Hc). simpl.
      by rewrite (get_app_r _ _ _ (ws_client_auth _ _ Hws)). }
    by apply (accept_both self conn now bt ct _ (Dial.stream_exporter exporter stream)).
Qed.

(** C10: Whatever peers connect and whatever they send, every connection the relay
    has registered was admitted: its key was authenticated by a signature on that
    connection and the access control allowed that key with that connection's id
    and request. While fewer than 2^64 requests were made no two connections
    share an id, so that until the server stops the registry holds exactly what
    the registrations and removals make of its specification. *)
Theorem relay_serves_admitted self evs s :
  service_run self evs s -> requests evs <= 2 ^ 64 ->
  (forall e c, c ∈ Clients.abs_conns (registry s) e -> admitted self e c) /\
  NoDup (pending s ++ Clients.registered (operations evs)) /\
  (stopped s = false ->
     Clients.refines (registry s) (Clients.spec_run Clients.empty Clients.spec_init (operations evs))).
Proof.
  intros Hrun Hle. destruct (service_inv_run self evs s Hrun Hle) as [_ Hnd _ _ Hc Ha Hs].
  split; [|split; [done|]].
  - intros e c Hin. destruct (Hc e c Hin) as (parts & cfg & Hcfg & <- & <-).
    exact (admitted_with_admitted self _ (Ha _ _ Hcfg)).
  - intros Hf. rewrite (Hs Hf). apply Clients.run_empty_refines. apply NoDup_app in Hnd. apply Hnd.
Qed.

(** The upgrade of a connection runs in a task of its own that the shutdown
    does not stop: a client accepted after the shutdown is registered, and
    served, by a server that has shut down. *)
Theorem client_outlives_shutdown self s conn now bt ct io parts v random answers cfg calls out :
  stopped s = true -> conn ∈ pending s ->
  drive (accept self conn now bt ct io parts v random) answers = (Some (Ok cfg, calls), out) ->
  exists s' st, service_step self s (Accepted parts cfg) s' /\ stopped s' = true /\
    Clients.clients (registry s') !! Clients.cfg_endpoint_id cfg = Some st /\
    Clients.active st = Clients.Client_new cfg /\ Clients.done (Clients.active st) = false.
Proof.
  intros Hst Hin Hd. eexists. destruct (Clients.clients (registry s) !! Clients.cfg_endpoint_id cfg) as [st|] eqn:E.
  - eexists. split; [by eapply step_accept|]. split; [done|]. simpl.
    unfold Clients.register, Clients.insert_client. simpl. rewrite E. simpl. rewrite lookup_insert_eq. done.
  - eexists. split; [by eapply step_accept|]. split; [done|]. simpl.
    unfold Clients.register, Clients.insert_client. simpl. rewrite E. simpl. rewrite lookup_insert_eq. done.
Qed.

(** Every connection the relay serves is counted once as opened and once as
    closed. It ends with the establishment timeout exactly when the timer runs
    out before the connection is over or the client is accepted. It is counted as
    failed exactly when it ends with an error other than a peer that leaves
    during the TLS handshake: a peer that leaves in the middle of a request,
    which has its own arm, is counted as a failure. *)
Theorem connection_outcome tls turns m res m' :
  handle_connection tls turns m = Some (res, m') ->
  http_connections m' = http_connections m + 1 /\ http_connections_closed m' = http_connections_closed m + 1 /\
  (res = Err EstablishTimeout <-> timed_out turns) /\
  (http_connections_errored m' = http_connections_errored m + 1 <->
   exists e, res = Err e /\ e <> ManualAccept UnexpectedEof /\ e <> LetsEncryptAccept UnexpectedEof).
Proof.
  unfold handle_connection. set (f := match tls with Some a => _ | None => _ end).
  pose proof (timeout_exact (map (fun t => mkTimeoutTurn (f <$> ready t) (notified t) (elapsed t)) turns)) as Ht.
  rewrite timed_out_map in Ht.
  assert (Hout : forall res0, clearable_timeout true
            (map (fun t => mkTimeoutTurn (f <$> ready t) (notified t) (elapsed t)) turns) = Some (Ok res0) ->
            exists served, f served = res0).
  { generalize true as b. induction turns as [|t ts IH]; simpl; intros b res0; [done|].
    destruct (ready t) as [r|]; simpl; [intros [= <-]; eauto|]. clear Ht.
    destruct (notified t); [apply IH; by rewrite timeout_exact, timed_out_map|].
    destruct (b && _); [done|]. apply IH. by rewrite timeout_exact, timed_out_map. }
  destruct (clearable_timeout true _) as [[res0|[]|]|]; intros [= <- <-]; simpl;
    (split; [done|]; split; [done|]; split).
  - destruct (Hout res0 eq_refl) as [served E]. rewrite <- Ht. split; [|by intros [e ?]].
    intros ->. apply serve_error in E. by destruct E.
  - destruct (Hout res0 eq_refl) as [served E]. destruct res0 as [u|e|]; [split; [lia|by intros (e & [=] & _)]| |split; [lia|by intros (e & [=] & _)]].
    apply serve_error in E as (Hne & Hs & Hp). split.
    + intros Herr. exists e. destruct e as [x|x|[]|[]|x|x|]; simpl in Herr; split; try done; lia.
    + intros (e' & [= <-] & H1 & H2). destruct e as [x|x|[]|[]|x|x|]; simpl; try done.
      * by destruct (Hs x).
      * by destruct (Hp x).
  - rewrite <- Ht. split; [eauto|done].
  - split; [eauto|done].
  - rewrite <- Ht. split; [done|by intros [e ?]].
  - split; [lia|by intros (e & [=] & _)].
Qed.

(** ** What else the code does *)

(** The accept loop ends at the first turn that finds the server cancelled: it
    serves the connections accepted until then and stops the clients before the
    connections. *)
Theorem serve_loop_cancel pre t post :
  Forall (fun t => cancelled t = false /\ joined t <> Some JoinPanicked) pre -> cancelled t = true ->
  serve_loop (pre ++ t :: post) =
    (map Serve (omap (fun t => match joined t, accepted t with
                               | None, Some (Ok stream) => Some stream
                               | _, _ => None
                               end) pre) ++ [ServiceShutdown; TasksShutdown], Finished).
Proof.
  intros Hpre Ht. induction pre as [|u pre IH]; simpl; [by rewrite Ht|].
  apply Forall_cons in Hpre as [[Hc Hj] Hpre]. rewrite Hc. specialize (IH Hpre).
  destruct (joined u) as [[]|]; try done. destruct (accepted u) as [[stream|e|]|]; try done. by rewrite IH.
Qed.

(** The headers of the server are in a 404 response twice. *)
Lemma not_found_headers_twice self req :
  is_relay_request req = false -> handlers self !! (method req, uri_path req) = None ->
  exists r, (call self req).1 = Ok r /\ response_headers r = inner_headers self ++ inner_headers self.
Proof.
  intros Hrel Hnone. rewrite call_handler by done. cbn [fst]. rewrite Hnone, default_response_ok.
  unfold not_found_fn. rewrite add_headers_ok. simpl. by eexists.
Qed.

(** A header that is not ASCII hides the token of the query and of later headers. *)
Lemma token_needs_ascii form_parse r h hs :
  get_all "authorization" (headers (request r)) = h :: hs -> header_to_str h = None ->
  auth_token form_parse r = None.
Proof. intros Hg Hh. unfold auth_token. rewrite Hg. simpl. by rewrite Hh. Qed.

(** When the QUIC server ends before the relay, the relay's task is aborted right
    after it is cancelled, before it can disconnect its clients. *)
Lemma supervisor_aborts_relay has_tasks t turns :
  task_ended t = None -> quic_ended t = Some (Joined tt) -> relay_ended t = None ->
  relay_supervisor has_tasks true true (t :: turns) =
    Some (Ok tt, [CancelRelay; AbortRelay; ShutdownQuic; AbortTasks]).
Proof.
  intros H1 H2 H3. simpl. unfold supervisor_select, supervisor_stops. rewrite H1, H2, H3.
  by destruct has_tasks.
Qed.

End Facts.
End Http.

(** ** Witnesses *)

Section Witnesses.
Import Http.

#[local] Existing Instance noq_proto.
#[local] Existing Instance noq_proto_laws.
#[local] Existing Instance checksum_keys.
#[local] Existing Instance checksum_keys_laws.
#[local] Existing Instance unary_postcard.
#[local] Existing Instance unary_postcard_laws.
#[local] Existing Instance padded_crypto.
#[local] Existing Instance padded_crypto_laws.
#[local] Existing Instance plain_http.
#[local] Existing Instance plain_http_laws.

Definition open_relay : Inner := mkInner ∅ [] None (fun _ => Allow).
Definition websocket_headers : HeaderMap :=
  [("upgrade", "websocket"); ("connection", "Upgrade"); ("sec-websocket-key", "key"); ("sec-websocket-version", "13")]%string.
Definition old_client : Request :=
  mkRequest "GET" "/relay" None (websocket_headers ++ [("sec-websocket-protocol", "iroh-relay-v1, other")]%string).

Lemma relay_upgrade_exact_witness :
  exists r, (call open_relay old_client).1 = Ok r /\ status r = 101 /\ (call open_relay old_client).2 = Some V1.
Proof.
  destruct (relay_upgrade_exact open_relay old_client) as (_ & Hup & _).
  destruct (Hup "key"%string V1) as (r & ws & ak & ver & conn & -> & Hst & _).
  - reflexivity.
  - apply check_upgrade_valid. vm_compute. reflexivity.
  - exists r. repeat split; assumption.
Defined.

Definition token_client : Dial.ClientBuilder (Url := unit) :=
  Dial.mkClientBuilder None tt true None secret (Some "let me in"%string).
Definition plain_stream : Dial.MaybeTlsStream Dial.ProxyStream :=
  Dial.Raw (Dial.RawTcp (Dial.mkTcp (Addrs.V4 [Byte.x7f; Byte.x00; Byte.x00; Byte.x01], 80) None)).
Definition token_headers : HeaderMap :=
  [("sec-websocket-protocol", all_joined); ("authorization", "Bearer let me in")]%string.

Lemma websocket_headers_ok : websocket_request websocket_headers "key"%string.
Proof. constructor; try reflexivity; eexists; split; reflexivity. Qed.

Lemma client_connects_witness :
  let req := mkRequest "GET" "/relay" None (websocket_headers ++ token_headers) in
  auth_token (fun _ => []) (mkClientRequest 7 (public secret) V2 req) = Some "let me in"%string /\
  run_both 8 (clientside secret) (accept open_relay 7 0 0 0 no_export req V2 dice) [] [] =
    Some (Ok tt, (Ok (Clients.mkConfig (public secret) 7 512 V2), [OnConnect 7])).
Proof.
  destruct (client_connects no_export token_client plain_stream token_headers websocket_headers
    "key"%string None open_relay 7 0 0 0 no_export dice (fun _ => [])) as (_ & Htoken & Hrun).
  - exact websocket_headers_ok.
  - reflexivity.
  - reflexivity.
  - reflexivity.
  - reflexivity.
  - discriminate.
  - exact I.
  - split; [apply Htoken; reflexivity|exact Hrun].
Defined.

Definition bare_request : Request := mkRequest "GET" "/relay" None [].
Definition alice_config : Clients.Config := Clients.mkConfig (public secret) 0 512 V2.
Definition alice_answers : list answer := [Sent true; Got (Message signed_dice); Sent true].
Definition alice_accept : option (result AcceptError Clients.Config * list access_call) * list bytes :=
  drive (accept open_relay 0 0 0 0 no_export bare_request V2 dice) alice_answers.

Lemma alice_accepted : alice_accept = (Some (Ok alice_config, [OnConnect 0]), alice_accept.2).
Proof.
  vm_cast_no_check (@eq_refl _ (Some (Ok (E := AcceptError) alice_config, [OnConnect 0]), alice_accept.2)).
Qed.

Lemma alice_run :
  service_run open_relay [Requested; Accepted bare_request alice_config]
    (mkService 1 [] (Clients.register Clients.empty alice_config) false).
Proof.
  apply (run_step open_relay [Requested] (mkService 1 [0] Clients.empty false)).
  - apply (run_step open_relay [] service_init); [constructor|apply step_request].
  - eapply (step_accept open_relay (mkService 1 [0] Clients.empty false) 0).
    + simpl. apply elem_of_cons. by left.
    + exact alice_accepted.
Qed.

Lemma relay_serves_admitted_witness : admitted open_relay (public secret) 0.
Proof.
  apply (proj1 (relay_serves_admitted open_relay _ _ alice_run ltac:(vm_compute; discriminate))).
  simpl. rewrite Clients.register_conns. unfold Clients.upd. rewrite decide_True by reflexivity.
  apply elem_of_cons. left. reflexivity.
Defined.

Lemma client_outlives_shutdown_witness :
  exists s' st, service_step open_relay (mkService 1 [0] Clients.empty true) (Accepted bare_request alice_config) s' /\
    stopped s' = true /\ Clients.clients (registry s') !! public secret = Some st /\
    Clients.active st = Clients.Client_new alice_config /\ Clients.done (Clients.active st) = false.
Proof.
  apply (client_outlives_shutdown open_relay (mkService 1 [0] Clients.empty true) 0 0 0 0 no_export
    bare_request V2 dice alice_answers alice_config [OnConnect 0] alice_accept.2).
  - reflexivity.
  - simpl. apply elem_of_cons. left. reflexivity.
  - exact alice_accepted.
Defined.

Lemma connection_outcome_witness :
  exists m, handle_connection None [mkTimeoutTurn None true false; mkTimeoutTurn None false true;
                                    mkTimeoutTurn (Some (Err IncompleteMessage)) false true]
              (mkHttpMetrics 0 0 0) = Some (Err (ServeConnection IncompleteMessage), m) /\
    http_connections_closed m = 1 /\ http_connections_errored m = 1.
Proof.
  eexists. split; [reflexivity|].
  destruct (connection_outcome None [mkTimeoutTurn None true false; mkTimeoutTurn None false true;
                                    mkTimeoutTurn (Some (Err IncompleteMessage)) false true]
              (mkHttpMetrics 0 0 0) _ _ eq_refl) as (_ & Hc & _ & He).
  split; [exact Hc|]. apply He. eexists. repeat split; discriminate.
Defined.

Definition any_addr (port : Z) : Addrs.SocketAddr := Addrs.SocketV4 (replicate 4 Byte.x00) port.
Definition tls_relay : RelayConfig (ServerTls := unit) :=
  mkRelayConfig (any_addr 80) (Some (mkTlsConfig (any_addr 443) (CertManual tt))) None (fun _ => Allow).
Definition tls_server : ServerConfig := mkServerConfig (Some tls_relay) None None.
Definition health (status version hash : string) : option string := Some status.
Definition all_bind (a : Addrs.SocketAddr) : option Addrs.SocketAddr := Some a.
Definition spawned : result SpawnError (Server (ServerTls := unit) (Listener := Addrs.SocketAddr)) :=
  spawn health "1.0" None all_bind Some (fun a _ => Some a) (fun _ => true) tls_server.

Lemma spawned_ok : exists srv, spawned = Ok srv /\ http_addr srv = Some (any_addr 80).
Proof. eexists. split; reflexivity. Qed.

Lemma spawn_serves_witness :
  exists srv, spawned = Ok srv /\ http_addr srv = Some (any_addr 80) /\ https_addr srv = Some (any_addr 443).
Proof.
  destruct spawned_ok as (srv & Hs & _). exists srv.
  destruct (spawn_serves health "1.0" None all_bind Some (fun a _ => Some a) (fun _ => true)
    tls_server tls_relay srv Hs eq_refl) as (server & _ & _ & _ & Hh & _ & Hhs & _).
  split; [exact Hs|]. split; [exact Hh|exact Hhs].
Defined.

Definition example_relay : string := "https://relay.example".
Definition example_store : Relays.Store :=
  {[0%nat := {[example_relay := Relays.mkRelayConfig example_relay None None]}]}.

Lemma portal_check_of_relay_witness :
  exists srv, spawned = Ok srv /\
    NetReport.check_captive_portal (fun _ => None) (fun _ => Some "relay.example"%string) (fun _ => Ok [])
      (fun _ => true) (portal_get srv) example_store 0 (Some example_relay) 0 = Ok false.
Proof.
  destruct spawned_ok as (srv & Hs & _). exists srv. split; [exact Hs|].
  destruct (portal_check_of_relay health "1.0" None all_bind Some (fun a _ => Some a) (fun _ => true)
    tls_server tls_relay srv (fun _ => None) (fun _ => Some "relay.example"%string) (fun _ => Ok [])
    (fun _ => true) example_store 0%nat example_relay 0%nat "relay.example" None
    (Relays.mkRelayConfig example_relay None None) Hs) as (portal & -> & Hp).
  - reflexivity.
  - vm_compute. reflexivity.
  - reflexivity.
  - reflexivity.
  - reflexivity.
  - reflexivity.
  - f_equal. apply Hp. split; [vm_compute; lia|reflexivity].
Defined.

End Witnesses.
