(* ===== verification/Transports.v ===== *)
(** * Transports: the sockets under the QUIC stack

    Models [iroh/src/socket/transports/ip.rs] (the configuration of the UDP
    sockets, which of them sends to an address, and their binding) and the rest
    of [iroh/src/socket/transports.rs]: polling all transports for datagrams,
    sending along a network path, and the sender that maps the addresses of the
    QUIC stack back to paths. What a socket answers to a poll is a parameter. *)

From Stdlib Require Import Sorted.
From S2P Require Import Prelude External Instances Keys Addrs MappedAddrs SocketActor.
Import Addrs Mapped.

Module Transports.

(** ** IP sockets *)

(** [ipnet]: a network is an address with a prefix length. *)
Record IpNet := mkIpNet { net_addr : bytes; net_prefix_len : Z }.

Inductive Config :=
| ConfigV4 (ip_net : IpNet) (port : Z) (is_required is_default : bool)
| ConfigV6 (ip_net : IpNet) (scope_id port : Z) (is_required is_default : bool).

Definition is_ipv4 (c : Config) : bool := if c is ConfigV4 _ _ _ _ then true else false.
Definition is_ipv6 (c : Config) : bool := if c is ConfigV6 _ _ _ _ _ then true else false.

Definition prefix_len (c : Config) : Z :=
  match c with ConfigV4 n _ _ _ | ConfigV6 n _ _ _ _ => net_prefix_len n end.
Definition is_default (c : Config) : bool :=
  match c with ConfigV4 _ _ _ d | ConfigV6 _ _ _ _ d => d end.
Definition is_required (c : Config) : bool :=
  match c with ConfigV4 _ _ r _ | ConfigV6 _ _ _ r _ => r end.

Definition is_valid_default_addr (self : Config) (src : option IpAddr) (dst : SocketAddr) : bool :=
  match src with
  | Some src =>
      match self, src with
      | ConfigV4 _ _ _ d, V4 _ => d
      | ConfigV6 _ _ _ _ d, V6 _ => d
      | _, _ => false
      end
  | None =>
      match self, dst with
      | ConfigV4 _ _ _ d, SocketV4 _ _ => d
      | ConfigV6 _ _ _ _ d, SocketV6 _ _ _ _ => d
      | _, _ => false
      end
  end.

Definition is_unspecified (ip : bytes) : bool := forallb (fun b => bool_decide (b = Byte.x00)) ip.

(** [Ipv6Addr::is_unicast_link_local]: fe80::/10. *)
Definition is_unicast_link_local (ip : bytes) : bool :=
  match ip with
  | b0 :: b1 :: _ => bool_decide (b0 = Byte.xfe) && (Z.land (byte.unsigned b1) 192 =? 128)
  | _ => false
  end.

Definition Config_addr (c : Config) : SocketAddr :=
  match c with
  | ConfigV4 n port _ _ => SocketV4 (net_addr n) port
  | ConfigV6 n scope_id port _ _ => SocketV6 (net_addr n) port 0 scope_id
  end.

Definition canonical_ip (ip : IpAddr) : IpAddr :=
  match ip with V4 _ => ip | V6 octets => to_canonical octets end.
Definition canonical_addr (a : SocketAddr) : SocketAddr :=
  socket_addr_new (canonical_ip (socket_ip a)) (socket_port a).

(** The socket of a configuration and its local address. *)
Record IpTransport := mkIpTransport { config : Config; local_addr : SocketAddr }.

Record IpTransports := mkIpTransports {
  v4 : list IpTransport;
  default_v4_index : option nat;
  v6 : list IpTransport;
  default_v6_index : option nat
}.

Inductive bind_error := BindFailed (c : Config) | TwoV4Defaults | TwoV6Defaults.

(** [sort_by_key] with [Reverse(prefix_len)], which is stable. *)
Fixpoint insert_by_prefix (t : IpTransport) (ts : list IpTransport) : list IpTransport :=
  match ts with
  | [] => [t]
  | u :: ts =>
      if prefix_len (config t) <? prefix_len (config u) then u :: insert_by_prefix t ts else t :: u :: ts
  end.
Definition sort_by_prefix (ts : list IpTransport) : list IpTransport := foldr insert_by_prefix [] ts.

Definition default_index (ts : list IpTransport) : option nat :=
  fst <$> list_find (fun t => is_default (config t) = true) ts.

Section Ip.
(** [Ipv4Net::contains] and [Ipv6Net::contains]. *)
Context (contains : IpNet -> bytes -> bool).
(** Binding a socket: its local address, or an error. *)
Context (bind_full : SocketAddr -> option SocketAddr).

Definition is_valid_send_addr (self : Config) (src : option IpAddr) (dst : SocketAddr) : bool :=
  match src with
  | Some src =>
      match self, src with
      | ConfigV4 n _ _ _, V4 src => is_unspecified (net_addr n) || bool_decide (net_addr n = src)
      | ConfigV6 n _ _ _ _, V6 src => is_unspecified (net_addr n) || bool_decide (net_addr n = src)
      | _, _ => false
      end
  | None =>
      match self, dst with
      | ConfigV4 n _ _ _, SocketV4 ip _ => contains n ip
      | ConfigV6 n scope_id _ _ _, SocketV6 ip _ _ dst_scope_id =>
          contains n ip || (is_unicast_link_local ip && (scope_id =? dst_scope_id))
      | _, _ => false
      end
  end.

Definition IpTransport_bind (c : Config) : option IpTransport := mkIpTransport c <$> bind_full (Config_addr c).

(** The loop of [IpTransports::bind]. *)
Fixpoint bind_configs (configs : list Config) (has_v4_default has_v6_default : bool)
    : result bind_error (list IpTransport * list IpTransport) :=
  match configs with
  | [] => Ok ([], [])
  | c :: configs =>
      match IpTransport_bind c with
      | Some transport =>
          if is_ipv4 c then
            let? _ := ensure (negb (is_default c && has_v4_default)) TwoV4Defaults in
            let? (v4, v6) := bind_configs configs (is_default c || has_v4_default) has_v6_default in
            Ok (transport :: v4, v6)
          else
            let? _ := ensure (negb (is_default c && has_v6_default)) TwoV6Defaults in
            let? (v4, v6) := bind_configs configs has_v4_default (is_default c || has_v6_default) in
            Ok (v4, transport :: v6)
      | None =>
          let? _ := ensure (negb (is_required c)) (BindFailed c) in
          bind_configs configs has_v4_default has_v6_default
      end
  end.

Definition IpTransports_bind (configs : list Config) : result bind_error IpTransports :=
  let? (ip_v4, ip_v6) := bind_configs configs false false in
  let ip_v4 := sort_by_prefix ip_v4 in
  let ip_v6 := sort_by_prefix ip_v6 in
  Ok (mkIpTransports ip_v4 (default_index ip_v4) ip_v6 (default_index ip_v6)).

(** ** The configured transports *)

Inductive TransportConfig :=
| TransportIp (c : Config) (is_user_defined : bool)
| TransportRelay (is_user_defined : bool)
| TransportCustom.

Definition is_user_defined (t : TransportConfig) : bool :=
  match t with TransportIp _ u | TransportRelay u => u | TransportCustom => true end.
Definition is_ipv4_default (t : TransportConfig) : bool :=
  if t is TransportIp c _ then is_default c && is_ipv4 c else false.
Definition is_ipv6_default (t : TransportConfig) : bool :=
  if t is TransportIp c _ then is_default c && is_ipv6 c else false.

(** The IP half of [Transports::bind]: what the user gives as a default replaces
    the built-in configuration of the family. *)
Definition ip_configs (configs : list TransportConfig) : list Config :=
  let has_ipv4_default := existsb (fun t => is_ipv4_default t && is_user_defined t) configs in
  let has_ipv6_default := existsb (fun t => is_ipv6_default t && is_user_defined t) configs in
  omap (fun t =>
    match t with
    | TransportIp c user =>
        if negb user && (is_ipv4 c && has_ipv4_default || is_ipv6 c && has_ipv6_default)
        then None else Some c
    | _ => None
    end) configs.

(** ** Sending *)

(** The answer of a socket to [poll_send]. *)
Inductive send_poll := SendPending | SendReady (r : result unit unit).

(** The sender [poll_send] picks for an IP path. *)
Definition pick_sender (senders : list IpTransport) (default_ix : option nat) (src : option IpAddr)
    (dst : SocketAddr) : option IpTransport :=
  match List.find (fun s => is_valid_send_addr (config s) src dst) senders with
  | Some s => Some s
  | None =>
      s ← default_ix ≫= (fun i => senders !! i);
      if is_valid_default_addr (config s) src dst then Some s else None
  end.

Definition pick_ip (ip : IpTransports) (src : option IpAddr) (dst : SocketAddr) : option IpTransport :=
  match dst with
  | SocketV4 _ _ => pick_sender (v4 ip) (default_v4_index ip) src dst
  | SocketV6 _ _ _ _ => pick_sender (v6 ip) (default_v6_index ip) src dst
  end.

(** What goes to which socket. *)
Inductive attempt :=
| ViaIp (s : IpTransport) (dst : SocketAddr) (src : option IpAddr)
| ViaRelay (i : nat) (url : RelayUrl) (id : EndpointId)
| ViaCustom (i : nat) (dst : CustomAddr) (src : option CustomAddr).

(** The senders: the answers of the sockets to this poll. *)
Record Senders := mkSenders {
  ip : IpTransports;
  ip_answer : IpTransport -> send_poll;
  relay : list send_poll;
  custom : list ((CustomAddr -> bool) * send_poll)
}.

(** The loop over the relay senders, all of which accept every address. *)
Fixpoint relay_send (i : nat) (relay : list send_poll) (url : RelayUrl) (id : EndpointId)
    : option (result unit unit) * list attempt :=
  match relay with
  | [] => (None, [])
  | SendReady r :: _ => (Some r, [ViaRelay i url id])
  | SendPending :: relay =>
      let '(r, attempts) := relay_send (S i) relay url id in (r, ViaRelay i url id :: attempts)
  end.

Fixpoint custom_send (i : nat) (custom : list ((CustomAddr -> bool) * send_poll)) (dst : CustomAddr)
    (src : option CustomAddr) : option (result unit unit) * list attempt :=
  match custom with
  | [] => (None, [])
  | (valid, answer) :: custom =>
      if valid dst then
        match answer with
        | SendReady r => (Some r, [ViaCustom i dst src])
        | SendPending =>
            let '(r, attempts) := custom_send (S i) custom dst src in (r, ViaCustom i dst src :: attempts)
        end
      else custom_send (S i) custom dst src
  end.

(** [TransportsSender::poll_send]: the answer, and the sockets that were polled. *)
Definition transports_poll_send (s : Senders) (network_path : FourTuple) : send_poll * list attempt :=
  match network_path with
  | TupleIp dst src =>
      match pick_ip (ip s) src dst with
      | Some sender => (ip_answer s sender, [ViaIp sender (canonical_addr dst) src])
      | None => (SendReady (Ok tt), [])
      end
  | TupleRelay url id =>
      match relay_send 0 (relay s) url id with
      | (Some r, attempts) => (SendReady r, attempts)
      | (None, attempts) => (if relay s is [] then SendReady (Ok tt) else SendPending, attempts)
      end
  | TupleCustom remote local =>
      match custom_send 0 (custom s) remote local with
      | (Some r, attempts) => (SendReady r, attempts)
      | (None, attempts) => (SendReady (Ok tt), attempts)
      end
  end.

(** [Sender::poll_send]: where a transmit of the QUIC stack goes. *)
Inductive route :=
| ToActor (id : EndpointId)
| ToPath (t : FourTuple)
| UnknownAddr.

Definition sender_route (endpoint_addrs : bytes -> option EndpointId) (maps : Maps)
    (destination : SocketAddr) (src_ip : option IpAddr) : route :=
  match multipath_from destination with
  | Mixed addr => match endpoint_addrs addr with Some id => ToActor id | None => UnknownAddr end
  | MappedRelay addr =>
      match lookup (relay_addrs maps) addr with
      | Some (url, id) => ToPath (TupleRelay url id)
      | None => UnknownAddr
      end
  | MappedCustom addr =>
      match lookup (custom_addrs maps) addr with
      | Some remote =>
          ToPath (TupleCustom remote ((src_ip ≫= custom_try_from_ip) ≫= lookup (custom_addrs maps)))
      | None => UnknownAddr
      end
  | MappedIp addr => ToPath (TupleIp (canonical_addr addr) src_ip)
  end.

Inductive send_error := NotConnected.

(** What became of the transmit. [inbox]: whether the actor of the endpoint has
    room for the message. *)
Inductive sent :=
| ToInbox (id : EndpointId) (accepted : bool)
| OnPath (t : FourTuple) (answer : send_poll) (attempts : list attempt)
| Lost.

Definition sender_poll_send (closed : bool) (endpoint_addrs : bytes -> option EndpointId) (maps : Maps)
    (inbox : EndpointId -> bool) (s : Senders) (destination : SocketAddr) (src_ip : option IpAddr)
    : result send_error unit * sent :=
  if closed then (Err NotConnected, Lost)
  else
    match sender_route endpoint_addrs maps destination src_ip with
    | ToActor id => (Ok tt, ToInbox id (inbox id))
    | UnknownAddr => (Ok tt, Lost)
    | ToPath t =>
        let '(answer, attempts) := transports_poll_send s t in
        (match answer with
         | SendReady (Ok _) => Ok tt
         | SendReady _ => Ok tt
         | SendPending => Ok tt
         end, OnPath t answer attempts)
    end.

End Ip.

(** ** Receiving *)

(** [Ipv4Addr::to_ipv6_mapped]. *)
Definition to_ipv6_mapped (ip : bytes) : bytes := v4_mapped_prefix ++ ip.

(** One datagram of [IpTransport::poll_recv]. *)
Definition ip_received (m : Sock.RecvMeta) : Sock.RecvMeta * Sock.RecvInfo :=
  let addr :=
    match Sock.meta_addr m with
    | SocketV4 ip port => socket_addr_new (V6 (to_ipv6_mapped ip)) port
    | a => a
    end in
  (Sock.mkRecvMeta addr (Sock.meta_len m) (Sock.meta_stride m) (Sock.dst_ip m),
   Sock.mkRecvInfo (Addr_from (canonical_addr addr)) None).

(** The answer of a transport to [poll_recv]: the datagrams it put into the
    buffers. [asserts]: it asserts that there are as many buffers as infos. *)
Inductive recv_poll := RecvPending | RecvReady (slots : list (Sock.RecvMeta * Sock.RecvInfo)) | RecvFailed.
Record transport := mkTransport { asserts : bool; answer : recv_poll }.

Record Receiver := mkReceiver {
  poll_recv_counter : Z;                        (* usize *)
  consecutive_total_recv_failures : Z
}.

Definition Receiver_new : Receiver := mkReceiver 0 0.

Definition MAX_CONSECUTIVE_RECV_ERRORS : Z := 8.

Inductive recv_error := NetworkDown.
Inductive recv_result := PollPending | PollReady (r : result recv_error (list (Sock.RecvMeta * Sock.RecvInfo))).

(** What polling the transports in order gives: the datagrams of the first that
    has any, or how many were polled and failed and whether one was ready
    without data. *)
Inductive swept := Found (slots : list (Sock.RecvMeta * Sock.RecvInfo)) | Swept (polled errors : nat) (ready : bool).

Fixpoint sweep (fits : bool) (order : list transport) (polled errors : nat) (ready : bool) : result False swept :=
  match order with
  | [] => Ok (Swept polled errors ready)
  | t :: order =>
      if asserts t && negb fits then Panic
      else
        match answer t with
        | RecvPending => sweep fits order (S polled) errors ready
        | RecvReady [] => sweep fits order (S polled) errors true
        | RecvReady slots => Ok (Found slots)
        | RecvFailed => sweep fits order (S polled) (S errors) ready
        end
  end.

(** The order of the poll: every other call is to reverse it. *)
Definition poll_order (s : Receiver) (ip relay custom : list transport) : list transport :=
  let counter := (poll_recv_counter s + 1) mod 2 ^ 64 in
  if counter mod 2 =? 0 then ip ++ relay ++ custom else rev custom ++ rev relay ++ ip.

(** [inner_poll_recv]; [fits] says whether there are as many buffers as infos. *)
Definition inner_poll_recv (s : Receiver) (fits : bool) (ip relay custom : list transport)
    : result False (recv_result * Receiver) :=
  let? w := sweep fits (poll_order s ip relay custom) 0 0 false in
  Ok (match w with
      | Found slots => (PollReady (Ok slots), mkReceiver (poll_recv_counter s) 0)
      | Swept polled errors ready =>
          if (polled =? errors)%nat then
            let failures := consecutive_total_recv_failures s + 1 in
            (if MAX_CONSECUTIVE_RECV_ERRORS <=? failures then PollReady (Err NetworkDown) else PollReady (Ok []),
             mkReceiver (poll_recv_counter s) failures)
          else
            (if ready then PollReady (Ok []) else PollPending, mkReceiver (poll_recv_counter s) 0)
      end).

(** [poll_recv]: the buffers the QUIC stack offers, of which there are at most
    [batch_size], and the addresses it is told. *)
Definition poll_recv (batch_size : nat) (closed : bool) (maps : Maps) (s : Receiver) (bufs metas : nat)
    (ip relay custom : list transport)
    : result False (option (result recv_error (list Sock.RecvMeta)) * Receiver * Maps) :=
  if negb (bufs =? metas)%nat || (batch_size <? bufs)%nat then Panic
  else if closed then Ok (None, s, maps)
  else
    let? (r, s) := inner_poll_recv s (bufs =? batch_size)%nat ip relay custom in
    match r with
    | PollPending => Ok (None, s, maps)
    | PollReady (Err e) => Ok (Some (Err e), s, maps)
    | PollReady Panic => Panic
    | PollReady (Ok []) => Ok (Some (Ok []), s, maps)
    | PollReady (Ok slots) =>
        let? (metas, maps) := Sock.process_datagrams maps (length slots) slots.*1 slots.*2 in
        Ok (Some (Ok metas), s, maps)
    end.

(** A sequence of polls of an open socket. *)
Fixpoint poll_seq (s : Receiver) (polls : list (list transport * list transport * list transport))
    : result False (list recv_result * Receiver) :=
  match polls with
  | [] => Ok ([], s)
  | (ip, relay, custom) :: polls =>
      let? (r, s) := inner_poll_recv s true ip relay custom in
      let? (rs, s) := poll_seq s polls in
      Ok (r :: rs, s)
  end.

(** ** The address of the socket, and rebinding *)

(** [Transport::local_addr], from the local addresses of the transports. *)
Definition transport_local_addr (addrs : list Addr) (has_relay has_custom : bool) : option SocketAddr :=
  let addrs := map (fun a => match a with AddrIp a => a | _ => DEFAULT_FAKE_ADDR end) addrs in
  match List.find (fun a => if a is SocketV6 _ _ _ _ then true else false) addrs with
  | Some a => Some a
  | None =>
      match addrs with
      | SocketV4 ip port :: _ => Some (socket_addr_new (V6 (to_ipv6_mapped ip)) port)
      | _ => if has_relay || has_custom then Some DEFAULT_FAKE_ADDR else None
      end
  end.

(** [NetworkChangeSender::rebind]: every transport is rebound; the last error. *)
Definition rebind {E} (ip relay : list (result E unit)) : result E unit :=
  fold_left (fun res r => match r with Err e => Err e | _ => res end) (ip ++ relay) (Ok tt).

(** ** Lemmas: the senders of a family *)

Definition default_of (t : IpTransport) : bool := is_default (config t).

Lemma insert_perm t ts : insert_by_prefix t ts ≡ₚ t :: ts.
Proof.
  induction ts as [|u ts IH]; simpl; [done|]. destruct (_ <? _); [|done]. rewrite IH. apply Permutation_swap.
Qed.

Lemma sort_perm ts : sort_by_prefix ts ≡ₚ ts.
Proof. induction ts as [|t ts IH]; simpl; [done|]. rewrite insert_perm. by f_equiv. Qed.

Definition longer (t u : IpTransport) : Prop := prefix_len (config u) <= prefix_len (config t).

Lemma insert_sorted t ts : StronglySorted longer ts -> StronglySorted longer (insert_by_prefix t ts).
Proof.
  induction 1 as [|u ts Hs IH Hu]; simpl; [repeat constructor|]. destruct (Z.ltb_spec (prefix_len (config t)) (prefix_len (config u))).
  - constructor; [done|]. rewrite insert_perm. constructor; [unfold longer; lia|done].
  - constructor; [by constructor|]. constructor; [done|]. eapply Forall_impl; [exact Hu|].
    unfold longer. intros x Hx. lia.
Qed.

Lemma sort_sorted ts : StronglySorted longer (sort_by_prefix ts).
Proof. induction ts as [|t ts IH]; simpl; [constructor|]. by apply insert_sorted. Qed.

(** The first match of a sorted list has the longest prefix. *)
Lemma find_longest P ts s :
  StronglySorted longer ts -> List.find P ts = Some s ->
  s ∈ ts /\ P s = true /\ (forall u, u ∈ ts -> P u = true -> longer s u).
Proof.
  induction 1 as [|t ts Hs IH Ht]; simpl; [done|]. destruct (P t) eqn:E.
  - intros [= <-]. split; [by left|]. split; [done|]. intros u Hu _.
    apply elem_of_cons in Hu as [->|Hu]; [unfold longer; lia|]. rewrite Forall_forall in Ht. auto.
  - intros Hf. destruct (IH Hf) as (Hin & Hp & Hmax). split; [by right|]. split; [done|].
    intros u Hu Hpu. apply elem_of_cons in Hu as [->|Hu]; [congruence|auto].
Qed.

Lemma find_none (P : IpTransport -> bool) ts : List.find P ts = None -> forall u, u ∈ ts -> P u = false.
Proof. intros Hf u Hu. apply list_elem_of_In in Hu. by eapply List.find_none. Qed.

Lemma default_index_some ts i :
  default_index ts = Some i -> exists s, ts !! i = Some s /\ default_of s = true.
Proof.
  unfold default_index. destruct (list_find _ ts) as [[j s]|] eqn:E; simpl; [|done]. intros [= ->].
  apply list_find_Some in E as (Hl & Hd & _). eauto.
Qed.

Lemma default_index_none ts : default_index ts = None -> forall u, u ∈ ts -> default_of u = false.
Proof.
  unfold default_index. destruct (list_find _ ts) as [[j s]|] eqn:E; simpl; [done|]. intros _ u Hu.
  apply list_find_None in E. rewrite Forall_forall in E. specialize (E u Hu). unfold default_of.
  by destruct (is_default (config u)).
Qed.

Section IpFacts.
Context (contains : IpNet -> bytes -> bool) (bind_full : SocketAddr -> option SocketAddr).

(** Binding keeps the families apart and has one default of each. *)
Lemma bind_configs_ok configs h4 h6 l4 l6 :
  bind_configs bind_full configs h4 h6 = Ok (l4, l6) ->
  Forall (fun t => is_ipv4 (config t) = true) l4 /\ Forall (fun t => is_ipv6 (config t) = true) l6 /\
  (length (List.filter default_of l4) + (if h4 then 1 else 0) <= 1)%nat /\
  (length (List.filter default_of l6) + (if h6 then 1 else 0) <= 1)%nat.
Proof.
  revert h4 h6 l4 l6. induction configs as [|c configs IH]; intros h4 h6 l4 l6; simpl.
  - intros [= <- <-]. repeat split; [constructor|constructor|destruct h4; simpl; lia|destruct h6; simpl; lia].
  - unfold IpTransport_bind. destruct (bind_full (Config_addr c)) as [a|]; simpl.
    + destruct (is_ipv4 c) eqn:E4.
      * destruct (is_default c && h4) eqn:Ed; simpl; [done|].
        destruct (bind_configs bind_full configs _ _) as [[l4' l6']|e|] eqn:E; simpl; [|done..]. intros [= <- <-].
        apply IH in E as (H4 & H6 & Hd4 & Hd6). split; [by constructor|]. split; [done|]. split; [|done].
        cbn [List.filter]. unfold default_of at 1. simpl. destruct (is_default c), h4; simpl in *; try done; lia.
      * destruct (is_default c && h6) eqn:Ed; simpl; [done|].
        destruct (bind_configs bind_full configs _ _) as [[l4' l6']|e|] eqn:E; simpl; [|done..]. intros [= <- <-].
        apply IH in E as (H4 & H6 & Hd4 & Hd6). split; [done|]. split; [constructor; [by destruct c|done]|]. split; [done|].
        cbn [List.filter]. unfold default_of at 1. simpl. destruct (is_default c), h6; simpl in *; try done; lia.
    + destruct (is_required c); simpl; [done|]. apply IH.
Qed.

(** The configurations that were bound, and the required ones were. *)
Lemma bind_configs_bound configs h4 h6 l4 l6 :
  bind_configs bind_full configs h4 h6 = Ok (l4, l6) ->
  (forall t, t ∈ l4 ++ l6 -> config t ∈ configs /\ bind_full (Config_addr (config t)) = Some (local_addr t)) /\
  (forall c, c ∈ configs -> is_required c = true \/ is_Some (bind_full (Config_addr c)) ->
     exists t, t ∈ l4 ++ l6 /\ config t = c).
Proof.
  revert h4 h6 l4 l6. induction configs as [|c configs IH]; intros h4 h6 l4 l6; simpl.
  - intros [= <- <-]. split; [intros t Ht; by apply elem_of_nil in Ht|intros c Hc; by apply elem_of_nil in Hc].
  - unfold IpTransport_bind. destruct (bind_full (Config_addr c)) as [a|] eqn:Eb; simpl.
    + assert (Hcons : forall l, (forall t, t ∈ l -> config t ∈ configs /\ bind_full (Config_addr (config t)) = Some (local_addr t)) ->
         forall t, t ∈ mkIpTransport c a :: l -> config t ∈ c :: configs /\ bind_full (Config_addr (config t)) = Some (local_addr t)).
      { intros l Hl t Ht. apply elem_of_cons in Ht as [->|Ht]; [split; [by left|done]|].
        destruct (Hl t Ht). split; [by right|done]. }
      destruct (is_ipv4 c).
      * destruct (is_default c && h4); simpl; [done|].
        destruct (bind_configs bind_full configs _ _) as [[l4' l6']|e|] eqn:E; simpl; [|done..]. intros [= <- <-].
        destruct (IH _ _ _ _ E) as [Hb Hr]. split; [by apply Hcons|].
        intros c' Hc' Hreq. apply elem_of_cons in Hc' as [->|Hc'].
        -- exists (mkIpTransport c a). split; [by left|done].
        -- destruct (Hr c' Hc' Hreq) as (t & Ht & Hct). exists t. split; [by right|done].
      * destruct (is_default c && h6); simpl; [done|].
        destruct (bind_configs bind_full configs _ _) as [[l4' l6']|e|] eqn:E; simpl; [|done..]. intros [= <- <-].
        destruct (IH _ _ _ _ E) as [Hb Hr]. split.
        -- intros t Ht. apply (Hcons _ Hb). by rewrite Permutation_middle.
        -- intros c' Hc' Hreq. apply elem_of_cons in Hc' as [->|Hc'].
           ++ exists (mkIpTransport c a). split; [apply elem_of_app; right; by left|done].
           ++ destruct (Hr c' Hc' Hreq) as (t & Ht & Hct). exists t. split; [|done].
              rewrite <- Permutation_middle. by right.
    + destruct (is_required c) eqn:Ereq; simpl; [done|]. intros E. destruct (IH _ _ _ _ E) as [Hb Hr]. split.
      * intros t Ht. destruct (Hb t Ht). split; [by right|done].
      * intros c' Hc' Hreq. apply elem_of_cons in Hc' as [->|Hc']; [|auto].
        exfalso. destruct Hreq as [?|[? ?]]; congruence.
Qed.

Lemma one_default ts s u :
  (length (List.filter default_of ts) <= 1)%nat -> s ∈ ts -> u ∈ ts -> default_of s = true -> default_of u = true -> s = u.
Proof.
  intros Hl Hs Hu Ds Du.
  assert (Hin : forall x, x ∈ ts -> default_of x = true -> x ∈ List.filter default_of ts).
  { intros x Hx Dx. apply list_elem_of_In, List.filter_In. split; [by apply list_elem_of_In|done]. }
  pose proof (Hin s Hs Ds) as Is. pose proof (Hin u Hu Du) as Iu. clear -Hl Is Iu.
  destruct (List.filter default_of ts) as [|x [|y l]]; simpl in Hl; [by apply elem_of_nil in Is| |lia].
  apply list_elem_of_singleton in Is, Iu. congruence.
Qed.

Lemma valid_default_is_default c src dst : is_valid_default_addr c src dst = true -> is_default c = true.
Proof. destruct c, src as [[]|], dst; simpl; done. Qed.

(** The choice within one family. *)
Lemma pick_sender_spec ts src dst :
  (length (List.filter default_of ts) <= 1)%nat ->
  let sorted := sort_by_prefix ts in
  match pick_sender contains sorted (default_index sorted) src dst with
  | Some s => s ∈ ts /\
      ((is_valid_send_addr contains (config s) src dst = true /\
        forall u, u ∈ ts -> is_valid_send_addr contains (config u) src dst = true -> longer s u) \/
       ((forall u, u ∈ ts -> is_valid_send_addr contains (config u) src dst = false) /\
        is_valid_default_addr (config s) src dst = true))
  | None => forall u, u ∈ ts -> is_valid_send_addr contains (config u) src dst = false /\
                            is_valid_default_addr (config u) src dst = false
  end.
Proof.
  intros Hone sorted. assert (Hin : forall x, x ∈ sorted <-> x ∈ ts) by (intros x; unfold sorted; by rewrite sort_perm).
  unfold pick_sender. destruct (List.find _ sorted) as [s|] eqn:Ef.
  - destruct (find_longest _ _ _ (sort_sorted ts) Ef) as (Hs & Hv & Hmax). split; [by apply Hin|].
    left. split; [done|]. intros u Hu. apply Hmax. by apply Hin.
  - assert (Hno : forall u, u ∈ ts -> is_valid_send_addr contains (config u) src dst = false).
    { intros u Hu. apply (find_none _ _ Ef). by apply Hin. }
    destruct (default_index sorted) as [i|] eqn:Ed; simpl.
    + destruct (default_index_some _ _ Ed) as (s & Hl & Hd). rewrite Hl. simpl.
      apply list_elem_of_lookup_2 in Hl. destruct (is_valid_default_addr (config s) src dst) eqn:Edv.
      * split; [by apply Hin|]. right. done.
      * intros u Hu. split; [auto|]. destruct (is_valid_default_addr (config u) src dst) eqn:Eu; [|done].
        rewrite <- Eu, <- Edv. f_equal. f_equal. apply (one_default ts); try done.
        -- by apply Hin.
        -- by apply valid_default_is_default in Eu.
    + intros u Hu. split; [auto|]. destruct (is_valid_default_addr (config u) src dst) eqn:Eu; [|done].
      apply valid_default_is_default in Eu. pose proof (default_index_none _ Ed u ltac:(by apply Hin)) as Hn.
      unfold default_of in Hn. congruence.
Qed.

(** Of the sockets bound for the family of the destination, a datagram goes
    out on one with the longest prefix among those that cover it, or that have
    its source address; if there is none, on the default socket of the family;
    and only without either it is not sent. *)
Theorem ip_sender_most_specific configs t src dst :
  IpTransports_bind bind_full configs = Ok t ->
  let family := match dst with SocketV4 _ _ => v4 t | SocketV6 _ _ _ _ => v6 t end in
  let valid u := is_valid_send_addr contains (config u) src dst in
  match pick_ip contains t src dst with
  | Some s => s ∈ family /\
      (valid s = true /\ (forall u, u ∈ family -> valid u = true -> longer s u) \/
       (forall u, u ∈ family -> valid u = false) /\ is_valid_default_addr (config s) src dst = true)
  | None => forall u, u ∈ family -> valid u = false /\ is_valid_default_addr (config u) src dst = false
  end.
Proof.
  unfold IpTransports_bind. destruct (bind_configs bind_full configs false false) as [[l4 l6]|e|] eqn:E; simpl; [|done..].
  intros [= <-]. apply bind_configs_ok in E as (_ & _ & H4 & H6). rewrite Nat.add_0_r in H4, H6.
  destruct dst as [ip4 port|ip6 port fl sc]; simpl.
  - pose proof (pick_sender_spec l4 src (SocketV4 ip4 port) H4) as Hp. simpl in Hp.
    destruct (pick_sender _ _ _ _ _) as [s|].
    + destruct Hp as [Hin Hp]. split; [by rewrite sort_perm|]. destruct Hp as [[Hv Hm]|[Hn Hd]]; [left|right].
      * split; [done|]. intros u Hu. apply Hm. by rewrite sort_perm in Hu.
      * split; [|done]. intros u Hu. apply Hn. by rewrite sort_perm in Hu.
    + intros u Hu. apply Hp. by rewrite sort_perm in Hu.
  - pose proof (pick_sender_spec l6 src (SocketV6 ip6 port fl sc) H6) as Hp. simpl in Hp.
    destruct (pick_sender _ _ _ _ _) as [s|].
    + destruct Hp as [Hin Hp]. split; [by rewrite sort_perm|]. destruct Hp as [[Hv Hm]|[Hn Hd]]; [left|right].
      * split; [done|]. intros u Hu. apply Hm. by rewrite sort_perm in Hu.
      * split; [|done]. intros u Hu. apply Hn. by rewrite sort_perm in Hu.
    + intros u Hu. apply Hp. by rewrite sort_perm in Hu.
Qed.

End IpFacts.

(** ** Lemmas: polling *)

Definition failed (t : transport) : bool := if answer t is RecvFailed then true else false.

Lemma sweep_spec order polled errors ready :
  (errors <= polled)%nat ->
  exists w, sweep true order polled errors ready = Ok w /\
    match w with
    | Found slots => slots <> [] /\ (exists t, t ∈ order /\ answer t = RecvReady slots) /\ forallb failed order = false
    | Swept p e _ => (e <= p)%nat /\ ((p = e)%nat <-> polled = errors /\ forallb failed order = true)
    end.
Proof.
  revert polled errors ready. induction order as [|t order IH]; intros polled errors ready Hle; simpl.
  - eexists. split; [done|]. simpl. split; [done|]. split; [by intros ->|by intros [-> _]].
  - rewrite andb_false_r. unfold failed at 1 3. destruct (answer t) as [|[|x slots]|] eqn:Ea; simpl.
    + destruct (IH (S polled) errors ready ltac:(lia)) as (w & -> & Hw). eexists. split; [done|].
      destruct w as [sl|p e r].
      * destruct Hw as (Hn & (u & Hu & Hau) & _). split; [done|]. split; [|done]. exists u. split; [by right|done].
      * destruct Hw as [Hep Heq]. split; [done|]. rewrite Heq. split; [intros [? _]; lia|by intros [_ ?]].
    + destruct (IH (S polled) errors true ltac:(lia)) as (w & -> & Hw). eexists. split; [done|].
      destruct w as [sl|p e r].
      * destruct Hw as (Hn & (u & Hu & Hau) & _). split; [done|]. split; [|done]. exists u. split; [by right|done].
      * destruct Hw as [Hep Heq]. split; [done|]. rewrite Heq. split; [intros [? _]; lia|by intros [_ ?]].
    + eexists. split; [done|]. simpl. split; [done|]. split; [|done]. exists t. split; [by left|done].
    + destruct (IH (S polled) (S errors) ready ltac:(lia)) as (w & -> & Hw). eexists. split; [done|].
      destruct w as [sl|p e r].
      * destruct Hw as (Hn & (u & Hu & Hau) & Hf). split; [done|]. split; [|done]. exists u. split; [by right|done].
      * destruct Hw as [Hep Heq]. split; [done|]. rewrite Heq. split; intros [? ?]; (split; [lia|done]).
Qed.

(** All transports of a poll fail. *)
Definition all_failed (poll : list transport * list transport * list transport) : bool :=
  let '(ip, relay, custom) := poll in forallb failed (ip ++ relay ++ custom).

Lemma forallb_perm {A} (f : A -> bool) l l' : l ≡ₚ l' -> forallb f l = forallb f l'.
Proof.
  induction 1 as [|x l l' _ IH|x y l|l1 l2 l3 _ IH1 _ IH2]; simpl; [done|by rewrite IH| |congruence].
  by destruct (f x), (f y).
Qed.

Lemma poll_order_perm s ip relay custom : poll_order s ip relay custom ≡ₚ ip ++ relay ++ custom.
Proof.
  unfold poll_order. destruct (_ =? 0); [done|].
  rewrite <- (Permutation_rev custom), <- (Permutation_rev relay).
  by rewrite (Permutation_app_comm custom (relay ++ ip)), (Permutation_app_comm relay ip), <- app_assoc.
Qed.

(** One poll of open transports. *)
Lemma inner_poll_spec s poll :
  let '(ip, relay, custom) := poll in
  exists r s', inner_poll_recv s true ip relay custom = Ok (r, s') /\
    poll_recv_counter s' = poll_recv_counter s /\
    consecutive_total_recv_failures s' = (if all_failed poll then consecutive_total_recv_failures s + 1 else 0) /\
    (r = PollReady (Err NetworkDown) <->
     all_failed poll = true /\ MAX_CONSECUTIVE_RECV_ERRORS <= consecutive_total_recv_failures s + 1).
Proof.
  destruct poll as [[ip relay] custom]. unfold inner_poll_recv, all_failed.
  rewrite <- (forallb_perm failed _ _ (poll_order_perm s ip relay custom)).
  destruct (sweep_spec (poll_order s ip relay custom) 0 0 false ltac:(lia)) as (w & -> & Hw). simpl.
  destruct w as [slots|p e ready].
  - destruct Hw as (Hn & _ & Hf). rewrite Hf. eexists _, _. split; [done|]. split; [done|]. split; [done|].
    split; [done|by intros [? _]].
  - destruct Hw as [Hep Heq]. destruct (Nat.eqb_spec p e) as [E|E].
    + apply Heq in E as [_ Hf]. rewrite Hf. eexists _, _. split; [done|]. split; [done|]. split; [done|].
      destruct (Z.leb_spec MAX_CONSECUTIVE_RECV_ERRORS (consecutive_total_recv_failures s + 1)); split; try done; try lia;
      intros [_ ?]; lia.
    + destruct (forallb failed _) eqn:Hf; [by destruct E; apply Heq|]. eexists _, _. split; [done|].
      split; [done|]. split; [done|]. destruct ready; (split; [done|by intros [? _]]).
Qed.

(** A goal that depends on the equality of two numbers. *)
Ltac eqb_lia := match goal with |- context [(?a =? ?b)%nat] => destruct (Nat.eqb_spec a b); lia end.

Lemma poll_seq_spec s polls :
  0 <= consecutive_total_recv_failures s ->
  exists rs s', poll_seq s polls = Ok (rs, s') /\ length rs = length polls /\
    poll_recv_counter s' = poll_recv_counter s /\
    forall i, rs !! i = Some (PollReady (Err NetworkDown)) <->
      (i < length polls)%nat /\
      exists k, (k <= i + 1)%nat /\ (forall j p, (i + 1 - k <= j <= i)%nat -> polls !! j = Some p -> all_failed p = true) /\
        MAX_CONSECUTIVE_RECV_ERRORS <= Z.of_nat k + (if (k =? i + 1)%nat then consecutive_total_recv_failures s else 0).
Proof.
  revert s. induction polls as [|poll polls IH]; intros s Hs.
  - exists [], s. split; [done|]. split; [done|]. split; [done|]. intros i. split; [done|]. simpl. intros [? _]. lia.
  - pose proof (inner_poll_spec s poll) as Hp. destruct poll as [[ip relay] custom] eqn:Epoll.
    destruct Hp as (r & s1 & Er & Hc & Hf & Hd). rewrite <- Epoll in *.
    assert (Hs1 : 0 <= consecutive_total_recv_failures s1) by (rewrite Hf; destruct (all_failed poll); lia).
    destruct (IH s1 Hs1) as (rs & s2 & Ers & Hlen & Hc2 & Hi). exists (r :: rs), s2.
    split; [rewrite Epoll; simpl; rewrite Er; simpl; by rewrite Ers|]. split; [simpl; by rewrite Hlen|].
    split; [congruence|]. intros [|i]; simpl.
    + split.
      * intros [= E]. apply Hd in E as [Ha Hm]. split; [lia|]. exists 1%nat. split; [lia|]. split; [|done || (simpl; lia)].
        intros j p Hj Hp. assert (j = 0)%nat as -> by lia. by injection Hp as <-.
      * intros [_ (k & Hk & Hall & Hm)]. f_equal. apply Hd. destruct k as [|[|k]]; [| |lia].
        -- simpl in Hm. unfold MAX_CONSECUTIVE_RECV_ERRORS in Hm. lia.
        -- simpl in Hm. split; [apply (Hall 0%nat); [lia|done]|lia].
    + rewrite Hi. split.
      * intros [Hl (k & Hk & Hall & Hm)]. split; [lia|]. destruct (Nat.eqb_spec k (i + 1)) as [->|Hne].
        -- rewrite Hf in Hm. destruct (all_failed poll) eqn:Ha.
           ++ exists (i + 2)%nat. split; [lia|]. split.
              ** intros [|j] p Hj Hp; [simpl in Hp; congruence|]. apply (Hall j); [lia|done].
              ** eqb_lia.
           ++ exists (i + 1)%nat. split; [lia|]. split.
              ** intros [|j] p Hj Hp; [lia|]. apply (Hall j); [lia|done].
              ** eqb_lia.
        -- exists k. split; [lia|]. split.
           ++ intros [|j] p Hj Hp; [lia|]. apply (Hall j); [lia|done].
           ++ eqb_lia.
      * intros [Hl (k & Hk & Hall & Hm)]. split; [lia|]. destruct (Nat.eqb_spec k (S i + 1)) as [->|Hne].
        -- assert (Ha : all_failed poll = true) by (apply (Hall 0%nat); [lia|done]). rewrite Ha in Hf.
           exists (i + 1)%nat. split; [lia|]. split.
           ++ intros j p Hj Hp. apply (Hall (S j)); [lia|done].
           ++ rewrite ?Nat.eqb_refl in Hm |- *. rewrite Hf. lia.
        -- exists k. split; [lia|]. split.
           ++ intros j p Hj Hp. apply (Hall (S j)); [lia|done].
           ++ rewrite (proj2 (Nat.eqb_neq k (S (i + 1)))) in Hm by (simpl in Hne; lia). eqb_lia.
Qed.

(** Receiving never fails because of one transport: an error reaches the QUIC
    stack, which it ends, exactly at a poll that is at least the eighth in a row
    at which every transport failed. *)
Theorem recv_gives_up polls :
  exists rs s', poll_seq Receiver_new polls = Ok (rs, s') /\
    forall i, rs !! i = Some (PollReady (Err NetworkDown)) <->
      (7 <= i < length polls)%nat /\
      (forall j p, (i - 7 <= j <= i)%nat -> polls !! j = Some p -> all_failed p = true).
Proof.
  destruct (poll_seq_spec Receiver_new polls ltac:(simpl; lia)) as (rs & s' & E & _ & _ & Hi).
  exists rs, s'. split; [done|]. intros i. rewrite Hi. simpl. unfold MAX_CONSECUTIVE_RECV_ERRORS. split.
  - intros [Hl (k & Hk & Hall & Hm)]. assert (8 <= k)%nat by (destruct (_ =? _)%nat; lia).
    split; [lia|]. intros j p Hj. apply Hall. lia.
  - intros [Hl Hall]. split; [lia|]. exists 8%nat. split; [lia|]. split; [|destruct (_ =? _)%nat; lia].
    intros j p Hj. apply Hall. lia.
Qed.

(** The order of polling never changes: the counter that is to reverse it at
    every other call is not stored, so whenever a relay or custom transport has
    datagrams the IP sockets are not read. *)
Theorem ip_polled_last polls rs s :
  poll_seq Receiver_new polls = Ok (rs, s) ->
  forall ip relay custom slots t,
    poll_order s ip relay custom = rev custom ++ rev relay ++ ip /\
    (t ∈ custom ++ relay -> answer t = RecvReady slots -> slots <> [] ->
     exists u slots' s', u ∈ custom ++ relay /\ answer u = RecvReady slots' /\
       inner_poll_recv s true ip relay custom = Ok (PollReady (Ok slots'), s')).
Proof.
  intros E ip relay custom slots t.
  destruct (poll_seq_spec Receiver_new polls ltac:(simpl; lia)) as (rs' & s' & E' & _ & Hc & _).
  rewrite E in E'. injection E' as <- <-.
  assert (Ho : poll_order s ip relay custom = rev custom ++ rev relay ++ ip) by (unfold poll_order; by rewrite Hc).
  split; [done|]. intros Ht Ha Hne. unfold inner_poll_recv. rewrite Ho, app_assoc.
  assert (Hin : t ∈ rev custom ++ rev relay).
  { rewrite elem_of_app, !list_elem_of_In, <- !in_rev, <- !list_elem_of_In, <- elem_of_app. done. }
  assert (Hf : forall l p e r, t ∈ l -> exists u slots', u ∈ l /\ answer u = RecvReady slots' /\
            sweep true (l ++ ip) p e r = Ok (Found slots')).
  { clear -Ha Hne. induction l as [|u l IH]; intros p e r Hl; [by apply elem_of_nil in Hl|]. simpl. rewrite andb_false_r.
    destruct (answer u) as [|[|x sl]|] eqn:Eu.
    4: { destruct (IH (S p) (S e) r) as (v & sl & Hv & Hav & ->); [|exists v, sl; split; [by right|done]].
         apply elem_of_cons in Hl as [->|Hl]; [congruence|done]. }
    3: { exists u, (x :: sl). split; [by left|done]. }
    - destruct (IH (S p) e r) as (v & sl & Hv & Hav & ->); [|exists v, sl; split; [by right|done]].
      apply elem_of_cons in Hl as [->|Hl]; [congruence|done].
    - destruct (IH (S p) e true) as (v & sl & Hv & Hav & ->); [|exists v, sl; split; [by right|done]].
      apply elem_of_cons in Hl as [->|Hl]; [congruence|done]. }
  destruct (Hf _ 0%nat 0%nat false Hin) as (u & slots' & Hu & Hau & ->). simpl.
  exists u, slots', (mkReceiver (poll_recv_counter s) 0). split; [|done].
  rewrite elem_of_app, !list_elem_of_In, <- !in_rev, <- !list_elem_of_In, <- elem_of_app in Hu. done.
Qed.

(** ** Lemmas: addresses *)

Lemma Addr_from_canonical a : Addr_from a = AddrIp (canonical_addr a).
Proof. by destruct a. Qed.

Lemma canonical_addr_idem a : canonical_addr (canonical_addr a) = canonical_addr a.
Proof.
  destruct a as [ip port|ip port fl sc]; [done|]. unfold canonical_addr. simpl. unfold to_canonical.
  destruct (bool_decide (take 12 ip = v4_mapped_prefix)) eqn:E; simpl; [done|]. unfold to_canonical. by rewrite E.
Qed.

(** The route of an address is the path it stands for. *)
Lemma sender_route_from_noq endpoint_addrs maps q src t :
  from_noq (q, src) (relay_addrs maps) (custom_addrs maps) = Some t ->
  sender_route endpoint_addrs maps q src = ToPath t.
Proof.
  unfold from_noq, to_transport_addr, sender_route. simpl.
  destruct (multipath_from q) as [a|a|a|a]; simpl; [done| | |].
  - destruct (lookup (relay_addrs maps) a) as [[url id]|]; simpl; [|done]. by intros [= <-].
  - rewrite Addr_from_canonical. simpl. by intros [= <-].
  - destruct (lookup (custom_addrs maps) a) as [c|]; simpl; [|done]. by intros [= <-].
Qed.

(** What the socket of a peer's datagram says: an IPv4 address, or an IPv6 address
    outside the ranges of the mapped ones. *)
Definition source_ok (m : Sock.RecvMeta) : Prop :=
  match Sock.meta_addr m with
  | SocketV4 _ _ => True
  | a => multipath_from a = MappedIp a
  end.

(** The address of the peer, as its socket gives it; an IPv4 address in an IPv6
    socket is that IPv4 address. *)
Definition source_of (m : Sock.RecvMeta) : SocketAddr :=
  match Sock.meta_addr m with
  | SocketV6 ip port fl sc =>
      match to_canonical ip with V4 octets => SocketV4 octets port | V6 _ => SocketV6 ip port fl sc end
  | a => a
  end.

(** The datagrams transports put into the buffers, with the path they arrived on: what
    the UDP socket said, the relay and the sender, or the addresses of the custom
    transport. *)
Inductive received : Sock.RecvMeta * Sock.RecvInfo -> FourTuple -> Prop :=
| received_ip m : source_ok m -> received (ip_received m) (TupleIp (source_of m) (Sock.dst_ip m))
| received_relay m url id local : received (m, Sock.mkRecvInfo (AddrRelay url id) local) (TupleRelay url id)
| received_custom m a local :
    Sock.dst_ip m = None -> received (m, Sock.mkRecvInfo (AddrCustom a) local) (TupleCustom a local).

(** A path without the flow label and the scope of an IPv6 address. *)
Definition without_scope (t : FourTuple) : FourTuple :=
  match t with
  | TupleIp (SocketV6 ip port _ _) local => TupleIp (SocketV6 ip port 0 0) local
  | _ => t
  end.

Lemma ip_received_path m : Sock.path_of (ip_received m).1 (ip_received m).2 = without_scope (TupleIp (source_of m) (Sock.dst_ip m)).
Proof.
  unfold Sock.path_of, ip_received, source_of. cbn [fst snd Sock.info_remote Sock.dst_ip].
  rewrite Addr_from_canonical, canonical_addr_idem. unfold canonical_addr.
  destruct (Sock.meta_addr m) as [ip port|ip port fl sc]; simpl.
  - by rewrite drop_0.
  - unfold to_canonical. by destruct (bool_decide _).
Qed.

Lemma received_wf slot t : received slot t -> Sock.recv_wf slot.1 slot.2 /\ Sock.path_of slot.1 slot.2 = without_scope t.
Proof.
  intros [m Hm|m url id local|m a local Hd]; [|done..]. split; [|apply ip_received_path].
  unfold Sock.recv_wf, ip_received. cbn [fst snd Sock.info_remote Sock.meta_addr].
  rewrite Addr_from_canonical, canonical_addr_idem. unfold source_ok in Hm. destruct (Sock.meta_addr m) as [ip port|ip port fl sc].
  - split; [done|]. apply Addr_from_canonical.
  - split; [done|]. apply Addr_from_canonical.
Qed.

(** What a poll with data hands over is what one transport received. *)
Lemma poll_found s fits ip relay custom slots s' :
  inner_poll_recv s fits ip relay custom = Ok (PollReady (Ok slots), s') -> slots <> [] ->
  exists t, t ∈ ip ++ relay ++ custom /\ answer t = RecvReady slots.
Proof.
  unfold inner_poll_recv. destruct (sweep fits (poll_order s ip relay custom) 0 0 false) as [w|e|] eqn:E; simpl; [|done..].
  intros H Hne.
  assert (Hw : w = Found slots).
  { destruct w as [sl|p e r]; [congruence|]. destruct (p =? e)%nat; [destruct (_ <=? _)|destruct r]; congruence. }
  subst w. clear H. setoid_rewrite <- (poll_order_perm s ip relay custom).
  revert E. generalize (poll_order s ip relay custom) as order. generalize 0%nat at 1 as p. generalize 0%nat as e.
  generalize false as r. clear -Hne. intros r e p order. revert r e p.
  induction order as [|t order IH]; intros r e p; simpl; [done|]. destruct (asserts t && negb fits); [done|].
  destruct (answer t) as [|[|x sl]|] eqn:Ea.
  - intros E. destruct (IH _ _ _ E) as (u & Hu & ?). exists u. split; [by right|done].
  - intros E. destruct (IH _ _ _ E) as (u & Hu & ?). exists u. split; [by right|done].
  - intros [= <-]. exists t. split; [by left|done].
  - intros E. destruct (IH _ _ _ E) as (u & Hu & ?). exists u. split; [by right|done].
Qed.


(** ** What else the code does *)

(** The scope of a link-local address is lost on the way to the socket, so the
    comparison of scopes in [is_valid_send_addr] only ever sees zero. *)
Lemma scope_is_lost endpoint_addrs maps ip port fl scope src :
  multipath_from (SocketV6 ip port fl scope) = MappedIp (SocketV6 ip port fl scope) ->
  to_canonical ip = V6 ip ->
  sender_route endpoint_addrs maps (SocketV6 ip port fl scope) src = ToPath (TupleIp (SocketV6 ip port 0 0) src).
Proof. intros Hm Hc. unfold sender_route. rewrite Hm. unfold canonical_addr. simpl. by rewrite Hc. Qed.

(** With fewer buffers than infos a poll panics at the first IP or relay
    transport, although [poll_recv] accepts them. *)
Lemma fewer_buffers_panic batch_size maps bufs s ip relay custom t order :
  (bufs < batch_size)%nat -> poll_order s ip relay custom = t :: order -> asserts t = true ->
  poll_recv batch_size false maps s bufs bufs ip relay custom = Panic.
Proof.
  intros Hlt Ho Ha. unfold poll_recv. rewrite Nat.eqb_refl. simpl.
  rewrite (proj2 (Nat.ltb_ge batch_size bufs)) by lia. rewrite (proj2 (Nat.eqb_neq bufs batch_size)) by lia.
  unfold inner_poll_recv. rewrite Ho. simpl. by rewrite Ha.
Qed.

Section Sending.
Context (contains : IpNet -> bytes -> bool).

(** The QUIC stack never waits for a transport and never sees one fail: a
    transmit of an open socket is always taken. A custom transport that is not
    ready loses the datagram like a path without a transport, and a relay that
    is not ready is reported as pending and loses it too. *)
Theorem transmit_always_taken endpoint_addrs maps inbox s destination src :
  (sender_poll_send contains false endpoint_addrs maps inbox s destination src).1 = Ok tt /\
  (forall remote local, Forall (fun c => c.1 remote = false \/ c.2 = SendPending) (custom s) ->
     (transports_poll_send contains s (TupleCustom remote local)).1 = SendReady (Ok tt)) /\
  (forall url id, relay s <> [] -> Forall (fun r => r = SendPending) (relay s) ->
     (transports_poll_send contains s (TupleRelay url id)).1 = SendPending).
Proof.
  split; [|split].
  - unfold sender_poll_send. destruct (sender_route _ _ _ _) as [id|t|]; simpl; [done| |done].
    destruct (transports_poll_send contains s t) as [[|[]] attempts]; done.
  - intros remote local Hall. simpl.
    assert (Hc : forall i, (custom_send i (custom s) remote local).1 = None).
    { induction Hall as [|[v a] l [Hx|Hx] Hl IH]; intros i; simpl in *; [done| |].
      - rewrite Hx. apply IH.
      - subst a. destruct (v remote); [|apply IH]. specialize (IH (S i)). by destruct (custom_send _ _ _ _). }
    specialize (Hc 0%nat). destruct (custom_send 0 (custom s) remote local) as [[r|] at_]; done.
  - intros url id Hne Hall. simpl.
    assert (Hc : forall i, (relay_send i (relay s) url id).1 = None).
    { clear Hne. induction Hall as [|a l Hx Hl IH]; intros i; simpl in *; [done|]. subst a.
      specialize (IH (S i)). by destruct (relay_send _ _ _ _). }
    specialize (Hc 0%nat). destruct (relay_send 0 (relay s) url id) as [[r|] at_]; [done|].
    by destruct (relay s).
Qed.

End Sending.

(** The socket pretends to be an IPv6 one, whatever its transports are. *)
Lemma local_addr_is_v6 addrs has_relay has_custom a :
  transport_local_addr addrs has_relay has_custom = Some a -> exists ip port fl sc, a = SocketV6 ip port fl sc.
Proof.
  unfold transport_local_addr. set (l := map _ addrs).
  destruct (List.find _ l) as [x|] eqn:E.
  - intros [= <-]. apply List.find_some in E as [_ E]. destruct x as [|ip port fl sc]; [done|]. by exists ip, port, fl, sc.
  - destruct l as [|[ip port|ip port fl sc] l'].
    + destruct (_ || _); [|done]. intros [= <-]. eexists _, _, _, _. done.
    + intros [= <-]. eexists _, _, _, _. done.
    + done.
Qed.

(** A built-in configuration gives way to a default of the user. *)
Lemma user_default_replaces configs c :
  TransportIp c true ∈ configs -> is_default c = true -> is_ipv4 c = true ->
  forall c', c' ∈ ip_configs configs -> is_ipv4 c' = true -> TransportIp c' true ∈ configs.
Proof.
  intros Hin Hd H4 c' Hc' H4'. unfold ip_configs in Hc'. apply list_elem_of_omap in Hc' as (t & Ht & E).
  destruct t as [c0 []|u|]; simpl in E; [by injection E as <-| |done|done].
  assert (Hex : existsb (fun t => is_ipv4_default t && is_user_defined t) configs = true).
  { apply existsb_exists. exists (TransportIp c true). split; [by apply list_elem_of_In|]. simpl. by rewrite Hd, H4. }
  rewrite Hex in E. destruct (is_ipv4 c0) eqn:E0; simpl in E; [done|].
  destruct (is_ipv6 c0 && _); [done|]. injection E as ->. congruence.
Qed.

End Transports.

(** ** Witnesses *)

Section Witnesses.
Import Transports.

(** Networks by their leading whole bytes. *)
Definition prefix_contains (n : IpNet) (ip : bytes) : bool :=
  let k := Z.to_nat (net_prefix_len n / 8) in bool_decide (take k (net_addr n) = take k ip).

Definition lan : Config := ConfigV4 (mkIpNet [Byte.x0a; Byte.x00; Byte.x00; Byte.x01] 24) 1111 true false.
Definition any_net : Config := ConfigV4 (mkIpNet (replicate 4 Byte.x00) 0) 9999 true true.
Definition both_bound : IpTransports :=
  mkIpTransports [mkIpTransport lan (Config_addr lan); mkIpTransport any_net (Config_addr any_net)] (Some 1%nat) [] None.
Definition lan_peer : SocketAddr := SocketV4 [Byte.x0a; Byte.x00; Byte.x00; Byte.x07] 5000.

Lemma ip_sender_most_specific_witness :
  exists s, pick_ip prefix_contains both_bound None lan_peer = Some s /\ config s = lan /\
    forall u, u ∈ v4 both_bound -> is_valid_send_addr prefix_contains (config u) None lan_peer = true -> longer s u.
Proof.
  pose proof (ip_sender_most_specific prefix_contains Some [any_net; lan] both_bound None lan_peer eq_refl) as H.
  simpl in H. destruct H as [_ [[_ Hm]|[Hn _]]].
  - exists (mkIpTransport lan (Config_addr lan)). split; [reflexivity|]. split; [reflexivity|]. exact Hm.
  - specialize (Hn (mkIpTransport lan (Config_addr lan)) ltac:(left)). discriminate Hn.
Defined.

Definition relay_peer : EndpointId := mkPublicKey (replicate 32 Byte.x07).
Definition relay_slot : Sock.RecvMeta * Sock.RecvInfo :=
  (Sock.mkRecvMeta lan_peer 1200 1200 None, Sock.mkRecvInfo (AddrRelay "https://relay.example/" relay_peer) None).
Definition ip_slot : Sock.RecvMeta * Sock.RecvInfo := ip_received (Sock.mkRecvMeta lan_peer 1200 1200 None).
Definition busy_relay : transport := mkTransport true (RecvReady [relay_slot]).
Definition busy_ip : transport := mkTransport true (RecvReady [ip_slot]).

Lemma ip_polled_last_witness :
  exists u slots s', u ∈ [] ++ [busy_relay] /\ answer u = RecvReady slots /\
    inner_poll_recv (mkReceiver 0 0) true [busy_ip] [busy_relay] [] = Ok (PollReady (Ok slots), s').
Proof.
  refine (proj2 (ip_polled_last [([busy_ip], [busy_relay], [])] [PollReady (Ok [relay_slot])] (mkReceiver 0 0) eq_refl
    [busy_ip] [busy_relay] [] [relay_slot] busy_relay) _ _ _).
  - left.
  - reflexivity.
  - discriminate.
Defined.


Definition no_sockets : Senders := mkSenders both_bound (fun _ => SendPending) [SendPending] [(fun _ => true, SendPending)].

Lemma transmit_always_taken_witness :
  (transports_poll_send prefix_contains no_sockets (TupleCustom (from_parts 7 [Byte.x01]) None)).1 = SendReady (Ok tt) /\
  (transports_poll_send prefix_contains no_sockets (TupleRelay "https://relay.example/" relay_peer)).1 = SendPending.
Proof.
  destruct (transmit_always_taken prefix_contains (fun _ => None) no_maps (fun _ => true) no_sockets lan_peer None)
    as (_ & Hc & Hr).
  split; [apply Hc; constructor; [right; reflexivity|constructor]|apply Hr; [discriminate|repeat constructor]].
Defined.

End Witnesses.
