(* ===== verification/RemoteMap.v ===== *)
(** * RemoteMap: the actors of the remote endpoints

    Models [iroh/src/socket/remote_map.rs]: the map that starts one actor per
    remote endpoint, hands messages to it, and removes or restarts it when its
    task ends ([iroh/src/socket/concurrent_read_map.rs] is the map of the
    senders). The owner of the map, the readers of its senders and the actors
    take steps in any order. Of an actor only its inbox is seen here: what the
    actor does with a message is the subject of [RemoteState]. *)

From S2P Require Import Prelude External Instances Keys.

Module RemoteMap.
Section RemoteMap.
Context {Msg : Type}.

(** A task of the join set: its remote, the messages it was started with and has
    accepted and not yet handled, and whether it has ended. An actor closes its
    inbox when it ends and returns what it has not handled. *)
Record Task := mkTask { task_remote : EndpointId; task_inbox : list Msg; task_ended : bool }.

Record RemoteMap := mkRemoteMap {
  senders : gmap EndpointId nat;             (* the task behind each sender *)
  tasks : gmap nat Task;
  next_task : nat;
  endpoint_addrs : gset EndpointId;          (* remotes with a mapped address *)
  poll_cleanup_waker : bool
}.

Definition RemoteMap_new : RemoteMap := mkRemoteMap ∅ ∅ 0 ∅ false.

Definition put_task (m : RemoteMap) (t : nat) (task : Task) : RemoteMap :=
  mkRemoteMap (senders m) (<[t := task]> (tasks m)) (next_task m) (endpoint_addrs m) (poll_cleanup_waker m).

(** [start_remote_state_actor]: the sender is inserted by the caller. *)
Definition start_remote_state_actor (m : RemoteMap) (eid : EndpointId) (initial_msgs : list Msg) : nat * RemoteMap :=
  (next_task m,
   mkRemoteMap (senders m) (<[next_task m := mkTask eid initial_msgs false]> (tasks m)) (S (next_task m))
     ({[eid]} ∪ endpoint_addrs m) false).

Definition insert_sender (m : RemoteMap) (id : EndpointId) (t : nat) : RemoteMap :=
  mkRemoteMap (<[id := t]> (senders m)) (tasks m) (next_task m) (endpoint_addrs m) (poll_cleanup_waker m).

Definition remove_sender (m : RemoteMap) (id : EndpointId) : RemoteMap :=
  mkRemoteMap (delete id (senders m)) (tasks m) (next_task m) (endpoint_addrs m) (poll_cleanup_waker m).

Definition remove_task (m : RemoteMap) (t : nat) : RemoteMap :=
  mkRemoteMap (senders m) (delete t (tasks m)) (next_task m) (endpoint_addrs m) (poll_cleanup_waker m).

(** Whether the actor was removed. *)
Definition remove_or_restart_actor (m : RemoteMap) (remote_id : EndpointId) (leftover_msgs : list Msg)
    : bool * RemoteMap :=
  match leftover_msgs with
  | [] => (true, remove_sender m remote_id)
  | _ =>
      let '(t, m) := start_remote_state_actor m remote_id leftover_msgs in
      (false, insert_sender m remote_id t)
  end.

(** [get_or_insert_with] of [send_to_actor]. *)
Definition get_or_start (m : RemoteMap) (remote_id : EndpointId) : nat * RemoteMap :=
  match senders m !! remote_id with
  | Some t => (t, m)
  | None =>
      let '(t, m) := start_remote_state_actor m remote_id [] in
      (t, insert_sender m remote_id t)
  end.

(** [poll_join_next] when no task has ended. *)
Definition park_cleanup (m : RemoteMap) : RemoteMap :=
  mkRemoteMap (senders m) (tasks m) (next_task m) (endpoint_addrs m) true.

(** What the owner is doing: nothing, waiting for room in an inbox, or waiting
    for the task of an actor that has ended. *)
Inductive owner :=
| Idle
| Sending (id : EndpointId) (msg : Msg) (t : nat)
| Joining (id : EndpointId) (msg : Msg).

Record State := mkState { map : RemoteMap; doing : owner }.

Definition init : State := mkState RemoteMap_new Idle.

(** What happens to messages. *)
Inductive event := Accepted (id : EndpointId) (msg : Msg) | Handled (id : EndpointId) (msg : Msg).

Definition running (m : RemoteMap) (t : nat) (task : Task) : Prop :=
  tasks m !! t = Some task /\ task_ended task = false.
Definition ended (m : RemoteMap) (t : nat) (task : Task) : Prop :=
  tasks m !! t = Some task /\ task_ended task = true.

Definition push (task : Task) (msg : Msg) : Task := mkTask (task_remote task) (task_inbox task ++ [msg]) (task_ended task).

Inductive map_step : State -> list event -> State -> Prop :=
(** [send_to_actor]: the sender, then the send, then, when it fails, the join. *)
| send_begin m id msg :
    map_step (mkState m Idle) []
      (mkState (get_or_start m id).2 (Sending id msg (get_or_start m id).1))
| send_accepted m id msg t task :
    running m t task ->
    map_step (mkState m (Sending id msg t)) [Accepted id msg] (mkState (put_task m t (push task msg)) Idle)
| send_failed m id msg t :
    (forall task, ~ running m t task) ->
    map_step (mkState m (Sending id msg t)) [] (mkState m (Joining id msg))
| join_other m id msg t task :
    ended m t task -> task_remote task <> id ->
    map_step (mkState m (Joining id msg)) []
      (mkState (remove_or_restart_actor (remove_task m t) (task_remote task) (task_inbox task)).2 (Joining id msg))
| join_own m id msg t task :
    ended m t task -> task_remote task = id ->
    map_step (mkState m (Joining id msg)) [Accepted id msg]
      (mkState (remove_or_restart_actor (remove_task m t) id (task_inbox task ++ [msg])).2 Idle)
(** [cleanup], called while nothing is sent. *)
| cleanup_join m t task :
    ended m t task ->
    map_step (mkState m Idle) []
      (mkState (remove_or_restart_actor (remove_task m t) (task_remote task) (task_inbox task)).2 Idle)
| cleanup_pending m :
    (forall t task, ~ ended m t task) -> map_step (mkState m Idle) [] (mkState (park_cleanup m) Idle)
(** [try_send] through the senders, by the owner and by any reader. *)
| try_send_accepted s id msg t task :
    senders (map s) !! id = Some t -> running (map s) t task ->
    map_step s [Accepted id msg] (mkState (put_task (map s) t (push task msg)) (doing s))
(** The actors. *)
| actor_handles s t task msg rest :
    running (map s) t task -> task_inbox task = msg :: rest ->
    map_step s [Handled (task_remote task) msg]
      (mkState (put_task (map s) t (mkTask (task_remote task) rest false)) (doing s))
| actor_ends s t task :
    running (map s) t task ->
    map_step s [] (mkState (put_task (map s) t (mkTask (task_remote task) (task_inbox task) true)) (doing s)).

Inductive map_run : list event -> State -> Prop :=
| run_init : map_run [] init
| run_step evs s e s' : map_run evs s -> map_step s e s' -> map_run (evs ++ e) s'.

Definition accepted_for (id : EndpointId) (evs : list event) : list Msg :=
  omap (fun e => if e is Accepted i msg then if decide (i = id) then Some msg else None else None) evs.
Definition handled_for (id : EndpointId) (evs : list event) : list Msg :=
  omap (fun e => if e is Handled i msg then if decide (i = id) then Some msg else None else None) evs.

(** The messages an actor of the endpoint has yet to handle. *)
Definition waiting_for (id : EndpointId) (m : RemoteMap) : list Msg :=
  match senders m !! id ≫= fun t => tasks m !! t with
  | Some task => task_inbox task
  | None => []
  end.

(** ** The senders and the tasks belong together *)

Record map_wf (m : RemoteMap) : Prop := {
  wf_task t task : tasks m !! t = Some task -> senders m !! task_remote task = Some t;
  wf_sender id t : senders m !! id = Some t -> exists task, tasks m !! t = Some task /\ task_remote task = id;
  wf_fresh t task : tasks m !! t = Some task -> (t < next_task m)%nat;
  wf_addrs id t : senders m !! id = Some t -> id ∈ endpoint_addrs m
}.

Definition owner_wf (s : State) : Prop :=
  match doing s with
  | Idle => True
  | Sending id _ t => senders (map s) !! id = Some t
  | Joining id _ => exists t task, senders (map s) !! id = Some t /\ ended (map s) t task
  end.

Lemma put_task_wf m t task task' :
  map_wf m -> tasks m !! t = Some task -> task_remote task' = task_remote task -> map_wf (put_task m t task').
Proof.
  intros [Ht Hs Hf Ha] E Hr. constructor; simpl.
  - intros u x. destruct (decide (u = t)) as [->|Hne].
    + rewrite lookup_insert_eq. intros [= <-]. rewrite Hr. auto.
    + rewrite lookup_insert_ne by done. apply Ht.
  - intros id u Hu. destruct (Hs id u Hu) as (x & Hx & Hid). destruct (decide (u = t)) as [->|Hne].
    + exists task'. rewrite lookup_insert_eq. split; [done|]. congruence.
    + exists x. by rewrite lookup_insert_ne.
  - intros u x. destruct (decide (u = t)) as [->|Hne]; [|rewrite lookup_insert_ne by done; apply Hf].
    intros _. eauto.
  - apply Ha.
Qed.

(** Starting an actor for a remote that has no task. *)
Lemma start_wf m id msgs :
  (forall t task, tasks m !! t = Some task -> senders m !! task_remote task = Some t) ->
  (forall i t, i <> id -> senders m !! i = Some t -> exists task, tasks m !! t = Some task /\ task_remote task = i) ->
  (forall t task, tasks m !! t = Some task -> (t < next_task m)%nat /\ task_remote task <> id) ->
  (forall i t, senders m !! i = Some t -> i ∈ endpoint_addrs m) ->
  let '(t, m') := start_remote_state_actor m id msgs in
  map_wf (insert_sender m' id t) /\ tasks m' !! t = Some (mkTask id msgs false).
Proof.
  intros Ht Hs Hf Ha. simpl. split; [|by rewrite lookup_insert_eq]. constructor; simpl.
  - intros u x. destruct (decide (u = next_task m)) as [->|Hne].
    + rewrite lookup_insert_eq. intros [= <-]. simpl. by rewrite lookup_insert_eq.
    + rewrite lookup_insert_ne by done. intros Hu. destruct (Hf u x Hu) as [_ Hid].
      rewrite lookup_insert_ne by done. auto.
  - intros i u. destruct (decide (i = id)) as [->|Hne].
    + rewrite lookup_insert_eq. intros [= <-]. rewrite lookup_insert_eq. eauto.
    + rewrite lookup_insert_ne by done. intros Hu. destruct (Hs i u Hne Hu) as (x & Hx & Hi).
      exists x. split; [|done]. rewrite lookup_insert_ne; [done|]. apply Hf in Hx. lia.
  - intros u x. destruct (decide (u = next_task m)) as [->|Hne]; [lia|]. rewrite lookup_insert_ne by done.
    intros Hu. apply Hf in Hu. lia.
  - intros i u. destruct (decide (i = id)) as [->|Hne]; [set_solver|]. rewrite lookup_insert_ne by done.
    intros Hu. apply Ha in Hu. set_solver.
Qed.

(** The task of an ended actor is removed or followed by a new one. *)
Lemma remove_or_restart_wf m t task msgs :
  map_wf m -> tasks m !! t = Some task ->
  let m' := (remove_or_restart_actor (remove_task m t) (task_remote task) msgs).2 in
  map_wf m' /\ waiting_for (task_remote task) m' = msgs /\
  (forall id, id <> task_remote task -> senders m' !! id = senders m !! id /\
     forall u, senders m !! id = Some u -> tasks m' !! u = tasks m !! u) /\
  (senders m' !! task_remote task = None \/
   exists u x, senders m' !! task_remote task = Some u /\ tasks m' !! u = Some x /\ task_ended x = false).
Proof.
  intros Hwf E. pose proof Hwf as [Ht Hs Hf Ha].
  assert (Hother : forall u x, u <> t -> tasks m !! u = Some x -> task_remote x <> task_remote task).
  { intros u x Hne Hu Heq. apply Hne. pose proof (Ht u x Hu) as H1. pose proof (Ht t task E) as H2. congruence. }
  destruct msgs as [|msg msgs]; simpl.
  - split; [|split; [|split]].
    + constructor; simpl.
      * intros u x. rewrite lookup_delete_Some. intros [Hne Hu].
        rewrite lookup_delete_ne by (by apply not_eq_sym, (Hother u x)). auto.
      * intros id u. rewrite lookup_delete_Some. intros [Hne Hu]. destruct (Hs id u Hu) as (x & Hx & Hid).
        exists x. split; [|done]. rewrite lookup_delete_ne; [done|]. intros ->. congruence.
      * intros u x. rewrite lookup_delete_Some. intros [_ Hu]. eauto.
      * intros id u. rewrite lookup_delete_Some. intros [_ Hu]. eauto.
    + unfold waiting_for. simpl. by rewrite lookup_delete_eq.
    + intros id Hne. split; [by rewrite lookup_delete_ne|]. intros u Hu. rewrite lookup_delete_ne; [done|].
      intros ->. destruct (Hs id u Hu) as (x & Hx & Hid). congruence.
    + left. by rewrite lookup_delete_eq.
  - destruct (start_wf (remove_task m t) (task_remote task) (msg :: msgs)) as [Hwf' Hnew]; simpl in *.
    + intros u x. rewrite lookup_delete_Some. intros [_ Hu]. auto.
    + intros i u Hne Hu. destruct (Hs i u Hu) as (x & Hx & Hid). exists x. split; [|done].
      rewrite lookup_delete_ne; [done|]. intros ->. congruence.
    + intros u x. rewrite lookup_delete_Some. intros [Hne Hu]. eauto.
    + apply Ha.
    + split; [done|]. split; [|split].
      * unfold waiting_for. simpl. rewrite lookup_insert_eq. simpl. by rewrite Hnew.
      * intros id Hne. split; [by rewrite lookup_insert_ne|]. intros u Hu.
        destruct (Hs id u Hu) as (x & Hx & Hid). rewrite lookup_insert_ne by (apply Hf in Hx; lia).
        rewrite lookup_delete_ne; [done|]. intros ->. congruence.
      * right. exists (next_task m). eexists. rewrite lookup_insert_eq. split; [done|]. by rewrite Hnew.
Qed.

Lemma get_or_start_wf m id :
  map_wf m ->
  let '(t, m') := get_or_start m id in
  map_wf m' /\ senders m' !! id = Some t /\ (forall i, waiting_for i m' = waiting_for i m).
Proof.
  intros Hwf. pose proof Hwf as [Ht Hs Hf Ha]. unfold get_or_start. destruct (senders m !! id) as [t|] eqn:E; [done|].
  destruct (start_wf m id []) as [Hwf' Hnew]; simpl in *.
  - done.
  - intros i t _. apply Hs.
  - intros t task Htask. split; [eauto|]. intros Heq. apply Ht in Htask. congruence.
  - done.
  - split; [done|]. split; [by rewrite lookup_insert_eq|]. intros i. unfold waiting_for. simpl.
    destruct (decide (i = id)) as [->|Hne].
    + rewrite lookup_insert_eq, E. simpl. by rewrite Hnew.
    + rewrite lookup_insert_ne by done. destruct (senders m !! i) as [u|] eqn:Eu; simpl; [|done].
      destruct (Hs i u Eu) as (x & Hx & _). rewrite lookup_insert_ne; [done|]. apply Hf in Hx. lia.
Qed.

(** ** Messages *)

Lemma waiting_own m t task : map_wf m -> tasks m !! t = Some task -> waiting_for (task_remote task) m = task_inbox task.
Proof. intros Hwf E. unfold waiting_for. rewrite (wf_task _ Hwf t task E). simpl. by rewrite E. Qed.

Lemma waiting_put m t task task' id :
  map_wf m -> tasks m !! t = Some task -> task_remote task' = task_remote task ->
  waiting_for id (put_task m t task') = if decide (id = task_remote task) then task_inbox task' else waiting_for id m.
Proof.
  intros Hwf E Hr. unfold waiting_for. simpl. case_decide as Hid.
  - subst id. rewrite (wf_task _ Hwf t task E). simpl. by rewrite lookup_insert_eq.
  - destruct (senders m !! id) as [u|] eqn:Eu; simpl; [|done]. rewrite lookup_insert_ne; [done|].
    intros ->. destruct (wf_sender _ Hwf id u Eu) as (x & Hx & Hxid). congruence.
Qed.

Lemma accepted_app id a b : accepted_for id (a ++ b) = accepted_for id a ++ accepted_for id b.
Proof. apply omap_app. Qed.
Lemma handled_app id a b : handled_for id (a ++ b) = handled_for id a ++ handled_for id b.
Proof. apply omap_app. Qed.

Lemma remove_task_restart_waiting m t task msgs id :
  map_wf m -> tasks m !! t = Some task ->
  waiting_for id (remove_or_restart_actor (remove_task m t) (task_remote task) msgs).2 =
  if decide (id = task_remote task) then msgs else waiting_for id m.
Proof.
  intros Hwf E. destruct (remove_or_restart_wf m t task msgs Hwf E) as (_ & Hw & Ho & _).
  case_decide as Hid; [by subst|]. destruct (Ho id Hid) as [Hs Ht]. unfold waiting_for. rewrite Hs.
  destruct (senders m !! id) as [u|] eqn:Eu; simpl; [|done]. by rewrite (Ht u eq_refl).
Qed.

Record run_inv (evs : list event) (s : State) : Prop := {
  ri_map : map_wf (map s);
  ri_owner : owner_wf s;
  ri_messages id : accepted_for id evs = handled_for id evs ++ waiting_for id (map s)
}.

(** A step that accepts a message and appends it to the inbox of its endpoint. *)
Lemma accounts_accept evs m m' id msg :
  (forall i, accepted_for i evs = handled_for i evs ++ waiting_for i m) ->
  (forall i, waiting_for i m' = if decide (i = id) then waiting_for id m ++ [msg] else waiting_for i m) ->
  forall i, accepted_for i (evs ++ [Accepted id msg]) = handled_for i (evs ++ [Accepted id msg]) ++ waiting_for i m'.
Proof.
  intros Hm Hw i. rewrite accepted_app, handled_app, Hw, Hm. simpl. rewrite app_nil_r.
  destruct (decide (i = id)) as [->|Hne].
  - rewrite decide_True by done. simpl. by rewrite app_assoc.
  - rewrite decide_False by done. simpl. by rewrite app_nil_r.
Qed.

Lemma accounts_quiet evs m m' :
  (forall i, accepted_for i evs = handled_for i evs ++ waiting_for i m) ->
  (forall i, waiting_for i m' = waiting_for i m) ->
  forall i, accepted_for i (evs ++ []) = handled_for i (evs ++ []) ++ waiting_for i m'.
Proof. intros Hm Hw i. by rewrite app_nil_r, Hw. Qed.

(** An ended task stays ended while running tasks change. *)
Lemma put_running_owner m o t task task' :
  owner_wf (mkState m o) -> running m t task -> owner_wf (mkState (put_task m t task') o).
Proof.
  intros Ho [Et Hr]. destruct o as [|id msg u|id msg]; simpl in *; [done|done|].
  destruct Ho as (u & x & Hs & Hu & He). exists u, x. split; [done|]. split; [|done]. simpl.
  rewrite lookup_insert_ne; [done|]. intros ->. simpl in *. congruence.
Qed.

Lemma step_inv evs s e s' : run_inv evs s -> map_step s e s' -> run_inv (evs ++ e) s'.
Proof.
  intros [Hwf Ho Hm] Hstep. destruct Hstep as [m id msg|m id msg t task Hr|m id msg t Hn|m id msg t task He Hid
    |m id msg t task He Hid|m t task He|m Hn|s id msg t task Hs Hr|s t task msg rest Hr Hin|s t task Hr]; simpl in *.
  - pose proof (get_or_start_wf m id Hwf) as Hg. destruct (get_or_start m id) as [t m']. destruct Hg as (Hwf' & Hs & Hw).
    constructor; [done|done|]. by apply (accounts_quiet _ m).
  - destruct Hr as [Et Hf]. destruct (wf_sender _ Hwf id t Ho) as (x & Hx & Hid).
    assert (task = x) as <- by congruence. constructor; [by eapply put_task_wf|done|].
    apply (accounts_accept _ m); [done|]. intros i. cbn [map]. rewrite (waiting_put m t task) by done.
    rewrite Hid. case_decide; [|done]. rewrite <- Hid, (waiting_own m t task) by done. done.
  - constructor; [done| |by apply (accounts_quiet _ m)]. destruct (wf_sender _ Hwf id t Ho) as (x & Hx & _).
    exists t, x. split; [done|]. split; [done|]. destruct (task_ended x) eqn:E; [done|]. by destruct (Hn x).
  - destruct He as [Et Hf]. destruct (remove_or_restart_wf m t task (task_inbox task) Hwf Et) as (Hwf' & _ & Hother & _).
    constructor; [done| |].
    + destruct Ho as (u & x & Hs & Hu & Hx). cbn [map] in Hs, Hu. exists u, x.
      destruct (Hother id (not_eq_sym Hid)) as [Hs' Hu']. cbn [map].
      split; [by rewrite Hs'|]. split; [|done]. by rewrite (Hu' u Hs).
    + apply (accounts_quiet _ m); [done|]. intros i. cbn [map]. rewrite remove_task_restart_waiting by done.
      case_decide as Hi; [|done]. subst i. symmetry. by apply (waiting_own m t).
  - destruct He as [Et Hf]. subst id.
    destruct (remove_or_restart_wf m t task (task_inbox task ++ [msg]) Hwf Et) as (Hwf' & _).
    constructor; [done|done|]. apply (accounts_accept _ m); [done|]. intros i. cbn [map].
    rewrite remove_task_restart_waiting by done. case_decide as Hi; [|done]. f_equal. symmetry. by apply (waiting_own m t).
  - destruct He as [Et Hf]. destruct (remove_or_restart_wf m t task (task_inbox task) Hwf Et) as (Hwf' & _).
    constructor; [done|done|]. apply (accounts_quiet _ m); [done|]. intros i. cbn [map].
    rewrite remove_task_restart_waiting by done. case_decide as Hi; [|done]. subst i. symmetry. by apply (waiting_own m t).
  - constructor; [|done|by apply (accounts_quiet _ m)]. destruct Hwf as [? ? ? ?]. by constructor.
  - pose proof Hr as [Et Hf]. destruct (wf_sender _ Hwf id t Hs) as (x & Hx & Hid).
    assert (task = x) as <- by congruence. constructor; [by eapply put_task_wf| |].
    + destruct s as [m o]. by apply (put_running_owner m o t task).
    + apply (accounts_accept _ (map s)); [done|]. intros i. cbn [map]. rewrite (waiting_put (map s) t task) by done.
      rewrite Hid. case_decide; [|done]. rewrite <- Hid, (waiting_own (map s) t task) by done. done.
  - pose proof Hr as [Et Hf]. constructor; [by eapply put_task_wf| |].
    + destruct s as [m o]. by apply (put_running_owner m o t task).
    + intros i. cbn [map]. rewrite accepted_app, handled_app, (waiting_put (map s) t task) by done.
      rewrite Hm. simpl. rewrite app_nil_r. case_decide as Hi.
      * subst i. rewrite decide_True by done. rewrite (waiting_own (map s) t task) by done.
        rewrite Hin. simpl. by rewrite <- app_assoc.
      * rewrite decide_False by done. simpl. by rewrite app_nil_r.
  - pose proof Hr as [Et Hf]. constructor; [by eapply put_task_wf| |].
    + destruct s as [m o]. by apply (put_running_owner m o t task).
    + apply (accounts_quiet _ (map s)); [done|]. intros i. cbn [map]. rewrite (waiting_put (map s) t task) by done.
      case_decide as Hi; [|done]. subst i. by rewrite (waiting_own (map s) t task).
Qed.

Lemma run_inv_run evs s : map_run evs s -> run_inv evs s.
Proof.
  induction 1 as [|evs s e s' _ IH Hstep]; [|by eapply step_inv].
  constructor; [|done|].
  - constructor; simpl; intros *; by rewrite lookup_empty.
  - intros id. simpl. unfold waiting_for. simpl. by rewrite lookup_empty.
Qed.

(** The number of ended tasks, which a join makes smaller. *)
Definition ended_tasks (m : RemoteMap) : nat := size (filter (fun kv => task_ended kv.2 = true) (tasks m)).

Lemma join_decreases m t task msgs :
  map_wf m -> ended m t task ->
  (ended_tasks (remove_or_restart_actor (remove_task m t) (task_remote task) msgs).2 < ended_tasks m)%nat.
Proof.
  intros Hwf [Et He]. unfold ended_tasks.
  assert (Hdel : (size (filter (fun kv => task_ended kv.2 = true) (delete t (tasks m))) <
                  size (filter (fun kv => task_ended kv.2 = true) (tasks m)))%nat).
  { rewrite map_filter_delete, map_size_delete.
    assert (Hl : filter (fun kv => task_ended kv.2 = true) (tasks m) !! t = Some task)
      by (by apply map_lookup_filter_Some).
    rewrite Hl. simpl.
    assert (size (filter (fun kv => task_ended kv.2 = true) (tasks m)) <> 0)%nat; [|lia].
    intros H0. apply map_size_empty_inv in H0. by rewrite H0, lookup_empty in Hl. }
  destruct msgs as [|msg msgs]; simpl; [done|].
  rewrite map_filter_insert_False by done. rewrite delete_id; [done|].
  rewrite lookup_delete_None. right. destruct (tasks m !! next_task m) as [x|] eqn:Ex; [|done].
  apply (wf_fresh _ Hwf) in Ex. lia.
Qed.

(** C19: Every message accepted for a remote endpoint, by the owner of the map or
    by a reader of its senders, is handled by its actors in the order it was
    accepted, or is still waiting in the inbox of the actor the sender leads to:
    none is lost or overtaken when actors end and are restarted under any
    interleaving. There is never more than one actor for an endpoint, and its
    sender is the one in the map. *)
Theorem remote_map_lossless evs s :
  map_run evs s ->
  (forall id, accepted_for id evs = handled_for id evs ++ waiting_for id (map s)) /\
  (forall t u x y, tasks (map s) !! t = Some x -> tasks (map s) !! u = Some y ->
     task_remote x = task_remote y -> t = u) /\
  (forall id t, senders (map s) !! id = Some t <->
     exists task, tasks (map s) !! t = Some task /\ task_remote task = id).
Proof.
  intros Hrun. destruct (run_inv_run evs s Hrun) as [Hwf _ Hm]. split; [done|]. split.
  - intros t u x y Hx Hy Heq. pose proof (wf_task _ Hwf t x Hx). pose proof (wf_task _ Hwf u y Hy). congruence.
  - intros id t. split; [apply (wf_sender _ Hwf)|]. intros (task & Ht & <-). by apply (wf_task _ Hwf).
Qed.

(** Sending to an actor always comes to an end: while the inbox is open the
    message can be accepted, and otherwise the task of the actor has ended, so
    that the join set has something ready; of the joins the owner makes, those
    for other endpoints become fewer, and the one for this endpoint starts an
    actor that has the message. *)
Theorem send_ends evs s :
  map_run evs s ->
  match doing s with
  | Idle => True
  | Sending id msg t =>
      (exists task, map_step s [Accepted id msg] (mkState (put_task (map s) t (push task msg)) Idle)) \/
      map_step s [] (mkState (map s) (Joining id msg))
  | Joining id msg =>
      (exists t task, ended (map s) t task /\ task_remote task = id) /\
      (forall t task, ended (map s) t task ->
         exists e s', map_step s e s' /\
           if decide (task_remote task = id)
           then e = [Accepted id msg] /\ doing s' = Idle /\
                exists l, waiting_for id (map s') = l ++ [msg]
           else doing s' = Joining id msg /\ (ended_tasks (map s') < ended_tasks (map s))%nat)
  end.
Proof.
  intros Hrun. destruct (run_inv_run evs s Hrun) as [Hwf Ho _]. destruct s as [m [|id msg t|id msg]]; simpl in *; [done| |].
  - destruct (wf_sender _ Hwf id t Ho) as (task & Ht & _). destruct (task_ended task) eqn:E.
    + right. constructor. intros x [Hx Hf]. congruence.
    + left. exists task. by constructor.
  - destruct Ho as (t & task & Hs & He). split.
    + exists t, task. split; [done|]. destruct (wf_sender _ Hwf id t Hs) as (x & Hx & Hid). destruct He as [Et _].
      cbn [map] in Et. congruence.
    + intros u x Hx. case_decide as Hid.
      * eexists _, _. split; [by eapply join_own|]. split; [done|]. split; [done|]. exists (task_inbox x). simpl.
        subst id. destruct Hx as [Ex _]. rewrite remove_task_restart_waiting by done. by rewrite decide_True.
      * eexists _, _. split; [by eapply join_other|]. split; [done|]. simpl. by apply join_decreases.
Qed.

End RemoteMap.
End RemoteMap.

(** ** Witnesses *)

Section Witnesses.
Import RemoteMap.

Definition remote_peer : EndpointId := mkPublicKey (replicate 32 Byte.x07).

(** A message whose actor has ended: the owner waits for its task. *)
Lemma ended_reachable : exists s, map_run [] s /\ doing s = Joining remote_peer 7%nat.
Proof.
  pose (m1 := (get_or_start (Msg := nat) RemoteMap_new remote_peer).2).
  pose (m2 := put_task m1 0 (mkTask remote_peer [] true)).
  assert (E0 : tasks m1 !! 0%nat = Some (mkTask remote_peer [] false)).
  { unfold m1, get_or_start. simpl senders. rewrite lookup_empty. simpl. by rewrite lookup_insert_eq. }
  exists (mkState m2 (Joining remote_peer 7%nat)). split; [|reflexivity].
  apply (run_step [] (mkState m2 (Sending remote_peer 7%nat 0%nat)) []).
  - apply (run_step [] (mkState m1 (Sending remote_peer 7%nat 0%nat)) []).
    + apply (run_step [] init []); [constructor|]. exact (send_begin RemoteMap_new remote_peer 7%nat).
    + apply (actor_ends (mkState m1 (Sending remote_peer 7%nat 0%nat)) 0%nat (mkTask remote_peer [] false)).
      split; [exact E0|reflexivity].
  - apply send_failed. intros task [Ht Hf]. simpl in Ht. rewrite lookup_insert_eq in Ht.
    injection Ht as <-. discriminate Hf.
Qed.

Lemma remote_map_lossless_witness :
  exists s, map_run [] s /\ accepted_for remote_peer [] = handled_for remote_peer [] ++ waiting_for (Msg := nat) remote_peer (map s).
Proof.
  destruct ended_reachable as (s & Hrun & _). exists s. split; [exact Hrun|].
  apply (proj1 (remote_map_lossless [] s Hrun)).
Defined.

Lemma send_ends_witness :
  exists s t task, map_run (Msg := nat) [] s /\ ended (map s) t task /\ task_remote task = remote_peer.
Proof.
  destruct ended_reachable as (s & Hrun & Hd). pose proof (send_ends [] s Hrun) as H. rewrite Hd in H.
  destruct H as [(t & task & He & Hr) _]. exists s, t, task. split; [exact Hrun|]. split; [exact He|exact Hr].
Defined.

End Witnesses.
