(* ===== verification/EndpointConn.v ===== *)
(** * Endpoint connections: TLS with raw keys, dialling and accepting

    Models [iroh/src/tls.rs] with its submodules (the server name of an endpoint,
    the verifiers of raw public keys, the certificate an endpoint presents, the
    keys of handshake tokens), the configurations of [iroh/src/socket.rs]
    ([StaticConfig]) and the way from a QUIC connection to a [Connection] in
    [iroh/src/endpoint/connection.rs] and [Endpoint::connect] of
    [iroh/src/endpoint.rs].

    rustls and noq are parameters. What is relied on of them is [NoqLaws]: a
    handshake ends only after the configured verifier accepted the certificate
    and the signature of the peer, and with one of the offered protocols. *)

From S2P Require Import Prelude External Instances Keys TunnelServer Addrs MappedAddrs SocketActor Router Transports.
From S2P Require Import RelayTransport.
Import Addrs Mapped.

Module Tls.

(** ** Server names, [tls/name.rs] *)

Definition dot : Ascii.ascii := Ascii.ascii_of_nat 46.

Section Verifier.
Context {Ed : Ed25519} {B : Base32Dnssec} {R : RawKeys Ed}.

Definition name_encode (endpoint_id : EndpointId) : string :=
  (dnssec_encode (as_bytes endpoint_id) ++ ".iroh.invalid")%string.

Definition name_decode (name : string) : option EndpointId :=
  match str_split dot name with
  | [base32_endpoint_id; iroh; invalid] =>
      if (iroh =? "iroh")%string && (invalid =? "invalid")%string then
        dnssec_decode base32_endpoint_id ≫= fun bs =>
        if (length bs =? 32)%nat then to_ok (PublicKey_from_bytes bs) else None
      else None
  | _ => None
  end.

(** ** Verifiers, [tls/verifier.rs] *)

Inductive SignatureParsingError := SignatureParsing.

(** [TryFrom<&[u8]> for Signature] of [key.rs]. *)
Definition Signature_try_from (bs : bytes) : result SignatureParsingError Signature :=
  if (length bs =? 64)%nat then Ok (mkSignature bs) else Err SignatureParsing.

(** [Ed25519Dalek::verify_signature]; the error carries nothing. *)
Definition verify_signature (public_key message signature : bytes) : result unit unit :=
  let? public_key := map_err (fun _ => tt) (PublicKey_try_from public_key) in
  let? signature := map_err (fun _ => tt) (Signature_try_from signature) in
  map_err (fun _ => tt) (verify public_key message signature).

Definition SUPPORTED_SIG_ALGS : list SignatureScheme := [SchemeEd25519].

Definition verify_tls13_signature (message cert : bytes) (dss : SignatureScheme * bytes) : result RustlsError unit :=
  verify_tls13_signature_with_raw_key SUPPORTED_SIG_ALGS verify_signature message cert dss.

Definition verify_tls12_signature (message cert : bytes) (dss : SignatureScheme * bytes) : result RustlsError unit :=
  Err (PeerIncompatibleError Tls12NotOffered).

Definition verify_server_cert (end_entity : bytes) (intermediates : list bytes) (server_name : ServerName)
    : result RustlsError unit :=
  match server_name with
  | IpAddress _ => Err UnsupportedNameType
  | DnsName dns_name =>
      match name_decode dns_name with
      | None => Err (InvalidCertificate NotValidForName)
      | Some remote_peer_id =>
          if intermediates is _ :: _ then Err (InvalidCertificate UnknownIssuer)
          else if bool_decide (public_key_to_spki (as_bytes remote_peer_id) <> end_entity)
          then Err (InvalidCertificate UnknownIssuer)
          else Ok tt
      end
  end.

Definition verify_client_cert (end_entity : bytes) (intermediates : list bytes) : result RustlsError unit :=
  if intermediates is _ :: _ then Err (InvalidCertificate UnknownIssuer) else Ok tt.

(** ** The certificate an endpoint presents, [tls/resolver.rs] *)

(** [rustls::sign::CertifiedKey] with the key of [IrohSecretKey]. *)
Record CertifiedKey := mkCertifiedKey { cert_chain : list bytes; cert_key : SecretKey }.

Definition spki_public_key (key : SecretKey) : bytes := public_key_to_spki (as_bytes (public key)).

Definition ResolveRawPublicKeyCert_new (secret_key : SecretKey) : CertifiedKey :=
  mkCertifiedKey [spki_public_key secret_key] secret_key.

Definition resolve (key : CertifiedKey) : option CertifiedKey := Some key.

Definition choose_scheme (key : SecretKey) (offered : list SignatureScheme) : option SecretKey :=
  if bool_decide (SchemeEd25519 ∈ offered) then Some key else None.

(** [Signer::sign] with [Signer::scheme]. *)
Definition signer_sign (key : SecretKey) (message : bytes) : SignatureScheme * bytes :=
  (SchemeEd25519, sig_bytes (sign key message)).

End Verifier.

(** ** Keys of handshake tokens, [tls/misc.rs] *)

Section Tokens.
Context {C : TokenCrypto}.

Inductive CryptoError := CryptoFailed.

Record RustlsTokenKey := mkTokenKey { token_key_bytes : bytes; token_aead : Aead }.

(** [RustlsTokenKey::new] with the random key. *)
Definition RustlsTokenKey_new (random : bytes) (crypto_provider : CryptoProvider) : option RustlsTokenKey :=
  mkTokenKey random <$> head (omap (fun suite => suite) (cipher_suites crypto_provider)).

Definition NONCE_LEN : nat := 12.

(** The first bytes of the little-endian [u128]. *)
Definition nonce_bytes (token_nonce : Z) : bytes := take NONCE_LEN (LittleEndianList.le_split 16 token_nonce).

Definition seal (self : RustlsTokenKey) (token_nonce : Z) (data : bytes) : result CryptoError bytes :=
  ok_or (aead_encrypt (token_aead self) (token_key_bytes self) (nonce_bytes token_nonce) data) CryptoFailed.

Definition open (self : RustlsTokenKey) (token_nonce : Z) (data : bytes) : result CryptoError bytes :=
  ok_or (aead_decrypt (token_aead self) (token_key_bytes self) (nonce_bytes token_nonce) data) CryptoFailed.

(** [Blake3HmacKey::sign]: [copy_from_slice] panics when the lengths differ. *)
Definition hmac_sign {E} (key data : bytes) (signature_out_len : nat) : result E bytes :=
  if (signature_out_len =? length (keyed_hash key data))%nat then Ok (keyed_hash key data) else Panic.

Definition signature_len : nat := 32.

Definition hmac_verify (key data signature : bytes) : result CryptoError unit :=
  if bool_decide (signature = keyed_hash key data) then Ok tt else Err CryptoFailed.

End Tokens.

(** ** Configurations, [tls.rs] *)

Section Config.
Context {Ed : Ed25519} {B : Base32Dnssec} {R : RawKeys Ed} {C : TokenCrypto}.

(** What rustls is told: who verifies the peer, what is presented to it, and the
    protocols. *)
Record QuicClientConfig := mkClientConfig {
  cc_verify_cert : bytes -> list bytes -> ServerName -> result RustlsError unit;
  cc_verify_signature : bytes -> bytes -> SignatureScheme * bytes -> result RustlsError unit;
  cc_certified : CertifiedKey;
  cc_resumption : nat;
  cc_early_data : bool;
  cc_key_log : bool;
  cc_alpn : list bytes
}.

Record QuicServerConfig := mkServerConfig {
  sc_verify_cert : bytes -> list bytes -> result RustlsError unit;
  sc_verify_signature : bytes -> bytes -> SignatureScheme * bytes -> result RustlsError unit;
  sc_certified : CertifiedKey;
  sc_max_early_data_size : Z;
  sc_key_log : bool;
  sc_alpn : list bytes
}.

(** The verifiers have no fields. [session_store] is the size of the cache. *)
Record TlsConfig := mkTlsConfig {
  tls_secret_key : SecretKey;
  cert_resolver : CertifiedKey;
  session_store : nat;
  crypto_provider : CryptoProvider
}.

Definition TlsConfig_new (secret_key : SecretKey) (max_tls_tickets : nat) (crypto_provider : CryptoProvider) : TlsConfig :=
  mkTlsConfig secret_key (ResolveRawPublicKeyCert_new secret_key) max_tls_tickets crypto_provider.

Inductive TlsConfigError := CryptoProviderNoInitialCipherSuite | CryptoProviderIncompatible.

(** Whether a provider has what TLS 1.3 needs, and the suite of QUIC's initial
    packets. *)
Context (supports_tls13 has_initial_suite : CryptoProvider -> bool).

Definition make_client_config (self : TlsConfig) (keylog : bool) : result TlsConfigError QuicClientConfig :=
  let? _ := ensure (supports_tls13 (crypto_provider self)) CryptoProviderIncompatible in
  let? _ := ensure (has_initial_suite (crypto_provider self)) CryptoProviderNoInitialCipherSuite in
  Ok (mkClientConfig verify_server_cert verify_tls13_signature (cert_resolver self) (session_store self) true keylog []).

Definition make_server_config (self : TlsConfig) (keylog : bool) : result TlsConfigError QuicServerConfig :=
  let? _ := ensure (supports_tls13 (crypto_provider self)) CryptoProviderIncompatible in
  let? _ := ensure (has_initial_suite (crypto_provider self)) CryptoProviderNoInitialCipherSuite in
  Ok (mkServerConfig verify_client_cert verify_tls13_signature (cert_resolver self) u32_max keylog []).

Definition client_set_alpn (c : QuicClientConfig) (alpn : list bytes) : QuicClientConfig :=
  mkClientConfig (cc_verify_cert c) (cc_verify_signature c) (cc_certified c) (cc_resumption c) (cc_early_data c)
                 (cc_key_log c) alpn.

Definition server_set_alpn (c : QuicServerConfig) (alpn : list bytes) : QuicServerConfig :=
  mkServerConfig (sc_verify_cert c) (sc_verify_signature c) (sc_certified c) (sc_max_early_data_size c)
                 (sc_key_log c) alpn.

(** [StaticConfig] of [socket.rs]; [T] is the transport configuration. The token
    store only saves round trips. *)
Context {T : Type}.

Record StaticConfig := mkStaticConfig {
  tls_config : TlsConfig;
  server_config : QuicServerConfig;
  client_config : QuicClientConfig;
  token_key : RustlsTokenKey;
  transport_config : T
}.

(** [noq::ServerConfig] and [noq::ClientConfig]. *)
Definition create_server_config (self : StaticConfig) (alpn_protocols : list bytes)
    : QuicServerConfig * RustlsTokenKey * T :=
  (server_set_alpn (server_config self) alpn_protocols, token_key self, transport_config self).

Definition create_client_config (self : StaticConfig) (alpn_protocols : list bytes) (transport_config : T)
    : QuicClientConfig * T :=
  (client_set_alpn (client_config self) alpn_protocols, transport_config).

Inductive BindError := InvalidCryptoProvider | BindTlsConfig (e : TlsConfigError).

(** The first half of [Builder::bind]: from the key and the provider to the
    configuration. *)
Definition static_config_new (secret_key : SecretKey) (provider : option CryptoProvider) (random : bytes)
    (max_tls_tickets : nat) (keylog : bool) (transport_config : T) : result BindError StaticConfig :=
  let? provider := ok_or provider InvalidCryptoProvider in
  let? token_key := ok_or (RustlsTokenKey_new random provider) InvalidCryptoProvider in
  let tls_config := TlsConfig_new secret_key max_tls_tickets provider in
  let? server := map_err BindTlsConfig (make_server_config tls_config keylog) in
  let? client := map_err BindTlsConfig (make_client_config tls_config keylog) in
  Ok (mkStaticConfig tls_config server client token_key transport_config).

End Config.
Arguments StaticConfig {_ _} T.
Arguments QuicClientConfig {_}.
Arguments QuicServerConfig {_}.

(** ** Facts *)

Section Facts.
Context {Ed : Ed25519} {B : Base32Dnssec} {R : RawKeys Ed}.
Context {EdL : Ed25519Laws Ed} {BL : Base32DnssecLaws B} {RL : RawKeysLaws R}.

Lemma alnum_lacks_dot s : str_forall is_lower_alnum s = true -> lacks dot s = true.
Proof. apply str_forall_impl. intros c. destruct c as [[] [] [] [] [] [] [] []]; done. Qed.

Lemma name_split id : str_split dot (name_encode id) = [dnssec_encode (as_bytes id); "iroh"; "invalid"]%string.
Proof.
  unfold name_encode.
  change ".iroh.invalid"%string with (String dot ("iroh" ++ String dot "invalid"))%string.
  rewrite str_split_sep by apply alnum_lacks_dot, dnssec_symbols. done.
Qed.

Lemma name_decode_encode id :
  name_decode (name_encode id) = if decide (length (as_bytes id) = 32%nat) then to_ok (PublicKey_from_bytes (as_bytes id)) else None.
Proof.
  unfold name_decode. rewrite name_split. simpl. rewrite dnssec_roundtrip. simpl.
  destruct (Nat.eqb_spec (length (as_bytes id)) 32); by case_decide.
Qed.

Lemma from_bytes_same bs id : PublicKey_from_bytes bs = Ok id -> id = mkPublicKey bs.
Proof.
  unfold PublicKey_from_bytes. destruct (vk_from_bytes bs) as [k|] eqn:E; [|done]. intros [= <-].
  by rewrite (vk_to_from _ _ E).
Qed.

(** A name leads back to no endpoint but its own. *)
Lemma name_decode_own id id' : name_decode (name_encode id) = Some id' -> id' = id.
Proof.
  rewrite name_decode_encode. case_decide; [|done].
  destruct (PublicKey_from_bytes _) as [k| |] eqn:E; [|done..]. intros [= <-]. apply from_bytes_same in E.
  by destruct id.
Qed.

Lemma from_bytes_public sk : PublicKey_from_bytes (as_bytes (public sk)) = Ok (public sk).
Proof. unfold PublicKey_from_bytes, public. simpl. by rewrite vk_from_to. Qed.

Lemma length_public sk : length (as_bytes (public sk)) = 32%nat.
Proof. apply (vk_from_bytes_length _ (verifying_key (as_signing_key sk))), vk_from_to. Qed.

Lemma name_decode_public sk : name_decode (name_encode (public sk)) = Some (public sk).
Proof. rewrite name_decode_encode, decide_True by apply length_public. by rewrite from_bytes_public. Qed.

Lemma verify_signature_ok key message signature :
  verify_signature key message signature = Ok tt <->
  verify (mkPublicKey key) message (mkSignature signature) = Ok tt /\ length signature = 64%nat.
Proof.
  unfold verify_signature, PublicKey_try_from, Signature_try_from, verify, as_verifying_key. simpl.
  destruct (vk_from_bytes key) as [vk|] eqn:E; simpl; [|by split; [|intros [? _]]].
  rewrite vk_from_to. destruct (Nat.eqb_spec (length signature) 64); simpl; [|by split; [|intros [_ ?]]].
  destruct (verify_strict vk message signature); simpl; split; try done; by intros [? _].
Qed.

Lemma tls13_signature_ok message cert dss :
  verify_tls13_signature message cert dss = Ok tt <->
  dss.1 = SchemeEd25519 /\ length dss.2 = 64%nat /\
  exists key, spki_key cert = Some key /\ verify (mkPublicKey key) message (mkSignature dss.2) = Ok tt.
Proof.
  unfold verify_tls13_signature. rewrite raw_key_signature. unfold SUPPORTED_SIG_ALGS. rewrite list_elem_of_singleton.
  setoid_rewrite verify_signature_ok. naive_solver.
Qed.

(** What an endpoint presents and signs is accepted, as the certificate of that
    endpoint and of no other. *)
Theorem own_certificate_accepted sk id message :
  (verify_server_cert (spki_public_key sk) [] (DnsName (name_encode id)) = Ok tt <-> id = public sk) /\
  verify_client_cert (spki_public_key sk) [] = Ok tt /\
  (forall key offered, cert_chain (ResolveRawPublicKeyCert_new sk) = [key] -> SchemeEd25519 ∈ offered ->
     exists signer, choose_scheme (cert_key (ResolveRawPublicKeyCert_new sk)) offered = Some signer /\
       verify_tls13_signature message key (signer_sign signer message) = Ok tt).
Proof.
  split_and!; [|done|].
  - unfold verify_server_cert. split; [|intros ->; by rewrite name_decode_public, bool_decide_eq_false_2 by (unfold spki_public_key; tauto)].
    destruct (name_decode (name_encode id)) as [id'|] eqn:E; [|done]. pose proof (name_decode_own _ _ E) as ->.
    case_bool_decide as Hs; [done|]. intros _. unfold spki_public_key in Hs.
    rewrite name_decode_encode in E. case_decide; [|done].
    apply (f_equal spki_key) in Hs. rewrite !spki_key_of in Hs by (done || apply length_public).
    destruct id, (public sk). simpl in *. congruence.
  - intros key offered [= <-] Ho. exists sk. unfold choose_scheme. rewrite bool_decide_eq_true_2 by done.
    split; [done|]. apply tls13_signature_ok. simpl. split; [done|]. split; [apply sign_length|].
    exists (as_bytes (public sk)). split; [apply spki_key_of, length_public|].
    unfold verify, as_verifying_key, public, sign. simpl. rewrite vk_from_to. simpl. by rewrite sign_verifies.
Qed.

(** The name of a valid endpoint id is decoded to it; all its labels fit a DNS label. *)
Theorem name_roundtrip id :
  PublicKey_from_bytes (as_bytes id) = Ok id ->
  name_decode (name_encode id) = Some id /\
  Forall (fun label => 0 < String.length label <= 63)%nat (str_split dot (name_encode id)).
Proof.
  intros Hid. assert (Hl : length (as_bytes id) = 32%nat).
  { unfold PublicKey_from_bytes in Hid. destruct (vk_from_bytes (as_bytes id)) eqn:E; [|done]. by eapply vk_from_bytes_length. }
  split; [by rewrite name_decode_encode, decide_True, Hid by done|].
  rewrite name_split, !Forall_cons, dnssec_length, Hl. split_and!; try (simpl; lia). by constructor.
Qed.

(** A certificate for a name other than that of an endpoint, or with a chain, is
    never accepted. *)
Lemma server_cert_ok end_entity intermediates server_name :
  verify_server_cert end_entity intermediates server_name = Ok tt <->
  intermediates = [] /\ exists name id, server_name = DnsName name /\ name_decode name = Some id /\
    end_entity = public_key_to_spki (as_bytes id).
Proof.
  unfold verify_server_cert. destruct server_name as [name|]; [|naive_solver].
  destruct (name_decode name) as [id|] eqn:E; [|naive_solver].
  destruct intermediates; [|naive_solver]. case_bool_decide as Hs; naive_solver.
Qed.

End Facts.

Section TokenFacts.
Context {C : TokenCrypto} {CL : TokenCryptoLaws C}.

(** A token opens to what was sealed, and an HMAC is accepted exactly if it is
    the one that [sign] writes. *)
Theorem tokens_roundtrip random provider key nonce data c hkey signature :
  RustlsTokenKey_new random provider = Some key -> seal key nonce data = Ok c ->
  open key nonce c = Ok data /\ token_key_bytes key = random /\
  (hmac_verify hkey data signature = Ok tt <-> hmac_sign (E := unit) hkey data signature_len = Ok signature).
Proof.
  unfold RustlsTokenKey_new, seal, open, hmac_verify, hmac_sign. intros Hn Hs.
  destruct (aead_encrypt _ _ _ data) as [c'|] eqn:E; [|done]. injection Hs as ->.
  rewrite (aead_roundtrip _ _ _ _ _ E). split; [done|]. rewrite keyed_hash_length. simpl. split.
  - destruct (head _); [|done]. by injection Hn as <-.
  - case_bool_decide; naive_solver.
Qed.

(** Only the low 96 bits of the nonce are used. *)
Lemma nonce_truncated key nonce data : 0 <= nonce < 2 ^ 96 -> seal key (nonce + 2 ^ 96) data = seal key nonce data.
Proof.
  intros Hn. unfold seal. do 2 f_equal. unfold nonce_bytes, NONCE_LEN.
  assert (Ht : forall z, take 12 (LittleEndianList.le_split 16 z) = LittleEndianList.le_split 12 z) by (intros; simpl; done).
  rewrite !Ht, (LittleEndianList.le_split_mod (nonce + 2 ^ 96)), (LittleEndianList.le_split_mod nonce).
  f_equal. change (Z.of_nat 12 * 8) with 96. by rewrite Z.add_mod, Z.mod_same, Z.add_0_r, Z.mod_mod by lia.
Qed.

End TokenFacts.

End Tls.

Module Conn.
Import Tls.

(** ** The QUIC stack *)

(** What [peer_identity] and [handshake_data] are downcast to. *)
Inductive peer_data := Certs (certs : list bytes) | OtherIdentity.
Inductive session_data := RustlsData (protocol : option bytes) | OtherSession.

Class Noq {Ed : Ed25519} (C : TokenCrypto) (T : Type) := {
  noq_conn : Type;
  noq_connecting : Type;
  noq_incoming : Type;
  ConnectionError : Type;
  QuicConnectError : Type;
  (** [noq::Endpoint::connect_with] and [noq::Incoming::accept_with]. *)
  connect_with : QuicClientConfig * T -> SocketAddr -> string -> result QuicConnectError noq_connecting;
  accept_with : QuicServerConfig * RustlsTokenKey * T -> noq_incoming -> result ConnectionError noq_connecting;
  (** The attempt can end with this connection. *)
  completes : noq_connecting -> noq_conn -> Prop;
  peer_identity : noq_conn -> option peer_data;
  handshake_data : noq_conn -> option session_data;
  close_reason : noq_conn -> option ConnectionError;
  (** What the peer has signed, in the handshake of the connection or, when it
      resumes a session, in the handshake of that session. *)
  peer_signed : noq_conn -> bytes
}.

(** rustls completes a handshake only if the verifier of the configuration accepts
    the certificates of the peer (for the name that was dialled) and the
    signature; sessions are resumed only for the same name and verifier. A server
    whose verifier offers client authentication requires it. With a list of
    protocols, one of them is negotiated. *)
Class NoqLaws {Ed : Ed25519} {R : RawKeys Ed} {C : TokenCrypto} {T} (N : Noq C T) := {
  client_handshake cfg dest name c conn :
    connect_with cfg dest name = Ok c -> completes c conn ->
    exists server_name end_entity intermediates dss,
      server_name_try_from name = Some server_name /\
      peer_identity conn = Some (Certs (end_entity :: intermediates)) /\
      cc_verify_cert cfg.1 end_entity intermediates server_name = Ok tt /\
      cc_verify_signature cfg.1 (peer_signed conn) end_entity dss = Ok tt;
  server_handshake cfg incoming c conn :
    accept_with cfg incoming = Ok c -> completes c conn ->
    exists end_entity intermediates dss,
      peer_identity conn = Some (Certs (end_entity :: intermediates)) /\
      sc_verify_cert cfg.1.1 end_entity intermediates = Ok tt /\
      sc_verify_signature cfg.1.1 (peer_signed conn) end_entity dss = Ok tt;
  client_protocol cfg dest name c conn :
    connect_with cfg dest name = Ok c -> completes c conn -> cc_alpn cfg.1 <> [] ->
    exists p, handshake_data conn = Some (RustlsData (Some p)) /\ p ∈ cc_alpn cfg.1;
  server_protocol cfg incoming c conn :
    accept_with cfg incoming = Ok c -> completes c conn -> sc_alpn cfg.1.1 <> [] ->
    exists p, handshake_data conn = Some (RustlsData (Some p)) /\ p ∈ sc_alpn cfg.1.1
}.

Section Connection.
Context {Ed : Ed25519} {B : Base32Dnssec} {R : RawKeys Ed} {C : TokenCrypto} {T : Type} {N : Noq C T}.

(** ** From a QUIC connection to a [Connection], [connection.rs] *)

Definition alpn_from_noq_conn (conn : noq_conn) : option bytes :=
  handshake_data conn ≫= fun data => match data with RustlsData protocol => protocol | OtherSession => None end.

Inductive AlpnError := AlpnConnection (e : ConnectionError) | AlpnUnavailable | UnknownHandshake.

(** [alpn_from_noq_connecting], once the handshake data is there. *)
Definition alpn_from_noq_connecting (data : result ConnectionError session_data) : result AlpnError bytes :=
  let? data := map_err AlpnConnection data in
  match data with
  | RustlsData (Some protocol) => Ok protocol
  | RustlsData None => Err AlpnUnavailable
  | OtherSession => Err UnknownHandshake
  end.

Inductive RemoteEndpointIdError := NoRemoteId.

Inductive AuthenticationError := RemoteId (e : RemoteEndpointIdError) | NoAlpn.

Definition remote_id_from_noq_conn (conn : noq_conn) : result RemoteEndpointIdError EndpointId :=
  match peer_identity conn with
  | None => Err NoRemoteId
  | Some (Certs certs) =>
      match certs with
      | [cert] =>
          let? key := ok_or (vk_from_public_key_der cert) NoRemoteId in
          Ok (mkPublicKey (vk_to_bytes key))
      | _ => Err NoRemoteId
      end
  | Some OtherIdentity => Err NoRemoteId
  end.

Record StaticInfo := mkStaticInfo { info_endpoint_id : EndpointId; info_alpn : bytes }.

Definition static_info_from_conn (conn : noq_conn) : result AuthenticationError StaticInfo :=
  let? endpoint_id := map_err RemoteId (remote_id_from_noq_conn conn) in
  let? alpn := ok_or (alpn_from_noq_conn conn) NoAlpn in
  Ok (mkStaticInfo endpoint_id alpn).

(** [Paths] is the receiver of the path watcher that the remote state actor
    answers a registration with. *)
Context {Paths : Type}.

Record Connection := mkConnection { conn_inner : noq_conn; conn_info : StaticInfo; conn_paths : Paths }.

Definition conn_alpn (c : Connection) : bytes := info_alpn (conn_info c).
Definition remote_id (c : Connection) : EndpointId := info_endpoint_id (conn_info c).

Inductive ConnectingError :=
| ConnectingConnection (e : ConnectionError)
| HandshakeFailure (e : AuthenticationError)
| ConnectingInternal
| ConnectingRejected.

(** What is done to the connection on the way. *)
Inductive effect :=
| Register (remote : EndpointId) (conn : noq_conn)
| Close (conn : noq_conn) (error_code : Z) (reason : bytes).

Abbreviation Hooks := (list (Router.EndpointHooks (Conn := Connection))).

(** [conn_from_noq_conn] with the future it returns. [registered]: the answer of
    the socket to the registration, none when the actor has stopped. *)
Definition conn_from_noq_conn (conn : noq_conn) (hooks : Hooks) (registered : option Paths)
    : result ConnectingError Connection * list effect :=
  match static_info_from_conn conn with
  | Panic => (Panic, [])
  | Err auth_err =>
      (match close_reason conn with
       | Some conn_err => Err (ConnectingConnection conn_err)
       | None => Err (HandshakeFailure auth_err)
       end, [])
  | Ok info =>
      let effs := [Register (info_endpoint_id info) conn] in
      match registered with
      | None => (Err ConnectingInternal, effs)
      | Some paths =>
          let c := mkConnection conn info paths in
          match (Router.after_handshake hooks c).1 with
          | Router.HandshakeReject error_code reason => (Err ConnectingRejected, effs ++ [Close conn error_code reason])
          | Router.HandshakeAccept => (Ok c, effs)
          end
      end
  end.

(** [Connecting] and [Accepting] awaited: [handshake] is how the QUIC handshake
    ended. *)
Definition connecting_await (handshake : result ConnectionError noq_conn) (hooks : Hooks) (registered : option Paths)
    : result ConnectingError Connection * list effect :=
  match handshake with
  | Ok conn => conn_from_noq_conn conn hooks registered
  | Err e => (Err (ConnectingConnection e), [])
  | Panic => (Panic, [])
  end.

(** ** 0-RTT *)

Inductive ZeroRttStatus := ZeroRttAccepted (c : Connection) | ZeroRttRejected (c : Connection).

(** [handshake_completed] of the connection [Connecting::into_0rtt] gives:
    [zrtt_accepted] is what noq says at the end of the handshake. *)
Definition outgoing_handshake_completed (conn : noq_conn) (zrtt_accepted : bool) (hooks : Hooks)
    (registered : option Paths) : result ConnectingError ZeroRttStatus * list effect :=
  let '(r, effs) := conn_from_noq_conn conn hooks registered in
  (rmap (if zrtt_accepted then ZeroRttAccepted else ZeroRttRejected) r, effs).

(** The same of [Accepting::into_0rtt]. *)
Definition incoming_handshake_completed (conn : noq_conn) (zrtt_accepted : bool) (hooks : Hooks)
    (registered : option Paths) : result ConnectingError Connection * list effect :=
  conn_from_noq_conn conn hooks registered.

(** ** Addresses of incoming connections *)

Inductive IncomingAddr :=
| IncomingIp (addr : SocketAddr)
| IncomingRelay (url : RelayUrl) (endpoint_id : EndpointId)
| IncomingCustom (addr : CustomAddr).

Definition IncomingAddr_from (a : Addr) : IncomingAddr :=
  match a with
  | AddrIp a => IncomingIp a
  | AddrRelay url id => IncomingRelay url id
  | AddrCustom a => IncomingCustom a
  end.

Definition IncomingAddr_to_transport (a : IncomingAddr) : TransportAddr :=
  match a with
  | IncomingIp a => TransportIp a
  | IncomingRelay url _ => TransportRelay url
  | IncomingCustom a => TransportCustom a
  end.

(** ** Dialling and accepting, [endpoint.rs] *)

Record ConnectOptions := mkConnectOptions { opt_transport_config : option T; additional_alpns : list bytes }.

Definition ConnectOptions_default : ConnectOptions := mkConnectOptions None [].
Definition with_transport_config (o : ConnectOptions) (t : T) : ConnectOptions := mkConnectOptions (Some t) (additional_alpns o).
Definition with_additional_alpns (o : ConnectOptions) (alpns : list bytes) : ConnectOptions :=
  mkConnectOptions (opt_transport_config o) alpns.

Inductive ConnectWithOptsError {L : Type} :=
| SelfConnect
| NoAddress (e : L)
| NoqConnect (e : QuicConnectError)
| ConnectInternal
| LocallyRejected
| EndpointIsClosed.
Arguments ConnectWithOptsError : clear implicits.

Inductive ConnectError {L : Type} :=
| ConnectStart (e : ConnectWithOptsError L)
| ConnectFinish (e : ConnectingError).
Arguments ConnectError : clear implicits.

Record Connecting := mkConnecting { connecting_inner : noq_connecting; remote_endpoint_id : EndpointId }.

(** The parts of the endpoint that a call reads: what [bind] fixed, and whether it
    is closed; and the mapped addresses of endpoints, with their counter. *)
Record Endpoint := mkEndpoint { static_config : StaticConfig T; hooks : Hooks; is_closed : bool }.

Definition endpoint_id_of (self : Endpoint) : EndpointId := public (tls_secret_key (tls_config (static_config self))).

Abbreviation EndpointAddrs := (AddrMap EndpointId * Z)%type.

Context {L : Type}.

(** [Socket::resolve_remote]: the reply of the remote state actor, none when it
    dropped the sender. *)
Definition resolve_remote (st : EndpointAddrs) (remote_id : EndpointId) (reply : option (result L unit))
    : option (result L bytes) * EndpointAddrs :=
  match reply with
  | None => (None, st)
  | Some (Ok _) =>
      let '(addr, m, counter) := get ENDPOINT_ID_SUBNET st.1 st.2 remote_id in (Some (Ok addr), (m, counter))
  | Some (Err e) => (Some (Err e), st)
  | Some Panic => (Some Panic, st)
  end.

Definition connect_with_opts (self : Endpoint) (st : EndpointAddrs) (endpoint_addr : EndpointAddr) (alpn : bytes)
    (options : ConnectOptions) (reply : option (result L unit))
    : result (ConnectWithOptsError L) Connecting * EndpointAddrs :=
  if is_closed self then (Err EndpointIsClosed, st)
  else
    let endpoint_id := endpoint_id endpoint_addr in
    match (Router.before_connect (hooks self) endpoint_addr alpn).1 with
    | Router.ConnectReject => (Err LocallyRejected, st)
    | Router.ConnectAccept =>
        if decide (endpoint_id = endpoint_id_of self) then (Err SelfConnect, st)
        else
          match resolve_remote st endpoint_id reply with
          | (None, st) => (Err ConnectInternal, st)
          | (Some (Err e), st) => (Err (NoAddress e), st)
          | (Some Panic, st) => (Panic, st)
          | (Some (Ok mapped_addr), st) =>
              let transport := from_option (fun t => t) (transport_config (static_config self)) (opt_transport_config options) in
              let alpn_protocols := alpn :: additional_alpns options in
              let client_config := create_client_config (static_config self) alpn_protocols transport in
              let dest_addr := private_socket_addr mapped_addr in
              (let? connect := map_err NoqConnect (connect_with client_config dest_addr (name_encode endpoint_id)) in
               Ok (mkConnecting connect endpoint_id), st)
          end
    end.

(** [Endpoint::connect]: [handshake] says how each attempt ends. *)
Definition connect (self : Endpoint) (st : EndpointAddrs) (endpoint_addr : EndpointAddr) (alpn : bytes)
    (reply : option (result L unit)) (handshake : noq_connecting -> result ConnectionError noq_conn)
    (registered : option Paths) : result (ConnectError L) Connection * list effect * EndpointAddrs :=
  match connect_with_opts self st endpoint_addr alpn ConnectOptions_default reply with
  | (Ok connecting, st) =>
      let '(r, effs) := connecting_await (handshake (connecting_inner connecting)) (hooks self) registered in
      (map_err ConnectFinish r, effs, st)
  | (Err e, st) => (Err (ConnectStart e), [], st)
  | (Panic, st) => (Panic, [], st)
  end.

(** [Incoming::accept] and the [Accepting] awaited, with the protocols of
    [set_alpns]. *)
Definition accept (self : Endpoint) (alpns : list bytes) (incoming : noq_incoming)
    (handshake : noq_connecting -> result ConnectionError noq_conn) (registered : option Paths)
    : result ConnectingError Connection * list effect :=
  match accept_with (create_server_config (static_config self) alpns) incoming with
  | Ok connecting => connecting_await (handshake connecting) (hooks self) registered
  | Err e => (Err (ConnectingConnection e), [])
  | Panic => (Panic, [])
  end.

(** ** The address of the endpoint *)

(** [watch_addr]: from the direct addresses and the home relays. *)
Definition watch_addr (self : Endpoint) (ips : list Sock.DirectAddr) (relays : list RelayUrl) : EndpointAddr :=
  EndpointAddr_from_parts (endpoint_id_of self)
    (map TransportRelay relays ++ map (fun d => TransportIp (Sock.addr d)) ips).

(** [online] over the values of the watcher: how many it has read when it returns.
    When the values end, it waits forever. *)
Context {H : HandshakeCrypto}.

Fixpoint online (values : list (list Relayed.RelayStatus)) : option nat :=
  match values with
  | [] => None
  | v :: values =>
      if existsb (fun s => Relayed.is_connected (Relayed.status_state s)) v then Some 1%nat else S <$> online values
  end.

End Connection.

(** ** Facts *)

Section ConnFacts.
Context {Ed : Ed25519} {B : Base32Dnssec} {R : RawKeys Ed} {C : TokenCrypto} {T : Type} {N : Noq C T}.
Context {EdL : Ed25519Laws Ed} {BL : Base32DnssecLaws B} {RL : RawKeysLaws R} {NL : NoqLaws N}.
Context {Paths L : Type}.

Lemma multipath_endpoint c :
  multipath_from (private_socket_addr (mapped_addr ENDPOINT_ID_SUBNET c)) = Mixed (mapped_addr ENDPOINT_ID_SUBNET c).
Proof.
  unfold multipath_from, private_socket_addr. cbn [socket_addr_new socket_ip]. by rewrite try_from_own.
Qed.

(** The holder of the key of [id] has signed the handshake of the connection. *)
Definition proven (conn : noq_conn) (id : EndpointId) : Prop :=
  exists signature, verify id (peer_signed conn) signature = Ok tt.

Lemma identity_proven conn end_entity intermediates dss info :
  peer_identity conn = Some (Certs (end_entity :: intermediates)) ->
  verify_tls13_signature (peer_signed conn) end_entity dss = Ok tt ->
  static_info_from_conn conn = Ok info ->
  proven conn (info_endpoint_id info) /\ spki_key end_entity = Some (as_bytes (info_endpoint_id info)) /\
  alpn_from_noq_conn conn = Some (info_alpn info).
Proof.
  unfold static_info_from_conn, remote_id_from_noq_conn. intros -> (_ & _ & key & Hk & Hv)%tls13_signature_ok.
  destruct intermediates; [|done]. destruct (vk_from_public_key_der end_entity) as [vk|] eqn:E; [|done]. simpl.
  destruct (alpn_from_noq_conn conn) as [alpn|]; [|done]. intros [= <-]. simpl.
  apply spki_of_der in E. rewrite E in Hk. injection Hk as <-. split; [by eexists|done].
Qed.

Lemma conn_from_noq_conn_spec conn (hooks : list (Router.EndpointHooks (Conn := Connection (Paths := Paths)))) registered r effs :
  conn_from_noq_conn conn hooks registered = (r, effs) ->
  (forall id nc, Register id nc ∈ effs ->
     nc = conn /\ exists info, static_info_from_conn conn = Ok info /\ id = info_endpoint_id info) /\
  (forall c, r = Ok c -> conn_inner c = conn /\ static_info_from_conn conn = Ok (conn_info c) /\
     (Router.after_handshake hooks c).1 = Router.HandshakeAccept).
Proof.
  unfold conn_from_noq_conn. destruct (static_info_from_conn conn) as [info|e|].
  - destruct registered as [paths|]; [destruct (Router.after_handshake hooks _).1 as [|code reason] eqn:E|]; intros [= <- <-];
      (split; [intros id nc; rewrite list_elem_of_In; simpl; naive_solver|]); [|done..].
    intros c [= <-]. done.
  - intros [= <- <-]. split; [by intros ? ? ?%elem_of_nil|]. by destruct (close_reason conn).
  - intros [= <- <-]. split; [by intros ? ? ?%elem_of_nil|done].
Qed.

(** A connection a hook rejects is closed, with the code of the first hook that
    does so, after it was registered. *)
Lemma rejected_closed conn (hooks : list (Router.EndpointHooks (Conn := Connection (Paths := Paths)))) registered effs :
  conn_from_noq_conn conn hooks registered = (Err ConnectingRejected, effs) ->
  exists c code reason l1 h l2, effs = [Register (remote_id c) conn; Close conn code reason] /\
    hooks = l1 ++ h :: l2 /\ Forall (fun h => Router.hook_after_handshake h c = Router.HandshakeAccept) l1 /\
    Router.hook_after_handshake h c = Router.HandshakeReject code reason.
Proof.
  unfold conn_from_noq_conn. destruct (static_info_from_conn conn) as [info|e|]; [|by destruct (close_reason conn)|done].
  destruct registered as [paths|]; [|done]. set (c := mkConnection conn info paths).
  pose proof (Router.after_handshake_first hooks c) as Hf.
  destruct (Router.after_handshake hooks c) as [[|code reason] n]; [done|]. simpl. intros [= <-].
  destruct Hf as (l1 & h & l2 & -> & _ & Hl & Hh). by exists c, code, reason, l1, h, l2.
Qed.

(** Every endpoint verifies its peers with the verifiers of this file. *)
Lemma static_config_verifiers s13 init sk provider random tickets keylog (transport : T) sc :
  static_config_new s13 init sk provider random tickets keylog transport = Ok sc ->
  cc_verify_cert (client_config sc) = verify_server_cert /\
  cc_verify_signature (client_config sc) = verify_tls13_signature /\
  sc_verify_cert (server_config sc) = verify_client_cert /\
  sc_verify_signature (server_config sc) = verify_tls13_signature /\
  tls_secret_key (tls_config sc) = sk.
Proof.
  unfold static_config_new, make_server_config, make_client_config. destruct provider as [p|]; [|done]. simpl.
  destruct (RustlsTokenKey_new random p); [|done]. simpl.
  destruct (s13 p); [|done]. simpl. destruct (init p); [|done]. simpl. by intros [= <-].
Qed.

Section Endpoint.
Context (s13 init : CryptoProvider -> bool) (sk : SecretKey) (provider : option CryptoProvider) (random : bytes).
Context (tickets : nat) (keylog : bool) (transport : T) (self : Endpoint (Paths := Paths)).
Context (Hself : static_config_new s13 init sk provider random tickets keylog transport = Ok (static_config self)).

(** What a dialled connection is, however far it came. *)
Lemma dialled alpns transport' dest id c conn info :
  connect_with (create_client_config (static_config self) alpns transport') dest (name_encode id) = Ok c ->
  completes c conn -> static_info_from_conn conn = Ok info ->
  info_endpoint_id info = id /\ proven conn id /\ (alpns <> [] -> info_alpn info ∈ alpns).
Proof.
  intros Hc Hdone Hinfo. destruct (static_config_verifiers _ _ _ _ _ _ _ _ _ Hself) as (Hcert & Hsig & _).
  destruct (client_handshake _ _ _ _ _ Hc Hdone) as (sn & ee & ints & dss & Hsn & Hpeer & Hok & Hs).
  simpl in Hok, Hs. rewrite Hcert in Hok. rewrite Hsig in Hs.
  destruct (identity_proven _ _ _ _ _ Hpeer Hs Hinfo) as (Hp & Hk & Ha).
  apply server_cert_ok in Hok as (-> & name & id' & -> & Hdec & ->).
  apply server_name_dns in Hsn as ->.
  assert (Hl : length (as_bytes id') = 32%nat).
  { rewrite name_decode_encode in Hdec. case_decide; [|done]. by rewrite (name_decode_own id id')
      by (rewrite name_decode_encode, decide_True by done; done). }
  apply name_decode_own in Hdec as ->. rewrite spki_key_of in Hk by done. injection Hk as Hk.
  assert (info_endpoint_id info = id) as Hid by (destruct (info_endpoint_id info), id; simpl in *; congruence).
  rewrite Hid in Hp. split_and!; [done..|]. intros Hne.
  destruct (client_protocol _ _ _ _ _ Hc Hdone Hne) as (p & Hd & Hin). unfold alpn_from_noq_conn in Ha.
  rewrite Hd in Ha. simpl in Ha. by injection Ha as ->.
Qed.

(** The certificate of an accepted connection is the key of the client. *)
Lemma accepted alpns incoming c conn info :
  accept_with (create_server_config (static_config self) alpns) incoming = Ok c ->
  completes c conn -> static_info_from_conn conn = Ok info ->
  proven conn (info_endpoint_id info) /\ (alpns <> [] -> info_alpn info ∈ alpns).
Proof.
  intros Hc Hdone Hinfo. destruct (static_config_verifiers _ _ _ _ _ _ _ _ _ Hself) as (_ & _ & _ & Hsig & _).
  destruct (server_handshake _ _ _ _ Hc Hdone) as (ee & ints & dss & Hpeer & _ & Hs).
  simpl in Hs. rewrite Hsig in Hs. destruct (identity_proven _ _ _ _ _ Hpeer Hs Hinfo) as (Hp & _ & Ha).
  split; [done|]. intros Hne. destruct (server_protocol _ _ _ _ Hc Hdone Hne) as (p & Hd & Hin).
  unfold alpn_from_noq_conn in Ha. rewrite Hd in Ha. simpl in Ha. by injection Ha as ->.
Qed.

Lemma connect_with_opts_ok (st : AddrMap EndpointId * Z) addr alpn options (reply : option (result L unit)) connecting st' :
  connect_with_opts self st addr alpn options reply = (Ok connecting, st') ->
  is_closed self = false /\ (Router.before_connect (hooks self) addr alpn).1 = Router.ConnectAccept /\
  endpoint_id addr <> public sk /\ remote_endpoint_id connecting = endpoint_id addr /\
  exists mapped,
    resolve_remote st (endpoint_id addr) reply = (Some (Ok mapped), st') /\
    connect_with
      (create_client_config (static_config self) (alpn :: additional_alpns options)
        (from_option (fun t => t) (transport_config (static_config self)) (opt_transport_config options)))
      (private_socket_addr mapped) (name_encode (endpoint_id addr)) = Ok (connecting_inner connecting).
Proof.
  destruct (static_config_verifiers _ _ _ _ _ _ _ _ _ Hself) as (_ & _ & _ & _ & Hsk).
  unfold connect_with_opts, endpoint_id_of. rewrite Hsk. destruct (is_closed self); [done|].
  destruct (Router.before_connect _ _ _).1; [|done]. case_decide; [done|].
  destruct (resolve_remote st (endpoint_id addr) reply) as [[[mapped|e|]|] st1]; [|done..].
  destruct (connect_with _ _ _) as [c|e|] eqn:Ec; simpl; [|done..]. intros [= <- <-]. split_and!; try done.
  by exists mapped.
Qed.

(** C8: An endpoint that dials an endpoint id gets a connection to the holder of that
    key: the remote of the connection is the id that was dialled, the remote has
    signed the handshake with its key, and the protocol is the one asked for. Not
    even on the way to an error is a connection registered for another id. Only an
    open endpoint dials, never itself, and only if its hooks agree. *)
Theorem connect_authenticates st addr alpn (reply : option (result L unit)) handshake registered r effs st' :
  (forall c nc, handshake c = Ok nc -> completes c nc) ->
  connect self st addr alpn reply handshake registered = (r, effs, st') ->
  (forall id nc, Register id nc ∈ effs -> id = endpoint_id addr /\ proven nc id) /\
  (forall conn, r = Ok conn ->
     remote_id conn = endpoint_id addr /\ proven (conn_inner conn) (endpoint_id addr) /\ conn_alpn conn = alpn /\
     endpoint_id addr <> public sk /\ is_closed self = false /\
     (Router.before_connect (hooks self) addr alpn).1 = Router.ConnectAccept /\
     (Router.after_handshake (hooks self) conn).1 = Router.HandshakeAccept).
Proof.
  intros Hdone. unfold connect.
  destruct (connect_with_opts self st addr alpn _ reply) as [[connecting|e|] st1] eqn:Ec;
    [|by intros [= <- <- <-]; split; [intros ? ? ?%elem_of_nil|]..].
  destruct (connect_with_opts_ok _ _ _ _ _ _ _ Ec) as (Hopen & Hbefore & Hne & _ & mapped & _ & Hcw).
  unfold connecting_await. destruct (handshake (connecting_inner connecting)) as [nc|e|] eqn:Eh;
    [|by intros [= <- <- <-]; split; [intros ? ? ?%elem_of_nil|]..].
  destruct (conn_from_noq_conn nc (hooks self) registered) as [r' effs'] eqn:Ef. intros [= <- <- <-].
  destruct (conn_from_noq_conn_spec _ _ _ _ _ Ef) as [Hreg Hok].
  pose proof (fun info => dialled _ _ _ _ _ _ info Hcw (Hdone _ _ Eh)) as Hd. split.
  - intros id nc' [-> (info & Hinfo & ->)]%Hreg. destruct (Hd _ Hinfo) as (-> & Hp & _). done.
  - intros conn Hr. destruct r' as [c| |]; [|done..]. injection Hr as <-.
    destruct (Hok c eq_refl) as (Hin & Hinfo & Hafter). destruct (Hd _ Hinfo) as (Hid & Hp & Ha).
    rewrite Hin. split_and!; try done. by apply list_elem_of_singleton, Ha.
Qed.

(** A datagram of the QUIC stack for a connection that is being dialled goes to
    the remote state actor of the dialled endpoint id. *)
Theorem dial_routed (st : AddrMap EndpointId * Z) addr alpn options (reply : option (result L unit)) connecting st' :
  AddrMap_wf ENDPOINT_ID_SUBNET st.1 st.2 -> st.2 < 2 ^ 64 - 1 ->
  connect_with_opts self st addr alpn options reply = (Ok connecting, st') ->
  AddrMap_wf ENDPOINT_ID_SUBNET st'.1 st'.2 /\ extends st.1 st'.1 /\
  exists cfg dest,
    connect_with cfg dest (name_encode (endpoint_id addr)) = Ok (connecting_inner connecting) /\
    forall maps src, Transports.sender_route (lookup st'.1) maps dest src = Transports.ToActor (endpoint_id addr).
Proof.
  intros Hwf Hlt (_ & _ & _ & _ & mapped & Hres & Hcw)%connect_with_opts_ok. unfold resolve_remote in Hres.
  destruct reply as [[[]| |]|]; try done.
  destruct (get ENDPOINT_ID_SUBNET st.1 st.2 (endpoint_id addr)) as [[a m] counter] eqn:Eg. injection Hres as <- <-.
  destruct (get_spec _ _ _ _ _ _ _ Hwf Hlt Eg) as (Hwf' & _ & Hext & Hl & c & _ & ->). split_and!; [done..|].
  eexists _, _. split; [exact Hcw|]. intros maps src.
  unfold Transports.sender_route. rewrite multipath_endpoint. cbn [fst]. unfold Mapped.lookup. by rewrite Hl.
Qed.

(** Every connection an endpoint accepts is from the holder of the key it is
    named after, with one of the protocols of the endpoint; and no other is
    registered with the socket. *)
Theorem accept_authenticates alpns incoming handshake registered r effs :
  (forall c nc, handshake c = Ok nc -> completes c nc) ->
  accept self alpns incoming handshake registered = (r, effs) ->
  (forall id nc, Register id nc ∈ effs -> proven nc id) /\
  (forall conn, r = Ok conn ->
     proven (conn_inner conn) (remote_id conn) /\ (alpns <> [] -> conn_alpn conn ∈ alpns) /\
     (Router.after_handshake (hooks self) conn).1 = Router.HandshakeAccept).
Proof.
  intros Hdone. unfold accept.
  destruct (accept_with _ incoming) as [c|e|] eqn:Ec; [|by intros [= <- <-]; split; [intros ? ? ?%elem_of_nil|]..].
  unfold connecting_await. destruct (handshake c) as [nc|e|] eqn:Eh;
    [|by intros [= <- <-]; split; [intros ? ? ?%elem_of_nil|]..].
  intros Ef. destruct (conn_from_noq_conn_spec _ _ _ _ _ Ef) as [Hreg Hok].
  pose proof (fun info => accepted _ _ _ _ info Ec (Hdone _ _ Eh)) as Ha. split.
  - intros id nc' [-> (info & Hinfo & ->)]%Hreg. apply Ha, Hinfo.
  - intros conn ->. destruct (Hok conn eq_refl) as (Hin & Hinfo & Hafter). destruct (Ha _ Hinfo) as [Hp Halpn].
    rewrite Hin. done.
Qed.

(** A client that uses 0-RTT has, once the handshake is complete, a connection
    to the id it dialled, whether or not the early data was accepted. *)
Theorem zero_rtt_authentic st addr alpn options (reply : option (result L unit)) connecting st' nc zrtt registered r effs :
  connect_with_opts self st addr alpn options reply = (Ok connecting, st') ->
  completes (connecting_inner connecting) nc ->
  outgoing_handshake_completed nc zrtt (hooks self) registered = (Ok r, effs) ->
  exists conn, r = (if zrtt then ZeroRttAccepted conn else ZeroRttRejected conn) /\
    remote_id conn = remote_endpoint_id connecting /\ proven nc (remote_id conn) /\
    conn_alpn conn ∈ alpn :: additional_alpns options.
Proof.
  intros (_ & _ & _ & Hrem & mapped & _ & Hcw)%connect_with_opts_ok Hdone. unfold outgoing_handshake_completed.
  destruct (conn_from_noq_conn nc (hooks self) registered) as [[conn|e|] effs'] eqn:Ef; simpl; [|done..].
  intros [= <- <-]. exists conn. destruct (conn_from_noq_conn_spec _ _ _ _ _ Ef) as [_ Hok].
  destruct (Hok conn eq_refl) as (_ & Hinfo & _).
  destruct (dialled _ _ _ _ _ _ _ Hcw Hdone Hinfo) as (Hid & Hp & Ha). unfold remote_id, conn_alpn. rewrite Hid, Hrem.
  split_and!; [by destruct zrtt|done..|]. by apply Ha.
Qed.

End Endpoint.
End ConnFacts.

Lemma incoming_addr_transport a : IncomingAddr_to_transport (IncomingAddr_from a) = Addr_to_transport a.
Proof. by destruct a. Qed.

(** [online] returns at the first value with a connected relay, and only then. *)
Lemma online_first {H : HandshakeCrypto} values n :
  let up v := existsb (fun s => Relayed.is_connected (Relayed.status_state s)) v in
  online values = Some n <->
  exists pre v post, values = pre ++ v :: post /\ n = S (length pre) /\ up v = true /\ Forall (fun v => up v = false) pre.
Proof.
  intros up. revert n. induction values as [|v values IH]; intros n; simpl.
  { split; [done|]. by intros ([] & ? & ? & ? & _). }
  fold (up v). destruct (up v) eqn:E.
  - split; [intros [= <-]; by exists [], v, values|].
    intros ([|w pre] & u & post & [= -> ->] & -> & Hu & Hp); [done|]. apply Forall_cons in Hp as [? _]. congruence.
  - rewrite fmap_Some. setoid_rewrite IH. split.
    + intros (m & (pre & u & post & -> & -> & Hu & Hp) & ->). exists (v :: pre), u, post. split_and!; try done. by constructor.
    + intros ([|w pre] & u & post & [= -> ->] & -> & Hu & Hp); [congruence|]. apply Forall_cons in Hp as [_ Hp].
      exists (S (length pre)). split; [|done]. by exists pre, u, post.
Qed.

(** ** The tunnel server *)

(** Every bridge belongs to a connection that has arrived. *)
Lemma bridge_connected wl s stream client :
  Handler.reachable wl s -> Handler.running s !! stream = Some client ->
  exists c p, Handler.conns s !! c = Some (client, p).
Proof.
  intros Hr. revert stream client. generalize dependent s.
  refine (fun s => rtc_invariant (Handler.step wl) (fun s => forall stream client,
    Handler.running s !! stream = Some client -> exists c p, Handler.conns s !! c = Some (client, p)) Handler.init s _ _).
  { intros stream client. simpl. by rewrite lookup_empty. }
  clear s. intros s s' IH Hstep stream client.
  assert (Hkeep : forall c0 cl, (exists p, Handler.conns s !! c0 = Some (cl, p)) \/ Handler.conns s !! c0 = None ->
    forall p', (exists c p, Handler.conns s !! c = Some (client, p)) ->
    exists c q, <[c0 := (cl, p')]> (Handler.conns s) !! c = Some (client, q)).
  { intros c0 cl H0 p' (c & q & Hc). destruct (decide (c0 = c)) as [->|Hne].
    - destruct H0 as [[p H0]|H0]; rewrite H0 in Hc; [|done]. injection Hc as -> ->. eexists _, _. by rewrite lookup_insert_eq.
    - exists c, q. by rewrite lookup_insert_ne. }
  destruct Hstep as [c cl ? Hn|c cl ? Hn Ha|c cl ? Hn Ha|c cl st ? Hn Hs|c cl ? Hn|c cl st n ? Hn Hp Hs|st cl ? Hn]; simpl;
    try (intros Hrun; eapply Hkeep; [|by eapply IH]; eauto; fail).
  - rewrite lookup_insert_Some. intros [[_ <-]|[_ Hrun]]; [eexists c, _; by rewrite lookup_insert_eq|].
    eapply Hkeep; [|by eapply IH]. eauto.
  - rewrite lookup_delete_Some. intros [_ Hrun]. by eapply IH.
Qed.

Section Tunnel.
Context {Ed : Ed25519} {B : Base32Dnssec} {R : RawKeys Ed} {C : TokenCrypto} {T : Type} {N : Noq C T}.
Context {EdL : Ed25519Laws Ed} {BL : Base32DnssecLaws B} {RL : RawKeysLaws R} {NL : NoqLaws N}.
Context {Paths : Type}.

(** C7: If the connections of the tunnel server are those its endpoint accepted,
    every bridge to the local service serves a client that is on the whitelist,
    or the whitelist is empty, and that has proved to hold its key. *)
Theorem tunnel_clients_proven s13 init sk provider random tickets keylog (transport : T)
    (self : Endpoint (Paths := Paths)) alpns handshake wl s stream client :
  static_config_new s13 init sk provider random tickets keylog transport = Ok (static_config self) ->
  (forall c nc, handshake c = Ok nc -> completes c nc) ->
  (forall c client p, Handler.conns s !! c = Some (client, p) -> exists incoming registered conn effs,
     accept self alpns incoming handshake registered = (Ok conn, effs) /\ remote_id conn = client) ->
  Handler.reachable wl s -> Handler.running s !! stream = Some client ->
  (wl = ∅ \/ client ∈ wl) /\ exists conn, proven conn client.
Proof.
  intros Hself Hdone Harr Hr Hrun. split.
  - apply admitted_spec. destruct (Handler.handler_reachable_inv _ _ Hr) as [_ Hadm _]. eauto.
  - destruct (bridge_connected _ _ _ _ Hr Hrun) as (c & p & Hc).
    destruct (Harr _ _ _ Hc) as (incoming & registered & conn & effs & Hacc & <-). exists (conn_inner conn).
    revert Hacc. unfold accept. destruct (accept_with _ incoming) as [cg|e|] eqn:Ea; [|done..].
    unfold connecting_await. destruct (handshake cg) as [nc|e|] eqn:Eh; [|done..]. intros Ef.
    destruct (conn_from_noq_conn_spec _ _ _ _ _ Ef) as [_ Hok]. destruct (Hok conn eq_refl) as (-> & Hinfo & _).
    by apply (accepted _ _ _ _ _ _ _ _ _ Hself _ _ _ _ _ Ea (Hdone _ _ Eh)).
Qed.

End Tunnel.

(** ** A QUIC stack that checks what rustls checks *)

Section Witnesses.

#[local] Existing Instances checksum_keys checksum_keys_laws z32_names z32_names_laws prefixed_keys prefixed_keys_laws
  stored_tokens stored_tokens_laws data_encoding data_encoding_laws.

Record plain_conn := mkPlain {
  plain_certs : list bytes; plain_dss : SignatureScheme * bytes; plain_protocol : bytes; plain_signed : bytes
}.

Definition plain_completes (c : QuicClientConfig * string + QuicServerConfig) (conn : plain_conn) : bool :=
  match plain_certs conn with
  | [] => false
  | end_entity :: intermediates =>
      match c with
      | inl (cfg, name) =>
          is_ok (cc_verify_cert cfg end_entity intermediates (DnsName name)) &&
          is_ok (cc_verify_signature cfg (plain_signed conn) end_entity (plain_dss conn)) &&
          bool_decide (plain_protocol conn ∈ cc_alpn cfg)
      | inr cfg =>
          is_ok (sc_verify_cert cfg end_entity intermediates) &&
          is_ok (sc_verify_signature cfg (plain_signed conn) end_entity (plain_dss conn)) &&
          bool_decide (plain_protocol conn ∈ sc_alpn cfg)
      end
  end.

#[local] Instance plain_noq : Noq stored_tokens unit := {
  noq_conn := plain_conn;
  noq_connecting := QuicClientConfig * string + QuicServerConfig;
  noq_incoming := unit;
  ConnectionError := unit;
  QuicConnectError := unit;
  connect_with cfg _ name := Ok (inl (cfg.1, name));
  accept_with cfg _ := Ok (inr cfg.1.1);
  completes c conn := plain_completes c conn = true;
  peer_identity conn := Some (Certs (plain_certs conn));
  handshake_data conn := Some (RustlsData (Some (plain_protocol conn)));
  close_reason _ := None;
  peer_signed := plain_signed
}.

Lemma is_ok_unit {E} (r : result E unit) : is_ok r = true -> r = Ok tt.
Proof. by destruct r as [[]| |]. Qed.

#[local] Instance plain_noq_laws : NoqLaws plain_noq.
Proof.
  constructor; cbn [connect_with accept_with completes peer_identity handshake_data peer_signed plain_noq]; unfold plain_completes.
  - intros cfg dest name c conn [= <-]. destruct (plain_certs conn) as [|ee ints]; [done|].
    rewrite !andb_true_iff. intros [[H1%is_ok_unit H2%is_ok_unit] _]. by exists (DnsName name), ee, ints, (plain_dss conn).
  - intros cfg inc c conn [= <-]. destruct (plain_certs conn) as [|ee ints]; [done|].
    rewrite !andb_true_iff. intros [[H1%is_ok_unit H2%is_ok_unit] _]. by exists ee, ints, (plain_dss conn).
  - intros cfg dest name c conn [= <-]. destruct (plain_certs conn) as [|ee ints]; [done|].
    rewrite !andb_true_iff. intros [_ Hp%bool_decide_eq_true_1] _. by exists (plain_protocol conn).
  - intros cfg inc c conn [= <-]. destruct (plain_certs conn) as [|ee ints]; [done|].
    rewrite !andb_true_iff. intros [_ Hp%bool_decide_eq_true_1] _. by exists (plain_protocol conn).
Qed.

Definition here : SecretKey := SecretKey_from_bytes [Byte.x01].
Definition there : SecretKey := SecretKey_from_bytes [Byte.x02].

(** What the peer with this key presents and signs. *)
Definition conn_of (sk : SecretKey) : plain_conn :=
  mkPlain (cert_chain (ResolveRawPublicKeyCert_new sk)) (signer_sign sk [Byte.x2a]) [Byte.x61] [Byte.x2a].

Definition plain_handshake (conn : plain_conn) (c : QuicClientConfig * string + QuicServerConfig) : result unit plain_conn :=
  if plain_completes c conn then Ok conn else Err tt.

Lemma plain_handshake_completes conn c nc : plain_handshake conn c = Ok nc -> completes c nc.
Proof. unfold plain_handshake. destruct (plain_completes c conn) eqn:E; [|done]. by intros [= <-]. Qed.

Definition plain_endpoint : Endpoint (Paths := unit) :=
  mkEndpoint
    (mkStaticConfig (TlsConfig_new here 256 true)
       (mkServerConfig verify_client_cert verify_tls13_signature (ResolveRawPublicKeyCert_new here) u32_max false [])
       (mkClientConfig verify_server_cert verify_tls13_signature (ResolveRawPublicKeyCert_new here) 256 true false [])
       (mkTokenKey [] tt) tt)
    [Router.default_hooks] false.

Definition all_providers (p : CryptoProvider) : bool := true.

Lemma plain_endpoint_bound :
  static_config_new all_providers all_providers here (Some true) [] 256 false tt = Ok (static_config plain_endpoint).
Proof. reflexivity. Qed.

Definition plain_dial : result (ConnectError (L := unit)) Connection * list effect * (AddrMap EndpointId * Z) :=
  connect plain_endpoint (AddrMap_default, 1) (EndpointAddr_new (public there)) [Byte.x61] (Some (Ok tt))
    (plain_handshake (conn_of there)) (Some tt).

Definition dialled_conn : Connection := mkConnection (conn_of there) (mkStaticInfo (public there) [Byte.x61]) tt.

(** Both sides are evaluated, but never printed as terms. *)
Lemma plain_dial_fst : plain_dial.1 = (Ok dialled_conn, [Register (public there) (conn_of there)]).
Proof. vm_cast_no_check (eq_refl plain_dial.1). Qed.

Lemma plain_dial_ok : plain_dial = (Ok dialled_conn, [Register (public there) (conn_of there)], plain_dial.2).
Proof. rewrite <- plain_dial_fst. apply surjective_pairing. Qed.

Lemma connect_authenticates_witness :
  plain_dial = (Ok dialled_conn, [Register (public there) (conn_of there)], plain_dial.2) /\
  proven (conn_of there) (public there).
Proof.
  split; [exact plain_dial_ok|].
  exact (proj1 (proj2 (proj2 (connect_authenticates all_providers all_providers here (Some true) [] 256 false tt
    plain_endpoint plain_endpoint_bound (AddrMap_default, 1) (EndpointAddr_new (public there)) [Byte.x61] (Some (Ok tt))
    (plain_handshake (conn_of there)) (Some tt) _ _ _ (plain_handshake_completes _) plain_dial_ok) dialled_conn eq_refl))).
Defined.

Definition dialled_attempt : Connecting :=
  mkConnecting (inl (client_set_alpn (client_config (static_config plain_endpoint)) [[Byte.x61]], name_encode (public there)))
    (public there).

Definition plain_attempt : result (ConnectWithOptsError (L := unit)) Connecting * (AddrMap EndpointId * Z) :=
  connect_with_opts plain_endpoint (AddrMap_default, 1) (EndpointAddr_new (public there)) [Byte.x61]
    ConnectOptions_default (Some (Ok tt)).

Lemma plain_attempt_fst : plain_attempt.1 = Ok dialled_attempt.
Proof. vm_cast_no_check (eq_refl plain_attempt.1). Qed.

Lemma plain_connecting : plain_attempt = (Ok dialled_attempt, plain_attempt.2).
Proof. rewrite <- plain_attempt_fst. apply surjective_pairing. Qed.

Lemma dial_routed_witness :
  extends AddrMap_default plain_attempt.2.1 /\ 1 < 2 ^ 64 - 1.
Proof.
  split; [|done].
  exact (proj1 (proj2 (dial_routed all_providers all_providers here (Some true) [] 256 false tt plain_endpoint
    plain_endpoint_bound (AddrMap_default, 1) (EndpointAddr_new (public there)) [Byte.x61] ConnectOptions_default
    (Some (Ok tt)) dialled_attempt plain_attempt.2 (AddrMap_default_wf _) ltac:(done) plain_connecting))).
Defined.

Lemma plain_accept_ok :
  accept plain_endpoint [[Byte.x61]] tt (plain_handshake (conn_of there)) (Some tt) =
    (Ok dialled_conn, [Register (public there) (conn_of there)]).
Proof. vm_cast_no_check (eq_refl (accept plain_endpoint [[Byte.x61]] tt (plain_handshake (conn_of there)) (Some tt))). Qed.

Lemma accept_authenticates_witness : proven (N := plain_noq) (conn_of there) (public there).
Proof.
  exact (proj1 (proj2 (accept_authenticates all_providers all_providers here (Some true) [] 256 false tt plain_endpoint
    plain_endpoint_bound [[Byte.x61]] tt (plain_handshake (conn_of there)) (Some tt) _ _
    (plain_handshake_completes _) plain_accept_ok) dialled_conn eq_refl)).
Defined.

Lemma plain_attempt_completes : completes (connecting_inner dialled_attempt) (conn_of there).
Proof. vm_cast_no_check (eq_refl true). Qed.

Lemma plain_rejected :
  outgoing_handshake_completed (N := plain_noq) (conn_of there) false (hooks plain_endpoint) (Some tt) =
    (Ok (ZeroRttRejected dialled_conn), [Register (public there) (conn_of there)]).
Proof. vm_cast_no_check (eq_refl (outgoing_handshake_completed (N := plain_noq) (conn_of there) false (hooks plain_endpoint) (Some tt))). Qed.

Lemma zero_rtt_authentic_witness : exists conn, ZeroRttRejected dialled_conn = ZeroRttRejected conn /\ proven (N := plain_noq) (conn_of there) (remote_id conn).
Proof.
  destruct (zero_rtt_authentic all_providers all_providers here (Some true) [] 256 false tt plain_endpoint
    plain_endpoint_bound (AddrMap_default, 1) (EndpointAddr_new (public there)) [Byte.x61] ConnectOptions_default
    (Some (Ok tt)) dialled_attempt plain_attempt.2 (conn_of there) false (Some tt) (ZeroRttRejected dialled_conn)
    _ plain_connecting plain_attempt_completes plain_rejected)
    as (conn & Hr & _ & Hp & _).
  exists conn. exact (conj Hr Hp).
Defined.

(** The tunnel server with one client and one bridge. *)
Definition bridged : Handler.state :=
  Handler.mkState 1999 {[7%nat := (public there, Handler.Looping)]} {[3%nat := public there]}.

Lemma bridged_reachable : Handler.reachable {[public there]} bridged.
Proof.
  assert (Ha : admitted {[public there]} (public there) = true) by (apply admitted_spec; right; by apply elem_of_singleton).
  eapply rtc_l; [by apply (Handler.step_arrive _ 7 (public there))|].
  eapply rtc_l; [by apply (Handler.step_admit _ 7 (public there))|].
  eapply rtc_l; [by apply (Handler.step_accept_bi _ 7 (public there) 3)|].
  eapply rtc_l; [by apply (Handler.step_spawn _ 7 (public there) 3 1999)|].
  match goal with |- rtc _ ?a ?b => replace a with b; [apply rtc_refl|] end. by vm_compute.
Qed.

Lemma tunnel_clients_proven_witness : public there ∈ ({[public there]} : gset PublicKey) /\ exists conn, proven conn (public there).
Proof.
  split; [by apply elem_of_singleton|].
  refine (proj2 (tunnel_clients_proven all_providers all_providers here (Some true) [] 256 false tt plain_endpoint
    [[Byte.x61]] (plain_handshake (conn_of there)) {[public there]} bridged 3 (public there)
    plain_endpoint_bound (plain_handshake_completes _) _ bridged_reachable eq_refl)).
  intros c client p. simpl. rewrite lookup_singleton_Some. intros [_ [= <- _]].
  exists tt, (Some tt), dialled_conn, [Register (N := plain_noq) (public there) (conn_of there)]. split; [exact plain_accept_ok|done].
Defined.

Lemma name_roundtrip_witness : name_decode (name_encode (public there)) = Some (public there).
Proof. exact (proj1 (name_roundtrip (public there) (from_bytes_public there))). Defined.

Lemma tokens_roundtrip_witness :
  open (mkTokenKey [] tt) 5 (nonce_bytes 5 ++ [Byte.x07]) = Ok [Byte.x07].
Proof. exact (proj1 (tokens_roundtrip [] true (mkTokenKey [] tt) 5 [Byte.x07] _ [] [] eq_refl eq_refl)). Defined.

End Witnesses.
End Conn.
