(* ===== verification/RelayBin.v ===== *)
(** * RelayBin: the relay's configuration

    Models [iroh-relay/src/main.rs]: the configuration file and its defaults, the
    access control it selects, the certificates, and the conversion to the
    configuration of the server ([RelayHttp]). The file system, the environment,
    the TOML parser, TLS and the HTTP client are parameters. *)

From S2P Require Import Prelude External Instances Keys RelayFrames RateLimit RelayClients Handshake Addrs RelayHttp.

Import Handshake.

Module Relayd.

Inductive CertMode := CertModeManual | CertModeLetsEncrypt | CertModeReloading.

Definition DEFAULT_RELAY_QUIC_PORT : Z := 7842.
Definition DEFAULT_HTTP_PORT : Z := 80.
Definition DEFAULT_HTTPS_PORT : Z := 443.
Definition DEFAULT_METRICS_PORT : Z := 9090.
Definition DEV_MODE_HTTP_PORT : Z := 3340.
Definition X_IROH_ENDPOINT_ID : string := "X-Iroh-NodeId".
Definition ENV_HTTP_BEARER_TOKEN : string := "IROH_RELAY_HTTP_BEARER_TOKEN".
Definition ENV_RELAY_ACCESS_TOKEN : string := "IROH_RELAY_ACCESS_TOKEN".
Definition ENV_ACME_URL : string := "IROH_RELAY_ACME_URL".
Definition ENV_ACME_CA : string := "IROH_RELAY_ACME_CA".

Definition unspecified_v6 : Addrs.IpAddr := Addrs.V6 (replicate 16 Byte.x00).

Record Cli := mkCli { dev : bool; config_path : option string }.

(** ** The configuration file *)

Record HttpAccessConfig := mkHttpAccess { access_url : string; bearer_token : option string }.

Inductive AccessConfig :=
| Everyone
| Allowlist (l : list EndpointId)
| Denylist (l : list EndpointId)
| HttpAccess (c : HttpAccessConfig)
| SharedToken (tokens : list string).

Record RateLimitConfig := mkRateLimitConfig { cfg_bytes_per_second : option Z; cfg_max_burst_bytes : option Z }.

(** [Limits]: the limit and burst of accepted connections, which the server does
    not use, are left out. *)
Record Limits := mkLimits { limits_client : option (option RateLimitConfig) }.

Record TlsConfig := mkTls {
  https_bind : option Addrs.SocketAddr;
  quic_bind : option Addrs.SocketAddr;
  hostname : list string;
  cert_mode : CertMode;
  tls_cert_dir : option string;
  manual_cert_path : option string;
  manual_key_path : option string;
  prod_tls : bool;
  contact : option string;
  dangerous_http_only : bool
}.

(** The capacity of the key cache, which clients do not see, is left out. *)
Record Config := mkConfig {
  enable_relay : bool;
  http_bind : option Addrs.SocketAddr;
  cfg_tls : option TlsConfig;
  enable_quic_addr_discovery : bool;
  limits : option Limits;
  enable_metrics : bool;
  metrics_bind : option Addrs.SocketAddr;
  access : AccessConfig
}.

Definition Config_default : Config := mkConfig true None None false None true None Everyone.

Definition http_bind_addr (c : Config) : Addrs.SocketAddr :=
  default (Addrs.socket_addr_new unspecified_v6 DEFAULT_HTTP_PORT) (http_bind c).

Definition metrics_bind_addr (c : Config) : Addrs.SocketAddr :=
  default (Addrs.socket_addr_new (Addrs.socket_ip (http_bind_addr c)) DEFAULT_METRICS_PORT) (metrics_bind c).

Definition https_bind_addr (t : TlsConfig) (c : Config) : Addrs.SocketAddr :=
  default (Addrs.socket_addr_new (Addrs.socket_ip (http_bind_addr c)) DEFAULT_HTTPS_PORT) (https_bind t).

Definition quic_bind_addr (t : TlsConfig) (c : Config) : Addrs.SocketAddr :=
  default (Addrs.socket_addr_new (Addrs.socket_ip (https_bind_addr t c)) DEFAULT_RELAY_QUIC_PORT) (quic_bind t).

Definition cert_dir (t : TlsConfig) : string := default "."%string (tls_cert_dir t).
Definition cert_path (t : TlsConfig) : string := default (path_join (cert_dir t) "default.crt") (manual_cert_path t).
Definition key_path (t : TlsConfig) : string := default (path_join (cert_dir t) "default.key") (manual_key_path t).

Inductive MainError :=
| ConfigNotToml
| ConfigPathNotFile
| ConfigUnreadable
| QuicNeedsTls
| KeyUnreadable
| CertsUnreadable
| TlsConfigInvalid
| LetsEncryptHostname
| LetsEncryptContact
| AcmeCaUnreadable
| ReloadingFailed
| DevLetsEncrypt
| RateNeedsBytesPerSecond
| RateZero
| BurstZero
| TokensEmpty.

Section Main.
Context {N : NoqProto} {Ed : Ed25519} {De : DataEncoding} {P : Postcard} {H : HandshakeCrypto} {T : HttpText H}.

(** [std::env::var], and the URL's query. *)
Context (env : string -> option string) (form_parse : string -> list (string * string)).

(** ** Access control *)

(** The answer to a POST: none when it fails, the status and the text, none when
    it cannot be read. *)
Context (http_post : string -> list (string * string) -> option (Z * option string)).

Inductive AccessCheckError := FetchFailed | InvalidText | ReadFailed | InvalidStatus (status : Z).

Definition http_access_check_inner (config : HttpAccessConfig) (endpoint_id : EndpointId)
    : result AccessCheckError unit :=
  let headers := [(X_IROH_ENDPOINT_ID, PublicKey_to_string endpoint_id)] ++
    match bearer_token config with Some token => [("authorization", "Bearer " ++ token)%string] | None => [] end in
  match http_post (access_url config) headers with
  | None => Err FetchFailed
  | Some (status, text) =>
      if status =? 200 then
        match text with
        | Some text => if (text =? "true")%string then Ok tt else Err InvalidText
        | None => Err ReadFailed
        end
      else Err (InvalidStatus status)
  end.

Definition allowlist_on_connect (l : list EndpointId) (r : Http.ClientRequest) : Access :=
  if bool_decide (Http.endpoint_id r ∈ l) then Allow else Deny None.

Definition denylist_on_connect (l : list EndpointId) (r : Http.ClientRequest) : Access :=
  if bool_decide (Http.endpoint_id r ∈ l) then Deny None else Allow.

Definition shared_token_on_connect (tokens : list string) (r : Http.ClientRequest) : Access :=
  match Http.auth_token form_parse r with
  | Some token => if bool_decide (token ∈ tokens) then Allow else Deny None
  | None => Deny None
  end.

Definition http_on_connect (config : HttpAccessConfig) (r : Http.ClientRequest) : Access :=
  if http_access_check_inner config (Http.endpoint_id r) is Ok _ then Allow else Deny None.

(** [TryFrom<AccessConfig>]. *)
Definition access_try_from (cfg : AccessConfig) : result MainError (Http.ClientRequest -> Access) :=
  match cfg with
  | Everyone => Ok (fun _ => Allow)
  | Allowlist l => Ok (allowlist_on_connect l)
  | Denylist l => Ok (denylist_on_connect l)
  | HttpAccess config =>
      let config := match env ENV_HTTP_BEARER_TOKEN with
                    | Some token => mkHttpAccess (access_url config) (Some token)
                    | None => config
                    end in
      Ok (http_on_connect config)
  | SharedToken tokens =>
      let tokens := match env ENV_RELAY_ACCESS_TOKEN with Some t => [t] | None => tokens end in
      let? _ := ensure (negb ((length tokens =? 0)%nat || existsb (fun t => (t =? EmptyString)%string) tokens)) TokensEmpty in
      Ok (shared_token_on_connect tokens)
  end.

(** ** Certificates *)

Context {Key Cert ServerTls : Type}.

(** PEM files, rustls and the reloading resolver. *)
Context (load_secret_key : string -> option Key) (load_certs : string -> option (list Cert)).
Context (with_single_cert : list Cert -> Key -> option ServerTls).
Context (reloading_resolver : string -> string -> option ServerTls).

Inductive AcmeServer := AcmeUrl (url : string) | AcmeLetsEncrypt (production : bool).
Record AcmeConfig := mkAcme {
  acme_server : AcmeServer; domains : list string; acme_contact : string; cache_path : string;
  extra_roots : option (list Cert)
}.

(** Whether the ACME client's TLS configuration builds, and the configuration of
    the server that resolves the certificates. *)
Context (acme_client : AcmeConfig -> bool) (acme_server_config : ServerTls).

Definition load_cert_config (t : TlsConfig) : result MainError Http.CertConfig :=
  match cert_mode t with
  | CertModeManual =>
      let? key := ok_or (load_secret_key (key_path t)) KeyUnreadable in
      let? certs := ok_or (load_certs (cert_path t)) CertsUnreadable in
      let? server_config := ok_or (with_single_cert certs key) TlsConfigInvalid in
      Ok (Http.CertManual server_config)
  | CertModeLetsEncrypt =>
      let? _ := ensure (negb (length (hostname t) =? 0)%nat) LetsEncryptHostname in
      let? contact := ok_or (contact t) LetsEncryptContact in
      let server := match env ENV_ACME_URL with Some url => AcmeUrl url | None => AcmeLetsEncrypt (prod_tls t) end in
      let? roots :=
        match env ENV_ACME_CA with
        | Some ca_path => let? roots := ok_or (load_certs ca_path) AcmeCaUnreadable in Ok (Some roots)
        | None => Ok None
        end in
      let acme := mkAcme server (hostname t) ("mailto:" ++ contact)%string (cert_dir t) roots in
      Ok (Http.CertLetsEncrypt (acme_client acme) acme_server_config)
  | CertModeReloading =>
      let? server_config := ok_or (reloading_resolver (cert_path t) (key_path t)) ReloadingFailed in
      Ok (Http.CertManual server_config)
  end.

(** ** The server's configuration *)

(** [NonZeroU32::try_from]. *)
Definition nonzero (z : Z) (e : MainError) : result MainError Z := if z =? 0 then Err e else Ok z.

Definition rate_limit_config (rx : RateLimitConfig) : result MainError (option Rate.ClientRateLimit) :=
  match cfg_bytes_per_second rx, cfg_max_burst_bytes rx with
  | None, Some _ => Err RateNeedsBytesPerSecond
  | None, None => Ok None
  | Some bps, burst =>
      let? bps := nonzero bps RateZero in
      let? burst := match burst with
                    | Some v => let? v := nonzero v BurstZero in Ok (Some v)
                    | None => Ok None
                    end in
      Ok (Some (Rate.mkClientRateLimit bps burst))
  end.

Definition client_rx_config (l : option Limits) : result MainError (option Rate.ClientRateLimit) :=
  match l with
  | Some l => match limits_client l with Some (Some rx) => rate_limit_config rx | _ => Ok None end
  | None => Ok None
  end.

(** The TLS and the QUIC configuration. *)
Definition tls_and_quic (cfg : Config)
    : result MainError (option (Http.TlsConfig (ServerTls := ServerTls)) * option (Http.QuicConfig (ServerTls := ServerTls))) :=
  match cfg_tls cfg with
  | Some t =>
      let? cert := load_cert_config t in
      let quic := if enable_quic_addr_discovery cfg then Some (Http.mkQuicConfig (quic_bind_addr t cfg) None) else None in
      if dangerous_http_only t then
        match quic with
        | None => Ok (None, None)
        | Some q =>
            match cert with
            | Http.CertManual server_config =>
                Ok (None, Some (Http.mkQuicConfig (Http.quic_bind_addr q) (Some server_config)))
            | Http.CertLetsEncrypt _ _ => Err DevLetsEncrypt
            end
        end
      else Ok (Some (Http.mkTlsConfig (https_bind_addr t cfg) cert), quic)
  | None => if enable_quic_addr_discovery cfg then Err QuicNeedsTls else Ok (None, None)
  end.

Definition build_relay_config (cfg : Config) : result MainError (Http.ServerConfig (ServerTls := ServerTls)) :=
  let? (tls_config, quic_config) := tls_and_quic cfg in
  let? client_rx := client_rx_config (limits cfg) in
  let? relay_config :=
    if enable_relay cfg then
      let? access := access_try_from (access cfg) in
      Ok (Some (Http.mkRelayConfig (http_bind_addr cfg) tls_config client_rx access))
    else Ok None in
  Ok (Http.mkServerConfig relay_config quic_config
        (if enable_metrics cfg then Some (metrics_bind_addr cfg) else None)).

(** ** Start-up *)

(** What is at a path: [text] is none when reading fails. *)
Inductive path_entry := NoEntry | NotAFile | File (text : option string).
Context (fs : string -> path_entry) (toml_from_str : string -> option Config).

Definition Config_from_str (s : string) : result MainError Config := ok_or (toml_from_str s) ConfigNotToml.

Definition read_from_file (path : string) : result MainError Config :=
  match fs path with
  | File text => let? text := ok_or text ConfigUnreadable in Config_from_str text
  | _ => Err ConfigPathNotFile
  end.

Definition Config_load (opts : Cli) : result MainError Config :=
  match config_path opts with
  | None => Ok Config_default
  | Some path => match fs path with NoEntry => Ok Config_default | _ => read_from_file path end
  end.

Definition dev_tls (t : TlsConfig) : TlsConfig :=
  mkTls (https_bind t) (quic_bind t) (hostname t) (cert_mode t) (tls_cert_dir t) (manual_cert_path t)
        (manual_key_path t) (prod_tls t) (contact t) true.

Definition dev_config (cfg : Config) : Config :=
  mkConfig (enable_relay cfg)
    (Some (default (Addrs.socket_addr_new unspecified_v6 DEV_MODE_HTTP_PORT) (http_bind cfg)))
    (dev_tls <$> cfg_tls cfg) (enable_quic_addr_discovery cfg) (limits cfg) (enable_metrics cfg) (metrics_bind cfg)
    (access cfg).

(** [main] up to [Server::spawn]. *)
Definition main_config (cli : Cli) : result MainError (Http.ServerConfig (ServerTls := ServerTls)) :=
  let? cfg := Config_load cli in
  let? _ := ensure (negb (enable_quic_addr_discovery cfg && negb (bool_decide (is_Some (cfg_tls cfg))))) QuicNeedsTls in
  let cfg := if dev cli then dev_config cfg else cfg in
  let? _ := ensure (negb (negb (bool_decide (is_Some (cfg_tls cfg))) && enable_quic_addr_discovery cfg)) QuicNeedsTls in
  build_relay_config cfg.

End Main.

(** ** Facts *)

Section Facts.
Context {N : NoqProto} {Ed : Ed25519} {De : DataEncoding} {P : Postcard} {H : HandshakeCrypto} {T : HttpText H}.
Context {NL : NoqProtoLaws N} {EdL : Ed25519Laws Ed} {PL : PostcardLaws P} {HL : HandshakeCryptoLaws H} {TL : HttpTextLaws T}.
Context (env : string -> option string) (form_parse : string -> list (string * string)).
Context (http_post : string -> list (string * string) -> option (Z * option string)).
Context {Key Cert ServerTls : Type}.
Context (load_secret_key : string -> option Key) (load_certs : string -> option (list Cert)).
Context (with_single_cert : list Cert -> Key -> option ServerTls).
Context (reloading_resolver : string -> string -> option ServerTls).
Context (acme_client : AcmeConfig (Cert := Cert) -> bool) (acme_server_config : ServerTls).
Context (fs : string -> path_entry) (toml_from_str : string -> option Config).
Context (health_json : string -> string -> string -> option string) (pkg_version : string) (git_sha : option string).
Context {Listener : Type} (tcp_bind : Addrs.SocketAddr -> option Listener).
Context (listener_addr : Listener -> option Addrs.SocketAddr).
Context (quic_spawn : Addrs.SocketAddr -> ServerTls -> option Addrs.SocketAddr).
Context (metrics_spawn : Addrs.SocketAddr -> bool).

Notation build_relay_config := (build_relay_config env form_parse http_post load_secret_key load_certs with_single_cert
  reloading_resolver acme_client acme_server_config).
Notation main_config := (main_config env form_parse http_post load_secret_key load_certs with_single_cert
  reloading_resolver acme_client acme_server_config fs toml_from_str).
Notation spawn := (Http.spawn health_json pkg_version git_sha tcp_bind listener_addr quic_spawn metrics_spawn).

(** What the operator asked for: which requests may use the relay. *)
Definition granted (cfg : AccessConfig) (r : Http.ClientRequest) : Prop :=
  match cfg with
  | Everyone => True
  | Allowlist l => Http.endpoint_id r ∈ l
  | Denylist l => Http.endpoint_id r ∉ l
  | HttpAccess c =>
      http_access_check_inner http_post
        (mkHttpAccess (access_url c)
           (match env ENV_HTTP_BEARER_TOKEN with Some t => Some t | None => bearer_token c end)) (Http.endpoint_id r) = Ok tt
  | SharedToken l =>
      exists token, Http.auth_token form_parse r = Some token /\ token <> EmptyString /\
        match env ENV_RELAY_ACCESS_TOKEN with Some t => token = t | None => token ∈ l end
  end.

Lemma shared_tokens_ok tokens :
  negb ((length tokens =? 0)%nat || existsb (fun t => (t =? EmptyString)%string) tokens) = true ->
  forall t, t ∈ tokens -> t <> EmptyString.
Proof.
  rewrite negb_true_iff, orb_false_iff. intros [_ Hn] t Ht ->. apply not_true_iff_false in Hn. apply Hn, existsb_exists.
  exists EmptyString. split; [by apply list_elem_of_In|done].
Qed.

Lemma access_sound cfg f r : access_try_from env form_parse http_post cfg = Ok f -> f r = Allow -> granted cfg r.
Proof.
  destruct cfg as [|l|l|c|tokens]; simpl.
  - done.
  - intros [= <-]. unfold allowlist_on_connect. by case_bool_decide.
  - intros [= <-]. unfold denylist_on_connect. by case_bool_decide.
  - intros [= <-]. unfold http_on_connect. destruct c as [url token]. simpl.
    destruct (env ENV_HTTP_BEARER_TOKEN); simpl; destruct (http_access_check_inner _ _ _) as [[]| |]; done.
  - destruct (negb _) eqn:En; simpl; [|done]. intros [= <-]. pose proof (shared_tokens_ok _ En) as Hne.
    unfold shared_token_on_connect. destruct (Http.auth_token form_parse r) as [token|] eqn:Et; [|done].
    case_bool_decide as Hin; [|done]. intros _. exists token. split_and!; [done|by apply Hne|].
    destruct (env ENV_RELAY_ACCESS_TOKEN); [by apply list_elem_of_singleton in Hin|done].
Qed.

Lemma build_ok cfg sc :
  build_relay_config cfg = Ok sc ->
  exists tls_config quic_config client_rx,
    tls_and_quic env load_secret_key load_certs with_single_cert reloading_resolver acme_client acme_server_config cfg
      = Ok (tls_config, quic_config) /\
    client_rx_config (limits cfg) = Ok client_rx /\ Http.quic sc = quic_config /\
    Http.metrics_addr sc = (if enable_metrics cfg then Some (metrics_bind_addr cfg) else None) /\
    if enable_relay cfg then
      exists f, access_try_from env form_parse http_post (access cfg) = Ok f /\
        Http.relay sc = Some (Http.mkRelayConfig (http_bind_addr cfg) tls_config client_rx f)
    else Http.relay sc = None.
Proof.
  unfold Relayd.build_relay_config. destruct (tls_and_quic _ _ _ _ _ _ _ cfg) as [[tc qc]|e|]; simpl; [|done..].
  destruct (client_rx_config (limits cfg)) as [rx|e|]; simpl; [|done..].
  destruct (enable_relay cfg); simpl.
  - destruct (access_try_from _ _ _ (access cfg)) as [f|e|]; simpl; [|done..]. intros [= <-].
    exists tc, qc, rx. split_and!; try done. by exists f.
  - intros [= <-]. by exists tc, qc, rx.
Qed.

(** The relay that runs has the access control and the rate limit of the configuration. *)
Lemma spawned_relay cfg sc srv server :
  build_relay_config cfg = Ok sc -> spawn sc = Ok srv -> Http.relay_server srv = Some server ->
  client_rx_config (limits cfg) = Ok (Http.rate_limit (Http.server_inner server)) /\
  access_try_from env form_parse http_post (access cfg) = Ok (Http.access (Http.server_inner server)).
Proof.
  intros (tc & qc & rx & _ & -> & _ & _ & Hrelay)%build_ok Hs Hserver. destruct (enable_relay cfg).
  - destruct Hrelay as (f & -> & Hrc). destruct (Http.spawn_ok _ _ _ _ _ _ _ _ _ _ Hs Hrc)
      as (server' & http & ts & tls' & Hsr & Hserver' & _). rewrite Hserver in Hserver'. injection Hserver' as <-.
    by apply Http.spawn_relay_ok in Hsr as (_ & _ & _ & -> & -> & _).
  - unfold Http.spawn in Hs. rewrite Hrelay in Hs. destruct (ensure _ _); simpl in Hs; [|done..].
    destruct (match Http.quic sc with Some _ => _ | None => _ end) as [q|x|]; simpl in Hs; [|done..].
    by injection Hs as <-.
Qed.

(** C12: A relay started from a configuration serves only connections it accepted, and
    it accepts a connection only if its client proved its key on that connection and
    the access control of the configuration grants the request of that connection:
    its endpoint is on the allow list, or not on the deny list, or the HTTP service
    answers [true] for it, or the request carries one of the tokens, which are never
    empty. *)
Theorem configured_access cfg sc srv server evs s :
  build_relay_config cfg = Ok sc -> spawn sc = Ok srv -> Http.relay_server srv = Some server ->
  Http.service_run (Http.server_inner server) evs s -> Http.requests evs <= 2 ^ 64 ->
  (forall e c, c ∈ Clients.abs_conns (Http.registry s) e ->
     exists parts conf, Http.Accepted parts conf ∈ evs /\
       Clients.cfg_endpoint_id conf = e /\ Clients.cfg_connection_id conf = c) /\
  (forall parts conf, Http.Accepted parts conf ∈ evs ->
     Http.admitted_with (Http.server_inner server) (Http.accepted_request parts conf) /\
     granted (access cfg) (Http.accepted_request parts conf)) /\
  (forall parts conf parts' conf', Http.Accepted parts conf ∈ evs -> Http.Accepted parts' conf' ∈ evs ->
     Clients.cfg_connection_id conf = Clients.cfg_connection_id conf' -> parts = parts' /\ conf = conf').
Proof.
  intros Hb Hs Hserver Hrun Hle. destruct (Http.service_inv_run _ _ _ Hrun Hle) as [_ Hnd _ _ Hc Ha _].
  split; [exact Hc|]. split.
  - intros parts conf Hin. specialize (Ha _ _ Hin). split; [done|]. destruct Ha as (io & random & answers & auth & _ & _ & Hacc).
    destruct (spawned_relay _ _ _ _ Hb Hs Hserver) as [_ Hf]. exact (access_sound _ _ _ Hf Hacc).
  - intros parts conf parts' conf'. apply Http.accepted_once. apply NoDup_app in Hnd. apply Hnd.
Qed.

(** C35: A server without a relay, which the configuration describes as one that only
    serves QUIC address discovery, never starts: the certificates are dropped
    with the relay's configuration, and the QUIC server is left without any. *)
Theorem quic_only_fails cfg t sc :
  enable_relay cfg = false -> enable_quic_addr_discovery cfg = true ->
  cfg_tls cfg = Some t -> dangerous_http_only t = false -> build_relay_config cfg = Ok sc ->
  spawn sc = Err (if match Http.metrics_addr sc with Some a => metrics_spawn a | None => true end
                  then Http.QuicSpawn true else Http.SpawnMetrics).
Proof.
  intros Hr Hq Ht Hd (tc & qc & rx & Htq & _ & Hquic & _ & Hrelay)%build_ok. rewrite Hr in Hrelay.
  unfold tls_and_quic in Htq. rewrite Ht, Hd, Hq in Htq.
  destruct (load_cert_config _ _ _ _ _ _ _ t) as [cert|e|]; simpl in Htq; [|done..]. injection Htq as _ <-.
  unfold Http.spawn. destruct (match Http.metrics_addr sc with Some _ => _ | None => _ end); simpl; [|done].
  by rewrite Hrelay, Hquic.
Qed.

Lemma accepted_driven self evs s parts conf :
  Http.service_run self evs s -> Http.Accepted parts conf ∈ evs ->
  exists conn now bt ct io v random answers calls out,
    drive (Http.accept self conn now bt ct io parts v random) answers = (Some (Ok conf, calls), out).
Proof.
  induction 1 as [|evs s ev s' Hrun IH Hstep]; [by intros ?%elem_of_nil|].
  rewrite elem_of_app, list_elem_of_singleton. intros [Hin| <-]; [auto|].
  inversion Hstep as [|? ? ? ? ? ? ? ? ? ? ? ? ? Hp Hd| | |]; subst. by eexists _, _, _, _, _, _, _, _, _, _.
Qed.

Lemma slow_bucket bps burst now bt ct :
  0 < bps < 10 -> exists e, Rate.from_cfg (Some (Rate.mkClientRateLimit bps burst)) now bt ct = Err e.
Proof.
  intros Hb. unfold Rate.from_cfg, Rate.RateLimited_new, Rate.Bucket_new. simpl.
  assert (Z.quot (i64_saturating_mul bps (as_i64 (as_millis (from_millis 100)))) 1000 = 0) as ->.
  { assert (bps = 1 \/ bps = 2 \/ bps = 3 \/ bps = 4 \/ bps = 5 \/ bps = 6 \/ bps = 7 \/ bps = 8 \/ bps = 9) as Hx by lia.
    repeat (destruct Hx as [->|Hx]; [reflexivity|]). by rewrite Hx. }
  rewrite andb_false_r. simpl. eauto.
Qed.

(** C36: A rate limit of less than ten bytes per second is accepted as a configuration,
    but the relay that starts with it never serves anyone: the bucket of every
    connection is refused. *)
Theorem slow_limit_serves_nobody cfg bps burst sc srv server evs s e :
  limits cfg = Some (mkLimits (Some (Some (mkRateLimitConfig (Some bps) burst)))) -> 0 < bps < 10 ->
  build_relay_config cfg = Ok sc -> spawn sc = Ok srv -> Http.relay_server srv = Some server ->
  Http.service_run (Http.server_inner server) evs s -> Http.requests evs <= 2 ^ 64 ->
  Clients.abs_conns (Http.registry s) e = [].
Proof.
  intros Hl Hb Hbuild Hs Hserver Hrun Hle.
  destruct (Clients.abs_conns (Http.registry s) e) as [|c l] eqn:El; [done|]. exfalso.
  destruct (Http.service_inv_run _ _ _ Hrun Hle) as [_ _ _ _ Hc _ _].
  destruct (Hc e c ltac:(rewrite El; by left)) as (parts & conf & Hconf & _).
  destruct (accepted_driven _ _ _ _ _ Hrun Hconf) as (conn & now & bt & ct & io & v & random & answers & calls & out & Hd).
  destruct (spawned_relay _ _ _ _ Hbuild Hs Hserver) as [Hrx _]. rewrite Hl in Hrx.
  unfold client_rx_config, rate_limit_config, nonzero in Hrx. simpl in Hrx.
  destruct (Z.eqb_spec bps 0); [lia|]. simpl in Hrx.
  destruct (match burst with Some _ => _ | None => _ end) as [b|x|]; simpl in Hrx; [|done..]. injection Hrx as Hrate.
  unfold Http.accept in Hd. rewrite <- Hrate in Hd.
  destruct (slow_bucket bps b now bt ct Hb) as [err Herr]. rewrite Herr in Hd. by simplify_eq.
Qed.

(** In development mode the relay serves plain HTTP only, on port 3340 unless the
    configuration has an address; otherwise it serves HTTPS exactly if the
    configuration has certificates. QUIC address discovery runs only with
    certificates. *)
Theorem main_config_services cli cfg sc :
  Config_load fs toml_from_str cli = Ok cfg -> main_config cli = Ok sc ->
  (forall q, Http.quic sc = Some q -> enable_quic_addr_discovery cfg = true /\ is_Some (cfg_tls cfg)) /\
  (forall rc, Http.relay sc = Some rc ->
     enable_relay cfg = true /\
     Http.http_bind_addr rc =
       default (Addrs.socket_addr_new unspecified_v6 (if dev cli then 3340 else 80)) (http_bind cfg) /\
     (is_Some (Http.tls rc) <-> dev cli = false /\ exists t, cfg_tls cfg = Some t /\ dangerous_http_only t = false)).
Proof.
  intros Hload. unfold Relayd.main_config. rewrite Hload. simpl.
  destruct (ensure _ _) as [u|e|]; simpl; [|done..]. destruct (ensure _ _) as [u'|e|]; simpl; [|done..].
  intros (tc & qc & rx & Htq & _ & Hquic & _ & Hrelay)%build_ok. unfold tls_and_quic in Htq.
  assert (Htls : (forall q, qc = Some q -> enable_quic_addr_discovery cfg = true /\ is_Some (cfg_tls cfg)) /\
    (is_Some tc <-> dev cli = false /\ exists t, cfg_tls cfg = Some t /\ dangerous_http_only t = false)).
  { destruct (dev cli); simpl in Htq; destruct (cfg_tls cfg) as [t|]; simpl in Htq.
    - destruct (load_cert_config _ _ _ _ _ _ _ _) as [cert|e|]; simpl in Htq; [|done..].
      destruct (enable_quic_addr_discovery cfg); simpl in Htq; [destruct cert; [done|]|]; injection Htq as <- <-;
        (split; [by eauto|]); split; [by intros []| |by intros []|]; by intros [? _].
    - destruct (enable_quic_addr_discovery cfg); [done|]. injection Htq as <- <-. split; [done|].
      split; [by intros []|]. by intros [? _].
    - destruct (load_cert_config _ _ _ _ _ _ _ _) as [cert|e|]; simpl in Htq; [|done..].
      destruct (dangerous_http_only t) eqn:Hd.
      + destruct (enable_quic_addr_discovery cfg); simpl in Htq; [destruct cert; [done|]|]; injection Htq as <- <-;
          (split; [by eauto|]); (split; [by intros []|]); intros [_ (? & [= <-] & ?)]; congruence.
      + destruct (enable_quic_addr_discovery cfg); injection Htq as <- <-; (split; [by eauto|]); (split; [eauto|by eauto]).
    - destruct (enable_quic_addr_discovery cfg); [done|]. injection Htq as <- <-. split; [done|].
      split; [by intros []|]. by intros [_ (? & ? & _)]. }
  destruct Htls as [Hq Ht]. split; [rewrite Hquic; exact Hq|]. intros rc Hrc.
  assert (Hen : enable_relay (if dev cli then dev_config cfg else cfg) = enable_relay cfg) by by destruct (dev cli).
  rewrite Hen in Hrelay. destruct (enable_relay cfg); [|congruence]. destruct Hrelay as (f & _ & Hrc').
  rewrite Hrc in Hrc'. injection Hrc' as ->. split; [done|]. split; [|exact Ht].
  unfold http_bind_addr. simpl. destruct (dev cli); [done|]. done.
Qed.

(** In development mode the certificates are still loaded. *)
Lemma dev_loads_certs cli cfg t e :
  Config_load fs toml_from_str cli = Ok cfg -> dev cli = true -> cfg_tls cfg = Some t ->
  load_cert_config env load_secret_key load_certs with_single_cert reloading_resolver acme_client acme_server_config t = Err e ->
  main_config cli = Err e.
Proof.
  intros Hload Hdev Ht He. unfold Relayd.main_config. rewrite Hload. simpl. rewrite Hdev, Ht.
  rewrite andb_false_r. simpl. rewrite Ht. simpl. unfold Relayd.build_relay_config, tls_and_quic. simpl. rewrite Ht. simpl.
  unfold load_cert_config in *. simpl. unfold cert_path, key_path, cert_dir in *. simpl. by rewrite He.
Qed.

(** A configuration file that is not there opens the relay to everyone. *)
Lemma missing_config_open path :
  fs path = NoEntry ->
  exists rc, (Http.relay <$> to_ok (main_config (mkCli false (Some path)))) = Some (Some rc) /\
    Http.config_access rc = (fun _ => Allow) /\ Http.client_rx rc = None.
Proof. intros Hp. unfold Relayd.main_config, Config_load. simpl. rewrite Hp. simpl. by eexists. Qed.

End Facts.
End Relayd.

(** ** Witnesses *)

Section Witnesses.
Import Relayd.

#[local] Existing Instances noq_proto noq_proto_laws checksum_keys checksum_keys_laws data_encoding unary_postcard
  unary_postcard_laws padded_crypto padded_crypto_laws plain_http plain_http_laws.

(** A file system with a configuration and certificates, and sockets that bind. *)
Definition no_env (_ : string) : option string := None.
Definition no_form (_ : string) : list (string * string) := [].
Definition no_post (_ : string) (_ : list (string * string)) : option (Z * option string) := None.
Definition some_file (_ : string) : option unit := Some tt.
Definition some_certs (_ : string) : option (list unit) := Some [tt].
Definition single_cert (_ : list unit) (_ : unit) : option unit := Some tt.
Definition some_resolver (_ _ : string) : option unit := Some tt.
Definition acme_ok (_ : AcmeConfig (Cert := unit)) : bool := true.

Definition file_config : Config :=
  mkConfig true None (Some (mkTls None None [] CertModeManual None None None true None false)) true None true None
    (SharedToken ["sesame"%string]).

Definition example_config : result MainError (Http.ServerConfig (ServerTls := unit)) :=
  build_relay_config no_env no_form no_post some_file some_certs single_cert some_resolver acme_ok tt file_config.

Definition example_inner : Http.Inner :=
  Http.mkInner (Http.page_handlers health "1.0" None) (default [] (to_ok Http.tls_header_map)) None
    (shared_token_on_connect no_form ["sesame"%string]).

Definition example_server : Http.HttpServer :=
  Http.mkHttpServer (Addrs.socket_addr_new unspecified_v6 443) (Some tt) example_inner.

Definition example_spawn (config : Http.ServerConfig)
    : result Http.SpawnError (Http.Server (ServerTls := unit) (Listener := Addrs.SocketAddr)) :=
  Http.spawn health "1.0" None all_bind Some (fun a _ => Some a) (fun _ => true) config.

Definition token_request : Http.Request := Http.mkRequest "GET" "/relay" None [("authorization", "Bearer sesame")%string].

Definition alice_admitted : option (result Http.AcceptError Clients.Config * list access_call) * list bytes :=
  drive (Http.accept example_inner 0 0 0 0 no_export token_request V2 dice) alice_answers.

Lemma alice_is_admitted : alice_admitted = (Some (Ok alice_config, [OnConnect 0]), alice_admitted.2).
Proof.
  vm_cast_no_check (@eq_refl _ (Some (Ok (E := Http.AcceptError) alice_config, [OnConnect 0]), alice_admitted.2)).
Qed.

Lemma alice_is_served :
  Http.service_run example_inner [Http.Requested; Http.Accepted token_request alice_config]
    (Http.mkService 1 [] (Clients.register Clients.empty alice_config) false).
Proof.
  apply (Http.run_step example_inner [Http.Requested] (Http.mkService 1 [0] Clients.empty false)).
  - apply (Http.run_step example_inner [] Http.service_init); [constructor|apply Http.step_request].
  - eapply (Http.step_accept example_inner (Http.mkService 1 [0] Clients.empty false) 0).
    + simpl. apply elem_of_cons. by left.
    + exact alice_is_admitted.
Qed.

Lemma configured_access_witness :
  Http.admitted_with example_inner (Http.accepted_request token_request alice_config) /\
  granted no_env no_form no_post (SharedToken ["sesame"%string]) (Http.accepted_request token_request alice_config).
Proof.
  assert (Hsc : exists sc, example_config = Ok sc) by (eexists; reflexivity).
  assert (Hsrv : exists srv, rbind (map_err (fun _ => Http.SpawnMetrics) example_config) example_spawn = Ok srv /\
    Http.relay_server srv = Some example_server) by (eexists; split; reflexivity).
  destruct Hsc as [sc Hsc], Hsrv as (srv & Hsrv & Hserver). rewrite Hsc in Hsrv.
  apply (proj1 (proj2 (configured_access no_env no_form no_post some_file some_certs single_cert some_resolver acme_ok tt
    health "1.0" None all_bind Some (fun a _ => Some a) (fun _ => true) file_config sc srv example_server
    [Http.Requested; Http.Accepted token_request alice_config] (Http.mkService 1 [] (Clients.register Clients.empty alice_config) false)
    Hsc Hsrv Hserver alice_is_served ltac:(vm_compute; discriminate)))).
  apply elem_of_cons. right. apply list_elem_of_singleton. reflexivity.
Defined.

Definition quic_only : Config :=
  mkConfig false None (cfg_tls file_config) true None false None Everyone.

Lemma quic_only_fails_witness :
  exists sc, build_relay_config no_env no_form no_post some_file some_certs single_cert some_resolver acme_ok tt quic_only
      = Ok sc /\ example_spawn sc = Err (Http.QuicSpawn true).
Proof.
  eexists. split; [reflexivity|].
  exact (quic_only_fails no_env no_form no_post some_file some_certs single_cert some_resolver acme_ok tt
    health "1.0" None all_bind Some (fun a _ => Some a) (fun _ => true) quic_only
    (mkTls None None [] CertModeManual None None None true None false) _ eq_refl eq_refl eq_refl eq_refl eq_refl).
Defined.

Definition slow_config : Config :=
  mkConfig true None None false (Some (mkLimits (Some (Some (mkRateLimitConfig (Some 9) None))))) false None Everyone.

Lemma slow_limit_serves_nobody_witness :
  exists sc srv server,
    build_relay_config no_env no_form no_post some_file some_certs single_cert some_resolver acme_ok tt slow_config = Ok sc /\
    example_spawn sc = Ok srv /\ Http.relay_server srv = Some server /\
    Clients.abs_conns (Http.registry (Http.service_init)) (public secret) = [].
Proof.
  eexists _, _, _. split; [reflexivity|]. split; [reflexivity|]. split; [reflexivity|].
  exact (slow_limit_serves_nobody no_env no_form no_post some_file some_certs single_cert some_resolver acme_ok tt
    health "1.0" None all_bind Some (fun a _ => Some a) (fun _ => true) slow_config 9 None _ _ _ [] Http.service_init
    (public secret) eq_refl ltac:(lia) eq_refl eq_refl eq_refl (Http.run_init _) ltac:(vm_compute; discriminate)).
Defined.

Definition example_fs (path : string) : path_entry := if (path =? "relay.toml")%string then File (Some path) else NoEntry.
Definition example_toml (_ : string) : option Config := Some file_config.

Lemma main_config_services_witness :
  exists sc rc, main_config no_env no_form no_post some_file some_certs single_cert some_resolver acme_ok tt example_fs
      example_toml (mkCli true (Some "relay.toml"%string)) = Ok sc /\ Http.relay sc = Some rc /\
    Http.http_bind_addr rc = Addrs.socket_addr_new unspecified_v6 3340.
Proof.
  eexists _, _. split; [reflexivity|]. split; [reflexivity|].
  exact (proj1 (proj2 (proj2 (main_config_services no_env no_form no_post some_file some_certs single_cert some_resolver
    acme_ok tt example_fs example_toml (mkCli true (Some "relay.toml"%string)) file_config _ eq_refl eq_refl) _ eq_refl))).
Defined.

End Witnesses.
