(* ===== verification/EndpointBuilder.v ===== *)
(** * EndpointBuilder: how an endpoint is built and bound

    Models the builder of [iroh/src/endpoint.rs] with [iroh/src/endpoint/bind.rs]:
    its methods for addresses, relays, custom transports, address lookup and the
    crypto provider, [RelayMode], the proxy from the environment, the presets of
    [iroh/src/endpoint/presets.rs], and [bind] with [EndpointInner::bind] of
    [iroh/src/socket.rs] and [Transports::bind] as far as they can fail or decide
    what the endpoint has. The networks of the [ipnet] crate are parameters, as in
    [Transports], and so is what the crates and the system answer during [bind]. *)

From S2P Require Import Prelude External Instances Keys Addrs NetText Transports EndpointConn.
Import Addrs.

Module Builder.
Import Transports.

(** ** Bind options *)

Record BindOpts := mkBindOpts { opt_prefix_len : Z; opt_is_required : bool; opt_is_default_route : option bool }.

Definition BindOpts_default : BindOpts := mkBindOpts 0 true None.
Definition set_prefix_len (o : BindOpts) (n : Z) : BindOpts := mkBindOpts n (opt_is_required o) (opt_is_default_route o).
Definition set_is_required (o : BindOpts) (b : bool) : BindOpts :=
  mkBindOpts (opt_prefix_len o) b (opt_is_default_route o).
Definition set_is_default_route (o : BindOpts) (b : bool) : BindOpts :=
  mkBindOpts (opt_prefix_len o) (opt_is_required o) (Some b).

Definition is_default_route (o : BindOpts) : bool :=
  match opt_is_default_route o with Some b => b | None => opt_prefix_len o =? 0 end.

Inductive InvalidSocketAddr := AddrParse | InvalidPrefixLength | DuplicateDefaultAddr.

(** [ToSocketAddr for str]; the other implementations do not fail. *)
Definition str_to_socket_addr (s : string) : result InvalidSocketAddr SocketAddr :=
  ok_or (NetText.SocketAddr_from_str s) AddrParse.

Section Methods.

(** [Ipv4Net::new] and [Ipv6Net::new]; relay maps, custom transports and address
    lookup services are opaque. *)
Context (ipv4_net_new ipv6_net_new : bytes -> Z -> option IpNet).
Context {RelayMap Custom Lookup Provider : Type}.
Context (empty_map prod_map staging_map : RelayMap).

(** ** Transports *)

Inductive BuilderTransport :=
| BuilderIp (config : Config) (is_user_defined : bool)
| BuilderRelay (relay_map : RelayMap) (is_user_defined : bool)
| BuilderCustom (factory : Custom).

(** What [Transports::bind] sees. *)
Definition transport_of (t : BuilderTransport) : TransportConfig :=
  match t with
  | BuilderIp c user => TransportIp c user
  | BuilderRelay _ user => TransportRelay user
  | BuilderCustom _ => TransportCustom
  end.

Definition unspecified_v4 : bytes := replicate 4 Byte.x00.
Definition unspecified_v6 : bytes := replicate 16 Byte.x00.

Definition default_ipv4 : result unit BuilderTransport :=
  match ipv4_net_new unspecified_v4 0 with
  | Some ip_net => Ok (BuilderIp (ConfigV4 ip_net 0 true false) false)
  | None => Panic
  end.

Definition default_ipv6 : result unit BuilderTransport :=
  match ipv6_net_new unspecified_v6 0 with
  | Some ip_net => Ok (BuilderIp (ConfigV6 ip_net 0 0 false false) false)
  | None => Panic
  end.

(** The fields of [Builder] that the methods below change. *)
Record Builder := mkBuilder {
  transports : list BuilderTransport;
  address_lookup : list Lookup;
  crypto_provider : option Provider
}.

Definition Builder_empty : result unit Builder :=
  let? v4 := default_ipv4 in
  let? v6 := default_ipv6 in
  Ok (mkBuilder [v4; v6] [] None).

Definition with_transports (b : Builder) (l : list BuilderTransport) : Builder :=
  mkBuilder l (address_lookup b) (crypto_provider b).

Definition user_v4_default (t : BuilderTransport) : bool :=
  is_ipv4_default (transport_of t) && is_user_defined (transport_of t).
Definition user_v6_default (t : BuilderTransport) : bool :=
  is_ipv6_default (transport_of t) && is_user_defined (transport_of t).

Definition bind_addr_with_opts (b : Builder) (addr : result InvalidSocketAddr SocketAddr) (opts : BindOpts)
    : result InvalidSocketAddr Builder :=
  let? addr := addr in
  match addr with
  | SocketV4 ip port =>
      let? _ := ensure (negb (existsb user_v4_default (transports b))) DuplicateDefaultAddr in
      let? ip_net := ok_or (ipv4_net_new ip (opt_prefix_len opts)) InvalidPrefixLength in
      Ok (with_transports b (transports b ++
        [BuilderIp (ConfigV4 ip_net port (opt_is_required opts) (is_default_route opts)) true]))
  | SocketV6 ip port _ scope_id =>
      let? _ := ensure (negb (existsb user_v6_default (transports b))) DuplicateDefaultAddr in
      let? ip_net := ok_or (ipv6_net_new ip (opt_prefix_len opts)) InvalidPrefixLength in
      Ok (with_transports b (transports b ++
        [BuilderIp (ConfigV6 ip_net scope_id port (opt_is_required opts) (is_default_route opts)) true]))
  end.

Definition bind_addr (b : Builder) (addr : result InvalidSocketAddr SocketAddr) : result InvalidSocketAddr Builder :=
  bind_addr_with_opts b addr BindOpts_default.

Definition is_ip_transport (t : BuilderTransport) : bool := if t is BuilderIp _ _ then true else false.
Definition is_relay_transport (t : BuilderTransport) : bool := if t is BuilderRelay _ _ then true else false.

Definition clear_ip_transports (b : Builder) : Builder :=
  with_transports b (List.filter (fun t => negb (is_ip_transport t)) (transports b)).
Definition clear_relay_transports (b : Builder) : Builder :=
  with_transports b (List.filter (fun t => negb (is_relay_transport t)) (transports b)).

(** ** Relay mode *)

Inductive RelayMode := RelayDisabled | RelayDefault | RelayStaging | RelayCustom (relay_map : RelayMap).

Definition mode_relay_map (m : RelayMode) : RelayMap :=
  match m with
  | RelayDisabled => empty_map
  | RelayDefault => prod_map
  | RelayStaging => staging_map
  | RelayCustom relay_map => relay_map
  end.

(** [From<RelayMode> for Option<TransportConfig>]. *)
Definition mode_transport (m : RelayMode) : option BuilderTransport :=
  match m with
  | RelayDisabled => None
  | RelayDefault | RelayStaging => Some (BuilderRelay (mode_relay_map m) true)
  | RelayCustom relay_map => Some (BuilderRelay relay_map true)
  end.

(** The first relay transport is replaced; [None] when there is none. *)
Fixpoint replace_relay (l : list BuilderTransport) (t : BuilderTransport) : option (list BuilderTransport) :=
  match l with
  | [] => None
  | x :: l => if is_relay_transport x then Some (t :: l) else cons x <$> replace_relay l t
  end.

Definition relay_mode (b : Builder) (m : RelayMode) : Builder :=
  match mode_transport m with
  | Some t => with_transports b (default (transports b ++ [t]) (replace_relay (transports b) t))
  | None => with_transports b (List.filter (fun t => negb (is_relay_transport t)) (transports b))
  end.

Definition add_custom_transport (b : Builder) (factory : Custom) : Builder :=
  with_transports b (transports b ++ [BuilderCustom factory]).

Inductive SocketBindError := InvalidTransportConfig.

(** The relay map of [EndpointInner::bind]. *)
Definition select_relay_map (configs : list BuilderTransport) : result SocketBindError RelayMap :=
  let relays := omap (fun t => if t is BuilderRelay m _ then Some m else None) configs in
  let? _ := ensure (length relays <=? 1)%nat InvalidTransportConfig in
  Ok (default empty_map (head relays)).

(** ** Environment *)

Context (env : string -> option string) {Url : Type} (url_parse : string -> option Url).

Definition ENV_FORCE_STAGING_RELAYS : string := "IROH_FORCE_STAGING_RELAYS".

Definition force_staging_infra : bool :=
  match env ENV_FORCE_STAGING_RELAYS with Some value => negb (value =? EmptyString)%string | None => false end.

Definition default_relay_mode : RelayMode := if force_staging_infra then RelayStaging else RelayDefault.

(** [env] also stands for [var_os]: whether the variable is set. *)
Definition is_cgi : bool := bool_decide (is_Some (env "REQUEST_METHOD"%string)).

Definition env_url (name : string) : option Url := env name ≫= url_parse.

Definition proxy_url_from_env : option Url :=
  match (if is_cgi then None else env_url "HTTP_PROXY") with
  | Some url => Some url
  | None =>
      match env_url "http_proxy" with
      | Some url => Some url
      | None => match env_url "HTTPS_PROXY" with Some url => Some url | None => env_url "https_proxy" end
      end
  end%string.

(** ** Presets *)

Context (default_provider : Provider) (pkarr_publisher dns_lookup : Lookup).

Inductive Preset := PresetEmpty | PresetMinimal | PresetN0 | PresetN0DisableRelay.

Definition add_address_lookup (b : Builder) (l : Lookup) : Builder :=
  mkBuilder (transports b) (address_lookup b ++ [l]) (crypto_provider b).
Definition clear_address_lookup (b : Builder) : Builder := mkBuilder (transports b) [] (crypto_provider b).

Definition set_crypto_provider (b : Builder) (p : Provider) : Builder :=
  mkBuilder (transports b) (address_lookup b) (Some p).

Definition apply_minimal (b : Builder) : Builder := set_crypto_provider b default_provider.

Definition apply_n0 (b : Builder) : Builder :=
  relay_mode (add_address_lookup (add_address_lookup (apply_minimal b) pkarr_publisher) dns_lookup) default_relay_mode.

Definition preset_apply (p : Preset) (b : Builder) : Builder :=
  match p with
  | PresetEmpty => b
  | PresetMinimal => apply_minimal b
  | PresetN0 => apply_n0 b
  | PresetN0DisableRelay => relay_mode (apply_n0 b) RelayDisabled
  end.

Definition Builder_new (p : Preset) : result unit Builder := rmap (preset_apply p) Builder_empty.

(** ** Any use of the builder *)

Inductive builder_call :=
| CallBindAddr (addr : result InvalidSocketAddr SocketAddr) (opts : BindOpts)
| CallClearIp
| CallClearRelay
| CallRelayMode (m : RelayMode)
| CallCustom (factory : Custom)
| CallPreset (p : Preset)
| CallAddressLookup (l : Lookup)
| CallClearLookup
| CallCryptoProvider (p : Provider).

Definition builder_step (b : Builder) (c : builder_call) : result InvalidSocketAddr Builder :=
  match c with
  | CallBindAddr addr opts => bind_addr_with_opts b addr opts
  | CallClearIp => Ok (clear_ip_transports b)
  | CallClearRelay => Ok (clear_relay_transports b)
  | CallRelayMode m => Ok (relay_mode b m)
  | CallCustom factory => Ok (add_custom_transport b factory)
  | CallPreset p => Ok (preset_apply p b)
  | CallAddressLookup l => Ok (add_address_lookup b l)
  | CallClearLookup => Ok (clear_address_lookup b)
  | CallCryptoProvider p => Ok (set_crypto_provider b p)
  end.

Fixpoint builder_run (b : Builder) (calls : list builder_call) : result InvalidSocketAddr Builder :=
  match calls with
  | [] => Ok b
  | c :: calls => let? b := builder_step b c in builder_run b calls
  end.

End Methods.

(** ** Binding

    [Builder::bind] with [EndpointInner::bind] and [Transports::bind]: what can fail,
    in the order in which it is tried, and what the endpoint has in the end. *)
Section Binding.
Context {Ed : Ed25519} {B : Base32Dnssec} {R : RawKeys Ed} {C : TokenCrypto}.
Context {RelayMap Custom Lookup T CustomTransport Service : Type} (empty_map : RelayMap).

(** What the crates and the operating system answer: rustls about a provider, the CA
    roots with it, the sockets, the custom transports, noq, the network monitor and
    the builders of address lookup services. *)
Record bind_answers := mkBindAnswers {
  supports_tls13 : CryptoProvider -> bool;
  has_initial_suite : CryptoProvider -> bool;
  server_cert_verifier : CryptoProvider -> bool;
  safe_default_versions : CryptoProvider -> bool;
  bind_full : SocketAddr -> option SocketAddr;
  custom_bind : Custom -> option CustomTransport;
  noq_endpoint : bool;
  netmon_monitor : bool;
  into_address_lookup : Lookup -> option Service
}.

Inductive sockets_error := IpSockets (e : bind_error) | CustomSockets (factory : Custom).

(** [BindError]; [BindStatic] has the errors of the provider and of the TLS
    configuration, [BindRelays] is [InvalidTransportConfig]. *)
Inductive BindError :=
| BindStatic (e : Tls.BindError)
| InvalidCaRootConfig
| BindRelays (e : SocketBindError)
| Sockets (e : sockets_error)
| CreateQuicEndpoint
| CreateNetmonMonitor
| AddressLookupFailed (l : Lookup).

(** [CaTlsConfig::client_config], which panics when the provider has none of the
    default TLS versions. *)
Definition ca_client_config (a : bind_answers) (p : CryptoProvider) : result BindError unit :=
  let? _ := ensure (server_cert_verifier a p) InvalidCaRootConfig in
  if safe_default_versions a p then Ok tt else Panic.

Definition custom_factory (t : BuilderTransport (RelayMap := RelayMap) (Custom := Custom)) : option Custom :=
  if t is BuilderCustom factory then Some factory else None.

Fixpoint bind_customs (a : bind_answers) (factories : list Custom) : result sockets_error (list CustomTransport) :=
  match factories with
  | [] => Ok []
  | f :: factories =>
      let? t := ok_or (custom_bind a f) (CustomSockets f) in
      let? ts := bind_customs a factories in
      Ok (t :: ts)
  end.

(** The bound transports: the IP sockets, how many relay transports, the custom ones. *)
Record BoundTransports := mkBound { bound_ip : IpTransports; bound_relays : nat; bound_custom : list CustomTransport }.

Definition Transports_bind (a : bind_answers) (configs : list BuilderTransport) : result sockets_error BoundTransports :=
  let? ip := map_err IpSockets (IpTransports_bind (bind_full a) (ip_configs (map transport_of configs))) in
  let? custom := bind_customs a (omap custom_factory configs) in
  Ok (mkBound ip (length (List.filter is_relay_transport configs)) custom).

Definition EndpointInner_bind (a : bind_answers) (configs : list BuilderTransport)
    : result BindError (RelayMap * BoundTransports) :=
  let? relay_map := map_err BindRelays (select_relay_map empty_map configs) in
  let? transports := map_err Sockets (Transports_bind a configs) in
  let? _ := ensure (noq_endpoint a) CreateQuicEndpoint in
  let? _ := ensure (netmon_monitor a) CreateNetmonMonitor in
  Ok (relay_map, transports).

Fixpoint create_services (a : bind_answers) (l : list Lookup) : result BindError (list Service) :=
  match l with
  | [] => Ok []
  | create_service :: l =>
      let? service := ok_or (into_address_lookup a create_service) (AddressLookupFailed create_service) in
      let? services := create_services a l in
      Ok (service :: services)
  end.

Record BoundEndpoint := mkBoundEndpoint {
  bound_static : Tls.StaticConfig T;
  bound_relay_map : RelayMap;
  bound_transports : BoundTransports;
  bound_services : list Service
}.

(** The other fields of the builder are arguments: the key or the one generated, the
    random token key, and what goes into the TLS and transport configuration. *)
Definition Builder_bind (a : bind_answers)
    (b : Builder (RelayMap := RelayMap) (Custom := Custom) (Lookup := Lookup) (Provider := CryptoProvider))
    (secret_key : option SecretKey) (generated : SecretKey) (random : bytes) (max_tls_tickets : nat) (keylog : bool)
    (transport_config : T) : result BindError BoundEndpoint :=
  let secret_key := default generated secret_key in
  let? static_config := map_err BindStatic
    (Tls.static_config_new (supports_tls13 a) (has_initial_suite a) secret_key (crypto_provider b) random max_tls_tickets
       keylog transport_config) in
  let? _ := ca_client_config a (Tls.crypto_provider (Tls.tls_config static_config)) in
  let? (relay_map, transports) := EndpointInner_bind a (transports b) in
  let? services := create_services a (address_lookup b) in
  Ok (mkBoundEndpoint static_config relay_map transports services).

(** Why binding fails, for each error. *)
Definition bind_cause (a : bind_answers) (p : Preset)
    (b : Builder (RelayMap := RelayMap) (Custom := Custom) (Lookup := Lookup) (Provider := CryptoProvider))
    (e : BindError) : Prop :=
  match e with
  | BindStatic Tls.InvalidCryptoProvider =>
      p = PresetEmpty /\ crypto_provider b = None \/
      exists cp, crypto_provider b = Some cp /\ omap (fun suite => suite) (cipher_suites cp) = []
  | BindStatic (Tls.BindTlsConfig Tls.CryptoProviderIncompatible) =>
      exists cp, crypto_provider b = Some cp /\ supports_tls13 a cp = false
  | BindStatic (Tls.BindTlsConfig Tls.CryptoProviderNoInitialCipherSuite) =>
      exists cp, crypto_provider b = Some cp /\ has_initial_suite a cp = false
  | InvalidCaRootConfig => exists cp, crypto_provider b = Some cp /\ server_cert_verifier a cp = false
  | BindRelays _ => False
  | Sockets (IpSockets e) =>
      exists c, c ∈ ip_configs (map transport_of (transports b)) /\ e = BindFailed c /\ is_required c = true /\
        bind_full a (Config_addr c) = None
  | Sockets (CustomSockets f) => BuilderCustom f ∈ transports b /\ custom_bind a f = None
  | CreateQuicEndpoint => noq_endpoint a = false
  | CreateNetmonMonitor => netmon_monitor a = false
  | AddressLookupFailed l => l ∈ address_lookup b /\ into_address_lookup a l = None
  end.

End Binding.

(** ** Facts *)

Section Facts.
Context (ipv4_net_new ipv6_net_new : bytes -> Z -> option IpNet).
Context {RelayMap Custom Lookup Provider : Type}.
Context (empty_map prod_map staging_map : RelayMap) (env : string -> option string).
Context (default_provider : Provider) (pkarr_publisher dns_lookup : Lookup).

Abbreviation transport := (BuilderTransport (RelayMap := RelayMap) (Custom := Custom)).
Abbreviation builder := (Builder (RelayMap := RelayMap) (Custom := Custom) (Lookup := Lookup) (Provider := Provider)).
Notation builder_step := (builder_step ipv4_net_new ipv6_net_new empty_map prod_map staging_map env default_provider
  pkarr_publisher dns_lookup (Custom := Custom)).
Notation builder_run := (builder_run ipv4_net_new ipv6_net_new empty_map prod_map staging_map env default_provider
  pkarr_publisher dns_lookup (Custom := Custom)).
Notation preset_apply := (preset_apply empty_map prod_map staging_map env default_provider pkarr_publisher dns_lookup).
Notation relay_mode := (relay_mode empty_map prod_map staging_map).

Definition count {A} (f : A -> bool) (l : list A) : nat := length (List.filter f l).

Lemma count_app {A} (f : A -> bool) l l' : count f (l ++ l') = (count f l + count f l')%nat.
Proof. unfold count. by rewrite List.filter_app, length_app. Qed.

Lemma count_cons {A} (f : A -> bool) x l : count f (x :: l) = (Nat.b2n (f x) + count f l)%nat.
Proof. unfold count. simpl. by destruct (f x). Qed.

Lemma count_snoc {A} (f : A -> bool) l x : count f (l ++ [x]) = (count f l + Nat.b2n (f x))%nat.
Proof. rewrite count_app, count_cons. change (count f []) with 0%nat. lia. Qed.

Lemma count_filter {A} (f g : A -> bool) l : (count f (List.filter g l) <= count f l)%nat.
Proof.
  induction l as [|x l IH]; [done|]. simpl. rewrite count_cons. destruct (g x); rewrite ?count_cons; lia.
Qed.

Lemma count_none {A} (f : A -> bool) l : existsb f l = false -> count f l = 0%nat.
Proof.
  induction l as [|x l IH]; simpl; [done|]. intros [Hx Hl]%orb_false_iff. rewrite count_cons, Hx, IH; done.
Qed.

(** At most one relay, at most one default of the user in a family, and no default
    among the built-in addresses. *)
Record transports_wf (l : list transport) : Prop := mkTransportsWf {
  wf_relays : (count is_relay_transport l <= 1)%nat;
  wf_v4 : (count user_v4_default l <= 1)%nat;
  wf_v6 : (count user_v6_default l <= 1)%nat;
  wf_builtin c : BuilderIp c false ∈ l -> is_default c = false
}.

Lemma wf_filter f l : transports_wf l -> transports_wf (List.filter f l).
Proof.
  intros [H1 H2 H3 H4].
  pose proof (count_filter is_relay_transport f l). pose proof (count_filter user_v4_default f l).
  pose proof (count_filter user_v6_default f l). constructor; [lia..|].
  intros c Hc. apply H4. apply list_elem_of_In, List.filter_In in Hc as [Hc _]. by apply list_elem_of_In.
Qed.

Lemma replace_relay_spec (l : list transport) t l' :
  is_relay_transport t = true -> replace_relay l t = Some l' ->
  exists x l1 l2, l = l1 ++ x :: l2 /\ l' = l1 ++ t :: l2 /\ is_relay_transport x = true.
Proof.
  intros Ht. revert l'. induction l as [|x l IH]; intros l'; simpl; [done|]. destruct (is_relay_transport x) eqn:Ex.
  - intros [= <-]. by exists x, [], l.
  - rewrite fmap_Some. intros (l0 & Hl & ->). destruct (IH _ Hl) as (y & l1 & l2 & -> & -> & Hy). by exists y, (x :: l1), l2.
Qed.

Lemma no_relay (l : list transport) t : replace_relay l t = None -> count is_relay_transport l = 0%nat.
Proof.
  induction l as [|x l IH]; simpl; [done|]. destruct (is_relay_transport x) eqn:Ex; [done|].
  rewrite fmap_None, count_cons, Ex. intros ->%IH. done.
Qed.

Lemma relay_not_default (t : transport) : is_relay_transport t = true -> user_v4_default t = false /\ user_v6_default t = false.
Proof. by destruct t. Qed.

Lemma relay_mode_wf (b : builder) m : transports_wf (transports b) -> transports_wf (transports (relay_mode b m)).
Proof.
  intros Hwf. unfold Builder.relay_mode. destruct (mode_transport _ _ _ m) as [t|] eqn:Em; [|by apply wf_filter].
  assert (Ht : is_relay_transport t = true) by (destruct m; simpl in Em; [done|by injection Em as <-..]).
  destruct (relay_not_default t Ht) as [Ht4 Ht6]. destruct Hwf as [H1 H2 H3 H4]. simpl.
  destruct (replace_relay (transports b) t) as [l'|] eqn:E; simpl.
  - destruct (replace_relay_spec _ _ _ Ht E) as (x & l1 & l2 & Hl & -> & Hx). destruct (relay_not_default x Hx) as [Hx4 Hx6].
    rewrite Hl, !count_app, !count_cons, ?Ht, ?Hx, ?Hx4, ?Hx6 in *. constructor; rewrite ?count_app, ?count_cons, ?Ht, ?Ht4, ?Ht6; [done..|].
    intros c. rewrite elem_of_app, elem_of_cons. intros [Hc|[Heq|Hc]]; [|by subst t|]; apply H4; rewrite elem_of_app, elem_of_cons; auto.
  - apply no_relay in E. constructor; rewrite ?count_snoc, ?Ht, ?Ht4, ?Ht6, ?E; simpl; try lia.
    intros c. rewrite elem_of_app, list_elem_of_singleton. intros [Hc|Heq]; [auto|by subst t].
Qed.

Lemma preset_wf p (b : builder) : transports_wf (transports b) -> transports_wf (transports (preset_apply p b)).
Proof. intros Hwf. destruct p; [done|done|by apply relay_mode_wf|]. by do 2 apply relay_mode_wf. Qed.

Lemma builder_step_wf (b : builder) c b' :
  transports_wf (transports b) -> builder_step b c = Ok b' -> transports_wf (transports b').
Proof.
  intros Hwf. destruct c as [addr opts| | |m|factory|p|l| |p]; simpl; try (by intros [= <-]).
  - unfold bind_addr_with_opts. destruct addr as [[ip port|ip port fl scope]|e|]; simpl; [| |done..].
    + destruct (existsb user_v4_default (transports b)) eqn:Ex; simpl; [done|]. apply count_none in Ex.
      destruct (ipv4_net_new ip _) as [n|]; simpl; [|done]. intros [= <-]. destruct Hwf as [H1 H2 H3 H4].
      constructor; simpl; rewrite ?count_snoc.
      * simpl. lia.
      * rewrite Ex. destruct (user_v4_default _); simpl; lia.
      * unfold user_v6_default at 2. simpl. rewrite andb_false_r. simpl. lia.
      * intros c. rewrite elem_of_app, list_elem_of_singleton. intros [Hc|?]; [auto|done].
    + destruct (existsb user_v6_default (transports b)) eqn:Ex; simpl; [done|]. apply count_none in Ex.
      destruct (ipv6_net_new ip _) as [n|]; simpl; [|done]. intros [= <-]. destruct Hwf as [H1 H2 H3 H4].
      constructor; simpl; rewrite ?count_snoc.
      * simpl. lia.
      * unfold user_v4_default at 2. simpl. rewrite andb_false_r. simpl. lia.
      * rewrite Ex. destruct (user_v6_default _); simpl; lia.
      * intros c. rewrite elem_of_app, list_elem_of_singleton. intros [Hc|?]; [auto|done].
  - intros [= <-]. by apply wf_filter.
  - intros [= <-]. by apply wf_filter.
  - intros [= <-]. by apply relay_mode_wf.
  - intros [= <-]. destruct Hwf as [H1 H2 H3 H4]. constructor; simpl; rewrite ?count_snoc; simpl; try lia.
    intros c. rewrite elem_of_app, list_elem_of_singleton. intros [Hc|?]; [auto|done].
  - intros [= <-]. by apply preset_wf.
Qed.

Lemma builder_run_wf calls (b b' : builder) :
  transports_wf (transports b) -> builder_run b calls = Ok b' -> transports_wf (transports b').
Proof.
  revert b. induction calls as [|c calls IH]; intros b Hwf; simpl; [by intros [= <-]|].
  destruct (builder_step b c) as [b1|e|] eqn:E; simpl; [|done..]. apply IH. by eapply builder_step_wf.
Qed.

(** [bind] finds at most one default in a family if there is at most one. *)
Lemma bind_configs_defaults bind_full configs h4 h6 e :
  (Nat.b2n h4 + count (fun c => is_default c && is_ipv4 c) configs <= 1)%nat ->
  (Nat.b2n h6 + count (fun c => is_default c && is_ipv6 c) configs <= 1)%nat ->
  bind_configs bind_full configs h4 h6 = Err e ->
  exists c, c ∈ configs /\ e = BindFailed c /\ is_required c = true /\ bind_full (Config_addr c) = None.
Proof.
  revert h4 h6. induction configs as [|c configs IH]; intros h4 h6; [done|]. rewrite !count_cons. simpl.
  intros H4 H6. unfold IpTransport_bind. destruct (bind_full (Config_addr c)) as [a|] eqn:Eb; simpl.
  - assert (Hrec : forall h4' h6', (Nat.b2n h4' + count (fun c => is_default c && is_ipv4 c) configs <= 1)%nat ->
      (Nat.b2n h6' + count (fun c => is_default c && is_ipv6 c) configs <= 1)%nat ->
      forall k : list IpTransport * list IpTransport -> result bind_error (list IpTransport * list IpTransport),
      (forall r, k r <> Err e) -> rbind (bind_configs bind_full configs h4' h6') k = Err e ->
      exists c', c' ∈ c :: configs /\ e = BindFailed c' /\ is_required c' = true /\ bind_full (Config_addr c') = None).
    { intros h4' h6' H4' H6' k Hk Hr. destruct (bind_configs bind_full configs h4' h6') as [r|e'|] eqn:E; simpl in Hr;
        [by apply Hk in Hr| |done]. injection Hr as ->. destruct (IH _ _ H4' H6' E) as (c' & Hc' & ?).
      exists c'. split; [by right|done]. }
    destruct c as [n port req def|n scope port req def]; simpl in *; rewrite ?andb_true_r, ?andb_false_r in *; simpl in *.
    + destruct def, h4; simpl in *; try lia; apply Hrec; simpl; try lia; by intros [].
    + destruct def, h6; simpl in *; try lia; apply Hrec; simpl; try lia; by intros [].
  - destruct (is_required c) eqn:Er; simpl.
    + intros [= <-]. exists c. split; [by left|done].
    + intros Hr. edestruct (IH h4 h6) as (c' & Hc' & ?); [lia..|exact Hr|]. exists c'. split; [by right|done].
Qed.

Lemma ip_configs_defaults (l : list transport) (fam : Config -> bool) (f : transport -> bool) :
  (forall c, f (BuilderIp c true) = is_default c && fam c) ->
  (forall c, BuilderIp c false ∈ l -> is_default c = false) ->
  (count (fun c => is_default c && fam c) (ip_configs (map transport_of l)) <= count f l)%nat.
Proof.
  intros Hf Hb. unfold ip_configs. set (h4 := existsb _ (map transport_of l)). set (h6 := existsb _ (map transport_of l)).
  clearbody h4 h6. induction l as [|x l IH]; [done|]. rewrite count_cons. simpl.
  assert (IH' := IH (fun c Hc => Hb c (proj2 (elem_of_cons _ _ _) (or_intror Hc)))). clear IH.
  unfold omap in IH'. destruct x as [c user|m user|factory]; simpl; [|lia..].
  destruct user; simpl.
  - rewrite count_cons, Hf. lia.
  - destruct (_ || _); [lia|]. rewrite count_cons. rewrite (Hb c) by by left. simpl. lia.
Qed.

Lemma select_relay_map_ok (l : list transport) :
  (count is_relay_transport l <= 1)%nat -> exists m, select_relay_map empty_map l = Ok m.
Proof.
  intros Hc. unfold select_relay_map. set (relays := omap _ l).
  assert (Hl : length relays = count is_relay_transport l).
  { unfold relays. clear. induction l as [|x l IH]; [done|]. rewrite count_cons. by destruct x; simpl; rewrite <- IH. }
  rewrite Hl. destruct (Nat.leb_spec (count is_relay_transport l) 1); simpl; [eauto|lia].
Qed.

Lemma built_wf p b0 calls b :
  Builder_new ipv4_net_new ipv6_net_new empty_map prod_map staging_map env default_provider pkarr_publisher dns_lookup p
    = Ok b0 ->
  builder_run b0 calls = Ok b -> transports_wf (transports b).
Proof.
  intros Hnew Hrun. eapply builder_run_wf; [|exact Hrun]. unfold Builder_new, Builder_empty, default_ipv4, default_ipv6 in Hnew.
  destruct (ipv4_net_new unspecified_v4 0) as [n4|]; simpl in Hnew; [|done].
  destruct (ipv6_net_new unspecified_v6 0) as [n6|]; simpl in Hnew; [|done]. injection Hnew as <-. apply preset_wf.
  constructor; simpl; [unfold count; simpl; lia..|]. intros c. rewrite !elem_of_cons. by intros [[= ->]|[[= ->]|?%elem_of_nil]].
Qed.

Lemma ip_bind_fails l bind_full e :
  transports_wf l -> IpTransports_bind bind_full (ip_configs (map transport_of l)) = Err e ->
  exists c, c ∈ ip_configs (map transport_of l) /\ e = BindFailed c /\ is_required c = true /\ bind_full (Config_addr c) = None.
Proof.
  intros [H1 H2 H3 H4]. unfold IpTransports_bind.
  destruct (bind_configs bind_full _ false false) as [[v4 v6]|e'|] eqn:E; simpl; [done| |done]. intros [= ->].
  eapply (bind_configs_defaults bind_full _ false false); [| |exact E]; simpl.
  - etrans; [apply (ip_configs_defaults _ is_ipv4 user_v4_default); [|done]|done]. intros c. unfold user_v4_default. simpl. by rewrite andb_true_r.
  - etrans; [apply (ip_configs_defaults _ is_ipv6 user_v6_default); [|done]|done]. intros c. unfold user_v6_default. simpl. by rewrite andb_true_r.
Qed.

(** Once there is a crypto provider there always is one. *)
Lemma preset_provider p (b : builder) :
  crypto_provider (preset_apply p b) = None -> p = PresetEmpty /\ crypto_provider b = None.
Proof.
  destruct p; simpl; [done|done|..]; unfold apply_n0, Builder.relay_mode; simpl; repeat destruct (mode_transport _ _ _ _); done.
Qed.

Lemma builder_step_provider (b : builder) c b' :
  builder_step b c = Ok b' -> crypto_provider b' = None -> crypto_provider b = None.
Proof.
  destruct c as [addr opts| | |m|factory|p|l| |p]; simpl; try (by intros [= <-]).
  - unfold bind_addr_with_opts. destruct addr as [[ip port|ip port fl scope]|e|]; simpl; [| |done..].
    all: destruct (negb _); simpl; [|done].
    + destruct (ipv4_net_new ip _); simpl; [|done]. by intros [= <-].
    + destruct (ipv6_net_new ip _); simpl; [|done]. by intros [= <-].
  - intros [= <-]. unfold Builder.relay_mode. by destruct (mode_transport _ _ _ m).
  - intros [= <-] H. by apply preset_provider in H as [_ H].
Qed.

Lemma builder_run_provider calls (b b' : builder) :
  builder_run b calls = Ok b' -> crypto_provider b' = None -> crypto_provider b = None.
Proof.
  revert b. induction calls as [|c calls IH]; intros b; simpl; [by intros [= <-]|].
  destruct (builder_step b c) as [b1|e|] eqn:E; simpl; [|done..]. intros H Hn.
  eapply builder_step_provider; [exact E|by eapply IH].
Qed.

Lemma built_provider p b0 calls b :
  Builder_new ipv4_net_new ipv6_net_new empty_map prod_map staging_map env default_provider pkarr_publisher dns_lookup p
    = Ok b0 ->
  builder_run b0 calls = Ok b -> crypto_provider b = None -> p = PresetEmpty.
Proof.
  unfold Builder_new. destruct (Builder_empty _ _) as [b1|e|]; simpl; [|done..]. intros [= <-] Hrun Hn.
  apply (builder_run_provider _ _ _ Hrun) in Hn. by apply preset_provider in Hn as [Hn _].
Qed.

(** After a default address no other address of its family is accepted, not even
    one that is not a default; in the other order both are. *)
Lemma default_blocks_family (b : builder) ip port opts b1 ip' port' opts' n' :
  existsb user_v4_default (transports b) = false ->
  bind_addr_with_opts ipv4_net_new ipv6_net_new b (Ok (SocketV4 ip port)) opts = Ok b1 -> is_default_route opts = true ->
  is_default_route opts' = false -> ipv4_net_new ip' (opt_prefix_len opts') = Some n' ->
  bind_addr_with_opts ipv4_net_new ipv6_net_new b1 (Ok (SocketV4 ip' port')) opts' = Err DuplicateDefaultAddr /\
  exists b2 b3, bind_addr_with_opts ipv4_net_new ipv6_net_new b (Ok (SocketV4 ip' port')) opts' = Ok b2 /\
    bind_addr_with_opts ipv4_net_new ipv6_net_new b2 (Ok (SocketV4 ip port)) opts = Ok b3.
Proof.
  intros Hb Hok Hd Hd' Hn'. unfold bind_addr_with_opts in *. simpl in *. rewrite Hb in *. simpl in *.
  destruct (ipv4_net_new ip (opt_prefix_len opts)) as [n|] eqn:En; simpl in Hok; [|done]. injection Hok as <-. split.
  - simpl. rewrite existsb_app. unfold user_v4_default at 2. simpl. by rewrite Hd, orb_true_r.
  - rewrite Hn'. simpl. eexists _, _. split; [done|]. simpl. rewrite existsb_app, Hb. unfold user_v4_default at 1. simpl.
    by rewrite Hd'.
Qed.

(** A custom relay map is used as it is, also when it is empty. *)
Lemma custom_map_used (b : builder) m :
  count is_relay_transport (transports b) = 0%nat ->
  select_relay_map empty_map (transports (relay_mode b (RelayCustom m))) = Ok m.
Proof.
  intros Hc. unfold Builder.relay_mode. simpl.
  assert (Hr : omap (fun t => if t is BuilderRelay m _ then Some m else None) (transports b) = []).
  { revert Hc. induction (transports b) as [|x l IH]; [done|]. rewrite count_cons. by destruct x; simpl; [apply IH| |apply IH]. }
  destruct (replace_relay (transports b) (BuilderRelay m true)) as [l|] eqn:E.
  - destruct (replace_relay_spec (transports b) (BuilderRelay m true) l eq_refl E) as (x & l1 & l2 & Hl & _ & Hx).
    rewrite Hl, count_app, count_cons, Hx in Hc. simpl in Hc. lia.
  - simpl. unfold select_relay_map. rewrite omap_app, Hr. done.
Qed.

(** The variable [HTTP_PROXY] never counts in a CGI context. *)
Lemma cgi_proxy {Url} (url_parse : string -> option Url) url :
  is_Some (env "REQUEST_METHOD"%string) -> env "http_proxy"%string = None -> env "HTTPS_PROXY"%string = None ->
  env "https_proxy"%string = None -> proxy_url_from_env env url_parse = Some url -> False.
Proof. intros Hcgi H1 H2 H3. unfold proxy_url_from_env, is_cgi, env_url. by rewrite bool_decide_eq_true_2, H1, H2, H3. Qed.

End Facts.

(** ** Facts of binding *)

Section BindingFacts.
Context (ipv4_net_new ipv6_net_new : bytes -> Z -> option IpNet).
Context {Ed : Ed25519} {B : Base32Dnssec} {R : RawKeys Ed} {C : TokenCrypto}.
Context {RelayMap Custom Lookup T CustomTransport Service : Type}.
Context (empty_map prod_map staging_map : RelayMap) (env : string -> option string).
Context (default_provider : CryptoProvider) (pkarr_publisher dns_lookup : Lookup).

Abbreviation answers := (bind_answers (Custom := Custom) (Lookup := Lookup) (CustomTransport := CustomTransport) (Service := Service)).
Abbreviation crypto_builder :=
  (Builder (RelayMap := RelayMap) (Custom := Custom) (Lookup := Lookup) (Provider := CryptoProvider)).

Lemma bind_customs_spec (a : answers) l :
  match bind_customs a l with
  | Ok ts => Forall2 (fun f t => custom_bind a f = Some t) l ts
  | Err e => exists f, e = CustomSockets f /\ f ∈ l /\ custom_bind a f = None
  | Panic => False
  end.
Proof.
  induction l as [|f l IH]; simpl; [constructor|]. destruct (custom_bind a f) as [t|] eqn:E; simpl.
  - destruct (bind_customs a l) as [ts|e|]; simpl; [by constructor| |done].
    destruct IH as (g & -> & Hg & Hn). exists g. split_and!; [done|by right|done].
  - exists f. split_and!; [done|by left|done].
Qed.

Lemma create_services_spec (a : answers) l :
  match create_services a l with
  | Ok ss => Forall2 (fun l s => into_address_lookup a l = Some s) l ss
  | Err e => exists x, e = AddressLookupFailed x /\ x ∈ l /\ into_address_lookup a x = None
  | Panic => False
  end.
Proof.
  induction l as [|f l IH]; simpl; [constructor|]. destruct (into_address_lookup a f) as [t|] eqn:E; simpl.
  - destruct (create_services a l) as [ts|e|]; simpl; [by constructor| |done].
    destruct IH as (g & -> & Hg & Hn). exists g. split_and!; [done|by right|done].
  - exists f. split_and!; [done|by left|done].
Qed.

Lemma select_relay_map_first (l : list (BuilderTransport (RelayMap := RelayMap) (Custom := Custom))) :
  (count is_relay_transport l <= 1)%nat ->
  select_relay_map empty_map l
    = Ok (default empty_map (head (omap (fun t => if t is BuilderRelay m _ then Some m else None) l))).
Proof.
  intros H. destruct (select_relay_map_ok empty_map l H) as [m Hm]. revert Hm. unfold select_relay_map.
  by destruct (length _ <=? 1)%nat.
Qed.

Lemma static_config_outcome (s13 init : CryptoProvider -> bool) sk provider random tickets keylog (tc : T) :
  match Tls.static_config_new s13 init sk provider random tickets keylog tc with
  | Ok st => provider = Some (Tls.crypto_provider (Tls.tls_config st))
  | Err Tls.InvalidCryptoProvider =>
      provider = None \/ exists cp, provider = Some cp /\ omap (fun suite => suite) (cipher_suites cp) = []
  | Err (Tls.BindTlsConfig Tls.CryptoProviderIncompatible) => exists cp, provider = Some cp /\ s13 cp = false
  | Err (Tls.BindTlsConfig Tls.CryptoProviderNoInitialCipherSuite) => exists cp, provider = Some cp /\ init cp = false
  | Panic => False
  end.
Proof.
  unfold Tls.static_config_new. destruct provider as [cp|]; simpl; [|by left].
  unfold Tls.RustlsTokenKey_new. destruct (omap _ (cipher_suites cp)) as [|x l] eqn:Es; simpl; [right; eauto|].
  unfold Tls.make_server_config, Tls.make_client_config. simpl.
  destruct (s13 cp) eqn:E1; simpl; [|eauto]. by destruct (init cp) eqn:E2; simpl; [|eauto].
Qed.

(** The sockets of required addresses are bound. *)
Lemma ip_bind_required bind_full configs t c :
  IpTransports_bind bind_full configs = Ok t -> c ∈ configs -> is_required c = true ->
  exists s, s ∈ v4 t ++ v6 t /\ config s = c.
Proof.
  unfold IpTransports_bind. destruct (bind_configs bind_full configs false false) as [[l4 l6]|e|] eqn:E; simpl; [|done..].
  intros [= <-] Hc Hr. apply bind_configs_bound in E as [_ Hb]. destruct (Hb c Hc (or_introl Hr)) as (s & Hs & Hcs).
  exists s. simpl. by rewrite !sort_perm.
Qed.

Lemma bind_configs_no_panic bind_full configs h4 h6 : bind_configs bind_full configs h4 h6 <> Panic.
Proof.
  revert h4 h6. induction configs as [|c configs IH]; intros h4 h6; simpl; [done|].
  destruct (IpTransport_bind bind_full c); [destruct (is_ipv4 c)|]; (destruct (negb _); simpl; [|done]); [..|apply IH].
  all: match goal with |- rbind (bind_configs ?f ?l ?x ?y) _ <> _ =>
         specialize (IH x y); by destruct (bind_configs f l x y) as [[]| |] end.
Qed.

Lemma Transports_bind_spec (a : answers) (l : list (BuilderTransport (RelayMap := RelayMap))) :
  transports_wf l ->
  match Transports_bind a l with
  | Ok t =>
      (bound_relays t <= 1)%nat /\
      (forall c, c ∈ ip_configs (map transport_of l) -> is_required c = true ->
         exists s, s ∈ v4 (bound_ip t) ++ v6 (bound_ip t) /\ config s = c) /\
      Forall2 (fun f t => custom_bind a f = Some t) (omap custom_factory l) (bound_custom t)
  | Err (IpSockets e) =>
      exists c, c ∈ ip_configs (map transport_of l) /\ e = BindFailed c /\ is_required c = true /\
        bind_full a (Config_addr c) = None
  | Err (CustomSockets f) => BuilderCustom f ∈ l /\ custom_bind a f = None
  | Panic => False
  end.
Proof.
  intros Hwf. unfold Transports_bind.
  destruct (IpTransports_bind (bind_full a) (ip_configs (map transport_of l))) as [ip|e|] eqn:Eip; simpl.
  - pose proof (bind_customs_spec a (omap custom_factory l)) as Hc.
    destruct (bind_customs a (omap custom_factory l)) as [ts|e|]; simpl; [|..|done].
    + split_and!; [apply Hwf| |done]. intros c. by apply ip_bind_required with (1 := Eip).
    + destruct Hc as (f & -> & Hf & Hn). split; [|done]. apply list_elem_of_omap in Hf as ([| |g] & Hg & [= ->]). done.
  - by apply ip_bind_fails.
  - unfold IpTransports_bind in Eip. by destruct (bind_configs _ _ _ _) as [[]| |] eqn:E; [..|apply bind_configs_no_panic in E].
Qed.


End BindingFacts.
End Builder.

(** ** Witnesses *)

Section Witnesses.
Import Transports Builder.

Definition net_of (max : Z) (ip : bytes) (prefix : Z) : option IpNet :=
  if prefix <=? max then Some (mkIpNet ip prefix) else None.

Definition loopback : bytes := [Byte.x7f; Byte.x00; Byte.x00; Byte.x01].

#[local] Existing Instances checksum_keys z32_names prefixed_keys stored_tokens.

Abbreviation example_builder := (Builder (RelayMap := nat) (Custom := nat) (Lookup := nat) (Provider := bool)).

Definition example_calls : list (builder_call (RelayMap := nat) (Custom := nat) (Lookup := nat) (Provider := bool)) :=
  [CallPreset PresetN0; CallBindAddr (Ok (SocketV4 loopback 7000)) (set_prefix_len BindOpts_default 8);
   CallBindAddr (str_to_socket_addr "127.0.0.1:7001") BindOpts_default; CallRelayMode (RelayCustom 3%nat); CallCustom 5%nat].

Definition new_builder : result unit example_builder :=
  Builder_new (net_of 32) (net_of 128) 0%nat 1%nat 2%nat (fun _ => None) true 10%nat 11%nat PresetMinimal.

Definition built : result InvalidSocketAddr example_builder :=
  rbind (map_err (fun _ => AddrParse) new_builder) (fun b =>
    builder_run (net_of 32) (net_of 128) 0%nat 1%nat 2%nat (fun _ => None) true 10%nat 11%nat b example_calls).

(** A computer on which [free] says which addresses can be bound. *)
Definition example_answers (free : SocketAddr -> bool)
    : bind_answers (Custom := nat) (Lookup := nat) (CustomTransport := nat) (Service := nat) :=
  mkBindAnswers (fun p => p) (fun p => p) (fun p => p) (fun p => p) (fun a => if free a then Some a else None)
    (fun f => Some (f + 1)%nat) true true (fun l => Some (l * 2)%nat).

Definition bind_example (free : SocketAddr -> bool) (b : example_builder) :=
  Builder_bind (T := unit) 0%nat (example_answers free) b None (SecretKey_from_bytes [Byte.x01]) [] 256 false tt.

Definition taken_7001 (a : SocketAddr) : bool := negb (socket_port a =? 7001).

Definition built_builder : example_builder := match built with Ok b => b | _ => mkBuilder [] [] None end.

Lemma built_example :
  exists b0, new_builder = Ok b0 /\
    builder_run (net_of 32) (net_of 128) 0%nat 1%nat 2%nat (fun _ => None) true 10%nat 11%nat b0 example_calls = Ok built_builder.
Proof. eexists. split; reflexivity. Qed.

Lemma bind_example_ok : is_ok (bind_example (fun _ => true) built_builder) = true.
Proof. vm_compute. reflexivity. Qed.

Definition error_of {E A} (r : result E A) : option E := match r with Err e => Some e | _ => None end.

Lemma bind_example_taken :
  error_of (bind_example taken_7001 built_builder)
    = Some (Sockets (IpSockets (BindFailed (ConfigV4 (mkIpNet loopback 0) 7001 true true)))).
Proof. vm_compute. reflexivity. Qed.


End Witnesses.
